(* ===== verification/_CoqProject ===== *)
-Q . S2P
Prelude.v
Wire.v
Netip.v
Overlay.v
Encoding.v
Identity.v
Records.v
TrustSet.v
Demo.v
Convergence.v
Validity.v
Membership.v
SetCache.v
Conflicts.v
Slots.v
GoStrings.v
Tokens.v
Prog.v
Enrol.v
EnrolSafety.v
EnrolRun.v
State.v
GoNet.v
GoTime.v
Hosts.v
HostsProps.v
Bind.v
Wg.v
Linux.v
WinLink.v
Userspace.v
Darwin.v
Ioctl.v
MacLink.v
Members.v
MembersProps.v
Agent.v
AgentProps.v
AgentRun.v
ConfigFile.v
ConfigRun.v
Status.v
Transport.v
TransportProps.v
Tls.v
Endpoints.v
TieBreak.v
TransportDemo.v
EndpointsDemo.v
Cluster.v
ClusterProps.v
ClusterAdmit.v
Gossip.v
GossipDemo.v
Joining.v
Control.v
Listen.v
Commands.v
CommandsProps.v
Windows.v
Notify.v
Platform.v
Main.v
Leaving.v
LeavingProps.v
Start.v
Accepted.v
ClusterDemo.v
