(* ===== verification/Prelude.v ===== *)
(** * cheesecloth: a verification development

    The program (Go, module github.com/jdpanderson/cheesecloth) is a mesh
    overlay: agents find each other by gossip, decide by signed records who belongs to the cluster,
    and set up WireGuard tunnels, routes and hosts entries for those who do.
    This library models its packages in Gallina and proves what makes them
    correct. Paths below are under src/internal/.

    ** The program's parts and how they interact

    A _member_ is an Ed25519 key that a chain of signed admissions ties to the
    pinned root. The record set (trust) decides membership. A joiner becomes a
    member by the enrolment exchange (enrol), run over a connection of the
    gossip transport (cluster/transport.go) and answered from the record set by
    the cluster (cluster/cluster.go), which also spreads records, saves them
    (cluster/state.go) and turns memberlist's view into snapshots of verified
    nodes. The agent (cli/agent.go) starts all this, and its loop
    (cli/agent_loop.go) applies each snapshot to WireGuard (wg) and to the hosts
    file (etchosts). Operators talk to the agent over a local socket (control).

    ** Conventions

    Bytes and Go strings are [list byte]; machine integers are [Z] with their
    ranges written out; Go maps are [gmap]s, and where the code iterates over
    one the iteration order is an argument. A call that returns [(T, error)]
    returns [result T], in state-passing style where it changes something.
    Programs that interact with a peer, a file system or the system are trees
    of events ([Prog]) and theorems speak of all their runs; code that runs
    concurrently is a step relation, one step per locked region or channel
    operation, and theorems speak of all reachable states. The operations of
    the cluster on its records (Cluster) are functions: each changes the record
    set in one locked region, except [admit], which asks the set first and is
    there with the messages that arrive between its calls ([admit_among]) and
    without ([Cluster_admit]). Libraries that are
    not part of the source are classes or event answers, with the laws used
    named where they are stated: [Ed25519] (Identity), [Sha256] (Tokens), the key
    derivation and JSON of the exchange (Enrol), [Quic] and [X509] (Transport),
    the device, linker and client of wg as [Network] (Wg), the kernels behind
    the linkers as [Netlink] (Linux), [Winipcfg] (WinLink) and [MacKernel]
    (MacLink), the numbers of macOS as [Bsd] and [Sockets] (Darwin, Ioctl),
    [Yaml] (ConfigFile). Each has a concrete toy instance on which the witnesses
    compute.

    ** Files

    Foundations:
    - Prelude: bytes, results, the tactics and lemmas shared by all files.
    - Prog: interacting programs and their runs.
    - Netip, GoNet, GoStrings, GoTime, Encoding: what the source uses of
      net/netip, net, strconv, strings, time, encoding/base64 and
      encoding/base32; durations are read and written as the time package does,
      the floating point product included.

    Who is a member:
    - Wire: [Canonical] (wire/wire.go); encodings are injective.
    - Overlay: [MaxHost], [Addr] (overlay/overlay.go).
    - Identity, Records: keys and signed records (trust/identity.go,
      trust/records.go); signed bytes determine what was signed.
    - TrustSet: the state of [Set] and its updates (trust/set.go);
      Convergence: it is a replicated data type as long as records do not
      conflict; Conflicts: what happens when they do.
    - Validity, Membership: [validAt] with its cycle guard, the cache, and their
      refinement of the membership rules of docs/membership.md; SetCache: the
      lock and the cache, with readers and writers interleaved.
    - Slots: [FreeHost], [HostConflict], [ByName], [NameTaken].
    - Demo: the four-node cluster used by examples.

    How to become one:
    - Tokens: the invitation store (enrol/token.go).
    - Enrol, EnrolSafety, EnrolRun: both ends of the exchange
      (enrol/protocol.go, enrol/server.go); what holds of every run against any
      peer; and the run of two honest ends.
    - Tls: the configurations of TLS and who gets through them
      (cluster/transport.go); Endpoints, EndpointsDemo: what enrolling opens
      and closes around the exchange (cluster/enrol.go, transport.go).
    - Joining: an honest join from the invitation to the node's membership, over
      the files above together.

    The node:
    - State: node metadata (overlay/node.go) and the state file
      (cluster/state.go, replace_other.go) over a file system that may fail or
      stop anywhere.
    - Cluster, ClusterProps, ClusterAdmit, ClusterDemo: record handling,
      admission, verification and persistence (cluster/cluster.go), persistence
      up to what is handed to [save], whose failing is only logged.
    - Gossip, GossipDemo: any number of nodes with their record sets, exchanging
      broadcasts and whole states over a network that loses and repeats them.
    - Start: [New], from its checks to its goroutines (cluster/cluster.go).
    - Members, MembersProps: the goroutines behind [Members] and [Leave]
      (cluster/cluster.go), and the changes that are signalled to them and
      those that are not.
    - Transport, TransportProps, TieBreak, TransportDemo: connections, dials
      and shutdown (cluster/transport.go).

    The host:
    - Wg: [New], [SetUpInterface] and their relatives (wg/wireguard.go) against
      the interfaces of device, linker and client. Three linkers are shown to
      keep the contract of these: Linux, over netlink, with the kernel's device
      (wg/link_linux.go); WinLink, over winipcfg (wg/link_windows.go); and, for
      macOS (wg/link_darwin.go), Darwin, the route messages, Ioctl, the
      structures, requests and sockets, and MacLink, what they come to.
    - Userspace: the device inside the agent and its control socket
      (wg/userspace.go, uapi_unix.go, uapi_windows.go).
    - Hosts, HostsProps: the hosts file (etchosts/etchosts.go, cli/hosts.go).
    - Bind: the advertised address (cli/bind.go, cluster/transport.go).
    - Windows: waiting for busy files and the service loop
      (cluster/replace_windows.go, cli/execute_windows.go).
    - Notify: what the agent tells the service manager, and the service
      commands (notify, cli/execute*.go, cli/service*.go).
    - Platform: interface names on macOS, paths, the level of the log
      (wg/tunname_*.go, wg/platform_darwin.go, paths, cli/loglevel.go).

    The agent and its commands:
    - Main: the tree of commands and flags, the keys a configuration file may
      have, and the program from its arguments to its exit status (cli/cli.go,
      cli/config.go, cmd/cheesecloth/main.go).
    - Agent, AgentProps, AgentRun: settings, bootstrap, loop, and the whole run
      (cli/agent.go, agent_loop.go, settings.go).
    - Accepted: what the run hands to [New], [New] takes.
    - ConfigFile, ConfigRun: sections, resolution and the config command
      (cli/config.go, cli/configcmd.go).
    - Control: requests and their handling (control/control.go, cli/control.go);
      Leaving, LeavingProps: the control server and the agent's shutdown, on its
      ways out of the loop and out of joining, as one concurrent program; Listen: the placement of the control socket, and the
      clients of cli/invite.go and cli/revoke.go.
    - Commands, CommandsProps: the leave and status commands (cli/leave.go,
      cli/status.go), and commands and agent together.
    - Status: the status report and its table (wg/status.go,
      cli/status_render.go).

    ** What the theorems show

    - Membership: [valid_follows_rules], [valid_iff_member],
      [valid_needs_chain], [revocation_exact]: the walk decides the documented
      rules and nothing else makes a member; [validAt_terminates]: it ends;
      [set_linearizable]: every answer, cached or not, belongs to a moment of
      its call, whatever else goes on.
    - Replication: [gossip_converges]: nodes that hear of every record agree,
      whatever is lost, repeated or reordered; [saved_state_is_current] and
      [Load_saved]: a restart from what was saved loses nothing; [save_atomic],
      [Load_keeps_damaged]: nor does a crash or a damaged file.
    - Authentication: [signable_bytes_inj], [handle_admits_only_proved],
      [Enrol_sound], [Mint_uses]; [gossip_only_members], with what resumed
      sessions leave open; and [honest_join], which shows that joining succeeds
      where both ends follow the exchange.
    - Addressing: [Addr_of_sound], [FreeHost_spec], [assignedAddr_inj],
      [admit_keeps_unique], [snapshot_sound].
    - Concurrency: [Shutdown_final], [simultaneous_dials_agree],
      [dials_serialised], [members_safe], [members_latest], [leave_ends],
      [leave_forgets], [accepts_with_server].
    - The host: [linux_SetUpInterface], [macos_SetUpInterface],
      [windows_SetUpInterface], [bsd_orderly], [SetAddr_told], [apply_routes],
      [writeEntries_exact], [hosts_replaced_whole], [userspace_no_leaks].
    - The agent: [Run_shape], which exits undo what; [startCluster_spec], [Run_accepted],
      [root_accepted], [Listen_private],
      [Resolve_own_section], [accepted_keys], [config_keeps_file], [main_status].
    - Commands and agent together: [leave_end_to_end], [revoke_end_to_end],
      [invite_end_to_end] (with [ParseDuration_String], so that a token lasts
      what was asked for), [StatusCmd_shows], [status_shows_routes].

    Conflicts, AgentProps, AgentRun, LeavingProps, MembersProps, Userspace,
    HostsProps, ConfigFile, Main, Linux, WinLink, MacLink and Darwin also state, as theorems and examples, behaviours
    that differ from what the comments and documents of the program say.

    ** Fuel and bounds

    - [validAt] recurses through admitters and revokers; its guard grows with
      every nested question, and [validAt_terminates] gives the bound, the
      number of questions the records can raise plus one, from which more fuel
      changes nothing.
    - Loops over machine integers that end by a bound carry it: the decimal
      digits of an integer (64 are more than any 64-bit integer has), the units
      of a size in Status (a 64-bit count leaves the loop earlier), the groups
      of an IPv6 address (eight, and one for the end), slots in [FreeHost] (the
      theorem shows that the uint64 counter does not wrap).
    - Programs are finite trees, so they need none.
    - [retryBusy] on Windows makes at most 202 attempts: one per 10 ms pause in
      the two seconds it waits, and two more.
    - [leave_ends] and [set_calls_end] bound the steps that are left by a measure.

    ** Not modelled

    - Libraries: quic-go and crypto/tls beyond the configurations given to them,
      memberlist's failure detector and its choice of which broadcasts to send,
      WireGuard itself, kong's parsing, the text of YAML and JSON. What the
      program relies on of them is in the classes and in the answers to events.
    - The alignment of printed columns, the values of log lines, and the wording
      of errors beyond what tells them apart.
    - Accessors that return a field, and the methods of memberlist's interfaces
      that pass a call on unchanged.
    - The type assertion of [keepOwner] (etchosts/owner_unix.go): the change of
      owner is one event.

    ** Plan

    Every component of the source is modelled. What could follow is joining the
    concurrent programs, each of which has its own state here: the cluster's
    goroutines with those of its transport, and the agent's loop with both. *)

From stdpp Require Export base tactics option list gmap sorting countable strings.
From Stdlib Require Export ZArith Lia ZifyNat.
From Stdlib Require Strings.Byte.

#[global] Set Default Goal Selector "!".

(** ** Bytes: Go's [byte], and its [[]byte] and [string] as lists of bytes *)

Abbreviation byte := Byte.byte.
Abbreviation bytes := (list Byte.byte).

#[export] Instance byte_eq_dec : EqDecision byte := Byte.byte_eq_dec.
#[export] Instance byte_countable : Countable byte :=
  inj_countable Byte.to_N Byte.of_N Byte.of_to_N.

(** Byte strings written as literals. *)
Definition str (s : String.string) : bytes := String.list_byte_of_string s.
Arguments str s%_string.

Declare Scope go_scope.
Delimit Scope go_scope with go.

(** ** Errors: a Go call that returns [(T, error)] *)

Inductive result (A : Type) : Type :=
  | Ok (a : A)
  | Err (msg : String.string).
Arguments Ok {A} a.
Arguments Err {A} msg%_string.

Notation "'let?' x ':=' e 'in' k" :=
  (match e with Ok x => k | Err msg => Err msg end)
  (at level 200, x pattern, e at level 200, k at level 200, right associativity) : go_scope.

Definition is_ok {A} (r : result A) : bool :=
  match r with Ok _ => true | Err _ => false end.

Lemma is_ok_true {A} (r : result A) : is_ok r = true ↔ ∃ a, r = Ok a.
Proof. destruct r; naive_solver. Qed.

(** ** Machine integers: a w-bit integer is a [Z] kept in its range *)

Open Scope Z_scope.

Definition max_int64 : Z := 2 ^ 63 - 1.
Definition max_uint64 : Z := 2 ^ 64 - 1.
Definition int64_range (z : Z) : Prop := - 2 ^ 63 ≤ z < 2 ^ 63.
Definition uint64_range (z : Z) : Prop := 0 ≤ z < 2 ^ 64.
(** Conversion to [uint64], of an [int64] too, and wrap-around of its arithmetic. *)
Definition u64 (z : Z) : Z := z `mod` 2 ^ 64.

Lemma u64_id z : uint64_range z → u64 z = z.
Proof. intros H. apply Z.mod_small. exact H. Qed.

Lemma u64_int64_inj x y : int64_range x → int64_range y → u64 x = u64 y → x = y.
Proof.
  unfold int64_range, u64. intros Hx Hy H.
  assert (Hd : (x - y) `mod` 2 ^ 64 = 0).
  { rewrite Zminus_mod, H, Z.sub_diag. reflexivity. }
  apply Z.mod_divide in Hd; [|lia]. destruct Hd as [k Hk]. nia.
Qed.

(** ** Fixed-width big-endian encodings *)

Definition byte_of_Z (z : Z) : byte :=
  default Byte.x00 (Byte.of_N (Z.to_N (z `mod` 256))).
Definition Z_of_byte (b : byte) : Z := Z.of_N (Byte.to_N b).

Lemma Z_of_byte_range b : 0 ≤ Z_of_byte b < 256.
Proof. unfold Z_of_byte. pose proof (Byte.to_N_bounded b). lia. Qed.

Lemma Z_of_byte_inj a b : Z_of_byte a = Z_of_byte b → a = b.
Proof.
  unfold Z_of_byte. intros H%N2Z.inj.
  pose proof (Byte.of_to_N a). pose proof (Byte.of_to_N b). congruence.
Qed.

Lemma Z_of_byte_of_Z z : Z_of_byte (byte_of_Z z) = z `mod` 256.
Proof.
  unfold byte_of_Z. pose proof (Z.mod_pos_bound z 256 eq_refl).
  destruct (Byte.of_N (Z.to_N (z `mod` 256))) as [b|] eqn:E; simpl.
  - apply Byte.to_of_N in E. unfold Z_of_byte. rewrite E. lia.
  - apply Byte.of_N_None_iff in E. lia.
Qed.

Lemma byte_of_Z_of_byte b : byte_of_Z (Z_of_byte b) = b.
Proof.
  apply Z_of_byte_inj. rewrite Z_of_byte_of_Z.
  apply Z.mod_small, Z_of_byte_range.
Qed.

(** [be_bytes n z] is what [binary.BigEndian.Put] writes for an n-byte integer. *)
Fixpoint be_bytes (n : nat) (z : Z) : bytes :=
  match n with
  | O => []
  | S n' => byte_of_Z (z / 256 ^ Z.of_nat n') :: be_bytes n' z
  end.

Fixpoint be_value (bs : bytes) : Z :=
  match bs with
  | [] => 0
  | b :: bs' => Z_of_byte b * 256 ^ Z.of_nat (length bs') + be_value bs'
  end.

Lemma length_be_bytes n z : length (be_bytes n z) = n.
Proof. induction n as [|n IH]; simpl; congruence. Qed.

Lemma be_value_bytes n z : be_value (be_bytes n z) = z `mod` 256 ^ Z.of_nat n.
Proof.
  induction n as [|n IH]; simpl; [by rewrite Z.mod_1_r|].
  rewrite IH, length_be_bytes, Z_of_byte_of_Z.
  replace (Z.of_nat (S n)) with (Z.of_nat n + 1) by lia.
  rewrite Z.pow_add_r, Z.pow_1_r by lia.
  rewrite (Z.rem_mul_r z) by lia. lia.
Qed.

Lemma be_value_range bs : 0 ≤ be_value bs < 256 ^ Z.of_nat (length bs).
Proof.
  induction bs as [|b bs IH]; simpl; [lia|].
  pose proof (Z_of_byte_range b).
  replace (Z.of_nat (S (length bs))) with (Z.of_nat (length bs) + 1) by lia.
  rewrite Z.pow_add_r, Z.pow_1_r by lia. nia.
Qed.

Lemma be_bytes_inj n x y :
  0 ≤ x < 256 ^ Z.of_nat n → 0 ≤ y < 256 ^ Z.of_nat n →
  be_bytes n x = be_bytes n y → x = y.
Proof.
  intros Hx Hy H. apply (f_equal be_value) in H.
  rewrite !be_value_bytes, !Z.mod_small in H; lia.
Qed.

Lemma be_value_inj a b : length a = length b → be_value a = be_value b → a = b.
Proof.
  revert b. induction a as [|x a IH]; intros [|y b] Hl H; try done.
  assert (length a = length b) as Hl' by (by injection Hl). clear Hl. rename Hl' into Hl. cbn [be_value] in H. rewrite Hl in H.
  pose proof (be_value_range a) as Ha. pose proof (be_value_range b) as Hb. rewrite Hl in Ha.
  assert (Z_of_byte x = Z_of_byte y) as E by nia. f_equal; [by apply Z_of_byte_inj|].
  apply IH; [done|]. rewrite E in H. lia.
Qed.

Lemma be_bytes_value b : be_bytes (length b) (be_value b) = b.
Proof.
  apply be_value_inj; [apply length_be_bytes|]. rewrite be_value_bytes. apply Z.mod_small, be_value_range.
Qed.

(** ** Lists *)

Lemma app_inj_length {A} (a b c d : list A) :
  length a = length b → a ++ c = b ++ d → a = b ∧ c = d.
Proof. apply app_inj_1. Qed.

Lemma cons_inj {A} (x y : A) l k : x :: l = y :: k → x = y ∧ l = k.
Proof. by intros [= -> ->]. Qed.

Lemma foldl_map {A B C} (f : A → B → A) (g : C → B) a l :
  foldl f a (map g l) = foldl (λ x y, f x (g y)) a l.
Proof. revert a. induction l as [|c l IH]; intros a; simpl; [done|]. apply IH. Qed.

(** ** Sizes of finite sets *)

Lemma size_list_to_set_le {A} `{Countable A} (l : list A) :
  (size (list_to_set l : gset A) ≤ length l)%nat.
Proof.
  induction l as [|x l IH]; [done|]. simpl list_to_set. simpl length.
  pose proof (size_union_alt {[x]} (list_to_set l : gset A)) as ->.
  rewrite size_singleton.
  assert (size (list_to_set l ∖ {[x]} : gset A) ≤ size (list_to_set l : gset A))%nat
    by (apply subseteq_size; set_solver).
  lia.
Qed.

Lemma size_list_union_le {A} `{Countable A} (l k : list A) n m :
  length l = n → length k = m →
  (size (list_to_set l ∪ list_to_set k : gset A) ≤ m + n)%nat.
Proof.
  intros <- <-. rewrite size_union_alt.
  assert (size (list_to_set k ∖ list_to_set l : gset A) ≤ size (list_to_set k : gset A))%nat
    by (apply subseteq_size; set_solver).
  pose proof (size_list_to_set_le l). pose proof (size_list_to_set_le k). lia.
Qed.

Lemma size_difference_le {A} `{Countable A} (X Y : gset A) : (size (X ∖ Y) ≤ size X)%nat.
Proof. apply subseteq_size. set_solver. Qed.

Lemma size_difference_insert {A} `{Countable A} (X Y : gset A) x :
  x ∈ X → x ∉ Y → (size (X ∖ ({[x]} ∪ Y)) < size (X ∖ Y))%nat.
Proof. intros HX HY. apply subset_size. set_solver. Qed.

(** ** Lexicographic comparison: Go's [bytes.Compare] and [strings.Compare] *)

Fixpoint bytes_compare (a b : bytes) : comparison :=
  match a, b with
  | [], [] => Eq
  | [], _ :: _ => Lt
  | _ :: _, [] => Gt
  | x :: a', y :: b' =>
      match Byte.to_N x ?= Byte.to_N y with
      | Eq => bytes_compare a' b'
      | c => c
      end%N
  end.

Lemma byte_compare_eq x y : (Byte.to_N x ?= Byte.to_N y)%N = Eq → x = y.
Proof. intros H%N.compare_eq. apply Z_of_byte_inj. unfold Z_of_byte. by rewrite H. Qed.

Lemma bytes_compare_eq a b : bytes_compare a b = Eq ↔ a = b.
Proof.
  split.
  - revert b. induction a as [|x a IH]; intros [|y b]; simpl; try done.
    destruct (Byte.to_N x ?= Byte.to_N y)%N eqn:E; try done.
    intros H. f_equal; [by apply byte_compare_eq|by apply IH].
  - intros <-. induction a as [|x a IH]; simpl; [done|].
    by rewrite N.compare_refl.
Qed.

Lemma bytes_compare_antisym a b : bytes_compare b a = CompOpp (bytes_compare a b).
Proof.
  revert b. induction a as [|x a IH]; intros [|y b]; simpl; try done.
  rewrite N.compare_antisym.
  destruct (Byte.to_N x ?= Byte.to_N y)%N; simpl; auto.
Qed.

Lemma bytes_compare_lt_trans a b c :
  bytes_compare a b = Lt → bytes_compare b c = Lt → bytes_compare a c = Lt.
Proof.
  revert b c. induction a as [|x a IH]; intros [|y b] [|z c]; simpl; try done.
  destruct (N.compare_spec (Byte.to_N x) (Byte.to_N y)) as [E1|E1|E1];
    destruct (N.compare_spec (Byte.to_N y) (Byte.to_N z)) as [E2|E2|E2];
    destruct (N.compare_spec (Byte.to_N x) (Byte.to_N z)) as [E3|E3|E3];
    try done; try (exfalso; lia). apply IH.
Qed.

Definition bytes_ltb (a b : bytes) : bool :=
  match bytes_compare a b with Lt => true | _ => false end.

Lemma bytes_ltb_irrefl a : bytes_ltb a a = false.
Proof. unfold bytes_ltb. by rewrite (proj2 (bytes_compare_eq a a) eq_refl). Qed.

Lemma bytes_ltb_trans a b c :
  bytes_ltb a b = true → bytes_ltb b c = true → bytes_ltb a c = true.
Proof.
  unfold bytes_ltb.
  destruct (bytes_compare a b) eqn:E1; try done.
  destruct (bytes_compare b c) eqn:E2; try done.
  by rewrite (bytes_compare_lt_trans a b c).
Qed.

Lemma bytes_ltb_total a b : a ≠ b → bytes_ltb a b = true ∨ bytes_ltb b a = true.
Proof.
  intros Hne. unfold bytes_ltb. rewrite (bytes_compare_antisym a b).
  destruct (bytes_compare a b) eqn:E; simpl; auto.
  by apply bytes_compare_eq in E.
Qed.

Lemma bytes_ltb_asym a b : bytes_ltb a b = true → bytes_ltb b a = false.
Proof.
  unfold bytes_ltb. rewrite (bytes_compare_antisym a b).
  by destruct (bytes_compare a b).
Qed.

(** ** Automation shared by the components *)

Create HintDb cheesecloth discriminated.
#[export] Hint Resolve Z_of_byte_range length_be_bytes be_value_range : cheesecloth.
#[export] Hint Rewrite @length_app length_be_bytes be_value_bytes : cheesecloth.

(** Case analysis on the conditions of the code, one branch per path. *)
Ltac branches :=
  repeat (case_match; simplify_eq/=; try done).
