(* ===== verification/Wire.v ===== *)
(** * Wire: the canonical encoding (internal/wire/wire.go)

    [Canonical] and the two facts everything signed or authenticated rests on:
    no two domains share an encoding, and no field boundary is ambiguous. *)

From S2P Require Import Prelude.

(** ** The encoder *)

(** One field: a 4-byte big-endian length, truncated to 32 bits, and the bytes. *)
Definition field (f : bytes) : bytes :=
  be_bytes 4 (Z.of_nat (length f) `mod` 2 ^ 32) ++ f.

Definition Canonical (domain : bytes) (fields : list bytes) : bytes :=
  domain ++ [Byte.x00] ++ concat (map field fields).

(** The sizes for which the 32-bit length of a field is not truncated. *)
Definition field_fits (f : bytes) : Prop := Z.of_nat (length f) < 2 ^ 32.

Definition no_nul (d : bytes) : Prop := Byte.x00 ∉ d.
#[export] Instance no_nul_dec d : Decision (no_nul d).
Proof. unfold no_nul. apply _. Defined.

(** ** Lemmas *)

Lemma field_app_inj f g r r' :
  field_fits f → field_fits g → field f ++ r = field g ++ r' → f = g ∧ r = r'.
Proof.
  unfold field, field_fits. intros Hf Hg H.
  rewrite <-!(assoc_L (++)) in H.
  apply app_inj_length in H as [Hl H]; [|by rewrite !length_be_bytes].
  apply be_bytes_inj in Hl;
    [|apply Z.mod_pos_bound; lia|apply Z.mod_pos_bound; lia].
  rewrite !Z.mod_small in Hl by lia.
  apply app_inj_length in H; [done|lia].
Qed.

Lemma concat_field_inj fs gs :
  Forall field_fits fs → Forall field_fits gs →
  concat (map field fs) = concat (map field gs) → fs = gs.
Proof.
  intros Hfs. revert gs. induction Hfs as [|f fs Hf _ IH]; intros gs Hgs.
  - destruct Hgs as [|g gs _ _]; [done|]. simpl. unfold field. simpl. discriminate.
  - destruct Hgs as [|g gs Hg Hgs]; simpl.
    + unfold field. simpl. discriminate.
    + intros H. apply field_app_inj in H as [-> H]; [|done..].
      f_equal. by apply IH.
Qed.

Lemma domain_app_inj d e r r' :
  no_nul d → no_nul e → d ++ Byte.x00 :: r = e ++ Byte.x00 :: r' → d = e ∧ r = r'.
Proof.
  unfold no_nul. revert e. induction d as [|x d IH]; intros [|y e]; simpl; intros Hd He H.
  - by simplify_eq.
  - simplify_eq. set_solver.
  - simplify_eq. set_solver.
  - simplify_eq. destruct (IH e) as [-> ->]; set_solver.
Qed.

Lemma canonical_bytes_inj d e fs gs :
  no_nul d → no_nul e → Forall field_fits fs → Forall field_fits gs →
  Canonical d fs = Canonical e gs → d = e ∧ fs = gs.
Proof.
  unfold Canonical. simpl. intros Hd He Hfs Hgs H.
  apply domain_app_inj in H as [-> H]; [|done..].
  split; [done|]. by apply concat_field_inj.
Qed.

(** ** Properties *)

(** The canonical encoding is injective. Two messages with the same bytes
    have the same domain and the same fields, whatever the number of fields,
    as long as no domain holds the zero byte that ends it and every field is
    shorter than 2^32 bytes (beyond which the length prefix is truncated). *)
Theorem Canonical_inj d e fs gs :
  no_nul d → no_nul e → Forall field_fits fs → Forall field_fits gs →
  Canonical d fs = Canonical e gs → d = e ∧ fs = gs.
Proof.
  apply canonical_bytes_inj.
Qed.

Lemma Canonical_inj_witness :
  no_nul (str "d") ∧ no_nul (str "d") ∧
  Forall field_fits [str "ab"; []] ∧ Forall field_fits [str "ab"; []] ∧
  (Canonical (str "d") [str "ab"; []] = Canonical (str "d") [str "ab"; []] →
   str "d" = str "d" ∧ [str "ab"; []] = [str "ab"; []]).
Proof.
  assert (Hd : no_nul (str "d")) by (apply (bool_decide_unpack _); vm_compute; done).
  assert (Hf : Forall field_fits [str "ab"; []]).
  { repeat constructor. }
  repeat (split; [done|]). apply (Canonical_inj (str "d") (str "d")); done.
Defined.

(** Concrete encodings of the unit test of the package. *)
Example Canonical_example :
  Canonical (str "d") [str "ab"; []] =
  str "d" ++ [Byte.x00; Byte.x00; Byte.x00; Byte.x00; Byte.x02] ++ str "ab"
    ++ [Byte.x00; Byte.x00; Byte.x00; Byte.x00].
Proof. reflexivity. Qed.
