(* ===== verification/Netip.v ===== *)
(** * Netip: the part of Go's [net/netip] the program computes with

    [Addr] and [Prefix] with the operations the source calls, as the standard
    library documents them: the zero [Addr], the IPv4 and IPv6 families kept
    apart (an IPv4-mapped IPv6 address is an IPv6 address until [Unmap]),
    IPv6 zones, and the invalid [Prefix] whose [Bits] is -1. *)

From S2P Require Import Prelude.

(** ** Addresses *)

Inductive Addr :=
  | AZero                               (* the zero Addr: not a valid address *)
  | A4 (v : Z)                          (* an IPv4 address, 32 bits *)
  | A6 (v : Z) (zone : bytes).          (* an IPv6 address, 128 bits, and its zone *)

#[export] Instance Addr_eq_dec : EqDecision Addr.
Proof. solve_decision. Defined.

#[export] Instance Addr_countable : Countable Addr.
Proof.
  refine (inj_countable'
    (λ a, match a with
          | AZero => inl ()
          | A4 v => inr (inl v)
          | A6 v z => inr (inr (v, z))
          end)
    (λ x, match x with
          | inl _ => AZero
          | inr (inl v) => A4 v
          | inr (inr (v, z)) => A6 v z
          end) _).
  by intros [].
Defined.

Definition addr_wf (a : Addr) : Prop :=
  match a with
  | AZero => True
  | A4 v => 0 ≤ v < 2 ^ 32
  | A6 v _ => 0 ≤ v < 2 ^ 128
  end.

Definition Addr_IsValid (a : Addr) : bool :=
  match a with AZero => false | _ => true end.
Definition BitLen (a : Addr) : Z :=
  match a with AZero => 0 | A4 _ => 32 | A6 _ _ => 128 end.
Definition Is4 (a : Addr) : bool := match a with A4 _ => true | _ => false end.
Definition Is6 (a : Addr) : bool := match a with A6 _ _ => true | _ => false end.
Definition Is4In6 (a : Addr) : bool :=
  match a with A6 v _ => v `div` 2 ^ 32 =? 2 ^ 16 - 1 | _ => false end.
Definition Unmap (a : Addr) : Addr :=
  match a with
  | A6 v _ => if Is4In6 a then A4 (v `mod` 2 ^ 32) else a
  | _ => a
  end.
Definition withoutZone (a : Addr) : Addr :=
  match a with A6 v _ => A6 v [] | _ => a end.
Definition hasZone (a : Addr) : bool :=
  match a with A6 _ (_ :: _) => true | _ => false end.

(** [AsSlice]: the address bytes, without the zone; nothing for the zero Addr. *)
Definition AsSlice (a : Addr) : bytes :=
  match a with
  | AZero => []
  | A4 v => be_bytes 4 v
  | A6 v _ => be_bytes 16 v
  end.
(** [AddrFromSlice] *)
Definition AddrFromSlice (b : bytes) : option Addr :=
  if decide (length b = 4%nat) then Some (A4 (be_value b))
  else if decide (length b = 16%nat) then Some (A6 (be_value b) [])
  else None.

Definition IsUnspecified (a : Addr) : bool :=
  match a with A4 v => v =? 0 | A6 v [] => v =? 0 | _ => false end.

(** ** Prefixes *)

Record Prefix := MkPrefix { pfx_Addr : Addr; Bits : Z }.

#[export] Instance Prefix_eq_dec : EqDecision Prefix.
Proof. solve_decision. Defined.
#[export] Instance Prefix_countable : Countable Prefix :=
  inj_countable' (λ p, (pfx_Addr p, Bits p)) (λ x, MkPrefix x.1 x.2)
    (λ p, match p with MkPrefix _ _ => eq_refl end).

Definition zeroPrefix : Prefix := MkPrefix AZero (-1).

Definition Prefix_IsValid (p : Prefix) : bool := 0 <=? Bits p.

(** [netip.PrefixFrom]: out-of-range bits give an invalid prefix that keeps its address. *)
Definition PrefixFrom (a : Addr) (b : Z) : Prefix :=
  MkPrefix (withoutZone a)
    (if Addr_IsValid a && (0 <=? b) && (b <=? BitLen a) then b else -1).

(** What every [Prefix] value satisfies: [PrefixFrom] and the zero value are
    the only ways to make one. *)
Definition prefix_wf (p : Prefix) : Prop :=
  addr_wf (pfx_Addr p) ∧ hasZone (pfx_Addr p) = false ∧
  (Bits p = -1 ∨ (Addr_IsValid (pfx_Addr p) = true ∧ 0 ≤ Bits p ≤ BitLen (pfx_Addr p))).

(** Clearing all but the top [b] of [w] bits. *)
Definition mask_top (w b v : Z) : Z := Z.shiftl (Z.shiftr v (w - b)) (w - b).

(** [Addr.Prefix] *)
Definition Addr_Prefix (a : Addr) (b : Z) : option Prefix :=
  if b <? 0 then None
  else match a with
       | AZero => Some zeroPrefix
       | A4 v => if 32 <? b then None else Some (PrefixFrom (A4 (mask_top 32 b v)) b)
       | A6 v z => if 128 <? b then None else Some (PrefixFrom (A6 (mask_top 128 b v) z) b)
       end.

(** [Prefix.Masked] *)
Definition Masked (p : Prefix) : Prefix :=
  default zeroPrefix (Addr_Prefix (pfx_Addr p) (Bits p)).

(** [Prefix.Contains] *)
Definition Contains (p : Prefix) (a : Addr) : bool :=
  if negb (Prefix_IsValid p) || hasZone a then false
  else match pfx_Addr p, a with
       | A4 v, A4 w => mask_top 32 (Bits p) v =? mask_top 32 (Bits p) w
       | A6 v _, A6 w _ => mask_top 128 (Bits p) v =? mask_top 128 (Bits p) w
       | _, _ => false
       end.

(** [Prefix.Overlaps] *)
Definition Overlaps (p o : Prefix) : bool :=
  if negb (Prefix_IsValid p) || negb (Prefix_IsValid o) then false
  else if decide (p = o) then true
  else if negb (Bool.eqb (Is4 (pfx_Addr p)) (Is4 (pfx_Addr o))) then false
  else let minBits := Z.min (Bits p) (Bits o) in
       if minBits =? 0 then true
       else match Addr_Prefix (pfx_Addr p) minBits, Addr_Prefix (pfx_Addr o) minBits with
            | Some p', Some o' => bool_decide (pfx_Addr p' = pfx_Addr o')
            | _, _ => false
            end.

(** [Prefix.IsSingleIP] *)
Definition IsSingleIP (p : Prefix) : bool :=
  Prefix_IsValid p && (Bits p =? BitLen (pfx_Addr p)).

(** ** Lemmas *)

Lemma mask_top_arith w b v : 0 ≤ b ≤ w → mask_top w b v = v - v `mod` 2 ^ (w - b).
Proof.
  intros H. unfold mask_top. rewrite Z.shiftr_div_pow2, Z.shiftl_mul_pow2 by lia.
  rewrite Z.mod_eq by lia. lia.
Qed.

Lemma mask_top_mod w b v : 0 ≤ b ≤ w → mask_top w b v `mod` 2 ^ (w - b) = 0.
Proof.
  intros H. unfold mask_top. rewrite Z.shiftl_mul_pow2 by lia. apply Z.mod_mul. lia.
Qed.

Lemma mask_top_range w b v : 0 ≤ b ≤ w → 0 ≤ v < 2 ^ w → 0 ≤ mask_top w b v < 2 ^ w.
Proof.
  intros H Hv. rewrite mask_top_arith by done.
  pose proof (Z.mod_pos_bound v (2 ^ (w - b))).
  pose proof (Z.mod_le v (2 ^ (w - b))). lia.
Qed.

Lemma mask_top_idemp w b v : 0 ≤ b ≤ w → mask_top w b (mask_top w b v) = mask_top w b v.
Proof.
  intros H. rewrite (mask_top_arith w b (mask_top w b v)) by done.
  rewrite mask_top_mod by done. lia.
Qed.

Lemma mask_top_add w b v h :
  0 ≤ b ≤ w → 0 ≤ h < 2 ^ (w - b) →
  mask_top w b (mask_top w b v + h) = mask_top w b v.
Proof.
  intros H Hh. pose proof (mask_top_mod w b v H) as Hm.
  rewrite (mask_top_arith w b (_ + h)) by done.
  rewrite Z.add_mod, Hm, Z.add_0_l, Z.mod_mod, (Z.mod_small h) by lia. lia.
Qed.

Lemma mask_top_add_range w b v h :
  0 ≤ b ≤ w → 0 ≤ v < 2 ^ w → 0 ≤ h < 2 ^ (w - b) → 0 ≤ mask_top w b v + h < 2 ^ w.
Proof.
  intros H Hv Hh. pose proof (mask_top_range w b v H Hv) as Hr.
  pose proof (mask_top_mod w b v H) as Hm. apply Z.mod_divide in Hm as [k Hk]; [|lia].
  assert (Hw : 2 ^ w = 2 ^ b * 2 ^ (w - b)).
  { rewrite <-Z.pow_add_r by lia. f_equal. lia. }
  rewrite Hk in *. rewrite Hw in *. assert (k + 1 ≤ 2 ^ b) by nia. nia.
Qed.

(** Adding a number below the cleared bits: the disjunction is a sum, and the
    masked part does not change. *)
Lemma lor_low_add k x h :
  0 ≤ k → x `mod` 2 ^ k = 0 → 0 ≤ h < 2 ^ k → Z.lor x h = x + h.
Proof.
  intros Hk Hx Hh. rewrite <-Z.add_lor_land.
  enough (Z.land x h = 0) by lia.
  destruct (decide (h = 0)) as [->|]; [apply Z.land_0_r|].
  apply Z.bits_inj'. intros i Hi. rewrite Z.land_spec, Z.bits_0.
  destruct (decide (i < k)).
  - assert (Hz : Z.testbit x i = false).
    { rewrite <-(Z.mod_pow2_bits_low x k) by lia. rewrite Hx. apply Z.bits_0. }
    by rewrite Hz.
  - rewrite (Z.bits_above_log2 h); [apply andb_false_r|lia|].
    apply Z.lt_le_trans with k; [apply Z.log2_lt_pow2; lia|lia].
Qed.

Lemma mod_mod_pow2 x j k : 0 ≤ j ≤ k → (x `mod` 2 ^ k) `mod` 2 ^ j = x `mod` 2 ^ j.
Proof.
  intros H. apply Z.mod_mod_divide. exists (2 ^ (k - j)).
  rewrite <-Z.pow_add_r by lia. f_equal. lia.
Qed.

Lemma AsSlice_length a :
  length (AsSlice a) = match a with AZero => 0%nat | A4 _ => 4%nat | A6 _ _ => 16%nat end.
Proof. by destruct a; cbn [AsSlice]; rewrite ?length_be_bytes. Qed.

Lemma AsSlice_inj a b :
  addr_wf a → addr_wf b → AsSlice a = AsSlice b → withoutZone a = withoutZone b.
Proof.
  intros Ha Hb H. pose proof (f_equal length H) as Hl. rewrite !AsSlice_length in Hl.
  destruct a as [|v|v z], b as [|w|w y]; cbn [AsSlice addr_wf withoutZone] in *; try done.
  - apply be_bytes_inj in H as ->; done.
  - apply be_bytes_inj in H as ->; done.
Qed.

Lemma AddrFromSlice_AsSlice a :
  addr_wf a → Addr_IsValid a = true → AddrFromSlice (AsSlice a) = Some (withoutZone a).
Proof.
  intros Hwf Hv. unfold AddrFromSlice. rewrite AsSlice_length.
  destruct a as [|v|v z]; cbn [AsSlice addr_wf withoutZone] in *; [done| |];
    rewrite be_value_bytes, Z.mod_small; done.
Qed.
