(* ===== verification/Overlay.v ===== *)
(** * Overlay: addresses from slots (internal/overlay/overlay.go)

    [MaxHost] and [Addr] of overlay.go with their bounds: every slot up to
    [MaxHost] has an address, distinct slots have distinct addresses, and an
    address is inside the network and never its network or broadcast address. *)

From S2P Require Import Prelude Netip.

(** ** overlay.go *)

(** [uint64(1)<<bits - 1] cannot wrap: [bits] is below 64 where it is computed. *)
Definition MaxHost (prefix : Prefix) : Z :=
  let bits := BitLen (pfx_Addr prefix) - Bits prefix in
  if 64 <=? bits then max_uint64 - 1
  else
    let top := u64 (u64 (Z.shiftl 1 bits) - 1) in
    if Is4 (pfx_Addr prefix) && (0 <? top) then top - 1 else top.

(** [As16]: the 16-byte form, all zero for the zero Addr. *)
Definition As16 (a : Addr) : Z :=
  match a with
  | AZero => 0
  | A4 v => (2 ^ 16 - 1) * 2 ^ 32 + v
  | A6 v _ => v
  end.

(** [overlay.Addr]: the address of slot [host] inside [prefix]. *)
Definition Addr_of (prefix : Prefix) (host : Z) : option Addr :=
  if (host =? 0) || (MaxHost prefix <? host) then None
  else
    let base := pfx_Addr (Masked prefix) in
    match base with
    | A4 b => Some (A4 (Z.lor b (host `mod` 2 ^ 32)))
    | _ =>
        let b := As16 base in
        let lo := Z.lor (b `mod` 2 ^ 64) host in
        Some (A6 (b `div` 2 ^ 64 * 2 ^ 64 + lo) [])
    end.

(** ** Lemmas *)

(** A prefix as the callers have it: valid, so its bits are in range. *)
Definition good_prefix (p : Prefix) : Prop := prefix_wf p ∧ Prefix_IsValid p = true.

Lemma good_prefix_cases p :
  good_prefix p →
  (∃ v, p = MkPrefix (A4 v) (Bits p) ∧ 0 ≤ v < 2 ^ 32 ∧ 0 ≤ Bits p ≤ 32) ∨
  (∃ v, p = MkPrefix (A6 v []) (Bits p) ∧ 0 ≤ v < 2 ^ 128 ∧ 0 ≤ Bits p ≤ 128).
Proof.
  intros [(Ha & Hz & Hb) Hv]. unfold Prefix_IsValid in Hv. apply Z.leb_le in Hv.
  destruct p as [a b]; simpl in *. destruct Hb as [->|[Hb Hr]]; [lia|].
  destruct a as [|v|v [|z zs]]; simpl in *; try done; [left|right]; eauto 10.
Qed.

Lemma pow2_bound a b : 0 ≤ a ≤ b → 1 ≤ 2 ^ a ≤ 2 ^ b.
Proof. intros H. split; [|apply Z.pow_le_mono_r; lia]. pose proof (Z.pow_pos_nonneg 2 a). lia. Qed.

Lemma MaxHost_A4 v b :
  0 ≤ b ≤ 32 → MaxHost (MkPrefix (A4 v) b) = Z.max 0 (2 ^ (32 - b) - 2).
Proof.
  intros Hb. unfold MaxHost. cbn [pfx_Addr Bits BitLen Is4 andb].
  destruct (Z.leb_spec 64 (32 - b)); [lia|].
  pose proof (pow2_bound (32 - b) 32).
  rewrite Z.shiftl_1_l.
  rewrite (u64_id (2 ^ _)) by (unfold uint64_range; lia).
  rewrite u64_id by (unfold uint64_range; lia).
  destruct (Z.ltb_spec 0 (2 ^ (32 - b) - 1)); lia.
Qed.

Lemma MaxHost_A6 v z b :
  0 ≤ b ≤ 128 →
  MaxHost (MkPrefix (A6 v z) b) =
    if 64 <=? 128 - b then 2 ^ 64 - 2 else 2 ^ (128 - b) - 1.
Proof.
  intros Hb. unfold MaxHost. cbn [pfx_Addr Bits BitLen Is4 andb].
  destruct (Z.leb_spec 64 (128 - b)); [done|].
  pose proof (pow2_bound (128 - b) 63).
  rewrite Z.shiftl_1_l.
  rewrite (u64_id (2 ^ _)) by (unfold uint64_range; lia).
  rewrite u64_id by (unfold uint64_range; lia).
  done.
Qed.

Lemma Masked_good a b :
  Addr_IsValid a = true → 0 ≤ b ≤ BitLen a → hasZone a = false →
  Masked (MkPrefix a b) =
    MkPrefix (match a with
              | A4 v => A4 (mask_top 32 b v)
              | A6 v _ => A6 (mask_top 128 b v) []
              | AZero => AZero
              end) b.
Proof.
  intros Ha Hb Hz. unfold Masked, Addr_Prefix. simpl.
  destruct (Z.ltb_spec b 0); [lia|].
  destruct a as [|v|v z]; simpl in *; try done.
  - destruct (Z.ltb_spec 32 b); [lia|]. unfold PrefixFrom. simpl.
    destruct (Z.leb_spec 0 b); [|lia]. destruct (Z.leb_spec b 32); [|lia]. done.
  - destruct (Z.ltb_spec 128 b); [lia|]. unfold PrefixFrom. simpl.
    destruct (Z.leb_spec 0 b); [|lia]. destruct (Z.leb_spec b 128); [|lia]. done.
Qed.

(** The host bits of a slot that [Addr_of] accepts: below the network part. *)
Definition host_bits (p : Prefix) : Z :=
  Z.min 64 (BitLen (pfx_Addr p) - Bits p).

Lemma MaxHost_lt p :
  good_prefix p → 0 ≤ MaxHost p < 2 ^ host_bits p.
Proof.
  intros [(v & -> & Hv & Hb)|(v & -> & Hv & Hb)]%good_prefix_cases;
    unfold host_bits; cbn [pfx_Addr Bits BitLen] in *.
  - rewrite MaxHost_A4 by done. rewrite Z.min_r by lia.
    pose proof (pow2_bound (32 - Bits p) 32). lia.
  - rewrite MaxHost_A6 by done. destruct (Z.leb_spec 64 (128 - Bits p)).
    + rewrite Z.min_l by lia. lia.
    + rewrite Z.min_r by lia. pose proof (pow2_bound (128 - Bits p) 64). lia.
Qed.

(** The masked base as a number, with its low bits clear. *)
Definition base_value (p : Prefix) : Z :=
  mask_top (BitLen (pfx_Addr p)) (Bits p) (match pfx_Addr p with
                                           | A4 v => v | A6 v _ => v | AZero => 0 end).

Lemma base_value_low p : good_prefix p → base_value p `mod` 2 ^ host_bits p = 0.
Proof.
  intros [(v & -> & Hv & Hb)|(v & -> & Hv & Hb)]%good_prefix_cases;
    unfold host_bits, base_value; cbn [pfx_Addr Bits BitLen] in *.
  - rewrite Z.min_r by lia. by apply mask_top_mod.
  - destruct (decide (64 ≤ 128 - Bits p)).
    + rewrite Z.min_l by lia. pose proof (mask_top_mod 128 (Bits p) v Hb) as Hm.
      apply Z.mod_divide in Hm; [|lia]. apply Z.mod_divide; [lia|].
      destruct Hm as [k ->]. exists (k * 2 ^ (128 - Bits p - 64)).
      rewrite <-Z.mul_assoc, <-Z.pow_add_r by lia. do 2 f_equal. lia.
    + rewrite Z.min_r by lia. by apply mask_top_mod.
Qed.

Lemma base_value_range p :
  good_prefix p → 0 ≤ base_value p < 2 ^ BitLen (pfx_Addr p).
Proof.
  intros [(v & -> & Hv & Hb)|(v & -> & Hv & Hb)]%good_prefix_cases;
    unfold base_value; cbn [pfx_Addr Bits BitLen] in *; by apply mask_top_range.
Qed.

(** What [Addr_of] returns, as arithmetic: the base plus the slot. *)
Lemma Addr_of_spec p h :
  good_prefix p → 0 ≤ h →
  Addr_of p h =
    if bool_decide (1 ≤ h ≤ MaxHost p)
    then Some (match pfx_Addr p with
               | A4 _ => A4 (base_value p + h)
               | _ => A6 (base_value p + h) []
               end)
    else None.
Proof.
  intros Hp Hh. pose proof (MaxHost_lt p Hp) as HM. pose proof (base_value_low p Hp) as HB.
  unfold Addr_of.
  destruct (Z.eqb_spec h 0); simpl.
  { rewrite bool_decide_eq_false_2 by lia. done. }
  destruct (Z.ltb_spec (MaxHost p) h); [rewrite bool_decide_eq_false_2 by lia; done|].
  rewrite bool_decide_eq_true_2 by lia.
  destruct (good_prefix_cases p Hp) as [(v & Ep & Hv & Hb)|(v & Ep & Hv & Hb)];
    rewrite Ep in *; cbn [Bits] in Hb;
    rewrite Masked_good by done;
    unfold host_bits, base_value in *; cbn [pfx_Addr Bits BitLen] in *; f_equal.
  - rewrite Z.min_r in HM, HB by lia.
    pose proof (pow2_bound (32 - Bits p) 32).
    rewrite (Z.mod_small h) by lia. f_equal. by apply lor_low_add with (32 - Bits p); [lia|..|lia].
  - f_equal. set (m := mask_top 128 (Bits p) v) in *. cbn [As16].
    assert (Hm : (m `mod` 2 ^ 64) `mod` 2 ^ Z.min 64 (128 - Bits p) = 0).
    { rewrite mod_mod_pow2; [done|lia]. }
    rewrite (lor_low_add (Z.min 64 (128 - Bits p))) by (lia || done).
    rewrite (Z.div_mod m (2 ^ 64)) at 3 by lia. lia.
Qed.

Lemma slot_addr_inj p h h' a :
  good_prefix p → 0 ≤ h → 0 ≤ h' →
  Addr_of p h = Some a → Addr_of p h' = Some a → h = h'.
Proof.
  intros Hp Hh Hh'. rewrite !Addr_of_spec by done.
  intros H H'. repeat case_bool_decide; simplify_eq.
  destruct (pfx_Addr p); simplify_eq; lia.
Qed.

(** ** Properties of the addressing *)

(** Distinct slots have distinct overlay addresses, in either family and
    for any prefix length, including IPv6 networks with more host bits than a
    slot has. *)
Theorem Addr_of_inj p h h' a :
  good_prefix p → 0 ≤ h → 0 ≤ h' →
  Addr_of p h = Some a → Addr_of p h' = Some a → h = h'.
Proof. apply slot_addr_inj. Qed.

Lemma Addr_of_inj_witness :
  let p := MkPrefix (A4 167772160) 8 in
  good_prefix p ∧ 0 ≤ 7 ∧ 0 ≤ 7 ∧ Addr_of p 7 = Some (A4 167772167) ∧
  Addr_of p 7 = Some (A4 167772167) ∧ 7 = 7.
Proof.
  assert (Hp : good_prefix (MkPrefix (A4 167772160) 8)).
  { split; [|done]. split_and!; [simpl; lia|done|right; simpl; lia]. }
  repeat (split; [done || lia|]).
  apply (Addr_of_inj (MkPrefix (A4 167772160) 8) 7 7 (A4 167772167)); done.
Defined.

(** C40: the slots of a network are exactly 1 to [MaxHost]: each of them has an
    address, which lies inside the network and is neither its network address
    nor, for IPv4, its broadcast address; any other slot is refused. *)
Theorem Addr_of_sound p h :
  good_prefix p → 0 ≤ h →
  match Addr_of p h with
  | Some a =>
      1 ≤ h ≤ MaxHost p ∧ addr_wf a ∧ Contains p a = true ∧
      a ≠ pfx_Addr (Masked p) ∧
      (Is4 a = true → a ≠ A4 (base_value p + 2 ^ (32 - Bits p) - 1))
  | None => ¬ (1 ≤ h ≤ MaxHost p)
  end.
Proof.
  intros Hp Hh. rewrite Addr_of_spec by done. case_bool_decide as Hm; [|done].
  split; [done|]. pose proof (MaxHost_lt p Hp) as HM.
  destruct (good_prefix_cases p Hp) as [(v & Ep & Hv & Hb)|(v & Ep & Hv & Hb)];
    rewrite Ep in *; cbn [Bits] in Hb; rewrite Masked_good by done;
    unfold host_bits, base_value, Contains, Prefix_IsValid in *;
    cbn [pfx_Addr Bits BitLen hasZone addr_wf Is4] in *;
    (rewrite (proj2 (Z.leb_le _ _)) by lia); cbn [negb orb].
  - rewrite Z.min_r in HM by lia. rewrite MaxHost_A4 in Hm by done.
    rewrite mask_top_add by lia. rewrite Z.eqb_refl.
    split_and!; [apply mask_top_add_range; lia|apply mask_top_add_range; lia|done| |].
    + intros [= E]. lia.
    + intros _ [= E]. lia.
  - assert (h < 2 ^ (128 - Bits p)).
    { pose proof (pow2_bound (Z.min 64 (128 - Bits p)) (128 - Bits p)). lia. }
    rewrite mask_top_add by lia. rewrite Z.eqb_refl.
    split_and!; [apply mask_top_add_range; lia|apply mask_top_add_range; lia|done| |done].
    intros [= E]. lia.
Qed.

Lemma Addr_of_sound_witness :
  let p := MkPrefix (A4 167772160) 30 in
  good_prefix p ∧ 0 ≤ 2 ∧
  match Addr_of p 2 with
  | Some a =>
      1 ≤ 2 ≤ MaxHost p ∧ addr_wf a ∧ Contains p a = true ∧
      a ≠ pfx_Addr (Masked p) ∧
      (Is4 a = true → a ≠ A4 (base_value p + 2 ^ (32 - Bits p) - 1))
  | None => ¬ (1 ≤ 2 ≤ MaxHost p)
  end.
Proof.
  assert (Hp : good_prefix (MkPrefix (A4 167772160) 30)).
  { split; [|done]. split_and!; [simpl; lia|done|right; simpl; lia]. }
  split; [done|]. split; [lia|]. apply (Addr_of_sound (MkPrefix (A4 167772160) 30) 2); [done|lia].
Defined.

(** The number of slots on the smallest networks, and the IPv6 cap. *)
Example MaxHost_examples :
  MaxHost (MkPrefix (A4 0) 32) = 0 ∧ MaxHost (MkPrefix (A4 0) 31) = 0 ∧
  MaxHost (MkPrefix (A4 0) 30) = 2 ∧ MaxHost (MkPrefix (A4 167772160) 8) = 2 ^ 24 - 2 ∧
  MaxHost (MkPrefix (A6 0 []) 64) = 2 ^ 64 - 2 ∧ MaxHost (MkPrefix (A6 0 []) 120) = 255.
Proof. vm_compute. done. Qed.
