(* ===== verification/Encoding.v ===== *)
(** * Encoding: the base64 and base32 text forms of the standard library

    Identities are printed in [base64.StdEncoding], invitation tokens in
    [base32.StdEncoding] without padding. Both read the input as bits, most
    significant first, and write one digit per [w] bits; the decoders skip CR
    and LF, ignore the spare bits of the last digit and refuse everything else
    that is not a digit (base64: or the padding in its place). *)

From S2P Require Import Prelude.

(** ** Bits *)

Fixpoint to_bits (n : nat) (z : Z) : list bool :=
  match n with
  | O => []
  | S n' => Z.testbit z (Z.of_nat n') :: to_bits n' z
  end.

Fixpoint of_bits (l : list bool) : Z :=
  match l with
  | [] => 0
  | b :: l' => Z.b2z b * 2 ^ Z.of_nat (length l') + of_bits l'
  end.

Lemma length_to_bits n z : length (to_bits n z) = n.
Proof. induction n; simpl; congruence. Qed.

Lemma of_bits_range l : 0 ≤ of_bits l < 2 ^ Z.of_nat (length l).
Proof.
  induction l as [|b l IH]; simpl; [lia|].
  replace (Z.of_nat (S (length l))) with (Z.of_nat (length l) + 1) by lia.
  rewrite Z.pow_add_r, Z.pow_1_r by lia. destruct b; simpl; lia.
Qed.

Lemma of_bits_to_bits n z : of_bits (to_bits n z) = z `mod` 2 ^ Z.of_nat n.
Proof.
  induction n as [|n IH]; simpl; [by rewrite Z.mod_1_r|].
  rewrite IH, length_to_bits.
  replace (Z.of_nat (S n)) with (Z.of_nat n + 1) by lia.
  rewrite Z.pow_add_r, Z.pow_1_r, Z.rem_mul_r by lia.
  rewrite Z.testbit_spec' by lia. lia.
Qed.

Lemma to_bits_app n z k :
  0 ≤ z < 2 ^ Z.of_nat n → to_bits n (k * 2 ^ Z.of_nat n + z) = to_bits n z.
Proof.
  intros Hz.
  assert (∀ m, (m ≤ n)%nat → to_bits m (k * 2 ^ Z.of_nat n + z) = to_bits m z) as H.
  { induction m as [|m IH]; intros Hm; simpl; [done|]. f_equal; [|apply IH; lia].
    rewrite <-(Z.mod_pow2_bits_low _ (Z.of_nat n)) by lia.
    rewrite Z.add_comm, Z.mod_add, Z.mod_small by lia. done. }
  by apply H.
Qed.

Lemma to_bits_of_bits l : to_bits (length l) (of_bits l) = l.
Proof.
  induction l as [|b l IH]; simpl; [done|].
  pose proof (of_bits_range l). f_equal.
  - apply (Z.testbit_unique _ _ _ (of_bits l) 0); [done|lia].
  - rewrite to_bits_app by done. done.
Qed.

Definition byte_bits (bs : bytes) : list bool := concat (map (λ b, to_bits 8 (Z_of_byte b)) bs).

Lemma length_byte_bits bs : length (byte_bits bs) = (8 * length bs)%nat.
Proof.
  unfold byte_bits. induction bs as [|b bs IH]; [done|].
  cbn [map concat length]. rewrite length_app, length_to_bits, IH. lia.
Qed.

(** Cutting a list into pieces of [k], at most [n] of them. *)
Fixpoint chunks {A} (n k : nat) (l : list A) : list (list A) :=
  match n, l with
  | S n', _ :: _ => take k l :: chunks n' k (drop k l)
  | _, _ => []
  end.

Lemma chunks_cons {A} n k (c l : list A) :
  (0 < k)%nat → length c = k → chunks (S n) k (c ++ l) = c :: chunks n k l.
Proof.
  intros Hk Hc. simpl. destruct (c ++ l) as [|x l'] eqn:E.
  - apply (f_equal length) in E. rewrite length_app in E. simpl in E. lia.
  - rewrite <-E, take_app_length', drop_app_length' by done. done.
Qed.

Lemma chunks_length {A} n k (l : list A) :
  (0 < k)%nat → length l = (n * k)%nat →
  length (chunks n k l) = n ∧ Forall (λ c, length c = k) (chunks n k l) ∧
  concat (chunks n k l) = l.
Proof.
  intros Hk. revert l. induction n as [|n IH]; intros l Hl.
  - apply nil_length_inv in Hl as ->. done.
  - simpl. destruct l as [|x l']; [simpl in Hl; lia|].
    set (l := x :: l') in *.
    destruct (IH (drop k l)) as (H1 & H2 & H3).
    { rewrite length_drop. lia. }
    split_and!; simpl; [by rewrite H1| |by rewrite H3, take_drop].
    constructor; [|done]. rewrite length_take. lia.
Qed.

(** ** Digits *)

Definition digit (alph : bytes) (d : Z) : byte := nth (Z.to_nat d) alph Byte.x00.
Fixpoint index (alph : bytes) (c : byte) : option Z :=
  match alph with
  | [] => None
  | x :: alph' => if decide (x = c) then Some 0 else Z.succ <$> index alph' c
  end.

(** Digits of [bs], [w] bits each, the last one filled with zero bits. *)
Definition digits_of (w : nat) (bs : bytes) : list Z :=
  let n := ((8 * length bs + (w - 1)) / w)%nat in
  map of_bits (chunks n w (byte_bits bs ++ replicate (n * w - 8 * length bs) false)).

(** The first [n] bytes that digits spell. *)
Definition bytes_of_digits (w n : nat) (ds : list Z) : bytes :=
  map (λ c, byte_of_Z (of_bits c)) (chunks n 8 (concat (map (to_bits w) ds))).

(** The leading digits of a text, and the rest. *)
Fixpoint read_digits (alph : bytes) (t : bytes) : list Z * bytes :=
  match t with
  | [] => ([], [])
  | c :: t' =>
      match index alph c with
      | Some d => let '(ds, rest) := read_digits alph t' in (d :: ds, rest)
      | None => ([], t)
      end
  end.

Definition good_alphabet (w : nat) (alph : bytes) : bool :=
  forallb (λ d, bool_decide (index alph (digit alph (Z.of_nat d)) = Some (Z.of_nat d)))
    (seq 0 (2 ^ w)).

Lemma good_alphabet_index w alph d :
  good_alphabet w alph = true → 0 ≤ d < 2 ^ Z.of_nat w → index alph (digit alph d) = Some d.
Proof.
  unfold good_alphabet. rewrite forallb_forall. intros H Hd.
  specialize (H (Z.to_nat d)). rewrite Z2Nat.id in H by lia.
  apply (bool_decide_eq_true_1 _), H, in_seq.
  pose proof (Nat2Z.inj_pow 2 w). simpl in *. lia.
Qed.

Lemma read_digits_map w alph ds rest :
  good_alphabet w alph = true → Forall (λ d, 0 ≤ d < 2 ^ Z.of_nat w) ds →
  read_digits alph (map (digit alph) ds ++ rest) =
    (ds ++ (read_digits alph rest).1, (read_digits alph rest).2).
Proof.
  intros Ha. induction 1 as [|d ds Hd _ IH]; simpl; [by destruct read_digits|].
  by rewrite (good_alphabet_index w), IH.
Qed.

Lemma digits_of_range w bs :
  (0 < w)%nat → Forall (λ d, 0 ≤ d < 2 ^ Z.of_nat w) (digits_of w bs).
Proof.
  intros Hw. unfold digits_of. apply Forall_fmap.
  set (n := ((8 * length bs + (w - 1)) / w)%nat).
  destruct (chunks_length n w (byte_bits bs ++ replicate (n * w - 8 * length bs) false))
    as (_ & H & _).
  { done. }
  { rewrite length_app, length_byte_bits, length_replicate.
    pose proof (Nat.div_mod_eq (8 * length bs + (w - 1)) w) as Hd. fold n in Hd.
    pose proof (Nat.mod_upper_bound (8 * length bs + (w - 1)) w). lia. }
  eapply Forall_impl; [exact H|]. intros c Hc. simpl. rewrite <-Hc. apply of_bits_range.
Qed.

Lemma digits_of_length w bs :
  (0 < w)%nat → length (digits_of w bs) = ((8 * length bs + (w - 1)) / w)%nat.
Proof.
  intros Hw. unfold digits_of. rewrite length_map.
  set (n := ((8 * length bs + (w - 1)) / w)%nat).
  apply chunks_length; [done|].
  rewrite length_app, length_byte_bits, length_replicate.
  pose proof (Nat.div_mod_eq (8 * length bs + (w - 1)) w) as Hd. fold n in Hd.
  pose proof (Nat.mod_upper_bound (8 * length bs + (w - 1)) w). lia.
Qed.

Lemma chunks_byte_bits bs rest :
  map (λ c, byte_of_Z (of_bits c)) (chunks (length bs) 8 (byte_bits bs ++ rest)) = bs.
Proof.
  unfold byte_bits. induction bs as [|b bs IH]; [done|].
  cbn [map concat length]. rewrite <-(assoc_L (++)), chunks_cons;
    [|lia|apply length_to_bits].
  cbn [map]. rewrite IH, of_bits_to_bits.
  rewrite Z.mod_small by (pose proof (Z_of_byte_range b); simpl; lia).
  by rewrite byte_of_Z_of_byte.
Qed.

Lemma bytes_of_digits_of w bs :
  (0 < w)%nat → bytes_of_digits w (length bs) (digits_of w bs) = bs.
Proof.
  intros Hw. unfold bytes_of_digits, digits_of.
  set (n := ((8 * length bs + (w - 1)) / w)%nat).
  destruct (chunks_length n w (byte_bits bs ++ replicate (n * w - 8 * length bs) false))
    as (_ & H2 & H3).
  { done. }
  { rewrite length_app, length_byte_bits, length_replicate.
    pose proof (Nat.div_mod_eq (8 * length bs + (w - 1)) w) as Hd. fold n in Hd.
    pose proof (Nat.mod_upper_bound (8 * length bs + (w - 1)) w). lia. }
  rewrite map_map.
  rewrite (map_ext_Forall _ id), map_id, H3; [apply chunks_byte_bits|].
  eapply Forall_impl; [exact H2|]. intros c Hc. simpl in *. rewrite <-Hc. apply to_bits_of_bits.
Qed.

(** CR and LF are skipped wherever they are. *)
Definition crlf (c : byte) : bool := bool_decide (c = Byte.x0d) || bool_decide (c = Byte.x0a).
Definition stripNewlines (t : bytes) : bytes := List.filter (λ c, negb (crlf c)) t.

Lemma stripNewlines_id t : forallb (λ c, negb (crlf c)) t = true → stripNewlines t = t.
Proof.
  unfold stripNewlines. induction t as [|c t IH]; simpl; [done|].
  intros [-> H]%andb_true_iff. by rewrite IH.
Qed.

(** ** base64.StdEncoding *)

Definition alphabet64 : bytes :=
  str "ABCDEFGHIJKLMNOPQRSTUVWXYZabcdefghijklmnopqrstuvwxyz0123456789+/".

Definition pad64 (n : nat) : bytes := replicate n Byte.x3d.

Definition EncodeToString64 (bs : bytes) : bytes :=
  let ds := digits_of 6 bs in
  map (digit alphabet64) ds ++ pad64 ((4 - length ds mod 4) mod 4)%nat.

Definition DecodeString64 (t : bytes) : option bytes :=
  let '(ds, rest) := read_digits alphabet64 (stripNewlines t) in
  let out := bytes_of_digits 6 (6 * length ds / 8) ds in
  match (length ds mod 4)%nat with
  | 0%nat => if decide (rest = []) then Some out else None
  | 2%nat => if decide (rest = pad64 2) then Some out else None
  | 3%nat => if decide (rest = pad64 1) then Some out else None
  | _ => None
  end.

(** ** base32.StdEncoding without padding *)

Definition alphabet32 : bytes := str "ABCDEFGHIJKLMNOPQRSTUVWXYZ234567".

Definition EncodeToString32 (bs : bytes) : bytes := map (digit alphabet32) (digits_of 5 bs).

(** Bytes in a last group of [n] digits; groups of 1, 3 and 6 yield none. *)
Definition tail32 (n : nat) : nat :=
  match n with 2 => 1 | 4 => 2 | 5 => 3 | 7 => 4 | _ => 0 end%nat.

Definition DecodeString32 (t : bytes) : option bytes :=
  match read_digits alphabet32 (stripNewlines t) with
  | (ds, []) => Some (bytes_of_digits 5 (5 * (length ds / 8) + tail32 (length ds mod 8)) ds)
  | _ => None
  end.

Lemma alphabet64_good : good_alphabet 6 alphabet64 = true.
Proof. by vm_compute. Qed.
Lemma alphabet32_good : good_alphabet 5 alphabet32 = true.
Proof. by vm_compute. Qed.

Lemma stripNewlines_digits w alph ds rest :
  forallb (λ d, negb (crlf (digit alph (Z.of_nat d)))) (seq 0 (2 ^ w)) = true →
  Forall (λ d, 0 ≤ d < 2 ^ Z.of_nat w) ds →
  stripNewlines (map (digit alph) ds ++ rest) = map (digit alph) ds ++ stripNewlines rest.
Proof.
  intros Ha Hds. unfold stripNewlines. rewrite List.filter_app. f_equal.
  induction Hds as [|d ds Hd _ IH]; simpl; [done|].
  rewrite forallb_forall in Ha.
  assert (Hn : negb (crlf (digit alph d)) = true).
  { specialize (Ha (Z.to_nat d)). rewrite Z2Nat.id in Ha by lia. apply Ha, in_seq.
    pose proof (Nat2Z.inj_pow 2 w). simpl in *. lia. }
  rewrite Hn. by rewrite IH.
Qed.

#[local] Ltac Zify.zify_post_hook ::= Z.to_euclidean_division_equations.

(** The digit counts the two encoders produce are the ones the decoders take
    back to the same number of bytes. *)
Lemma digit_count64 n :
  let l := ((8 * n + 5) / 6)%nat in
  (6 * l / 8 = n ∧
   (l mod 4 = 0 ∧ (4 - l mod 4) mod 4 = 0 ∨ l mod 4 = 2 ∧ (4 - l mod 4) mod 4 = 2 ∨
    l mod 4 = 3 ∧ (4 - l mod 4) mod 4 = 1))%nat.
Proof.
  intros l. pose proof (Nat.div_mod_eq n 3) as Hn. pose proof (Nat.mod_upper_bound n 3) as Hr.
  set (q := (n / 3)%nat) in *. set (r := (n mod 3)%nat) in *.
  assert (Hl : (l = 4 * q + match r with 0 => 0 | 1 => 2 | _ => 3 end)%nat).
  { subst l. clearbody q r. subst n. destruct r as [|[|[|r]]]; [lia..|]. lia. }
  clearbody q r l. subst l n. destruct r as [|[|[|r]]]; [| | |lia].
  - split; [lia|left; lia].
  - split; [lia|right; left; lia].
  - split; [lia|right; right; lia].
Qed.

Lemma digit_count32 n :
  let l := ((8 * n + 4) / 5)%nat in (5 * (l / 8) + tail32 (l mod 8) = n)%nat.
Proof.
  intros l. pose proof (Nat.div_mod_eq n 5) as Hn. pose proof (Nat.mod_upper_bound n 5) as Hr.
  set (q := (n / 5)%nat) in *. set (r := (n mod 5)%nat) in *.
  set (k := (match r with 0 => 0 | 1 => 2 | 2 => 4 | 3 => 5 | _ => 7 end)%nat).
  assert (Hl : (l = 8 * q + k ∧ k < 8)%nat).
  { subst l k. clearbody q r. subst n. destruct r as [|[|[|[|[|r]]]]]; lia. }
  destruct Hl as [Hl Hk].
  assert (Hd : (l / 8 = q ∧ l mod 8 = k)%nat) by (clearbody l k; lia).
  destruct Hd as [-> ->]. subst k. clearbody q r. subst n.
  destruct r as [|[|[|[|[|r]]]]]; simpl; lia.
Qed.

Lemma DecodeString64_Encode bs : DecodeString64 (EncodeToString64 bs) = Some bs.
Proof.
  unfold DecodeString64, EncodeToString64.
  pose proof (digits_of_range 6 bs ltac:(lia)) as Hr.
  pose proof (digits_of_length 6 bs ltac:(lia)) as Hl. cbn [Nat.sub] in Hl.
  pose proof (digit_count64 (length bs)) as [H8 H4]. rewrite <-Hl in H8, H4.
  rewrite (stripNewlines_digits 6) by (by vm_compute || done).
  assert (Hp : ∀ n, stripNewlines (pad64 n) = pad64 n ∧ read_digits alphabet64 (pad64 n) = ([], pad64 n)).
  { intros n. split; [|by destruct n].
    unfold pad64. induction n as [|n IH]; [done|]. simpl. by rewrite IH. }
  rewrite (proj1 (Hp _)), (read_digits_map 6) by (apply alphabet64_good || done).
  rewrite (proj2 (Hp _)). cbn [fst snd]. rewrite app_nil_r, H8.
  rewrite bytes_of_digits_of by lia.
  destruct H4 as [[E1 E2]|[[E1 E2]|[E1 E2]]]; rewrite E2, E1; by rewrite decide_True.
Qed.

Lemma DecodeString32_Encode bs : DecodeString32 (EncodeToString32 bs) = Some bs.
Proof.
  unfold DecodeString32, EncodeToString32.
  pose proof (digits_of_range 5 bs ltac:(lia)) as Hr.
  pose proof (digits_of_length 5 bs ltac:(lia)) as Hl. cbn [Nat.sub] in Hl.
  pose proof (digit_count32 (length bs)) as H. rewrite <-Hl in H.
  rewrite <-(app_nil_r (map _ _)).
  rewrite (stripNewlines_digits 5) by (by vm_compute || done).
  rewrite (read_digits_map 5) by (apply alphabet32_good || done).
  cbn [fst snd stripNewlines List.filter read_digits]. rewrite app_nil_r, H.
  by rewrite bytes_of_digits_of by lia.
Qed.

(** The text of n bytes has one digit per 6 bits, filled up to a multiple of 4. *)
Lemma EncodeToString64_length bs :
  length (EncodeToString64 bs) = (4 * ((length bs + 2) / 3))%nat.
Proof.
  unfold EncodeToString64, pad64. rewrite length_app, length_map, length_replicate.
  rewrite digits_of_length by lia. lia.
Qed.

Example base64_examples :
  EncodeToString64 (str "abc") = str "YWJj" ∧ EncodeToString64 (str "ab") = str "YWI=" ∧
  EncodeToString64 (str "a") = str "YQ==" ∧ DecodeString64 (str "YW" ++ [Byte.x0a] ++ str "I=") = Some (str "ab") ∧
  DecodeString64 (str "YWI") = None ∧ DecodeString64 (str "not base64!") = None ∧
  EncodeToString32 (str "abc") = str "MFRGG" ∧ DecodeString32 (str "MFRGG") = Some (str "abc").
Proof. by vm_compute. Qed.
