(* ===== verification/Identity.v ===== *)
(** * Identity: keys and signatures (internal/trust/identity.go)

    A node identity is an Ed25519 public key, 32 bytes, printed in base64.
    The signature scheme itself is a class: its operations are those of
    [crypto/ed25519], its one law is that a signature made with a seed verifies
    under the public key of that seed. *)

From S2P Require Import Prelude Encoding.

(** ** Public keys *)

Definition PublicKeySize : nat := 32.

(** [type PublicKey [ed25519.PublicKeySize]byte] *)
Definition PublicKey : Type := { k : bytes | length k = PublicKeySize }.

#[export] Instance PublicKey_eq_dec : EqDecision PublicKey.
Proof. unfold PublicKey. apply _. Defined.
#[export] Instance PublicKey_countable : Countable PublicKey.
Proof. unfold PublicKey. apply _. Defined.

Definition key_bytes (k : PublicKey) : bytes := proj1_sig k.
Definition mk_key (b : bytes) (H : length b = PublicKeySize) : PublicKey := exist _ b H.

Lemma key_bytes_length k : length (key_bytes k) = PublicKeySize.
Proof. by destruct k. Qed.

Lemma key_bytes_inj j k : key_bytes j = key_bytes k → j = k.
Proof. apply (proj2 (sig_eq_pi _ j k)). Qed.

(** The zero value [PublicKey{}]. *)
Definition zeroKey : PublicKey := mk_key (replicate PublicKeySize Byte.x00) eq_refl.

(** The key whose bytes all are [b]; the examples name nodes this way. *)
Definition key_of (b : byte) : PublicKey := mk_key (replicate PublicKeySize b) eq_refl.

(** [bytes.Compare(j[:], k[:]) < 0] *)
Definition key_ltb (j k : PublicKey) : bool := bytes_ltb (key_bytes j) (key_bytes k).

Lemma key_ltb_irrefl k : key_ltb k k = false.
Proof. apply bytes_ltb_irrefl. Qed.
Lemma key_ltb_trans i j k : key_ltb i j = true → key_ltb j k = true → key_ltb i k = true.
Proof. apply bytes_ltb_trans. Qed.
Lemma key_ltb_asym j k : key_ltb j k = true → key_ltb k j = false.
Proof. apply bytes_ltb_asym. Qed.
Lemma key_ltb_total j k : j ≠ k → key_ltb j k = true ∨ key_ltb k j = true.
Proof. intros H. apply bytes_ltb_total. intros E. by apply H, key_bytes_inj. Qed.

(** [PublicKey.String] and [PublicKey.Short] *)
Definition PublicKey_String (k : PublicKey) : bytes := EncodeToString64 (key_bytes k).
Definition PublicKey_Short (k : PublicKey) : bytes := take 8 (PublicKey_String k).

(** [decodeKey]: the bytes of a base64 text, if there are exactly [n]. *)
Definition decodeKey (n : nat) (text : bytes) : result { b : bytes | length b = n } :=
  match DecodeString64 text with
  | None => Err "illegal base64 data"
  | Some b =>
      match decide (length b = n) with
      | left H => Ok (exist _ b H)
      | right _ => Err "want %d bytes, got %d"
      end
  end.

(** [PublicKey.MarshalText] and [PublicKey.UnmarshalText], which never leaves
    its receiver half decoded. *)
Definition MarshalText (k : PublicKey) : result bytes := Ok (PublicKey_String k).
Definition UnmarshalText (text : bytes) : result PublicKey := decodeKey PublicKeySize text.

Definition ParsePublicKey (s : bytes) : result PublicKey := UnmarshalText s.

(** ** The signature scheme *)

Class Ed25519 := {
  ed_public : bytes → PublicKey;                 (* NewKeyFromSeed(seed).Public() *)
  ed_sign : bytes → bytes → bytes;               (* Sign(NewKeyFromSeed(seed), msg) *)
  ed_verify : PublicKey → bytes → bytes → bool;  (* Verify(public, msg, sig) *)
}.

(** Documented behaviour of the package: what is signed verifies. *)
Class Ed25519Ok `{!Ed25519} : Prop :=
  ed_sign_verify : ∀ seed msg, ed_verify (ed_public seed) msg (ed_sign seed msg) = true.

Definition seedLen : nat := 32.

(** A node's key material: its seed; the signing key is derived from it. *)
Record Identity := MkIdentity { id_seed : bytes }.

Section identity.
Context `{!Ed25519}.

Definition IdentityFromSeed (seed : bytes) : result Identity :=
  if decide (length seed = seedLen) then Ok (MkIdentity seed)
  else Err "identity seed must be %d bytes, got %d".

(** [NewIdentity]; [random] is what [rand.Read] filled the seed with, if it did. *)
Definition NewIdentity (random : option bytes) : result Identity :=
  match random with
  | Some seed => IdentityFromSeed seed
  | None => Err "reading random source"
  end.

Definition Seed (i : Identity) : bytes := id_seed i.
Definition Public (i : Identity) : PublicKey := ed_public (id_seed i).
Definition Sign (i : Identity) (msg : bytes) : bytes := ed_sign (id_seed i) msg.
Definition Verify (identity : PublicKey) (msg sig : bytes) : bool := ed_verify identity msg sig.

Lemma Sign_Verify `{!Ed25519Ok} i msg : Verify (Public i) msg (Sign i msg) = true.
Proof. apply ed_sign_verify. Qed.
End identity.

(** ** A concrete scheme, for the examples: the public key is the first 32
    bytes of the seed, filled with zeros, and a signature is the public key
    followed by the message. *)
Module Toy.
Definition fill (b : bytes) : bytes := take PublicKeySize (b ++ replicate PublicKeySize Byte.x00).
Lemma fill_length b : length (fill b) = PublicKeySize.
Proof.
  unfold fill. rewrite length_take, length_app, length_replicate.
  unfold PublicKeySize. lia.
Qed.
(** The same list, with a length proof that evaluates. *)
Definition toy_public (seed : bytes) : PublicKey :=
  match decide (length (fill seed) = PublicKeySize) with
  | left H => mk_key (fill seed) H
  | right _ => zeroKey
  end.
#[export] Instance toy : Ed25519 := {
  ed_public := toy_public;
  ed_sign seed msg := key_bytes (toy_public seed) ++ msg;
  ed_verify k msg sig := bool_decide (sig = key_bytes k ++ msg);
}.
#[export] Instance toy_ok : Ed25519Ok.
Proof. intros seed msg. apply bool_decide_eq_true_2. done. Qed.

(** The identity whose seed is [b] repeated, and whose key is [key_of b]. *)
Definition node (b : byte) : Identity := MkIdentity (replicate seedLen b).
End Toy.

(** ** Properties *)

Lemma parse_printed_key k : ParsePublicKey (PublicKey_String k) = Ok k.
Proof.
  unfold ParsePublicKey, UnmarshalText, decodeKey, PublicKey_String. rewrite DecodeString64_Encode.
  destruct (decide (length (key_bytes k) = PublicKeySize)) as [H|H].
  - f_equal. by apply key_bytes_inj.
  - by destruct (H (key_bytes_length k)).
Qed.

(** An identity survives being printed and parsed. *)
Theorem ParsePublicKey_roundtrip k : ParsePublicKey (PublicKey_String k) = Ok k.
Proof. apply parse_printed_key. Qed.

(** So does one in a record or a state file, whose encoder calls these. *)
Theorem MarshalText_roundtrip k text : MarshalText k = Ok text → UnmarshalText text = Ok k.
Proof. intros [= <-]. apply parse_printed_key. Qed.

(** The printed form determines the identity, it has 44 characters, and the
    8-character fingerprint [Short] slices is always there. *)
Lemma PublicKey_String_inj j k : PublicKey_String j = PublicKey_String k → j = k.
Proof.
  intros H. pose proof (parse_printed_key j) as Hj. rewrite H in Hj.
  rewrite parse_printed_key in Hj. by simplify_eq.
Qed.

Lemma PublicKey_String_length k : length (PublicKey_String k) = 44%nat ∧ length (PublicKey_Short k) = 8%nat.
Proof.
  assert (H : length (PublicKey_String k) = 44%nat).
  { unfold PublicKey_String. rewrite EncodeToString64_length, key_bytes_length. done. }
  split; [done|]. unfold PublicKey_Short. rewrite length_take, H. done.
Qed.

Lemma ParsePublicKey_Ok s k : ParsePublicKey s = Ok k → DecodeString64 s = Some (key_bytes k).
Proof.
  unfold ParsePublicKey, UnmarshalText, decodeKey. destruct (DecodeString64 s) as [b|]; [|done].
  destruct (decide _); [|done]. by intros [= <-].
Qed.
