(* ===== verification/Records.v ===== *)
(** * Records: admissions, revocations and node metadata (internal/trust/records.go)

    The signed records membership is made of, the canonical bytes they are
    signed over, and the digest of gossiped metadata. Signed bytes determine
    the record they were made from, and a record of one kind never has the
    bytes of a record of another. *)

From S2P Require Import Prelude Wire Netip Encoding Identity.

(** ** Data *)

Record Admission := MkAdmission {
  adm_Identity : PublicKey;
  adm_Name : bytes;
  adm_Host : Z;               (* uint64 *)
  adm_Admitter : PublicKey;
  adm_IssuedAt : Z;           (* int64, unix seconds *)
  adm_Signature : bytes;
}.

Record Revocation := MkRevocation {
  rev_Identity : PublicKey;
  rev_Revoker : PublicKey;
  rev_IssuedAt : Z;           (* int64 *)
  rev_Signature : bytes;
}.

#[export] Instance Admission_eq_dec : EqDecision Admission.
Proof. solve_decision. Defined.
#[export] Instance Revocation_eq_dec : EqDecision Revocation.
Proof. solve_decision. Defined.

Definition rootHost : Z := 1.

Definition admissionDomain : bytes := str "cheesecloth/admission/v2".
Definition revocationDomain : bytes := str "cheesecloth/revocation/v1".
Definition metaDomain : bytes := str "cheesecloth/meta/v1".

(** ** Signed bytes *)

Definition i64_bytes (v : Z) : bytes := be_bytes 8 (u64 v).
Definition u64_bytes (v : Z) : bytes := be_bytes 8 (u64 v).

Definition adm_signedBytes (a : Admission) : bytes :=
  Canonical admissionDomain
    [key_bytes (adm_Identity a); adm_Name a; u64_bytes (adm_Host a);
     key_bytes (adm_Admitter a); i64_bytes (adm_IssuedAt a)].

Definition rev_signedBytes (r : Revocation) : bytes :=
  Canonical revocationDomain
    [key_bytes (rev_Identity r); key_bytes (rev_Revoker r); i64_bytes (rev_IssuedAt r)].

(** One field per extra network: address bytes, then the prefix length as one byte. *)
Definition prefix_field (p : Prefix) : bytes := AsSlice (pfx_Addr p) ++ [byte_of_Z (Bits p)].

Definition MetaDigest (name : bytes) (overlay : Addr) (wgPubKey : bytes)
    (allowedIPs : list Prefix) : bytes :=
  Canonical metaDomain ([name; AsSlice overlay; wgPubKey] ++ map prefix_field allowedIPs).

(** ** Making and checking records *)

Section records.
Context `{!Ed25519}.

(** [now] is the clock reading [now.Unix()]. *)
Definition Admit (admitter : Identity) (identity : PublicKey) (name : bytes)
    (host now : Z) : Admission :=
  let a := MkAdmission identity name host (Public admitter) now [] in
  MkAdmission identity name host (Public admitter) now (Sign admitter (adm_signedBytes a)).

Definition SelfAdmit (id : Identity) (name : bytes) (now : Z) : Admission :=
  Admit id (Public id) name rootHost now.

Definition Revoke (revoker : Identity) (identity : PublicKey) (now : Z) : Revocation :=
  let r := MkRevocation identity (Public revoker) now [] in
  MkRevocation identity (Public revoker) now (Sign revoker (rev_signedBytes r)).

Definition adm_Validate (a : Admission) : result unit :=
  if decide (adm_Name a = []) then Err "admission without a name"
  else if adm_Host a =? 0 then Err "admission without an overlay slot"
  else if negb (Verify (adm_Admitter a) (adm_signedBytes a) (adm_Signature a))
  then Err "admission signature does not verify"
  else Ok ().

Definition rev_Validate (r : Revocation) : result unit :=
  if negb (Verify (rev_Revoker r) (rev_signedBytes r) (rev_Signature r))
  then Err "revocation signature does not verify"
  else Ok ().
End records.

(** The ranges the Go types give the fields, and names short enough for the
    length prefix. *)
Definition adm_typed (a : Admission) : Prop :=
  field_fits (adm_Name a) ∧ uint64_range (adm_Host a) ∧ int64_range (adm_IssuedAt a).
Definition rev_typed (r : Revocation) : Prop := int64_range (rev_IssuedAt r).

(** ** Lemmas *)

Lemma u64_bytes_inj x y : uint64_range x → uint64_range y → u64_bytes x = u64_bytes y → x = y.
Proof.
  unfold u64_bytes. intros Hx Hy H. rewrite !u64_id in H by done.
  unfold uint64_range in *. by apply be_bytes_inj in H.
Qed.

Lemma i64_bytes_inj x y : int64_range x → int64_range y → i64_bytes x = i64_bytes y → x = y.
Proof.
  intros Hx Hy H. apply u64_int64_inj; [done..|].
  apply be_bytes_inj in H; [done|apply Z.mod_pos_bound; lia|apply Z.mod_pos_bound; lia].
Qed.

Lemma key_field_fits k : field_fits (key_bytes k).
Proof. unfold field_fits. rewrite key_bytes_length. done. Qed.

Lemma be_field_fits n z : (n < 100)%nat → field_fits (be_bytes n z).
Proof. intros H. unfold field_fits. rewrite length_be_bytes. lia. Qed.

Lemma AsSlice_field_fits a : field_fits (AsSlice a).
Proof. unfold field_fits. rewrite AsSlice_length. by destruct a. Qed.

Lemma prefix_field_fits p : field_fits (prefix_field p).
Proof.
  unfold field_fits, prefix_field. rewrite length_app, AsSlice_length.
  by destruct (pfx_Addr p).
Qed.

#[export] Hint Resolve key_field_fits AsSlice_field_fits prefix_field_fits : cheesecloth.
#[export] Hint Extern 1 (field_fits (u64_bytes _)) => (apply be_field_fits; lia) : cheesecloth.
#[export] Hint Extern 1 (field_fits (i64_bytes _)) => (apply be_field_fits; lia) : cheesecloth.

(** Every field of a signed message fits its length prefix. *)
Ltac solve_fits :=
  repeat first [apply Forall_cons_2 | apply Forall_nil_2]; auto with cheesecloth.

Lemma prefix_fields_fit l : Forall field_fits (map prefix_field l).
Proof. apply Forall_fmap, Forall_true. auto with cheesecloth. Qed.
#[export] Hint Resolve prefix_fields_fit : cheesecloth.

Lemma domains_no_nul :
  no_nul admissionDomain ∧ no_nul revocationDomain ∧ no_nul metaDomain.
Proof. split_and!; apply (bool_decide_unpack _); by vm_compute. Qed.

Lemma prefix_field_inj p q :
  prefix_wf p → prefix_wf q → prefix_field p = prefix_field q → p = q.
Proof.
  intros (Hp1 & Hp2 & Hp3) (Hq1 & Hq2 & Hq3) H. unfold prefix_field in H.
  apply app_inj_2 in H as [Ha [= Hb]]; [|done].
  apply AsSlice_inj in Ha; [|done..].
  destruct p as [a b], q as [c d]; simpl in *.
  assert (a = c) as <-.
  { destruct a as [| |? []], c as [| |? []]; simpl in *; congruence. }
  f_equal. apply (f_equal Z_of_byte) in Hb. rewrite !Z_of_byte_of_Z in Hb.
  assert (Hr : ∀ x, x = -1 ∨ Addr_IsValid a = true ∧ 0 ≤ x ≤ BitLen a →
               -1 ≤ x < 255).
  { intros x. destruct a; simpl; lia. }
  apply Hr in Hp3, Hq3.
  assert (E : ∀ x, -1 ≤ x < 255 → x `mod` 256 = if x =? -1 then 255 else x).
  { intros x Hx. destruct (Z.eqb_spec x (-1)) as [->|]; [done|]. apply Z.mod_small. lia. }
  rewrite !E in Hb by done. destruct (Z.eqb_spec b (-1)), (Z.eqb_spec d (-1)); lia.
Qed.

Lemma adm_signedBytes_inj a b :
  adm_typed a → adm_typed b → adm_signedBytes a = adm_signedBytes b →
  adm_Identity a = adm_Identity b ∧ adm_Name a = adm_Name b ∧ adm_Host a = adm_Host b ∧
  adm_Admitter a = adm_Admitter b ∧ adm_IssuedAt a = adm_IssuedAt b.
Proof.
  intros (Hna & Hha & Hta) (Hnb & Hhb & Htb) H.
  destruct domains_no_nul as (Hd & _ & _).
  apply canonical_bytes_inj in H as [_ H]; [|done|done|solve_fits..].
  do 4 apply cons_inj in H as [? H]. apply cons_inj in H as [? _].
  split_and!; auto using key_bytes_inj, u64_bytes_inj, i64_bytes_inj.
Qed.

Lemma rev_signedBytes_inj r s :
  rev_typed r → rev_typed s → rev_signedBytes r = rev_signedBytes s →
  rev_Identity r = rev_Identity s ∧ rev_Revoker r = rev_Revoker s ∧
  rev_IssuedAt r = rev_IssuedAt s.
Proof.
  intros Hr Hs H. destruct domains_no_nul as (_ & Hd & _).
  apply canonical_bytes_inj in H as [_ H]; [|done|done|solve_fits..].
  do 3 apply cons_inj in H as [? H]. split_and!; auto using key_bytes_inj, i64_bytes_inj.
Qed.

Lemma MetaDigest_inj n a w ps n' a' w' ps' :
  field_fits n → field_fits n' → field_fits w → field_fits w' →
  addr_wf a → addr_wf a' → Forall prefix_wf ps → Forall prefix_wf ps' →
  MetaDigest n a w ps = MetaDigest n' a' w' ps' →
  n = n' ∧ withoutZone a = withoutZone a' ∧ w = w' ∧ ps = ps'.
Proof.
  intros Hn Hn' Hw Hw' Ha Ha' Hps Hps' H. destruct domains_no_nul as (_ & _ & Hd).
  apply canonical_bytes_inj in H as [_ H]; [|done|done|solve_fits..].
  apply cons_inj in H as [-> H]. apply cons_inj in H as [H2 H].
  apply cons_inj in H as [-> H4]. split_and!; [done|by apply AsSlice_inj|done|].
  revert ps' Hps' H4. induction Hps as [|p ps Hp _ IH]; intros [|q qs] Hqs H4; try done.
  inversion Hqs; subst. apply cons_inj in H4 as [H4 H5].
  f_equal; [by apply prefix_field_inj|by apply IH].
Qed.

(** ** Properties *)

(** Anything a node signs: the two kinds of record, and its metadata. *)
Inductive signable :=
  | SgAdmission (a : Admission)
  | SgRevocation (r : Revocation)
  | SgMeta (name : bytes) (overlay : Addr) (wgPubKey : bytes) (allowedIPs : list Prefix).

Definition signable_bytes (x : signable) : bytes :=
  match x with
  | SgAdmission a => adm_signedBytes a
  | SgRevocation r => rev_signedBytes r
  | SgMeta n o w ps => MetaDigest n o w ps
  end.

Definition signable_typed (x : signable) : Prop :=
  match x with
  | SgAdmission a => adm_typed a
  | SgRevocation r => rev_typed r
  | SgMeta n o w ps => field_fits n ∧ field_fits w ∧ addr_wf o ∧ Forall prefix_wf ps
  end.

(** The same message: the same kind, and equal fields, the signature apart. An
    IPv6 zone is not part of an address on the wire. *)
Definition same_content (x y : signable) : Prop :=
  match x, y with
  | SgAdmission a, SgAdmission b =>
      adm_Identity a = adm_Identity b ∧ adm_Name a = adm_Name b ∧ adm_Host a = adm_Host b ∧
      adm_Admitter a = adm_Admitter b ∧ adm_IssuedAt a = adm_IssuedAt b
  | SgRevocation r, SgRevocation s =>
      rev_Identity r = rev_Identity s ∧ rev_Revoker r = rev_Revoker s ∧
      rev_IssuedAt r = rev_IssuedAt s
  | SgMeta n o w ps, SgMeta n' o' w' ps' =>
      n = n' ∧ withoutZone o = withoutZone o' ∧ w = w' ∧ ps = ps'
  | _, _ => False
  end.

(** C24: signed bytes are unambiguous across everything a node signs. If two of
    admissions, revocations and metadata announcements have the same signed
    bytes, they are of the same kind and agree on every field, so a signature
    covers one message only and cannot be moved to another. *)
Theorem signable_bytes_inj x y :
  signable_typed x → signable_typed y → signable_bytes x = signable_bytes y → same_content x y.
Proof.
  assert (Hdiff : ∀ d e fs gs, no_nul d → no_nul e → d ≠ e →
            Forall field_fits fs → Forall field_fits gs → Canonical d fs ≠ Canonical e gs).
  { intros d e fs gs Hd He Hne Hfs Hgs H. by apply canonical_bytes_inj in H as [? _]. }
  destruct domains_no_nul as (Hd1 & Hd2 & Hd3).
  destruct x as [a|r|n o w ps], y as [b|s|n' o' w' ps']; unfold signable_typed, signable_bytes, same_content, adm_typed; intros Hx Hy H;
    try (exfalso; revert H; apply Hdiff; [done|done|by vm_compute|..];
         destruct_and?; simpl; solve_fits).
  - by apply adm_signedBytes_inj.
  - by apply rev_signedBytes_inj.
  - destruct_and!. by apply MetaDigest_inj.
Qed.

Section witness.
#[local] Existing Instance Toy.toy.

Lemma signable_bytes_inj_witness :
let a := SelfAdmit (Toy.node Byte.x01) (str "root") 1000 in
let b := MkAdmission (adm_Identity a) (adm_Name a) (adm_Host a) (adm_Admitter a)
           (adm_IssuedAt a) [] in
signable_typed (SgAdmission a) ∧ signable_typed (SgAdmission b) ∧
signable_bytes (SgAdmission a) = signable_bytes (SgAdmission b) ∧
same_content (SgAdmission a) (SgAdmission b).
Proof.
split; [by split_and!|]. split; [by split_and!|]. split; [done|].
apply signable_bytes_inj; [by split_and!|by split_and!|done].
Defined.
End witness.

(** Records made by the package pass their own checks. *)
Section validate.
Context `{!Ed25519, !Ed25519Ok}.

Lemma Admit_Validate admitter k name host now :
  name ≠ [] → host ≠ 0 → adm_Validate (Admit admitter k name host now) = Ok ().
Proof.
  intros Hn Hh. unfold adm_Validate, Admit. simpl.
  rewrite decide_False, (proj2 (Z.eqb_neq _ _)) by done.
  unfold adm_signedBytes. simpl. by rewrite Sign_Verify.
Qed.

Lemma Revoke_Validate revoker k now : rev_Validate (Revoke revoker k now) = Ok ().
Proof.
  unfold rev_Validate, Revoke. simpl. unfold rev_signedBytes. simpl.
  by rewrite Sign_Verify.
Qed.
End validate.

(** A record that passes the check has a name and a slot, and a signature of
    its admitter over its signed bytes. *)
Lemma adm_Validate_Ok `{!Ed25519} a :
  adm_Validate a = Ok () ↔
  adm_Name a ≠ [] ∧ adm_Host a ≠ 0 ∧
  Verify (adm_Admitter a) (adm_signedBytes a) (adm_Signature a) = true.
Proof.
  unfold adm_Validate. case_decide; [naive_solver|].
  destruct (Z.eqb_spec (adm_Host a) 0); [naive_solver|].
  destruct (Verify _ _ _); naive_solver.
Qed.

Lemma rev_Validate_Ok `{!Ed25519} r :
  rev_Validate r = Ok () ↔ Verify (rev_Revoker r) (rev_signedBytes r) (rev_Signature r) = true.
Proof. unfold rev_Validate. destruct (Verify _ _ _); naive_solver. Qed.
