(* ===== verification/TrustSet.v ===== *)
(** * TrustSet: the record set (internal/trust/set.go, the state and its updates)

    The pinned root and every signature-valid record seen, at most one
    admission and one revocation per identity. This file has the state, the
    operations that change it ([AddAdmission], [AddRevocation], [Merge]) and
    [Records]; who counts as a member is decided in Validity. *)

From S2P Require Import Prelude Wire Encoding Identity Records.

(** ** State *)

(** [trust.Records], the wire and file form of a set. *)
Record trust_Records := MkRecords {
  Admissions : list Admission;
  Revocations : list Revocation;
}.

#[export] Instance trust_Records_eq_dec : EqDecision trust_Records.
Proof. solve_decision. Defined.

(** [trust.Set]. [members] is the cache of identities found valid; a plain set
    here, its concurrent use is the subject of SetCache. *)
Record TrustSet := MkSet {
  root : PublicKey;
  admissions : gmap PublicKey Admission;
  revocations : gmap PublicKey Revocation;
  members : gset PublicKey;
}.

Definition NewSet (r : PublicKey) : TrustSet := MkSet r ∅ ∅ ∅.

(** Drops the cached answers. *)
Definition forget (s : TrustSet) : TrustSet :=
  MkSet (root s) (admissions s) (revocations s) ∅.

Definition set_admissions (s : TrustSet) (m : gmap PublicKey Admission) : TrustSet :=
  MkSet (root s) m (revocations s) (members s).
Definition set_revocations (s : TrustSet) (m : gmap PublicKey Revocation) : TrustSet :=
  MkSet (root s) (admissions s) m (members s).

(** ** Operations *)

Section operations.
Context `{!Ed25519}.

Definition AddAdmission (s : TrustSet) (a : Admission) : result bool * TrustSet :=
  match adm_Validate a with
  | Err e => (Err e, s)
  | Ok _ =>
      if bool_decide (adm_Admitter a = adm_Identity a) && negb (bool_decide (adm_Identity a = root s))
      then (Err "self-signed admission is not the pinned root", s)
      else
        let newer :=
          match admissions s !! adm_Identity a with
          | Some cur => adm_IssuedAt a <=? adm_IssuedAt cur   (* cur.IssuedAt >= a.IssuedAt *)
          | None => false
          end in
        if newer then (Ok false, s)
        else (Ok true, forget (set_admissions s (<[adm_Identity a := a]> (admissions s))))
  end.

Definition AddRevocation (s : TrustSet) (r : Revocation) : result bool * TrustSet :=
  match rev_Validate r with
  | Err e => (Err e, s)
  | Ok _ =>
      match revocations s !! rev_Identity r with
      | Some _ => (Ok false, s)
      | None => (Ok true, forget (set_revocations s (<[rev_Identity r := r]> (revocations s))))
      end
  end.

(** One turn of a [Merge] loop: [if ok, _ := add(x); ok { changed++ }]. *)
Definition count_change {A} (add : TrustSet → A → result bool * TrustSet)
    (acc : Z * TrustSet) (x : A) : Z * TrustSet :=
  match add acc.2 x with
  | (Ok true, s') => (acc.1 + 1, s')
  | (_, s') => (acc.1, s')
  end.

Definition Merge (s : TrustSet) (rs : trust_Records) : Z * TrustSet :=
  let acc := foldl (count_change AddAdmission) (0, s) (Admissions rs) in
  foldl (count_change AddRevocation) acc (Revocations rs).
End operations.

(** Sorting by identity, as [slices.SortFunc] with [bytes.Compare]. *)
Definition key_le (j k : PublicKey) : Prop := key_ltb k j = false.
#[export] Instance key_le_dec j k : Decision (key_le j k).
Proof. unfold key_le. apply _. Defined.

Definition adm_le (a b : Admission) : Prop := key_le (adm_Identity a) (adm_Identity b).
Definition rev_le (a b : Revocation) : Prop := key_le (rev_Identity a) (rev_Identity b).
#[export] Instance adm_le_dec a b : Decision (adm_le a b).
Proof. unfold adm_le. apply _. Defined.
#[export] Instance rev_le_dec a b : Decision (rev_le a b).
Proof. unfold rev_le. apply _. Defined.

(** [Set.Records]: the contents, sorted by identity. The maps are iterated in
    the order of [map_to_list]; Convergence shows that Go's random iteration
    order gives the same result. *)
Definition Records (s : TrustSet) : trust_Records :=
  MkRecords (merge_sort adm_le (map_to_list (admissions s)).*2)
            (merge_sort rev_le (map_to_list (revocations s)).*2).

(** [Set.Lookup] *)
Definition Lookup_ (s : TrustSet) (id : PublicKey) : option Admission := admissions s !! id.

(** ** Invariant *)

(** What the map entries of a set always satisfy. *)
Definition good_adm `{!Ed25519} (r : PublicKey) (a : Admission) : Prop :=
  adm_Validate a = Ok () ∧ (adm_Admitter a = adm_Identity a → adm_Identity a = r).
#[export] Instance good_adm_dec `{!Ed25519} r a : Decision (good_adm r a).
Proof.
  unfold good_adm.
  assert (Decision (adm_Validate a = Ok ())).
  { destruct (adm_Validate a) as [[]|e]; [left|right]; done. }
  apply _.
Defined.

Record set_wf `{!Ed25519} (s : TrustSet) : Prop := {
  wf_adm : map_Forall (λ k a, adm_Identity a = k ∧ good_adm (root s) a) (admissions s);
  wf_rev : map_Forall (λ k r, rev_Identity r = k ∧ rev_Validate r = Ok ()) (revocations s);
}.

(** ** Lemmas on the order *)

#[export] Instance key_le_total : Total key_le.
Proof.
  intros j k. unfold key_le. destruct (key_ltb k j) eqn:E; [right|by left].
  by apply key_ltb_asym.
Qed.
#[export] Instance key_le_trans : Transitive key_le.
Proof.
  intros i j k. unfold key_le. intros H1 H2.
  destruct (key_ltb k i) eqn:E; [|done]. exfalso.
  destruct (decide (i = j)) as [->|Hij]; [congruence|].
  destruct (key_ltb_total i j Hij) as [H|H]; [|congruence].
  pose proof (key_ltb_trans k i j E H). congruence.
Qed.
Lemma key_le_antisym j k : key_le j k → key_le k j → j = k.
Proof.
  unfold key_le. intros H1 H2. destruct (decide (j = k)) as [|H]; [done|].
  destruct (key_ltb_total j k H); congruence.
Qed.
#[export] Instance adm_le_total : Total adm_le.
Proof. intros a b. apply key_le_total. Qed.
#[export] Instance adm_le_trans : Transitive adm_le.
Proof. intros a b c. apply key_le_trans. Qed.
#[export] Instance rev_le_total : Total rev_le.
Proof. intros a b. apply key_le_total. Qed.
#[export] Instance rev_le_trans : Transitive rev_le.
Proof. intros a b c. apply key_le_trans. Qed.

(** ** What the updates do *)

Section updates.
Context `{!Ed25519}.
Implicit Types (s : TrustSet) (a : Admission) (r : Revocation).

(** Whether [a] takes the place of what the set has for its identity. *)
Definition adm_accepted s a : Prop :=
  good_adm (root s) a ∧
  ∀ cur, admissions s !! adm_Identity a = Some cur → adm_IssuedAt cur < adm_IssuedAt a.

Definition rev_accepted s r : Prop :=
  rev_Validate r = Ok () ∧ revocations s !! rev_Identity r = None.

Lemma AddAdmission_cases s a :
  (adm_accepted s a ∧
     AddAdmission s a = (Ok true, MkSet (root s) (<[adm_Identity a := a]> (admissions s)) (revocations s) ∅)) ∨
  (¬ adm_accepted s a ∧ (AddAdmission s a).2 = s ∧ (AddAdmission s a).1 ≠ Ok true).
Proof.
  unfold AddAdmission, adm_accepted, good_adm.
  destruct (adm_Validate a) as [[]|e]; [|right; naive_solver].
  destruct (bool_decide_reflect (adm_Admitter a = adm_Identity a)) as [Hs|Hs];
    destruct (bool_decide_reflect (adm_Identity a = root s)) as [Hr|Hr]; simpl.
  2: { right. naive_solver. }
  all: destruct (admissions s !! adm_Identity a) as [cur|] eqn:E;
    [destruct (Z.leb_spec (adm_IssuedAt a) (adm_IssuedAt cur))|];
    [right|left|left]; simpl;
    (split_and!; try done; try (intros [_ H']; specialize (H' _ eq_refl); lia);
     try (intros ? [= <-]; lia)).
Qed.

Lemma AddRevocation_cases s r :
  (rev_accepted s r ∧
     AddRevocation s r = (Ok true, MkSet (root s) (admissions s) (<[rev_Identity r := r]> (revocations s)) ∅)) ∨
  (¬ rev_accepted s r ∧ (AddRevocation s r).2 = s ∧ (AddRevocation s r).1 ≠ Ok true).
Proof.
  unfold AddRevocation, rev_accepted.
  destruct (rev_Validate r) as [[]|e]; [|right; naive_solver].
  destruct (revocations s !! rev_Identity r) eqn:E; [right|left]; naive_solver.
Qed.

Lemma AddAdmission_root s a : root (AddAdmission s a).2 = root s.
Proof. by destruct (AddAdmission_cases s a) as [[_ ->]|(_ & -> & _)]. Qed.
Lemma AddRevocation_root s r : root (AddRevocation s r).2 = root s.
Proof. by destruct (AddRevocation_cases s r) as [[_ ->]|(_ & -> & _)]. Qed.

Lemma NewSet_wf k : set_wf (NewSet k).
Proof. split; apply map_Forall_empty. Qed.

Lemma AddAdmission_wf s a : set_wf s → set_wf (AddAdmission s a).2.
Proof.
  intros [Ha Hr]. destruct (AddAdmission_cases s a) as [[[Hg _] ->]|(_ & -> & _)]; [|done].
  split; simpl; [|done]. by apply map_Forall_insert_2.
Qed.

Lemma AddRevocation_wf s r : set_wf s → set_wf (AddRevocation s r).2.
Proof.
  intros [Ha Hr]. destruct (AddRevocation_cases s r) as [[[Hg _] ->]|(_ & -> & _)]; [|done].
  split; simpl; [done|]. by apply map_Forall_insert_2.
Qed.
End updates.

#[export] Hint Resolve NewSet_wf AddAdmission_wf AddRevocation_wf : cheesecloth.

(** ** Delivery of records, one at a time

    However a record reaches a node (a broadcast, a push/pull merge, the state
    file), it ends up in one of the two [Add] operations. A delivery is a
    sequence of records in the order they arrive. *)

Inductive record :=
  | RAdm (a : Admission)
  | RRev (r : Revocation).
#[export] Instance record_eq_dec : EqDecision record.
Proof. solve_decision. Defined.

Definition records_of (rs : trust_Records) : list record :=
  map RAdm (Admissions rs) ++ map RRev (Revocations rs).

Section delivery.
Context `{!Ed25519}.
Implicit Types (s : TrustSet) (x y : record).

Definition add_record s x : TrustSet :=
  match x with
  | RAdm a => (AddAdmission s a).2
  | RRev r => (AddRevocation s r).2
  end.

Definition deliver s (l : list record) : TrustSet := foldl add_record s l.

Definition record_accepted s x : Prop :=
  match x with
  | RAdm a => adm_accepted s a
  | RRev r => rev_accepted s r
  end.

Lemma foldl_count_change {A} (add : TrustSet → A → result bool * TrustSet) l acc :
  (foldl (count_change add) acc l).2 = foldl (λ t (v : A), (add t v).2) acc.2 l.
Proof.
  revert acc. induction l as [|v l IH]; intros acc; simpl; [done|].
  rewrite IH. unfold count_change. destruct (add acc.2 v) as [[[]|e] s']; done.
Qed.

Lemma Merge_deliver s rs : (Merge s rs).2 = deliver s (records_of rs).
Proof.
  unfold Merge, deliver, records_of. rewrite !foldl_count_change.
  rewrite foldl_app, !foldl_map. done.
Qed.

Lemma deliver_root s l : root (deliver s l) = root s.
Proof.
  revert s. induction l as [|[a|r] l IH]; intros s; simpl; [done| |]; rewrite IH.
  - apply AddAdmission_root.
  - apply AddRevocation_root.
Qed.

Lemma deliver_wf s l : set_wf s → set_wf (deliver s l).
Proof.
  revert s. induction l as [|[a|r] l IH]; intros s Hw; simpl; [done| |];
    apply IH; auto with cheesecloth.
Qed.

Lemma Merge_wf s rs : set_wf s → set_wf (Merge s rs).2.
Proof. intros Hw. rewrite Merge_deliver. by apply deliver_wf. Qed.
End delivery.
#[export] Hint Resolve deliver_wf Merge_wf : cheesecloth.
