(* ===== verification/Demo.v ===== *)
(** * Demo: a concrete cluster for the examples and witnesses

    Four nodes under the toy signature scheme of Identity: the root [ann]
    admits [bob], [bob] admits [cat] and [dan], everything one second after the
    other from time 100 on. *)

From S2P Require Import Prelude Wire Encoding Identity Records TrustSet.

#[local] Existing Instance Toy.toy.

Definition ann : Identity := Toy.node Byte.x0a.
Definition bob : Identity := Toy.node Byte.x0b.
Definition cat : Identity := Toy.node Byte.x0c.
Definition dan : Identity := Toy.node Byte.x0d.
(** Nobody's member. *)
Definition eve : Identity := Toy.node Byte.x0e.

Definition key (i : Identity) : PublicKey := Public i.

Definition adm_ann : Admission := SelfAdmit ann (str "ann") 100.
Definition adm_bob : Admission := Admit ann (key bob) (str "bob") 2 101.
Definition adm_cat : Admission := Admit bob (key cat) (str "cat") 3 102.
Definition adm_dan : Admission := Admit bob (key dan) (str "dan") 4 103.

Definition empty_set : TrustSet := NewSet (key ann).
Definition cluster : TrustSet :=
  deliver empty_set [RAdm adm_ann; RAdm adm_bob; RAdm adm_cat; RAdm adm_dan].

(** [dan] is revoked by [cat], [cat] leaves by itself, and [bob] is revoked
    by the root. *)
Definition rev_dan : Revocation := Revoke cat (key dan) 110.
Definition rev_cat : Revocation := Revoke cat (key cat) 111.
Definition rev_bob : Revocation := Revoke ann (key bob) 112.
Definition after : TrustSet :=
  deliver cluster [RRev rev_dan; RRev rev_cat; RRev rev_bob].

Definition records_in (s : TrustSet) : nat := size (admissions s) + size (revocations s).

Example cluster_size : records_in cluster = 4%nat ∧ records_in after = 7%nat.
Proof. vm_compute. done. Qed.
