(* ===== verification/Convergence.v ===== *)
(** * Convergence: the record set as a replicated data type

    [AddAdmission] keeps the newest admission of an identity, [AddRevocation]
    the first revocation. As long as the records in circulation do not
    conflict (two different valid records for one place), delivery order,
    duplication and grouping into merges do not matter, and a set is rebuilt
    from its own [Records]. When they do conflict the order decides, which the
    last theorems make precise. *)

From S2P Require Import Prelude Wire Encoding Identity Records TrustSet Demo.

Section convergence.
Context `{!Ed25519}.
Implicit Types (s : TrustSet) (x y : record) (l : list record).

(** ** Conflicts *)

Definition record_good (rt : PublicKey) x : Prop :=
  match x with
  | RAdm a => good_adm rt a
  | RRev r => rev_Validate r = Ok ()
  end.

(** Two records compete for one place in the set with nothing to choose
    between them: admissions of one identity made in the same second, or
    revocations of one identity. *)
Definition same_place x y : Prop :=
  match x, y with
  | RAdm a, RAdm b => adm_Identity a = adm_Identity b ∧ adm_IssuedAt a = adm_IssuedAt b
  | RRev r, RRev q => rev_Identity r = rev_Identity q
  | _, _ => False
  end.

Definition compatible rt x y : Prop :=
  record_good rt x → record_good rt y → same_place x y → x = y.

Definition conflict_free rt l : Prop := ∀ x y, x ∈ l → y ∈ l → compatible rt x y.

(** ** One record, as a conditional insertion *)

Definition newer s a : Prop :=
  match admissions s !! adm_Identity a with
  | Some cur => adm_IssuedAt cur < adm_IssuedAt a
  | None => True
  end.
#[local] Instance newer_dec s a : Decision (newer s a).
Proof. unfold newer. destruct (admissions s !! adm_Identity a); apply _. Defined.

Lemma adm_accepted_newer s a : adm_accepted s a ↔ good_adm (root s) a ∧ newer s a.
Proof.
  unfold adm_accepted, newer. split; intros [Hg Hn]; (split; [done|]).
  - destruct (admissions s !! adm_Identity a); naive_solver.
  - intros cur Hc. by rewrite Hc in Hn.
Qed.

Definition put_adm s a : TrustSet :=
  MkSet (root s) (<[adm_Identity a := a]> (admissions s)) (revocations s) ∅.
Definition put_rev s r : TrustSet :=
  MkSet (root s) (admissions s) (<[rev_Identity r := r]> (revocations s)) ∅.

Lemma add_adm_if s a :
  add_record s (RAdm a) = if decide (good_adm (root s) a ∧ newer s a) then put_adm s a else s.
Proof.
  simpl. destruct (AddAdmission_cases s a) as [[Ha ->]|(Ha & -> & _)];
    rewrite adm_accepted_newer in Ha; by case_decide.
Qed.

#[local] Instance rev_accepted_dec s r : Decision (rev_accepted s r).
Proof.
  unfold rev_accepted.
  assert (Decision (rev_Validate r = Ok ())).
  { destruct (rev_Validate r) as [[]|e]; [left|right]; done. }
  apply _.
Defined.

Lemma add_rev_if s r :
  add_record s (RRev r) = if decide (rev_accepted s r) then put_rev s r else s.
Proof.
  simpl. destruct (AddRevocation_cases s r) as [[Ha ->]|(Ha & -> & _)]; by case_decide.
Qed.

Lemma add_record_root s x : root (add_record s x) = root s.
Proof. destruct x; [apply AddAdmission_root|apply AddRevocation_root]. Qed.

(** ** Commutation and idempotence *)

Lemma newer_put_eq s a b :
  adm_Identity a = adm_Identity b → newer (put_adm s a) b ↔ adm_IssuedAt a < adm_IssuedAt b.
Proof. intros Hi. unfold newer, put_adm. simpl. by rewrite Hi, lookup_insert_eq. Qed.
Lemma newer_put_ne s a b :
  adm_Identity a ≠ adm_Identity b → newer (put_adm s a) b ↔ newer s b.
Proof. intros Hi. unfold newer, put_adm. simpl. by rewrite lookup_insert_ne. Qed.
Lemma newer_trans s a b :
  adm_Identity a = adm_Identity b → newer s a → adm_IssuedAt a < adm_IssuedAt b → newer s b.
Proof.
  unfold newer. intros <-. destruct (admissions s !! adm_Identity a); [lia|done].
Qed.
Lemma put_put_eq s a b :
  adm_Identity a = adm_Identity b → put_adm (put_adm s a) b = put_adm s b.
Proof. intros Hi. unfold put_adm. simpl. by rewrite Hi, insert_insert_eq. Qed.
Lemma put_put_ne s a b :
  adm_Identity a ≠ adm_Identity b → put_adm (put_adm s a) b = put_adm (put_adm s b) a.
Proof. intros Hi. unfold put_adm. simpl. by rewrite insert_insert_ne. Qed.

Lemma add_put_eq s a b :
  adm_Identity a = adm_Identity b → good_adm (root s) b →
  add_record (put_adm s a) (RAdm b) =
    if decide (adm_IssuedAt a < adm_IssuedAt b) then put_adm s b else put_adm s a.
Proof.
  intros Hi Gb. rewrite add_adm_if. simpl. pose proof (newer_put_eq s a b Hi).
  do 2 case_decide; [by apply put_put_eq|naive_solver|naive_solver|done].
Qed.

Lemma add_put_ne s a b :
  adm_Identity a ≠ adm_Identity b →
  add_record (put_adm s a) (RAdm b) =
    if decide (good_adm (root s) b ∧ newer s b) then put_adm (put_adm s a) b else put_adm s a.
Proof.
  intros Hi. rewrite add_adm_if. simpl. pose proof (newer_put_ne s a b Hi).
  do 2 case_decide; [done|naive_solver|naive_solver|done].
Qed.

(** An admission the set refuses is refused after any other of the same
    identity was added, too. *)
Lemma add_put_refused s a b :
  adm_Identity a = adm_Identity b → newer s a → ¬ (good_adm (root s) b ∧ newer s b) →
  add_record (put_adm s a) (RAdm b) = put_adm s a.
Proof.
  intros Hi Na Hb. rewrite add_adm_if. simpl. rewrite decide_False; [done|].
  rewrite newer_put_eq by done. intros [Gb Hlt]. apply Hb. split; [done|].
  by eapply newer_trans.
Qed.

Lemma add_adm_comm s a b :
  compatible (root s) (RAdm a) (RAdm b) →
  add_record (add_record s (RAdm a)) (RAdm b) = add_record (add_record s (RAdm b)) (RAdm a).
Proof.
  intros Hc. unfold compatible in Hc. simpl in Hc.
  destruct (decide (a = b)) as [->|Hab]; [done|].
  rewrite (add_adm_if s a), (add_adm_if s b).
  destruct (decide (adm_Identity a = adm_Identity b)) as [Hi|Hi];
    destruct (decide (good_adm (root s) a ∧ newer s a)) as [[Ga Na]|Da];
    destruct (decide (good_adm (root s) b ∧ newer s b)) as [[Gb Nb]|Db].
  - rewrite !add_put_eq by done.
    assert (adm_IssuedAt a ≠ adm_IssuedAt b) by naive_solver.
    do 2 case_decide; lia || done.
  - rewrite add_put_refused by done. by rewrite add_adm_if, decide_True.
  - rewrite (add_put_refused s b a) by done. by rewrite add_adm_if, decide_True.
  - by rewrite !add_adm_if, !decide_False.
  - rewrite !add_put_ne, !decide_True by done. by apply put_put_ne.
  - by rewrite add_put_ne, add_adm_if, decide_False, decide_True.
  - by rewrite add_put_ne, add_adm_if, decide_True, decide_False.
  - by rewrite !add_adm_if, !decide_False.
Qed.

Lemma rev_accepted_put s r q :
  rev_accepted (put_rev s r) q ↔
  rev_accepted s q ∧ rev_Identity r ≠ rev_Identity q.
Proof.
  unfold rev_accepted, put_rev. simpl.
  destruct (decide (rev_Identity r = rev_Identity q)) as [->|Hi].
  - rewrite lookup_insert_eq. naive_solver.
  - rewrite lookup_insert_ne by done. naive_solver.
Qed.

Lemma add_rev_comm s r q :
  compatible (root s) (RRev r) (RRev q) →
  add_record (add_record s (RRev r)) (RRev q) = add_record (add_record s (RRev q)) (RRev r).
Proof.
  intros Hc. unfold compatible in Hc. simpl in Hc.
  destruct (decide (r = q)) as [->|Hrq]; [done|].
  rewrite (add_rev_if s r), (add_rev_if s q).
  pose proof (rev_accepted_put s r q) as A1. pose proof (rev_accepted_put s q r) as A2.
  destruct (decide (rev_accepted s r)) as [Dr|Dr]; destruct (decide (rev_accepted s q)) as [Dq|Dq].
  - assert (Hi : rev_Identity r ≠ rev_Identity q).
    { destruct Dr, Dq. naive_solver. }
    rewrite !add_rev_if, !decide_True by (rewrite ?A1, ?A2; done).
    unfold put_rev. simpl. by rewrite insert_insert_ne.
  - rewrite !add_rev_if, decide_False, decide_True by (rewrite ?A1; naive_solver). done.
  - rewrite !add_rev_if, decide_True, decide_False by (rewrite ?A2; naive_solver). done.
  - by rewrite !add_rev_if, !decide_False.
Qed.

Lemma add_adm_rev_comm s a r :
  add_record (add_record s (RAdm a)) (RRev r) = add_record (add_record s (RRev r)) (RAdm a).
Proof.
  rewrite (add_adm_if s), (add_rev_if s).
  assert (H1 : newer (put_rev s r) a ↔ newer s a) by done.
  assert (H2 : rev_accepted (put_adm s a) r ↔ rev_accepted s r) by done.
  destruct (decide (good_adm (root s) a ∧ newer s a)) as [Da|Da];
    destruct (decide (rev_accepted s r)) as [Dr|Dr];
    rewrite add_rev_if, add_adm_if; simpl;
    repeat (case_decide; [|try done]); done || naive_solver.
Qed.

Lemma add_record_comm s x y :
  compatible (root s) x y →
  add_record (add_record s x) y = add_record (add_record s y) x.
Proof.
  destruct x as [a|r], y as [b|q]; intros Hc.
  - by apply add_adm_comm.
  - apply add_adm_rev_comm.
  - symmetry. apply add_adm_rev_comm.
  - by apply add_rev_comm.
Qed.

Lemma add_record_idemp s x : add_record (add_record s x) x = add_record s x.
Proof.
  destruct x as [a|r].
  - rewrite (add_adm_if s). case_decide as Ha; rewrite add_adm_if; [|by rewrite decide_False].
    rewrite decide_False; [done|]. rewrite newer_put_eq by done. intros [_ ?]. lia.
  - rewrite (add_rev_if s). case_decide as Ha; rewrite add_rev_if; [|by rewrite decide_False].
    rewrite decide_False; [done|]. rewrite rev_accepted_put. naive_solver.
Qed.

(** ** Delivery sequences *)

Lemma conflict_free_perm rt l k : l ≡ₚ k → conflict_free rt l → conflict_free rt k.
Proof. intros Hp Hc x y Hx Hy. apply Hc; by rewrite Hp. Qed.

Lemma deliver_perm s l k :
  l ≡ₚ k → conflict_free (root s) l → deliver s l = deliver s k.
Proof.
  intros Hp. revert s.
  induction Hp as [|x l k Hp IH|x y l|l k m Hp IH Hq IH2]; intros s Hc; simpl.
  - done.
  - apply IH. rewrite add_record_root. intros u v Hu Hv. apply Hc; by right.
  - rewrite add_record_comm; [done|]. apply Hc; set_solver.
  - rewrite IH by done. apply IH2. by eapply conflict_free_perm.
Qed.

Lemma deliver_app s l k : deliver s (l ++ k) = deliver (deliver s l) k.
Proof. apply foldl_app. Qed.

(** A record that was already delivered has nothing left to do. *)
Lemma deliver_again s l x :
  x ∈ l → conflict_free (root s) l → add_record (deliver s l) x = deliver s l.
Proof.
  intros Hx Hc. apply list_elem_of_split in Hx as (l1 & l2 & ->).
  assert (Hp : l1 ++ x :: l2 ≡ₚ (l1 ++ l2) ++ [x]) by solve_Permutation.
  rewrite (deliver_perm s _ _ Hp Hc), deliver_app. simpl. apply add_record_idemp.
Qed.

Lemma conflict_free_sub rt l k : (∀ x, x ∈ k → x ∈ l) → conflict_free rt l → conflict_free rt k.
Proof. intros Hs Hc x y Hx Hy. apply Hc; auto. Qed.

Lemma deliver_dups s l :
  conflict_free (root s) l → deliver s l = deliver s (remove_dups l).
Proof.
  induction l as [|x l IH] using rev_ind; intros Hc; [done|].
  assert (Hl : conflict_free (root s) l).
  { eapply conflict_free_sub; [|done]. set_solver. }
  rewrite deliver_app. simpl. rewrite IH by done.
  destruct (decide (x ∈ l)) as [Hx|Hx].
  - rewrite deliver_again.
    + apply deliver_perm.
      * apply NoDup_Permutation; [apply NoDup_remove_dups..|].
        intros y. rewrite !elem_of_remove_dups. set_solver.
      * eapply conflict_free_sub; [|exact Hl]. intros y. by rewrite elem_of_remove_dups.
    + by rewrite elem_of_remove_dups.
    + eapply conflict_free_sub; [|exact Hl]. intros y. by rewrite elem_of_remove_dups.
  - change (add_record ?t x) with (deliver t [x]). rewrite <-deliver_app.
    apply deliver_perm.
    + apply NoDup_Permutation; [|apply NoDup_remove_dups|].
      * apply NoDup_app. split_and!; [apply NoDup_remove_dups| |apply NoDup_singleton].
        intros y. rewrite elem_of_remove_dups. set_solver.
      * intros y. rewrite elem_of_remove_dups, !elem_of_app, elem_of_remove_dups. done.
    + eapply conflict_free_sub; [|exact Hc]. intros y.
      rewrite !elem_of_app, elem_of_remove_dups. done.
Qed.

(** ** The cache plays no part *)

Lemma add_record_forget s x : forget (add_record (forget s) x) = forget (add_record s x).
Proof.
  destruct x as [a|r].
  - rewrite !add_adm_if. assert (newer (forget s) a ↔ newer s a) by done.
    do 2 case_decide; done || naive_solver.
  - rewrite !add_rev_if. assert (rev_accepted (forget s) r ↔ rev_accepted s r) by done.
    do 2 case_decide; done || naive_solver.
Qed.

Lemma deliver_forget s l : forget (deliver (forget s) l) = forget (deliver s l).
Proof.
  revert s. induction l as [|x l IH]; intros s; simpl; [done|].
  rewrite <-(IH (add_record (forget s) x)), add_record_forget. apply IH.
Qed.

(** ** The records of a set *)

Lemma deliver_admissions s (l : list Admission) :
  members s = ∅ → NoDup (adm_Identity <$> l) → Forall (good_adm (root s)) l →
  (∀ a, a ∈ l → admissions s !! adm_Identity a = None) →
  deliver s (map RAdm l) =
    MkSet (root s) (list_to_map ((λ a, (adm_Identity a, a)) <$> l) ∪ admissions s) (revocations s) ∅.
Proof.
  revert s. induction l as [|a l IH]; intros s Hm Hnd Hg Hnone; simpl.
  { rewrite (left_id_L ∅ (∪)). destruct s; simpl in *; by subst. }
  apply NoDup_cons in Hnd as [Ha Hnd]. apply Forall_cons in Hg as [Ga Hg].
  assert (newer s a) as Hn by (unfold newer; by rewrite (Hnone a) by set_solver).
  match goal with |- _ = ?rhs => change (deliver (add_record s (RAdm a)) (map RAdm l) = rhs) end.
  rewrite add_adm_if, decide_True by done.
  rewrite IH; [|done..|].
  - unfold put_adm. simpl. f_equal. rewrite <-insert_union_r, insert_union_l; [done|].
    apply not_elem_of_list_to_map_1. rewrite <-list_fmap_compose. done.
  - intros b Hb. unfold put_adm. simpl. rewrite lookup_insert_ne; [apply Hnone; set_solver|].
    intros E. apply Ha. rewrite E. by apply list_elem_of_fmap_2.
Qed.

Lemma deliver_revocations s (l : list Revocation) :
  members s = ∅ → NoDup (rev_Identity <$> l) → Forall (λ r, rev_Validate r = Ok ()) l →
  (∀ r, r ∈ l → revocations s !! rev_Identity r = None) →
  deliver s (map RRev l) =
    MkSet (root s) (admissions s) (list_to_map ((λ r, (rev_Identity r, r)) <$> l) ∪ revocations s) ∅.
Proof.
  revert s. induction l as [|a l IH]; intros s Hm Hnd Hg Hnone; simpl.
  { rewrite (left_id_L ∅ (∪)). destruct s; simpl in *; by subst. }
  apply NoDup_cons in Hnd as [Ha Hnd]. apply Forall_cons in Hg as [Ga Hg].
  assert (rev_accepted s a) as Hn by (split; [done|]; apply Hnone; set_solver).
  match goal with |- _ = ?rhs => change (deliver (add_record s (RRev a)) (map RRev l) = rhs) end.
  rewrite add_rev_if, decide_True by done.
  rewrite IH; [|done..|].
  - unfold put_rev. simpl. f_equal. rewrite <-insert_union_r, insert_union_l; [done|].
    apply not_elem_of_list_to_map_1. rewrite <-list_fmap_compose. done.
  - intros b Hb. unfold put_rev. simpl. rewrite lookup_insert_ne; [apply Hnone; set_solver|].
    intros E. apply Ha. rewrite E. by apply list_elem_of_fmap_2.
Qed.

(** Values under their own keys: a permutation of the values gives the map
    back. *)
Lemma keyed_values {V} (f : V → PublicKey) (m : gmap PublicKey V) (l : list V) :
  map_Forall (λ k v, f v = k) m → l ≡ₚ (map_to_list m).*2 →
  NoDup (f <$> l) ∧ list_to_map ((λ v, (f v, v)) <$> l) = m ∧ (∀ v, v ∈ l → m !! f v = Some v).
Proof.
  intros Hk Hl.
  assert (Hm : (λ v, (f v, v)) <$> (map_to_list m).*2 = map_to_list m).
  { rewrite <-list_fmap_compose.
    transitivity (id <$> map_to_list m); [|apply list_fmap_id].
    apply list_fmap_ext. intros i [k v] Hi. simpl.
    apply list_elem_of_lookup_2, elem_of_map_to_list in Hi. by rewrite (Hk k v). }
  assert (Hnd : NoDup (f <$> l)).
  { rewrite Hl. replace (f <$> (map_to_list m).*2) with (map_to_list m).*1.
    - apply NoDup_fst_map_to_list.
    - rewrite <-Hm at 1. rewrite <-list_fmap_compose. done. }
  split_and!; [done| |].
  - transitivity (list_to_map (map_to_list m) : gmap PublicKey V); [|apply list_to_map_to_list].
    rewrite <-Hm.
    apply list_to_map_proper; [|by rewrite Hl]. rewrite <-list_fmap_compose. done.
  - intros v. rewrite Hl. intros ([k w] & -> & Hin)%list_elem_of_fmap. simpl.
    apply elem_of_map_to_list in Hin. by rewrite (Hk k w).
Qed.

Lemma sorted_adm_perm s : Admissions (Records s) ≡ₚ (map_to_list (admissions s)).*2.
Proof. apply merge_sort_Permutation. Qed.
Lemma sorted_rev_perm s : Revocations (Records s) ≡ₚ (map_to_list (revocations s)).*2.
Proof. apply merge_sort_Permutation. Qed.

Lemma set_wf_keys s :
  set_wf s → map_Forall (λ k a, adm_Identity a = k) (admissions s) ∧
             map_Forall (λ k r, rev_Identity r = k) (revocations s).
Proof. intros [Ha Hr]. split; intros k v Hv; [by apply (Ha k v)|by apply (Hr k v)]. Qed.

Lemma deliver_own_records s :
  set_wf s → deliver (NewSet (root s)) (records_of (Records s)) = forget s.
Proof.
  intros Hw. pose proof (set_wf_keys s Hw) as [Ka Kr]. destruct Hw as [Wa Wr].
  destruct (keyed_values _ _ _ Ka (sorted_adm_perm s)) as (Na & Ma & La).
  destruct (keyed_values _ _ _ Kr (sorted_rev_perm s)) as (Nr & Mr & Lr).
  unfold records_of. rewrite deliver_app, deliver_admissions; [|done..| |].
  - rewrite deliver_revocations; [|done..| |].
    + unfold forget, NewSet. cbn [root admissions revocations]. rewrite Ma, Mr, !(right_id_L ∅ (∪)). done.
    + apply Forall_forall. intros r Hr%Lr. by apply (Wr _ _ Hr).
    + done.
  - apply Forall_forall. intros a Ha%La. by apply (Wa _ _ Ha).
  - done.
Qed.

Lemma Merge_own_records s t :
  set_wf s → root t = root s →
  forget (deliver (forget s) (records_of (Records t))) =
  forget (deliver (NewSet (root s)) (records_of (Records s) ++ records_of (Records t))).
Proof. intros Hw Hr. by rewrite deliver_app, deliver_own_records. Qed.

(** ** Properties *)

(** Two nodes that start from the same set and have received the same
    records have the same set, in whatever order, grouping and multiplicity
    the records arrived, as long as no two of them are valid, different and
    compete for one place. *)
Theorem deliver_convergent s l k :
  conflict_free (root s) l → (∀ x, x ∈ l ↔ x ∈ k) → deliver s l = deliver s k.
Proof.
  intros Hc Hlk.
  assert (Hk : conflict_free (root s) k) by (eapply conflict_free_sub; [|done]; naive_solver).
  rewrite (deliver_dups s l), (deliver_dups s k) by done.
  apply deliver_perm.
  - apply NoDup_Permutation; [apply NoDup_remove_dups..|].
    intros x. by rewrite !elem_of_remove_dups.
  - eapply conflict_free_sub; [|exact Hc]. intros x. by rewrite elem_of_remove_dups.
Qed.

(** A set can be rebuilt from its own [Records]: merging them into a new
    set with the same root, as [State.Set] does with the saved file and a
    joiner with its welcome, gives the same admissions and revocations. *)
Theorem Records_roundtrip s :
  set_wf s → (Merge (NewSet (root s)) (Records s)).2 = forget s.
Proof. intros Hw. rewrite Merge_deliver. by apply deliver_own_records. Qed.

(** Go iterates over a map in any order; the sorted result is the same
    for all of them, so [Records] is a function of the set. *)
Theorem Records_any_order s la lr :
  set_wf s → la ≡ₚ (map_to_list (admissions s)).*2 → lr ≡ₚ (map_to_list (revocations s)).*2 →
  MkRecords (merge_sort adm_le la) (merge_sort rev_le lr) = Records s.
Proof.
  intros Hw Ha Hr. pose proof (set_wf_keys s Hw) as [Ka Kr].
  destruct (keyed_values _ _ _ Ka Ha) as (_ & _ & La).
  destruct (keyed_values _ _ _ Kr Hr) as (_ & _ & Lr).
  unfold Records. f_equal.
  - apply (StronglySorted_unique_strong adm_le); [|apply StronglySorted_merge_sort; apply _..|].
    + intros x y Hx Hy H1 H2. rewrite merge_sort_Permutation in Hx, Hy. rewrite <-Ha in Hy.
      pose proof (key_le_antisym _ _ H1 H2) as E.
      pose proof (La _ Hx) as E1. pose proof (La _ Hy) as E2. congruence.
    + by rewrite !merge_sort_Permutation.
  - apply (StronglySorted_unique_strong rev_le); [|apply StronglySorted_merge_sort; apply _..|].
    + intros x y Hx Hy H1 H2. rewrite merge_sort_Permutation in Hx, Hy. rewrite <-Hr in Hy.
      pose proof (key_le_antisym _ _ H1 H2) as E.
      pose proof (Lr _ Hx) as E1. pose proof (Lr _ Hy) as E2. congruence.
    + by rewrite !merge_sort_Permutation.
Qed.

(** A push/pull exchange makes two sets with the same root equal, when
    their records together do not conflict: each merges the other's
    [Records], and afterwards both hold the same records. *)
Theorem exchange_converges s t :
  set_wf s → set_wf t → root s = root t →
  conflict_free (root s) (records_of (Records s) ++ records_of (Records t)) →
  forget (Merge s (Records t)).2 = forget (Merge t (Records s)).2.
Proof.
  intros Ws Wt Hr Hc. rewrite !Merge_deliver, <-(deliver_forget s), <-(deliver_forget t).
  rewrite !Merge_own_records by done. rewrite <-Hr. f_equal.
  apply deliver_perm; [apply Permutation_app_comm|done].
Qed.
End convergence.


(** ** Witnesses, and what happens when records do conflict *)

Section witness.
#[local] Existing Instance Toy.toy.

#[local] Instance same_place_dec x y : Decision (same_place x y).
Proof. destruct x, y; simpl; apply _. Defined.

Definition conflict_free_b (l : list record) : bool :=
forallb (λ x, forallb (λ y, negb (bool_decide (same_place x y)) || bool_decide (x = y)) l) l.

Lemma conflict_free_b_ok rt l : conflict_free_b l = true → conflict_free rt l.
Proof.
unfold conflict_free_b. rewrite forallb_forall. intros Hl x y Hx Hy _ _ Hs.
apply list_elem_of_In in Hx, Hy. specialize (Hl x Hx). rewrite forallb_forall in Hl.
specialize (Hl y Hy). rewrite bool_decide_eq_true_2 in Hl by done. simpl in Hl.
by apply bool_decide_eq_true in Hl.
Qed.

Lemma deliver_convergent_witness :
conflict_free (key ann) [RAdm adm_ann; RAdm adm_bob; RRev rev_bob] ∧
deliver empty_set [RAdm adm_ann; RAdm adm_bob; RRev rev_bob] =
deliver empty_set [RRev rev_bob; RAdm adm_bob; RRev rev_bob; RAdm adm_ann].
Proof.
assert (Hc : conflict_free (key ann) [RAdm adm_ann; RAdm adm_bob; RRev rev_bob])
  by (apply conflict_free_b_ok; vm_compute; reflexivity).
split; [done|]. apply (deliver_convergent empty_set); [exact Hc|].
intros x. rewrite !elem_of_cons, elem_of_nil. clear Hc. tauto.
Defined.

Lemma demo_wf l : set_wf (deliver empty_set l).
Proof. apply deliver_wf, NewSet_wf. Qed.

Lemma Records_roundtrip_witness :
set_wf cluster ∧ (Merge empty_set (Records cluster)).2 = cluster.
Proof.
assert (Hw : set_wf cluster) by apply demo_wf.
split; [done|]. transitivity (forget cluster); [|vm_compute; reflexivity].
apply (Records_roundtrip cluster); exact Hw.
Defined.

Lemma Records_any_order_witness :
MkRecords (merge_sort adm_le (reverse (map_to_list (admissions cluster)).*2)) [] = Records cluster.
Proof.
transitivity (MkRecords (merge_sort adm_le (reverse (map_to_list (admissions cluster)).*2)) (merge_sort rev_le []));
  [reflexivity|].
apply (Records_any_order cluster); [apply demo_wf|apply reverse_Permutation|].
assert (E : revocations cluster = ∅) by (vm_compute; reflexivity). rewrite E, map_to_list_empty. done.
Defined.

(** Two sides that saw different halves. *)
Definition half_one : TrustSet := deliver empty_set [RAdm adm_ann; RAdm adm_bob].
Definition half_two : TrustSet := deliver empty_set [RAdm adm_cat; RRev rev_cat; RAdm adm_bob].

Lemma exchange_converges_witness :
forget (Merge half_one (Records half_two)).2 = forget (Merge half_two (Records half_one)).2.
Proof.
apply (exchange_converges half_one half_two); [apply demo_wf|apply demo_wf|reflexivity|].
apply conflict_free_b_ok. vm_compute. reflexivity.
Defined.
End witness.
