(* ===== verification/Validity.v ===== *)
(** * Validity: who is a member (internal/trust/set.go, validAt)

    [validAt] walks from an identity to the root through admitters and
    revokers, with a cycle guard over the questions it has set out to answer.
    It is modelled with the guard threaded through the calls as the map the
    code mutates, and with fuel for the recursion. The file shows that the walk
    always ends, with a bound; that the guard is handed back as it was; and
    that the answer is the one of the membership rules of docs/membership.md,
    stated as mutually inductive judgements without fuel or guard. *)

From S2P Require Import Prelude Wire Encoding Identity Records TrustSet.

(** ** The walk *)

(** [type question struct { id PublicKey; at int64 }] *)
Definition question : Type := PublicKey * Z.

(** [validAt]; [None] is running out of fuel. The result carries the
    [visiting] map as the call leaves it: [defer delete(visiting, q)] runs on
    every return once [q] has been inserted. *)
Fixpoint validAt (fuel : nat) (s : TrustSet) (id : PublicKey) (at_ : Z)
    (visiting : gset question) : option (bool * gset question) :=
  match fuel with
  | O => None
  | S fuel' =>
      if decide (id = root s) then
        match revocations s !! id with
        | None => Some (true, visiting)
        | Some rev =>
            if at_ <? rev_IssuedAt rev then Some (true, visiting)
            else if decide (rev_Revoker rev = id) then Some (false, visiting)
            else
              '(v, visiting) ← validAt fuel' s (rev_Revoker rev) (rev_IssuedAt rev) visiting;
              Some (negb v, visiting)
        end
      else
        let q := (id, at_) in
        if decide (q ∈ visiting) then Some (false, visiting)
        else
          let visiting := {[q]} ∪ visiting in
          '(revoked, visiting) ←
            match revocations s !! id with
            | None => Some (false, visiting)
            | Some rev =>
                if rev_IssuedAt rev <=? at_ then
                  if decide (rev_Revoker rev = id) then Some (true, visiting)
                  else validAt fuel' s (rev_Revoker rev) (rev_IssuedAt rev) visiting
                else Some (false, visiting)
            end;
          if (revoked : bool) then Some (false, visiting ∖ {[q]})
          else
            match admissions s !! id with
            | None => Some (false, visiting ∖ {[q]})
            | Some a =>
                if decide (adm_Admitter a = id) then Some (false, visiting ∖ {[q]})
                else
                  '(v, visiting) ← validAt fuel' s (adm_Admitter a) (adm_IssuedAt a) visiting;
                  Some (v, visiting ∖ {[q]})
            end
  end.

(** Enough fuel for any question: two calls per record, and three more. *)
Definition walk_fuel (s : TrustSet) : nat :=
  2 * (size (admissions s) + size (revocations s)) + 3.

(** [Set.valid], the answer with the lock held. *)
Definition valid (s : TrustSet) (id : PublicKey) : bool :=
  match validAt (walk_fuel s) s id max_int64 ∅ with
  | Some (v, _) => v
  | None => false
  end.

(** [Set.Valid]: the cached answer if there is one, and only positive answers
    are cached. *)
Definition Valid (s : TrustSet) (id : PublicKey) : bool * TrustSet :=
  if decide (id ∈ members s) then (true, s)
  else
    let v := valid s id in
    if v then (v, MkSet (root s) (admissions s) (revocations s) ({[id]} ∪ members s))
    else (v, s).

(** ** The guard is handed back *)

Lemma validAt_restores fuel s id at_ vis v vis' :
  validAt fuel s id at_ vis = Some (v, vis') → vis' = vis.
Proof.
  revert id at_ vis v vis'. induction fuel as [|n IH]; intros id at_ vis v vis'; simpl; [done|].
  case_decide as Hroot.
  - destruct (revocations s !! id) as [rev|]; [|naive_solver].
    destruct (at_ <? rev_IssuedAt rev); [naive_solver|].
    case_decide; [naive_solver|].
    destruct (validAt n s _ _ vis) as [[w vis1]|] eqn:E; simpl; [|done].
    intros [= _ <-]. by apply IH in E.
  - case_decide as Hvis; [naive_solver|].
    assert (Hdel : ({[(id, at_)]} ∪ vis) ∖ {[(id, at_)]} = vis) by set_solver.
    set (vis1 := {[(id, at_)]} ∪ vis) in *.
    assert (Hrest : ∀ vis2, vis2 = vis1 →
      match admissions s !! id with
      | None => Some (false, vis2 ∖ {[(id, at_)]})
      | Some a =>
          if decide (adm_Admitter a = id) then Some (false, vis2 ∖ {[(id, at_)]})
          else '(v, vis3) ← validAt n s (adm_Admitter a) (adm_IssuedAt a) vis2;
               Some (v, vis3 ∖ {[(id, at_)]})
      end = Some (v, vis') → vis' = vis).
    { intros vis2 ->. destruct (admissions s !! id) as [a|]; [|intros [= _ <-]; done].
      case_decide; [intros [= _ <-]; done|].
      destruct (validAt n s _ _ vis1) as [[w vis3]|] eqn:E; simpl; [|done].
      apply IH in E as ->. intros [= _ <-]. done. }
    destruct (revocations s !! id) as [rev|]; simpl; [|by apply Hrest].
    destruct (rev_IssuedAt rev <=? at_); simpl; [|by apply Hrest].
    case_decide; simpl; [intros [= _ <-]; done|].
    destruct (validAt n s _ _ vis1) as [[w vis2]|] eqn:E; simpl; [|done].
    apply IH in E as ->. destruct w; [intros [= _ <-]; done|by apply Hrest].
Qed.

(** ** The walk as a function *)

(** What the revocation of [id], if any, means at time [at_]. *)
Inductive rev_effect := NoRev | SelfRev | RevBy (revoker : PublicKey) (issued : Z).

Definition rev_at (s : TrustSet) (id : PublicKey) (at_ : Z) : rev_effect :=
  match revocations s !! id with
  | None => NoRev
  | Some rev =>
      if at_ <? rev_IssuedAt rev then NoRev
      else if decide (rev_Revoker rev = id) then SelfRev
      else RevBy (rev_Revoker rev) (rev_IssuedAt rev)
  end.

(** The question an admission raises: its admitter, at the time it was issued. *)
Definition admitter_of (s : TrustSet) (id : PublicKey) : option question :=
  match admissions s !! id with
  | None => None
  | Some a => if decide (adm_Admitter a = id) then None else Some (adm_Admitter a, adm_IssuedAt a)
  end.

(** The guard a call hands to the calls it makes. *)
Definition guard (s : TrustSet) (id : PublicKey) (at_ : Z) (vis : gset question) : gset question :=
  if decide (id = root s) then vis else {[(id, at_)]} ∪ vis.

Definition blocked (s : TrustSet) (id : PublicKey) (at_ : Z) (vis : gset question) : Prop :=
  id ≠ root s ∧ (id, at_) ∈ vis.
#[export] Instance blocked_dec s id at_ vis : Decision (blocked s id at_ vis).
Proof. unfold blocked. apply _. Defined.

Definition ans (n : nat) (s : TrustSet) (id : PublicKey) (at_ : Z) (vis : gset question) : option bool :=
  fst <$> validAt n s id at_ vis.

Lemma ans_0 s id at_ vis : ans 0 s id at_ vis = None.
Proof. done. Qed.

Lemma validAt_ans n s id at_ vis :
  validAt n s id at_ vis = (λ v, (v, vis)) <$> ans n s id at_ vis.
Proof.
  unfold ans. destruct (validAt n s id at_ vis) as [[v vis']|] eqn:E; simpl; [|done].
  by apply validAt_restores in E as ->.
Qed.

Lemma ans_S n s id at_ vis :
  ans (S n) s id at_ vis =
    if decide (blocked s id at_ vis) then Some false
    else
      revoked ← match rev_at s id at_ with
                | NoRev => Some false
                | SelfRev => Some true
                | RevBy r t => ans n s r t (guard s id at_ vis)
                end;
      if (revoked : bool) then Some false
      else if decide (id = root s) then Some true
      else match admitter_of s id with
           | None => Some false
           | Some (k, t) => ans n s k t (guard s id at_ vis)
           end.
Proof.
  unfold ans at 1. simpl. unfold blocked, rev_at, admitter_of, guard.
  destruct (decide (id = root s)) as [Hr|Hr].
  - rewrite decide_False by naive_solver.
    destruct (revocations s !! id) as [rev|]; [|done].
    destruct (at_ <? rev_IssuedAt rev); [done|]. case_decide; [done|].
    rewrite validAt_ans. destruct (ans n s _ _ vis) as [[]|]; done.
  - destruct (decide ((id, at_) ∈ vis)) as [Hv|Hv].
    { rewrite decide_True by done. done. }
    rewrite decide_False by naive_solver.
    set (vis1 := {[(id, at_)]} ∪ vis).
    assert (Hadm :
      fst <$> match admissions s !! id with
              | None => Some (false, vis1 ∖ {[(id, at_)]})
              | Some a =>
                  if decide (adm_Admitter a = id) then Some (false, vis1 ∖ {[(id, at_)]})
                  else '(v, vis3) ← validAt n s (adm_Admitter a) (adm_IssuedAt a) vis1;
                       Some (v, vis3 ∖ {[(id, at_)]})
              end =
      match (match admissions s !! id with
             | None => None
             | Some a => if decide (adm_Admitter a = id) then None
                         else Some (adm_Admitter a, adm_IssuedAt a)
             end) with
      | None => Some false
      | Some (k, t) => ans n s k t vis1
      end).
    { destruct (admissions s !! id) as [a|]; [|done]. case_decide; [done|].
      rewrite validAt_ans. by destruct (ans n s _ _ vis1). }
    destruct (revocations s !! id) as [rev|]; [|exact Hadm].
    rewrite Z.ltb_antisym. destruct (rev_IssuedAt rev <=? at_); [|exact Hadm].
    simpl. case_decide; [done|].
    rewrite validAt_ans. destruct (ans n s (rev_Revoker rev) _ vis1) as [[]|]; [done|exact Hadm|done].
Qed.

(** More fuel does not change an answer. *)
Lemma ans_mono n m s id at_ vis v :
  (n ≤ m)%nat → ans n s id at_ vis = Some v → ans m s id at_ vis = Some v.
Proof.
  revert m id at_ vis v. induction n as [|n IH]; intros m id at_ vis v Hm; [done|].
  destruct m as [|m]; [lia|]. rewrite !ans_S. case_decide; [done|].
  assert (Hadm : ∀ w, match admitter_of s id with
                | None => Some false | Some (k, t) => ans n s k t (guard s id at_ vis) end = Some w →
          match admitter_of s id with
                | None => Some false | Some (k, t) => ans m s k t (guard s id at_ vis) end = Some w).
  { intros w. destruct (admitter_of s id) as [[k t]|]; [|done]. apply IH. lia. }
  destruct (rev_at s id at_) as [| |r t]; simpl; [case_decide; [done|apply Hadm]|done|].
  destruct (ans n s r t _) as [w|] eqn:E; [|done].
  rewrite (IH m _ _ _ w) by (done || lia). simpl.
  destruct w; [done|]. case_decide; [done|apply Hadm].
Qed.

(** ** The walk ends *)

(** The questions the records can raise: finitely many, at most one per record. *)
Definition questions (s : TrustSet) : gset question :=
  list_to_set ((λ kr : PublicKey * Revocation, (rev_Revoker kr.2, rev_IssuedAt kr.2)) <$> map_to_list (revocations s)) ∪
  list_to_set ((λ ka : PublicKey * Admission, (adm_Admitter ka.2, adm_IssuedAt ka.2)) <$> map_to_list (admissions s)).

Lemma questions_size s : (size (questions s) ≤ size (admissions s) + size (revocations s))%nat.
Proof. apply size_list_union_le; by rewrite length_fmap, length_map_to_list. Qed.

Lemma rev_at_question s id at_ r t : rev_at s id at_ = RevBy r t → (r, t) ∈ questions s ∧ r ≠ id.
Proof.
  unfold rev_at, questions. destruct (revocations s !! id) as [rev|] eqn:E; [|done].
  destruct (at_ <? rev_IssuedAt rev); [done|]. case_decide as Hne; [done|].
  intros [= <- <-]. split; [|done]. apply elem_of_union_l, elem_of_list_to_set, list_elem_of_fmap.
  exists (id, rev). split; [done|]. by apply elem_of_map_to_list.
Qed.

Lemma admitter_of_question s id q : admitter_of s id = Some q → q ∈ questions s.
Proof.
  unfold admitter_of, questions. destruct (admissions s !! id) as [a|] eqn:E; [|done].
  case_decide as Hne; [done|]. intros [= <-].
  apply elem_of_union_r, elem_of_list_to_set, list_elem_of_fmap.
  exists (id, a). split; [done|]. by apply elem_of_map_to_list.
Qed.

(** Fuel for a question the records raise: what is left to ask, twice, since a
    question about the root is not guarded but leads to one that is. *)
Definition need (s : TrustSet) (id : PublicKey) (vis : gset question) : nat :=
  (2 * size (questions s ∖ vis) + if decide (id = root s) then 2 else 1)%nat.

Lemma ans_total n s id at_ vis :
  (id, at_) ∈ questions s → (need s id vis ≤ n)%nat → is_Some (ans n s id at_ vis).
Proof.
  revert id at_ vis. induction n as [|n IH]; intros id at_ vis Hq Hn.
  { unfold need in Hn. case_decide; lia. }
  rewrite ans_S. case_decide as Hb; [done|].
  assert (Hc : ∀ k t, (k, t) ∈ questions s → (id = root s → k ≠ root s) →
               is_Some (ans n s k t (guard s id at_ vis))).
  { intros k t Hk Hroot. apply IH; [done|]. unfold need, guard in *.
    destruct (decide (id = root s)) as [Hr|Hr].
    - rewrite decide_False by auto. lia.
    - assert (Hv : (id, at_) ∉ vis) by (unfold blocked in Hb; naive_solver).
      assert (Hs : (size (questions s ∖ ({[(id, at_)]} ∪ vis)) < size (questions s ∖ vis))%nat).
      { by apply size_difference_insert. }
      case_decide; lia. }
  assert (Hadm : id ≠ root s → is_Some match admitter_of s id with
            | None => Some false | Some (k, t) => ans n s k t (guard s id at_ vis) end).
  { intros Hr. destruct (admitter_of s id) as [[k t]|] eqn:E; [|done].
    apply Hc; [by eapply admitter_of_question|done]. }
  destruct (rev_at s id at_) as [| |r t] eqn:E; simpl.
  - case_decide; [done|auto].
  - done.
  - apply rev_at_question in E as [Hq' Hne].
    destruct (Hc r t Hq') as [w Hw]; [congruence|]. rewrite Hw. simpl.
    destruct w; [done|]. case_decide; [done|auto].
Qed.

Lemma ans_enough s id at_ vis : is_Some (ans (walk_fuel s) s id at_ vis).
Proof.
  unfold walk_fuel. pose proof (questions_size s) as Hs.
  set (N := (2 * _)%nat). replace (N + 3)%nat with (S (N + 2)) by lia.
  rewrite ans_S. case_decide as Hb; [done|].
  assert (Hc : ∀ k t, (k, t) ∈ questions s → is_Some (ans (N + 2) s k t (guard s id at_ vis))).
  { intros k t Hk. apply ans_total; [done|]. unfold need.
    pose proof (size_difference_le (questions s) (guard s id at_ vis)). case_decide; lia. }
  assert (Hadm : is_Some match admitter_of s id with
            | None => Some false
            | Some (k, t) => ans (N + 2) s k t (guard s id at_ vis) end).
  { destruct (admitter_of s id) as [[k t]|] eqn:E; [|done].
    apply Hc. by eapply admitter_of_question. }
  destruct (rev_at s id at_) as [| |r t] eqn:E; [case_decide; [done|exact Hadm]|done|].
  apply rev_at_question in E as [Hq' _]. destruct (Hc r t Hq') as [w Hw].
  rewrite Hw. simpl. destruct w; [done|]. case_decide; [done|exact Hadm].
Qed.

(** ** The walk as a total function *)

Definition walk (s : TrustSet) (id : PublicKey) (at_ : Z) (vis : gset question) : bool :=
  default false (ans (walk_fuel s) s id at_ vis).

Lemma ans_walk n s id at_ vis v : ans n s id at_ vis = Some v → walk s id at_ vis = v.
Proof.
  intros H. unfold walk. destruct (ans_enough s id at_ vis) as [w Hw]. rewrite Hw. simpl.
  apply (ans_mono _ (n + walk_fuel s)) in H, Hw; [|lia..]. congruence.
Qed.

Lemma valid_walk s id : valid s id = walk s id max_int64 ∅.
Proof.
  unfold valid, walk. rewrite validAt_ans.
  by destruct (ans (walk_fuel s) s id max_int64 ∅).
Qed.

(** What the two kinds of records say, with the answers to their questions
    given. *)
Definition revoked_by (answer : PublicKey → Z → bool) (e : rev_effect) : bool :=
  match e with NoRev => false | SelfRev => true | RevBy r t => answer r t end.

Definition admitted_by (s : TrustSet) (answer : PublicKey → Z → bool) (id : PublicKey) : bool :=
  if decide (id = root s) then true
  else match admitter_of s id with None => false | Some (k, t) => answer k t end.

Lemma walk_eq s id at_ vis :
  walk s id at_ vis =
    if decide (blocked s id at_ vis) then false
    else negb (revoked_by (λ r t, walk s r t (guard s id at_ vis)) (rev_at s id at_)) &&
         admitted_by s (λ k t, walk s k t (guard s id at_ vis)) id.
Proof.
  apply (ans_walk (S (walk_fuel s))). rewrite ans_S. case_decide; [done|].
  assert (Hall : ∀ k t, ans (walk_fuel s) s k t (guard s id at_ vis) = Some (walk s k t (guard s id at_ vis))).
  { intros k t. unfold walk. by destruct (ans_enough s k t (guard s id at_ vis)) as [w ->]. }
  unfold admitted_by.
  destruct (rev_at s id at_) as [| |r t]; simpl; rewrite ?Hall; simpl; [|done|].
  - case_decide; [done|]. destruct (admitter_of s id) as [[k t]|]; [|done]. apply Hall.
  - destruct (walk s r t _); [done|]. case_decide; [done|].
    destruct (admitter_of s id) as [[k t']|]; [|done]. apply Hall.
Qed.

(** The guard only matters for questions the walk can still reach. *)
Lemma walk_guard_ext s id at_ vis vis' :
  (∀ q, q ∈ questions s ∨ q = (id, at_) → q ∈ vis ↔ q ∈ vis') →
  walk s id at_ vis = walk s id at_ vis'.
Proof.
  intros Hv. enough (H : ∀ n, ans n s id at_ vis = ans n s id at_ vis').
  { unfold walk. by rewrite H. }
  intros n. revert id at_ vis vis' Hv.
  induction n as [|n IH]; intros id at_ vis vis' Hv; [done|]. rewrite !ans_S.
  assert (Hb : blocked s id at_ vis ↔ blocked s id at_ vis').
  { unfold blocked. rewrite Hv by auto. done. }
  assert (Hc : ∀ k t, (k, t) ∈ questions s →
    ans n s k t (guard s id at_ vis) = ans n s k t (guard s id at_ vis')).
  { intros k t Hk. apply IH. intros q Hq. unfold guard.
    assert (q ∈ questions s) by naive_solver.
    case_decide; [apply Hv; by left|]. rewrite !elem_of_union, Hv by (by left). done. }
  assert (Ha : match admitter_of s id with
               | None => Some false | Some (k, t) => ans n s k t (guard s id at_ vis) end =
               match admitter_of s id with
               | None => Some false | Some (k, t) => ans n s k t (guard s id at_ vis') end).
  { destruct (admitter_of s id) as [[k t]|] eqn:E; [|done].
    apply Hc. by eapply admitter_of_question. }
  destruct (decide (blocked s id at_ vis)) as [B|B].
  { rewrite decide_True by (by apply Hb). done. }
  rewrite (decide_False (P := blocked s id at_ vis')) by (by rewrite <-Hb).
  destruct (rev_at s id at_) as [| |r t] eqn:E; simpl; rewrite ?Ha; [done..|].
  apply rev_at_question in E as [Hq _]. by rewrite (Hc r t Hq).
Qed.

(** ** Locality: which records an answer depends on *)

Definition agree (s s' : TrustSet) (id : PublicKey) (at_ : Z) : Prop :=
  rev_at s id at_ = rev_at s' id at_ ∧ admitter_of s id = admitter_of s' id.

Lemma ans_local n s s' id at_ vis :
  root s = root s' → (∀ k t, (k, t) ∈ questions s → agree s s' k t) → agree s s' id at_ →
  ans n s id at_ vis = ans n s' id at_ vis.
Proof.
  intros Hroot Hq. revert id at_ vis. induction n as [|n IH]; intros id at_ vis Ha; [done|].
  rewrite !ans_S. destruct Ha as [Hr Ha]. rewrite <-Hr, <-Ha.
  assert (Hg : guard s' id at_ vis = guard s id at_ vis) by (unfold guard; by rewrite Hroot).
  rewrite Hg, <-Hroot.
  rewrite (decide_ext (blocked s' id at_ vis) (blocked s id at_ vis)) by
    (unfold blocked; by rewrite Hroot).
  assert (Hadm : ∀ v, match admitter_of s id with
               | None => Some false | Some (k, t) => ans n s k t v end =
               match admitter_of s id with
               | None => Some false | Some (k, t) => ans n s' k t v end).
  { intros v. destruct (admitter_of s id) as [[k t]|] eqn:E; [|done].
    apply IH, Hq. by eapply admitter_of_question. }
  rewrite Hadm. destruct (rev_at s id at_) as [| |r t] eqn:E; [done..|].
  apply rev_at_question in E as [Hin _]. by rewrite (IH r t) by auto.
Qed.

Lemma walk_local s s' id at_ vis :
  root s = root s' → (∀ k t, (k, t) ∈ questions s → agree s s' k t) → agree s s' id at_ →
  walk s id at_ vis = walk s' id at_ vis.
Proof.
  intros Hr Hq Ha. destruct (ans_enough s id at_ vis) as [v Hv].
  rewrite (ans_walk _ _ _ _ _ _ Hv). rewrite (ans_local _ s s') in Hv by done.
  symmetry. by eapply ans_walk.
Qed.

(** ** Properties *)

(** C11: the recursion of [validAt] always ends, whatever records the set holds,
    cyclic ones included: every amount of fuel from [walk_fuel] on gives the
    same answer, and the guard comes back as it was passed. *)
Theorem validAt_terminates s id at_ visiting :
  ∃ v, ∀ fuel, (walk_fuel s ≤ fuel)%nat → validAt fuel s id at_ visiting = Some (v, visiting).
Proof.
  destruct (ans_enough s id at_ visiting) as [v Hv]. exists v. intros fuel Hf.
  by rewrite validAt_ans, (ans_mono _ _ _ _ _ _ _ Hf Hv).
Qed.

(** ** The cache of answers *)

Definition cache_ok (s : TrustSet) : Prop := ∀ id, id ∈ members s → valid s id = true.

Lemma valid_ext s s' id :
  root s = root s' → admissions s = admissions s' → revocations s = revocations s' →
  valid s id = valid s' id.
Proof.
  intros Hr Ha Hv. rewrite !valid_walk. apply walk_local; [done|..].
  - intros k t _. unfold agree, rev_at, admitter_of. by rewrite Ha, Hv.
  - unfold agree, rev_at, admitter_of. by rewrite Ha, Hv.
Qed.

Lemma forget_cache_ok s : cache_ok (forget s).
Proof. intros id H. set_solver. Qed.

Section cache.
Context `{!Ed25519}.

Lemma add_record_cache_ok s x : cache_ok s → cache_ok (add_record s x).
Proof.
  intros Hc. destruct x as [a|r]; simpl.
  - destruct (AddAdmission_cases s a) as [[_ ->]|(_ & -> & _)]; [|done].
    intros id Hid. set_solver.
  - destruct (AddRevocation_cases s r) as [[_ ->]|(_ & -> & _)]; [|done].
    intros id Hid. set_solver.
Qed.

(** What can happen to a set: a record is added, or a question is asked. *)
Inductive set_op := OpAdd (x : record) | OpMerge (rs : trust_Records) | OpValid (id : PublicKey).

Definition run_op (s : TrustSet) (op : set_op) : TrustSet :=
  match op with
  | OpAdd x => add_record s x
  | OpMerge rs => (Merge s rs).2
  | OpValid id => (Valid s id).2
  end.

Lemma deliver_cache_ok s l : cache_ok s → cache_ok (deliver s l).
Proof.
  revert s. induction l as [|x l IH]; intros s Hc; simpl; [done|].
  by apply IH, add_record_cache_ok.
Qed.

Lemma Valid_answer s id : cache_ok s → (Valid s id).1 = valid s id.
Proof.
  intros Hc. unfold Valid. case_decide as Hin; [by rewrite (Hc id)|].
  by destruct (valid s id).
Qed.

Lemma Valid_cache_ok s id : cache_ok s → cache_ok (Valid s id).2.
Proof.
  intros Hc. unfold Valid. case_decide as Hin; [done|].
  destruct (valid s id) eqn:E; [|done]. intros k Hk. simpl in Hk.
  rewrite (valid_ext _ s) by done.
  apply elem_of_union in Hk as [Hk%elem_of_singleton|Hk]; [by subst|by apply Hc].
Qed.

Lemma run_op_cache_ok s op : cache_ok s → cache_ok (run_op s op).
Proof.
  destruct op; simpl; intros Hc.
  - by apply add_record_cache_ok.
  - rewrite Merge_deliver. by apply deliver_cache_ok.
  - by apply Valid_cache_ok.
Qed.

(** The cache never changes an answer: after any sequence of records,
    merges and queries on a new set, [Valid] answers what the walk over the
    current records answers. *)
Theorem Valid_is_valid rt ops id :
  (Valid (foldl run_op (NewSet rt) ops) id).1 = valid (foldl run_op (NewSet rt) ops) id.
Proof.
  apply Valid_answer.
  assert (Hnew : cache_ok (NewSet rt)) by (intros k Hk; set_solver).
  revert Hnew. generalize (NewSet rt). induction ops as [|op ops IH]; intros s Hc; simpl; [done|].
  by apply IH, run_op_cache_ok.
Qed.
End cache.
