(* ===== verification/Membership.v ===== *)
(** * Membership: the rules, and the walk as their decision procedure

    docs/membership.md gives the rules of membership: a member is the root, or
    was admitted by somebody who was a member at the time, and has not been
    revoked by itself or by somebody who was a member at the time. Here they
    are stated as four mutually inductive judgements on the records, without
    recursion limit, guard or cache. [validAt] answers as the rules say
    whenever they say something, and they say something about every question
    when the records do not judge each other in a circle. *)

From S2P Require Import Prelude Wire Encoding Identity Records TrustSet Demo Validity.

(** ** The rules *)

Inductive member_at (s : TrustSet) : PublicKey → Z → Prop :=
  | member_root t : unrevoked_at s (root s) t → member_at s (root s) t
  | member_admitted id a t :
      id ≠ root s → admissions s !! id = Some a → adm_Admitter a ≠ id →
      member_at s (adm_Admitter a) (adm_IssuedAt a) →
      unrevoked_at s id t → member_at s id t
with unrevoked_at (s : TrustSet) : PublicKey → Z → Prop :=
  | unrevoked_none id t : revocations s !! id = None → unrevoked_at s id t
  | unrevoked_later id r t :
      revocations s !! id = Some r → t < rev_IssuedAt r → unrevoked_at s id t
  | unrevoked_void id r t :
      revocations s !! id = Some r → rev_Revoker r ≠ id →
      nonmember_at s (rev_Revoker r) (rev_IssuedAt r) → unrevoked_at s id t
with nonmember_at (s : TrustSet) : PublicKey → Z → Prop :=
  | nonmember_revoked id t : revoked_at s id t → nonmember_at s id t
  | nonmember_unadmitted id t :
      id ≠ root s → admissions s !! id = None → nonmember_at s id t
  | nonmember_self id a t :
      id ≠ root s → admissions s !! id = Some a → adm_Admitter a = id → nonmember_at s id t
  | nonmember_admitter id a t :
      id ≠ root s → admissions s !! id = Some a →
      nonmember_at s (adm_Admitter a) (adm_IssuedAt a) → nonmember_at s id t
with revoked_at (s : TrustSet) : PublicKey → Z → Prop :=
  | revoked_self id r t :
      revocations s !! id = Some r → rev_IssuedAt r ≤ t → rev_Revoker r = id →
      revoked_at s id t
  | revoked_member id r t :
      revocations s !! id = Some r → rev_IssuedAt r ≤ t →
      member_at s (rev_Revoker r) (rev_IssuedAt r) → revoked_at s id t.

Scheme member_at_ind' := Minimality for member_at Sort Prop
  with unrevoked_at_ind' := Minimality for unrevoked_at Sort Prop
  with nonmember_at_ind' := Minimality for nonmember_at Sort Prop
  with revoked_at_ind' := Minimality for revoked_at Sort Prop.
Combined Scheme membership_ind from member_at_ind', unrevoked_at_ind', nonmember_at_ind', revoked_at_ind'.

(** ** The rules, evaluated: no guard, and "undecided" as a third answer *)

Definition decide_both (revoked admitted : option bool) : option bool :=
  match revoked, admitted with
  | Some true, _ | _, Some false => Some false
  | Some false, Some true => Some true
  | _, _ => None
  end.

Fixpoint judge (n : nat) (s : TrustSet) (id : PublicKey) (t : Z) : option bool :=
  match n with
  | O => None
  | S n =>
      decide_both
        match rev_at s id t with
        | NoRev => Some false
        | SelfRev => Some true
        | RevBy r t' => judge n s r t'
        end
        (if decide (id = root s) then Some true
         else match admitter_of s id with
              | None => Some false
              | Some (k, t') => judge n s k t'
              end)
  end.

Section judge.
Implicit Types (s : TrustSet) (id : PublicKey) (t : Z).

Lemma decide_both_mono r r' a a' v :
  (∀ w, r = Some w → r' = Some w) → (∀ w, a = Some w → a' = Some w) →
  decide_both r a = Some v → decide_both r' a' = Some v.
Proof.
  intros Hr Ha. destruct r as [[]|], a as [[]|]; simpl; intros [= <-];
    rewrite ?(Hr _ eq_refl), ?(Ha _ eq_refl); simpl; try done; by destruct r' as [[]|].
Qed.

Lemma judge_mono n m s id t v : (n ≤ m)%nat → judge n s id t = Some v → judge m s id t = Some v.
Proof.
  revert m id t v. induction n as [|n IH]; intros m id t v Hm; [done|].
  destruct m as [|m]; [lia|]. simpl. apply decide_both_mono; intros w.
  - destruct (rev_at s id t); [done..|]. apply IH. lia.
  - case_decide; [done|]. destruct (admitter_of s id) as [[k t']|]; [|done]. apply IH. lia.
Qed.

Lemma judge_none_mono n m s id t : (n ≤ m)%nat → judge m s id t = None → judge n s id t = None.
Proof.
  intros Hm Hn. destruct (judge n s id t) eqn:E; [|done].
  apply (judge_mono _ m) in E; [congruence|done].
Qed.

(** The guard costs nothing: on a question the rules settle at some depth,
    with only unsettled questions under way, the walk gives the same answer. *)
Lemma judge_walk n s id t vis v :
  judge n s id t = Some v → (∀ q, q ∈ vis → judge n s q.1 q.2 = None) → walk s id t vis = v.
Proof.
  revert id t vis v. induction n as [|n IH]; intros id t vis v Hj Hvis; [done|].
  destruct (judge n s id t) as [w|] eqn:Eprev.
  { assert (w = v) as <-.
    { apply (judge_mono _ (S n)) in Eprev; [congruence|lia]. }
    apply IH; [done|]. intros q Hq. eapply judge_none_mono; [|by apply Hvis]. lia. }
  rewrite walk_eq, decide_False.
  2:{ intros [_ Hin]. apply Hvis in Hin. cbn [fst snd] in Hin. congruence. }
  assert (Hg : ∀ q, q ∈ guard s id t vis → judge n s q.1 q.2 = None).
  { assert (Hold : ∀ q, q ∈ vis → judge n s q.1 q.2 = None).
    { intros q Hq. eapply judge_none_mono; [|by apply Hvis]. lia. }
    intros q. unfold guard. case_decide; [apply Hold|].
    rewrite elem_of_union, elem_of_singleton. intros [->|Hq]; [done|by apply Hold]. }
  simpl in Hj.
  set (rj := match rev_at s id t with NoRev => _ | SelfRev => _ | RevBy _ _ => _ end) in Hj.
  set (aj := if decide (id = root s) then _ else _) in Hj.
  assert (Hr : ∀ w, rj = Some w → revoked_by (λ r t', walk s r t' (guard s id t vis)) (rev_at s id t) = w).
  { intros w. unfold rj. destruct (rev_at s id t); simpl; intros Hw; [congruence..|]. by apply IH. }
  assert (Ha : ∀ w, aj = Some w → admitted_by s (λ k t', walk s k t' (guard s id t vis)) id = w).
  { intros w. unfold aj, admitted_by. intros Hw. case_decide; [congruence|].
    destruct (admitter_of s id) as [[k t']|]; [|congruence]. by apply IH. }
  clearbody rj aj.
  destruct rj as [[]|], aj as [[]|]; simpl in Hj; try done; injection Hj as <-;
    repeat match goal with
    | Hf : ∀ w, Some _ = Some w → _ |- _ => specialize (Hf _ eq_refl); rewrite Hf
    end; simpl; try done; by rewrite ?andb_false_r.
Qed.

(** ** The judgements are what [judge] computes *)

Lemma rev_at_None s id t : revocations s !! id = None → rev_at s id t = NoRev.
Proof. intros E. unfold rev_at. by rewrite E. Qed.
Lemma rev_at_later s id r t :
  revocations s !! id = Some r → t < rev_IssuedAt r → rev_at s id t = NoRev.
Proof. intros E Ht. unfold rev_at. rewrite E. by rewrite (proj2 (Z.ltb_lt _ _) Ht). Qed.
Lemma rev_at_self s id r t :
  revocations s !! id = Some r → rev_IssuedAt r ≤ t → rev_Revoker r = id → rev_at s id t = SelfRev.
Proof.
  intros E Ht Hs. unfold rev_at. rewrite E, (proj2 (Z.ltb_ge _ _) Ht). by rewrite decide_True.
Qed.
Lemma rev_at_by s id r t :
  revocations s !! id = Some r → rev_IssuedAt r ≤ t → rev_Revoker r ≠ id →
  rev_at s id t = RevBy (rev_Revoker r) (rev_IssuedAt r).
Proof.
  intros E Ht Hs. unfold rev_at. rewrite E, (proj2 (Z.ltb_ge _ _) Ht). by rewrite decide_False.
Qed.
Lemma admitter_of_Some s id a :
  admissions s !! id = Some a → adm_Admitter a ≠ id →
  admitter_of s id = Some (adm_Admitter a, adm_IssuedAt a).
Proof. intros E Hne. unfold admitter_of. rewrite E. by rewrite decide_False. Qed.
Lemma admitter_of_self s id a :
  admissions s !! id = Some a → adm_Admitter a = id → admitter_of s id = None.
Proof. intros E Hne. unfold admitter_of. rewrite E. by rewrite decide_True. Qed.
Lemma admitter_of_None s id : admissions s !! id = None → admitter_of s id = None.
Proof. intros E. unfold admitter_of. by rewrite E. Qed.

(** [judge], one component at a time. *)
Definition rev_judged n s id t (v : bool) : Prop :=
  match rev_at s id t with
  | NoRev => v = false
  | SelfRev => v = true
  | RevBy r t' => judge n s r t' = Some v
  end.

Lemma decide_both_true r a : decide_both r a = Some true ↔ r = Some false ∧ a = Some true.
Proof. destruct r as [[]|], a as [[]|]; naive_solver. Qed.
Lemma decide_both_false r a : decide_both r a = Some false ↔ r = Some true ∨ a = Some false.
Proof. destruct r as [[]|], a as [[]|]; naive_solver. Qed.

Lemma rev_judged_eq n s id t v :
  match rev_at s id t with
  | NoRev => Some false | SelfRev => Some true | RevBy r t' => judge n s r t'
  end = Some v ↔ rev_judged n s id t v.
Proof. unfold rev_judged. destruct (rev_at s id t); naive_solver. Qed.

Lemma judge_true n s id t :
  judge (S n) s id t = Some true ↔
    rev_judged n s id t false ∧
    (id = root s ∨ id ≠ root s ∧ ∃ k t', admitter_of s id = Some (k, t') ∧ judge n s k t' = Some true).
Proof.
  simpl. rewrite decide_both_true, rev_judged_eq.
  destruct (decide (id = root s)); [naive_solver|].
  destruct (admitter_of s id) as [[k t']|]; naive_solver.
Qed.

Lemma judge_false n s id t :
  judge (S n) s id t = Some false ↔
    rev_judged n s id t true ∨
    (id ≠ root s ∧ ∀ k t', admitter_of s id = Some (k, t') → judge n s k t' = Some false).
Proof.
  simpl. rewrite decide_both_false, rev_judged_eq.
  destruct (decide (id = root s)); [naive_solver|].
  destruct (admitter_of s id) as [[k t']|]; naive_solver.
Qed.

Lemma rev_judged_mono n m s id t v :
  (n ≤ m)%nat → rev_judged n s id t v → rev_judged m s id t v.
Proof. unfold rev_judged. intros Hm. destruct (rev_at s id t); try done. by apply judge_mono. Qed.

(** What the rules settle, [judge] finds at some depth. *)
Lemma rules_judge s :
  (∀ id t, member_at s id t → ∃ n, judge n s id t = Some true) ∧
  (∀ id t, unrevoked_at s id t → ∃ n, rev_judged n s id t false) ∧
  (∀ id t, nonmember_at s id t → ∃ n, judge n s id t = Some false) ∧
  (∀ id t, revoked_at s id t → ∃ n, rev_judged n s id t true).
Proof.
  apply (membership_ind s
    (λ id t, ∃ n, judge n s id t = Some true) (λ id t, ∃ n, rev_judged n s id t false)
    (λ id t, ∃ n, judge n s id t = Some false) (λ id t, ∃ n, rev_judged n s id t true)).
  - intros t _ [n Hn]. exists (S n). apply judge_true. auto.
  - intros id a t Hne Ha Hself _ [n Hn] _ [m Hm]. exists (S (n + m)). apply judge_true.
    split; [eapply rev_judged_mono; [|done]; lia|]. right. split; [done|].
    exists (adm_Admitter a), (adm_IssuedAt a). split; [by apply admitter_of_Some|].
    eapply judge_mono; [|done]. lia.
  - intros id t E. exists O. unfold rev_judged. by rewrite rev_at_None.
  - intros id r t E Ht. exists O. unfold rev_judged. by rewrite (rev_at_later _ _ r).
  - intros id r t E Hself _ [n Hn]. exists n. unfold rev_judged.
    destruct (Z.lt_ge_cases t (rev_IssuedAt r)) as [Ht|Ht].
    + by rewrite (rev_at_later _ _ r).
    + by rewrite (rev_at_by _ _ r).
  - intros id t _ [n Hn]. exists (S n). apply judge_false. auto.
  - intros id t Hne E. exists 1%nat. apply judge_false. right. split; [done|].
    intros k t'. by rewrite admitter_of_None.
  - intros id a t Hne E Hself. exists 1%nat. apply judge_false. right. split; [done|].
    intros k t'. by rewrite (admitter_of_self _ _ a).
  - intros id a t Hne E _ [n Hn]. exists (S n). apply judge_false. right. split; [done|].
    intros k t'. unfold admitter_of. rewrite E. case_decide; [done|]. by intros [= <- <-].
  - intros id r t E Ht Hself. exists O. unfold rev_judged. by rewrite (rev_at_self _ _ r).
  - intros id r t E Ht _ [n Hn]. exists n. unfold rev_judged.
    destruct (decide (rev_Revoker r = id)).
    + by rewrite (rev_at_self _ _ r).
    + by rewrite (rev_at_by _ _ r).
Qed.

(** And the other way around. *)
Lemma judge_rules n s id t v :
  judge n s id t = Some v → if v then member_at s id t else nonmember_at s id t.
Proof.
  revert id t v. induction n as [|n IH]; intros id t v; [done|].
  assert (Hrev : ∀ w, rev_judged n s id t w → if w then revoked_at s id t else unrevoked_at s id t).
  { intros w. unfold rev_judged, rev_at.
    destruct (revocations s !! id) as [r|] eqn:E; [|intros ->; by apply unrevoked_none].
    destruct (Z.ltb_spec t (rev_IssuedAt r)); [intros ->; by eapply unrevoked_later|].
    case_decide; [intros ->; by eapply revoked_self|].
    intros Hw. apply IH in Hw. destruct w; [by eapply revoked_member|by eapply unrevoked_void]. }
  destruct v.
  - intros [Hr Ha]%judge_true. apply Hrev in Hr.
    destruct Ha as [->|(Hne & k & t' & Hk & Hj)]; [by apply member_root|].
    unfold admitter_of in Hk. destruct (admissions s !! id) as [a|] eqn:E; [|done].
    case_decide; [done|]. injection Hk as <- <-. apply IH in Hj. by eapply member_admitted.
  - intros [Hr|[Hne Ha]]%judge_false; [by apply nonmember_revoked, (Hrev true)|].
    unfold admitter_of in Ha. destruct (admissions s !! id) as [a|] eqn:E; [|by apply nonmember_unadmitted].
    case_decide; [by eapply nonmember_self|].
    eapply nonmember_admitter; [done..|]. by apply (IH _ _ false), Ha.
Qed.

(** The rules never contradict themselves. *)
Lemma rules_consistent s id t : member_at s id t → ¬ nonmember_at s id t.
Proof.
  destruct (rules_judge s) as (Hm & _ & Hn & _).
  intros [n E1]%Hm [m E2]%Hn.
  apply (judge_mono _ (n + m)) in E1, E2; [congruence|lia..].
Qed.

Lemma walk_rules s id t :
  (member_at s id t → walk s id t ∅ = true) ∧ (nonmember_at s id t → walk s id t ∅ = false).
Proof.
  destruct (rules_judge s) as (Hm & _ & Hn & _).
  split; [intros [n E]%Hm|intros [n E]%Hn];
    (destruct n; [done|]; eapply judge_walk; [exact E|set_solver]).
Qed.

(** ** When the rules settle everything *)

(** The questions one question leads to. *)
Definition asks s (q q' : question) : Prop :=
  rev_at s q.1 q.2 = RevBy q'.1 q'.2 ∨ (q.1 ≠ root s ∧ admitter_of s q.1 = Some q').

Lemma judge_complete s q :
  Acc (λ q' q, asks s q q') q → ∃ n, is_Some (judge n s q.1 q.2).
Proof.
  induction 1 as [[id t] _ IH]. unfold asks in IH. simpl in *.
  assert (∃ n, id = root s ∨ ∀ k t', admitter_of s id = Some (k, t') → is_Some (judge n s k t')) as [n Hn].
  { destruct (decide (id = root s)) as [|Hne]; [by exists O; left|].
    destruct (admitter_of s id) as [[k t']|] eqn:E; [|exists O; by right].
    destruct (IH (k, t')) as [n Hn]; [by right|]. exists n. right. by intros ? ? [= <- <-]. }
  assert (∃ m, ∃ v, rev_judged m s id t v) as (m & v & Hv).
  { unfold rev_judged. destruct (rev_at s id t) as [| |r t']; [by exists O, false|by exists O, true|].
    destruct (IH (r, t')) as (m & v & Hm); [by left|]. by exists m, v. }
  exists (S (n + m)).
  assert (Hv' : rev_judged (n + m) s id t v) by (eapply rev_judged_mono; [|done]; lia).
  destruct v; [exists false; apply judge_false; by left|].
  destruct (decide (id = root s)) as [->|Hne]; [exists true; apply judge_true; auto|].
  destruct Hn as [|Hn]; [done|].
  destruct (admitter_of s id) as [[k t']|] eqn:E.
  - destruct (Hn k t' eq_refl) as [w Hw]. apply (judge_mono _ (n + m)) in Hw; [|lia].
    destruct w; [exists true; apply judge_true; naive_solver|].
    exists false. apply judge_false. right. naive_solver.
  - exists false. apply judge_false. right. split; [done|]. by rewrite E.
Qed.

Lemma acyclic_walk s id t :
  Acc (λ q' q, asks s q q') (id, t) →
  (walk s id t ∅ = true ↔ member_at s id t) ∧ (walk s id t ∅ = false ↔ nonmember_at s id t).
Proof.
  intros [n [v Hv]]%judge_complete. simpl in Hv. apply judge_rules in Hv.
  destruct (walk_rules s id t) as [Ht Hf].
  destruct v; split; split; auto; intros Hw.
  - apply Ht in Hv. congruence.
  - apply Hf in Hv. congruence.
Qed.
End judge.

(** ** Records whose times make sense

    Every admitter was itself admitted before it admitted anybody, every
    revoker before it revoked anybody, and nobody's own revocation carries the
    very second in which it revoked another. Clocks that are right and
    enrolments one after the other give such records; a newer admission of an
    identity that already admitted others does not, and the theorems about
    [asks] cover that. *)

Definition admitted_before (s : TrustSet) (k : PublicKey) (t : Z) : Prop :=
  k ≠ root s → ∀ a, admissions s !! k = Some a → adm_IssuedAt a < t.

Record timely (s : TrustSet) : Prop := {
  timely_int64 : ∀ k t, (k, t) ∈ questions s → int64_range t;
  timely_admitter : ∀ k t, (k, t) ∈ questions s → admitted_before s k t;
  timely_revoker : ∀ id r q, revocations s !! id = Some r → revocations s !! rev_Revoker r = Some q →
    rev_Revoker r ≠ id → rev_IssuedAt q ≠ rev_IssuedAt r;
}.

Section timely.
Implicit Types (s : TrustSet) (id k : PublicKey) (t : Z).

Lemma asks_questions s q q' : asks s q q' → q' ∈ questions s.
Proof.
  destruct q as [id t], q' as [k t']. intros [Hr|[_ Ha]]; simpl in *.
  - by apply rev_at_question in Hr as [? _].
  - by eapply admitter_of_question.
Qed.

(** Twice the time, and one more while the revocation made in that second is
    still to be asked about. *)
Definition weight s (q : question) : Z :=
  2 * q.2 + match revocations s !! q.1 with
            | Some r => if rev_IssuedAt r =? q.2 then 1 else 0
            | None => 0
            end.

Lemma rev_at_RevBy s id t k t' :
  rev_at s id t = RevBy k t' →
  ∃ r, revocations s !! id = Some r ∧ rev_IssuedAt r ≤ t ∧ rev_Revoker r ≠ id ∧
       k = rev_Revoker r ∧ t' = rev_IssuedAt r.
Proof.
  unfold rev_at. destruct (revocations s !! id) as [r|]; [|done].
  destruct (Z.ltb_spec t (rev_IssuedAt r)); [done|]. case_decide; [done|].
  intros [= <- <-]. by exists r.
Qed.

Lemma admitter_of_inv s id q :
  admitter_of s id = Some q →
  ∃ a, admissions s !! id = Some a ∧ adm_Admitter a ≠ id ∧ q = (adm_Admitter a, adm_IssuedAt a).
Proof.
  unfold admitter_of. destruct (admissions s !! id) as [a|]; [|done].
  case_decide; [done|]. intros [= <-]. by exists a.
Qed.

Lemma asks_weight s q q' :
  timely s → q ∈ questions s → asks s q q' → weight s q' < weight s q.
Proof.
  intros [_ Hadm Hrev] Hq Hask. destruct q as [id t], q' as [k t'].
  destruct Hask as [Hr|[Hne Ha]]; simpl in *; unfold weight; simpl.
  - apply rev_at_RevBy in Hr as (r & E & Ht & Hself & -> & ->). rewrite E.
    destruct (revocations s !! rev_Revoker r) as [q|] eqn:Eq.
    + specialize (Hrev _ _ _ E Eq Hself).
      destruct (Z.eqb_spec (rev_IssuedAt q) (rev_IssuedAt r)); [done|].
      destruct (Z.eqb_spec (rev_IssuedAt r) t); lia.
    + destruct (Z.eqb_spec (rev_IssuedAt r) t); lia.
  - apply admitter_of_inv in Ha as (a & E & _ & [= -> ->]).
    specialize (Hadm id t Hq Hne a E).
    destruct (revocations s !! adm_Admitter a) as [q|], (revocations s !! id) as [r|];
      try destruct (_ =? _); try destruct (_ =? _); lia.
Qed.

Lemma timely_acyclic s q : timely s → Acc (λ q' q, asks s q q') q.
Proof.
  intros Ht.
  assert (Hall : ∀ q, q ∈ questions s → Acc (λ q' q, asks s q q') q).
  { intros q0. remember (weight s q0) as w eqn:Ew. revert q0 Ew.
    induction w as [w IH] using (well_founded_induction (Z.lt_wf (- 2 ^ 64))).
    intros q0 -> Hq0. constructor. intros q1 Hask.
    assert (Hq1 : q1 ∈ questions s) by (by eapply asks_questions).
    apply (IH (weight s q1)); [|done|done]. split; [|by apply asks_weight].
    destruct q1 as [k t]. apply (timely_int64 _ Ht) in Hq1. unfold int64_range in Hq1.
    unfold weight. simpl. destruct (revocations s !! k); [|lia].
    destruct (_ =? _); lia. }
  constructor. intros q' Hq'. apply Hall. by eapply asks_questions.
Qed.
End timely.

(** ** Chains of admissions *)

(** The admissions from an identity up to the root, none of whose holders had
    by then revoked itself. *)
Definition self_revoked (s : TrustSet) (id : PublicKey) (t : Z) : Prop := rev_at s id t = SelfRev.

Fixpoint chain (s : TrustSet) (id : PublicKey) (t : Z) (l : list Admission) : Prop :=
  ¬ self_revoked s id t ∧
  match l with
  | [] => id = root s
  | a :: l' =>
      id ≠ root s ∧ admissions s !! id = Some a ∧ adm_Admitter a ≠ id ∧
      chain s (adm_Admitter a) (adm_IssuedAt a) l'
  end.

Lemma ans_chain n s id t vis : ans n s id t vis = Some true → ∃ l, chain s id t l.
Proof.
  revert id t vis. induction n as [|n IH]; intros id t vis; [done|].
  rewrite ans_S. case_decide as Hb; [done|].
  assert (Hend : ¬ self_revoked s id t → id = root s → chain s id t []) by done.
  assert (Hstep : ¬ self_revoked s id t →
    (if decide (id = root s) then Some true else
     match admitter_of s id with
     | None => Some false
     | Some (k, t') => ans n s k t' (guard s id t vis)
     end) = Some true → ∃ l, chain s id t l).
  { intros Hr. destruct (decide (id = root s)) as [Hroot|Hroot]; [by exists []; auto|].
    destruct (admitter_of s id) as [[k t']|] eqn:E; [|done].
    apply admitter_of_inv in E as (a & Ha & Hne & [= -> ->]).
    intros [l Hl]%IH. by exists (a :: l). }
  unfold self_revoked in *.
  destruct (rev_at s id t) as [| |r t'] eqn:E; simpl; [by apply Hstep|done|].
  destruct (ans n s r t' _) as [[]|]; simpl; [done|by apply Hstep|done].
Qed.

Lemma walk_chain s id t vis : walk s id t vis = true → ∃ l, chain s id t l.
Proof.
  intros Hw. destruct (ans_enough s id t vis) as [v Hv].
  pose proof (ans_walk _ _ _ _ _ _ Hv). eapply ans_chain. rewrite Hv. congruence.
Qed.

Lemma chain_Forall (P : Admission → Prop) s id t l :
  map_Forall (λ _ a, P a) (admissions s) → chain s id t l → Forall P l.
Proof.
  intros HP. revert id t. induction l as [|a l IH]; intros id t; [constructor|].
  intros (_ & _ & Ha & _ & Hl). constructor; [by eapply HP|by eapply IH].
Qed.

(** ** What a new record does *)

(** No question the records raise is about the revoked identity at or after
    the time of its revocation: nobody it admitted or revoked since then. *)
Definition late (s : TrustSet) (r : Revocation) : Prop :=
  ∀ t, (rev_Identity r, t) ∈ questions s → t < rev_IssuedAt r.

(** Membership at a time, as [validAt] is asked from outside. *)
Definition valid_at (s : TrustSet) (id : PublicKey) (t : Z) : bool := walk s id t ∅.

Section changes.
Implicit Types (s : TrustSet) (id : PublicKey).

Definition with_revocation s (r : Revocation) : TrustSet :=
  MkSet (root s) (admissions s) (<[rev_Identity r := r]> (revocations s)) ∅.
Definition with_admission s (a : Admission) : TrustSet :=
  MkSet (root s) (<[adm_Identity a := a]> (admissions s)) (revocations s) ∅.

Lemma agree_revocation s r id t :
  revocations s !! rev_Identity r = None → id ≠ rev_Identity r ∨ t < rev_IssuedAt r →
  agree s (with_revocation s r) id t.
Proof.
  intros Hn Hid. split; [|done]. unfold rev_at. simpl.
  destruct (decide (id = rev_Identity r)) as [->|Hne].
  - destruct Hid as [Hid|Ht]; [done|]. rewrite Hn, lookup_insert_eq.
    by rewrite (proj2 (Z.ltb_lt _ _) Ht).
  - by rewrite lookup_insert_ne.
Qed.

Lemma late_agree s r :
  revocations s !! rev_Identity r = None → late s r →
  ∀ k t, (k, t) ∈ questions s → agree s (with_revocation s r) k t.
Proof.
  intros Hn Hl k t Hq. apply agree_revocation; [done|].
  destruct (decide (k = rev_Identity r)) as [->|]; [right; by apply Hl|by left].
Qed.

Lemma agree_admission s a id t :
  id ≠ adm_Identity a → agree s (with_admission s a) id t.
Proof. intros Hne. split; [done|]. unfold admitter_of. simpl. by rewrite lookup_insert_ne. Qed.

(** Asking under a guard the records cannot reach again. *)
Lemma walk_outer s k t id vis :
  (id, max_int64) ∉ questions s → k ≠ id →
  vis ⊆ {[(id, max_int64)]} → walk s k t vis = walk s k t ∅.
Proof.
  intros Hq Hne Hvis. apply walk_guard_ext. intros q Hin.
  split; [|set_solver]. intros Hv. apply Hvis, elem_of_singleton in Hv as ->.
  destruct Hin as [Hin|Hin]; [done|congruence].
Qed.

Lemma guard_outer s id t : guard s id t ∅ ⊆ {[(id, t)]}.
Proof. unfold guard. case_decide; set_solver. Qed.

Lemma revoke_self_answer s r :
  revocations s !! rev_Identity r = None → late s r → rev_IssuedAt r ≤ max_int64 →
  walk (with_revocation s r) (rev_Identity r) max_int64 ∅ =
    negb (bool_decide (rev_Revoker r = rev_Identity r) ||
          valid_at s (rev_Revoker r) (rev_IssuedAt r)) &&
    walk s (rev_Identity r) max_int64 ∅.
Proof.
  intros Hn Hl Ht. set (k := rev_Identity r).
  assert (Hmax : (k, max_int64) ∉ questions s) by (intros Hq%Hl; lia).
  assert (Hloc : ∀ k' t' v, (k', t') ∈ questions s ∨ k' ≠ k →
                 walk (with_revocation s r) k' t' v = walk s k' t' v).
  { intros k' t' v Hq. symmetry. apply walk_local; [done|by apply late_agree|].
    destruct Hq as [Hq|Hq]; [by apply late_agree|apply agree_revocation; auto]. }
  rewrite (walk_eq (with_revocation s r)), (walk_eq s k).
  rewrite !decide_False by (unfold blocked; set_solver).
  rewrite (rev_at_None s k) by done. simpl revoked_by. simpl negb. rewrite andb_true_l.
  f_equal.
  - f_equal. assert (E : revocations (with_revocation s r) !! k = Some r) by apply lookup_insert_eq.
    destruct (bool_decide_reflect (rev_Revoker r = k)) as [Hself|Hself].
    + by rewrite (rev_at_self _ _ r).
    + rewrite (rev_at_by _ _ r) by done. simpl. rewrite Hloc by auto.
      apply (walk_outer _ _ _ k); [done..|apply guard_outer].
  - unfold admitted_by. simpl. case_decide; [done|]. unfold admitter_of. simpl.
    fold (admitter_of s k). destruct (admitter_of s k) as [[k' t']|] eqn:E; [|done].
    rewrite Hloc; [done|]. left. by eapply admitter_of_question.
Qed.

Lemma admit_self_answer s a :
  adm_Identity a ≠ root s → adm_Admitter a ≠ adm_Identity a →
  revocations s !! adm_Identity a = None → (∀ t, (adm_Identity a, t) ∉ questions s) →
  walk (with_admission s a) (adm_Identity a) max_int64 ∅ =
    valid_at s (adm_Admitter a) (adm_IssuedAt a).
Proof.
  intros Hroot Hself Hrev Hq. set (k := adm_Identity a).
  rewrite walk_eq, decide_False by (unfold blocked; set_solver).
  rewrite (rev_at_None (with_admission s a) k) by done. simpl revoked_by. simpl negb.
  rewrite andb_true_l. unfold admitted_by. rewrite decide_False by done.
  rewrite (admitter_of_Some _ _ a) by (done || apply lookup_insert_eq).
  transitivity (walk s (adm_Admitter a) (adm_IssuedAt a) (guard (with_admission s a) k max_int64 ∅)).
  - symmetry. apply walk_local; [done| |by apply agree_admission].
    intros k' t' Hk. apply agree_admission. intros ->. by destruct (Hq t').
  - apply (walk_outer _ _ _ k); [done..|apply guard_outer].
Qed.

Lemma with_admission_valid s a id :
  adm_Identity a ≠ root s → adm_Admitter a ≠ adm_Identity a →
  revocations s !! adm_Identity a = None → (∀ t, (adm_Identity a, t) ∉ questions s) →
  valid (with_admission s a) id =
    if decide (id = adm_Identity a) then valid_at s (adm_Admitter a) (adm_IssuedAt a)
    else valid s id.
Proof.
  intros Hroot Hself Hrev Hq.
  rewrite !valid_walk. case_decide as Hid; [subst id; by apply admit_self_answer|].
  symmetry. apply walk_local; [done| |by apply agree_admission].
  intros k t Hk. apply agree_admission. intros ->. by destruct (Hq t).
Qed.
End changes.

(** ** Properties *)

(** C1: the answer of the code is the one of the rules: an identity the rules
    make a member is valid, one they exclude is not. *)
Theorem valid_follows_rules s id :
  (member_at s id max_int64 → valid s id = true) ∧
  (nonmember_at s id max_int64 → valid s id = false).
Proof. rewrite valid_walk. apply walk_rules. Qed.

(** C2: with records whose times make sense the rules settle every question,
    and the identities [Valid] accepts are exactly the members. *)
Theorem valid_iff_member s id :
  timely s → valid s id = true ↔ member_at s id max_int64.
Proof. intros Ht. rewrite valid_walk. by apply acyclic_walk, timely_acyclic. Qed.

(** C3: nobody is valid without a chain of signed admissions that ends at the
    pinned root, and in which nobody had left by its own hand when it signed
    the next. This holds for every set, however its records were made. *)
Theorem valid_needs_chain `{!Ed25519} s id :
  set_wf s → valid s id = true →
  ∃ l, chain s id max_int64 l ∧ Forall (λ a, adm_Validate a = Ok ()) l.
Proof.
  intros [Hwf _] Hv. rewrite valid_walk in Hv. apply walk_chain in Hv as [l Hl].
  exists l. split; [done|]. eapply chain_Forall; [|done]. intros k a Ha. by apply (Hwf k a Ha).
Qed.

Section exact.
Context `{!Ed25519}.
Implicit Types (s : TrustSet) (id : PublicKey).

(** C23: the first signature-valid revocation of an identity that a set takes
    in, dated after every record that identity has issued, takes that identity
    out if it was made by the identity itself or by somebody who was then a
    member, leaves it what it was otherwise, and changes nothing for anybody
    else: what the revoked member signed before stays good. (A set that has a
    revocation of the identity already keeps that one, see Conflicts; a record
    dated after the revocation falls with its issuer.) *)
Theorem revocation_exact s r id :
  rev_accepted s r → late s r → rev_IssuedAt r ≤ max_int64 →
  valid (AddRevocation s r).2 id =
    if decide (id = rev_Identity r) then
      negb (bool_decide (rev_Revoker r = id) || valid_at s (rev_Revoker r) (rev_IssuedAt r)) &&
      valid s id
    else valid s id.
Proof.
  intros Hacc Hl Ht.
  destruct (AddRevocation_cases s r) as [[_ ->]|[Hno _]]; [simpl|done].
  rewrite !valid_walk. destruct Hacc as [_ Hn].
  case_decide as Hid; [subst id; by apply revoke_self_answer|].
  symmetry. apply walk_local; [done|by apply late_agree|apply agree_revocation; auto].
Qed.

(** An admission of an identity new to the records makes that identity
    a member exactly if its admitter was one when it signed, and changes
    nothing for anybody else. *)
Theorem admission_exact s a id :
  adm_accepted s a → adm_Identity a ≠ root s → adm_Admitter a ≠ adm_Identity a →
  revocations s !! adm_Identity a = None → (∀ t, (adm_Identity a, t) ∉ questions s) →
  valid (AddAdmission s a).2 id =
    if decide (id = adm_Identity a) then valid_at s (adm_Admitter a) (adm_IssuedAt a)
    else valid s id.
Proof.
  intros Hacc Hroot Hself Hrev Hq.
  destruct (AddAdmission_cases s a) as [[_ ->]|[Hno _]]; [simpl|done].
  by apply with_admission_valid.
Qed.
End exact.

(** ** Witnesses *)

Section witness.
#[local] Existing Instance Toy.toy.

(** [timely] as a check. *)
Definition timely_b (s : TrustSet) : bool :=
forallb (λ q : question,
  (- 2 ^ 63 <=? q.2) && (q.2 <? 2 ^ 63) &&
  (bool_decide (q.1 = root s) ||
   match admissions s !! q.1 with Some a => adm_IssuedAt a <? q.2 | None => true end))
  (elements (questions s)) &&
forallb (λ ir : PublicKey * Revocation,
  bool_decide (rev_Revoker ir.2 = ir.1) ||
  match revocations s !! rev_Revoker ir.2 with
  | Some q => negb (rev_IssuedAt q =? rev_IssuedAt ir.2)
  | None => true
  end) (map_to_list (revocations s)).

Lemma timely_b_ok s : timely_b s = true → timely s.
Proof.
unfold timely_b. rewrite andb_true_iff, !forallb_forall. intros [Hq Hr].
assert (Hq' : ∀ k t, (k, t) ∈ questions s → - 2 ^ 63 ≤ t < 2 ^ 63 ∧ admitted_before s k t).
{ intros k t Hk. apply elem_of_elements, list_elem_of_In in Hk. specialize (Hq _ Hk). simpl in Hq.
  apply andb_true_iff in Hq as [Hrange Hadm]. split; [lia|].
  intros Hne a Ha. rewrite Ha in Hadm. rewrite bool_decide_eq_false_2 in Hadm by done. simpl in Hadm. lia. }
split.
- intros k t Hk. by destruct (Hq' k t Hk).
- intros k t Hk. by destruct (Hq' k t Hk).
- intros id r q E Eq Hne. apply elem_of_map_to_list, list_elem_of_In in E.
  specialize (Hr _ E). simpl in Hr. rewrite Eq, bool_decide_eq_false_2 in Hr by done. simpl in Hr. lia.
Qed.

Lemma valid_follows_rules_witness :
member_at cluster (key ann) max_int64 ∧ valid cluster (key ann) = true.
Proof.
assert (Hm : member_at cluster (key ann) max_int64).
{ apply (member_root cluster). by apply unrevoked_none. }
split; [done|]. by apply (valid_follows_rules cluster (key ann)).
Defined.

Lemma valid_iff_member_witness :
timely after ∧ valid after (key ann) = true ∧ member_at after (key ann) max_int64.
Proof.
assert (Ht : timely after) by (apply timely_b_ok; vm_compute; reflexivity).
assert (Hv : valid after (key ann) = true) by (vm_compute; reflexivity).
split; [done|]. split; [done|]. by apply (valid_iff_member after (key ann)).
Defined.

Lemma cluster_wf : set_wf cluster.
Proof. apply deliver_wf, NewSet_wf. Qed.

Lemma valid_needs_chain_witness :
set_wf cluster ∧ valid cluster (key dan) = true ∧
∃ l, chain cluster (key dan) max_int64 l ∧ Forall (λ a, adm_Validate a = Ok ()) l.
Proof.
assert (Hv : valid cluster (key dan) = true) by (vm_compute; reflexivity).
split; [apply cluster_wf|]. split; [done|].
apply (valid_needs_chain cluster (key dan)); [apply cluster_wf|done].
Defined.

Definition late_b (s : TrustSet) (r : Revocation) : bool :=
forallb (λ q : question, negb (bool_decide (q.1 = rev_Identity r)) || (q.2 <? rev_IssuedAt r))
  (elements (questions s)).
Lemma late_b_ok s r : late_b s r = true → late s r.
Proof.
unfold late_b. rewrite forallb_forall. intros Hq t Hk.
apply elem_of_elements, list_elem_of_In in Hk. specialize (Hq _ Hk). simpl in Hq.
rewrite bool_decide_eq_true_2 in Hq by done. simpl in Hq. lia.
Qed.

Lemma revocation_exact_witness :
rev_accepted cluster rev_bob ∧ late cluster rev_bob ∧
valid (AddRevocation cluster rev_bob).2 (key bob) = false ∧
valid (AddRevocation cluster rev_bob).2 (key dan) = valid cluster (key dan).
Proof.
assert (Ha : rev_accepted cluster rev_bob) by (split; vm_compute; reflexivity).
assert (Hl : late cluster rev_bob) by (apply late_b_ok; vm_compute; reflexivity).
split; [done|]. split; [done|]. split.
- rewrite (revocation_exact cluster rev_bob (key bob)) by (done || (vm_compute; done)).
  vm_compute. reflexivity.
- rewrite (revocation_exact cluster rev_bob (key dan)) by (done || (vm_compute; done)).
  vm_compute. reflexivity.
Defined.

Definition unmentioned_b (s : TrustSet) (id : PublicKey) : bool :=
forallb (λ q : question, negb (bool_decide (q.1 = id))) (elements (questions s)).
Lemma unmentioned_b_ok s id : unmentioned_b s id = true → ∀ t, (id, t) ∉ questions s.
Proof.
unfold unmentioned_b. rewrite forallb_forall. intros Hq t Hk.
apply elem_of_elements, list_elem_of_In in Hk. specialize (Hq _ Hk). simpl in Hq.
by rewrite bool_decide_eq_true_2 in Hq.
Qed.

Definition adm_eve : Admission := Admit dan (key eve) (str "eve") 5 120.

Lemma admission_exact_witness :
adm_accepted cluster adm_eve ∧ valid (AddAdmission cluster adm_eve).2 (key eve) = true.
Proof.
assert (Ha : adm_accepted cluster adm_eve).
{ split; [split; [vm_compute; reflexivity|vm_compute; done]|vm_compute; done]. }
split; [done|].
rewrite (admission_exact cluster adm_eve (key eve)); [vm_compute; reflexivity|done|..].
- apply (bool_decide_unpack (adm_Identity adm_eve ≠ root cluster)). vm_compute. exact I.
- apply (bool_decide_unpack (adm_Admitter adm_eve ≠ adm_Identity adm_eve)). vm_compute. exact I.
- vm_compute. reflexivity.
- apply unmentioned_b_ok. vm_compute. reflexivity.
Defined.
End witness.
