(* ===== verification/SetCache.v ===== *)
(** * SetCache: the record set under concurrent use (internal/trust/set.go, locks and cache)

    The set is read for every packet and changed as records arrive, by
    goroutines of their own. [Valid] looks into the cache without the lock,
    walks to the root under the read lock, and stores what it found in the map
    it looked into; a change writes the record under the write lock and
    replaces the map before it gives the lock back. The model is the calls
    under way, each with what it does next, one step per locked region or
    atomic operation.

    Shown: every answer is the one of the records at some moment between the
    call and the answer, the changes come one after the other, the current map
    holds nothing the current records do not confirm, and no call waits for
    ever. *)

From S2P Require Import Prelude Encoding Identity Records TrustSet Validity Demo.

#[local] Open Scope nat_scope.

(** ** The calls and what they share *)

Inductive call := CValid (id : PublicKey) | CAdd (x : record).

(** A call under way. [since] is the number of changes before it was made, which
    the program does not know; [m] says which of the maps was loaded. *)
Inductive thread :=
  | TValid (id : PublicKey) (since : nat)
  | TLoaded (id : PublicKey) (since m : nat)              (* cached := s.members.Load() *)
  | TMissed (id : PublicKey) (since m : nat)              (* not in cached *)
  | TWalked (id : PublicKey) (since m : nat) (v : bool)   (* after s.mu.RUnlock *)
  | TAdd (x : record) (since : nat)
  | TWrites (x : record) (since : nat).                   (* the record is written, forget is next *)

(** What calls answered, between which numbers of changes. *)
Inductive answer :=
  | AnsValid (id : PublicKey) (since upto : nat) (v : bool)
  | AnsAdd (x : record) (since upto : nat) (r : result bool).

Record shared := MkSys {
  y_set : TrustSet;                        (* root and records *)
  y_maps : list (gset PublicKey);          (* every map made; members points to the last *)
  y_writer : option (nat * TrustSet);      (* who has the write_record lock, and the records it has written *)
  y_threads : gmap nat thread;
  y_past : list TrustSet;                  (* the records before each change *)
  y_answers : list answer;
}.

(** The number of changes so far, which is also the index of the current map. *)
Definition now (y : shared) : nat := length (y_past y).

Definition set_thread (y : shared) (t : nat) (th : thread) : shared :=
  MkSys (y_set y) (y_maps y) (y_writer y) (<[t := th]> (y_threads y)) (y_past y) (y_answers y).
Definition finish (y : shared) (t : nat) (a : answer) : shared :=
  MkSys (y_set y) (y_maps y) (y_writer y) (delete t (y_threads y)) (y_past y) (a :: y_answers y).
(** [cached.Store(id, struct{}{})] *)
Definition store (y : shared) (m : nat) (id : PublicKey) : shared :=
  MkSys (y_set y) (alter (λ c, {[id]} ∪ c) m (y_maps y)) (y_writer y) (y_threads y) (y_past y) (y_answers y).
(** [s.mu.Lock()] and the writing of the record. *)
Definition write_record (y : shared) (t : nat) (s : TrustSet) : shared :=
  MkSys (y_set y) (y_maps y) (Some (t, s)) (y_threads y) (y_past y) (y_answers y).
(** [s.forget()] and [s.mu.Unlock()]. *)
Definition commit (y : shared) (s : TrustSet) : shared :=
  MkSys s (y_maps y ++ [∅]) None (y_threads y) (y_past y ++ [y_set y]) (y_answers y).

(** [NewSet] *)
Definition start_set (rt : PublicKey) : shared := MkSys (NewSet rt) [∅] None ∅ [] [].

Section steps.
Context {ed : Ed25519}.

Definition add_of (s : TrustSet) (x : record) : result bool * TrustSet :=
  match x with RAdm a => AddAdmission s a | RRev r => AddRevocation s r end.

Definition called (c : call) (since : nat) : thread :=
  match c with CValid id => TValid id since | CAdd x => TAdd x since end.

(** What a call does next, if it does not have to wait for the lock. Records
    that fail verification are refused before it is asked for. *)
Definition advance (y : shared) (t : nat) : option shared :=
  match y_threads y !! t with
  | None => None
  | Some (TValid id n) => Some (set_thread y t (TLoaded id n (now y)))
  | Some (TLoaded id n m) =>
      if decide (id ∈ default ∅ (y_maps y !! m)) then Some (finish y t (AnsValid id n (now y) true))
      else Some (set_thread y t (TMissed id n m))
  | Some (TMissed id n m) =>
      match y_writer y with
      | Some _ => None
      | None => Some (set_thread y t (TWalked id n m (valid (y_set y) id)))
      end
  | Some (TWalked id n m v) =>
      let y := if v then store y m id else y in
      Some (finish y t (AnsValid id n (now y) v))
  | Some (TAdd x n) =>
      match add_of (y_set y) x, y_writer y with
      | (Err e, _), _ => Some (finish y t (AnsAdd x n (now y) (Err e)))
      | (Ok _, _), Some _ => None
      | (Ok false, _), None => Some (finish y t (AnsAdd x n (now y) (Ok false)))
      | (Ok true, s), None => Some (set_thread (write_record y t s) t (TWrites x n))
      end
  | Some (TWrites x n) =>
      match y_writer y with
      | Some (t', s) =>
          if decide (t' = t) then
            let y := commit y s in Some (finish y t (AnsAdd x n (now y) (Ok true)))
          else None
      | None => None
      end
  end.

(** A call is made, or one that is under way goes on. *)
Inductive step (y : shared) : shared → Prop :=
  | SCall t c : y_threads y !! t = None → step y (set_thread y t (called c (now y)))
  | SAdvance t y' : advance y t = Some y' → step y y'.

Definition reachable (rt : PublicKey) (y : shared) : Prop := rtc step (start_set rt) y.

(** ** The specification: an answer belongs to a moment of its call *)

(** The records after [k] changes. *)
Definition version (y : shared) (k : nat) : option TrustSet := (y_past y ++ [y_set y]) !! k.

Definition answered (y : shared) (a : answer) : Prop :=
  match a with
  | AnsValid id since upto v =>
      ∃ k s, since ≤ k ≤ upto ∧ version y k = Some s ∧ valid s id = v
  | AnsAdd x since upto r =>
      ∃ k s, since ≤ k ≤ upto ∧ version y k = Some s ∧ (add_of s x).1 = r ∧
        (r = Ok true → S k ≤ upto ∧ version y (S k) = Some (add_of s x).2)
  end.

(** Each change is one of the record operations on the records before it. *)
Definition chained (y : shared) : Prop :=
  ∀ k s s', version y k = Some s → version y (S k) = Some s' → ∃ x, add_of s x = (Ok true, s').

(** ** The invariant *)

Definition thread_ok (y : shared) (t : nat) (th : thread) : Prop :=
  match th with
  | TValid _ n | TAdd _ n => n ≤ now y
  | TLoaded _ n m | TMissed _ n m => n ≤ m ≤ now y
  | TWalked id n m v => n ≤ m ∧ ∃ k s, m ≤ k ≤ now y ∧ version y k = Some s ∧ valid s id = v
  | TWrites x n => n ≤ now y ∧ y_writer y = Some (t, (add_of (y_set y) x).2) ∧ (add_of (y_set y) x).1 = Ok true
  end.

Definition map_ok (y : shared) (m : nat) (c : gset PublicKey) : Prop :=
  ∀ id, id ∈ c → ∃ k s, m ≤ k ≤ now y ∧ version y k = Some s ∧ valid s id = true.

Record inv (y : shared) : Prop := {
  inv_maps : length (y_maps y) = S (now y);
  inv_map m c : y_maps y !! m = Some c → map_ok y m c;
  inv_threads t th : y_threads y !! t = Some th → thread_ok y t th;
  inv_writer t s : y_writer y = Some (t, s) → ∃ x n, y_threads y !! t = Some (TWrites x n);
  inv_answers a : a ∈ y_answers y → answered y a;
  inv_chained : chained y;
}.
End steps.

#[local] Arguments now : simpl never.
#[local] Arguments version : simpl never.

Section invariant.
Context {ed : Ed25519}.

(** ** Every step keeps the invariant *)

Lemma version_now y : version y (now y) = Some (y_set y).
Proof. unfold version, now. by rewrite lookup_app_r, Nat.sub_diag by lia. Qed.

Lemma version_le y k s : version y k = Some s → k ≤ now y.
Proof. intros H%lookup_lt_Some. rewrite length_app in H. cbn in H. unfold now. lia. Qed.

Lemma version_commit y s k s' : version y k = Some s' → version (commit y s) k = Some s'.
Proof. unfold version. cbn. apply lookup_app_l_Some. Qed.

Lemma version_commit_inv y s k s' : version (commit y s) k = Some s' → k ≤ now y → version y k = Some s'.
Proof.
  unfold version, now. cbn. intros Hk Hle. rewrite lookup_app_l in Hk; [done|]. rewrite length_app. cbn. lia.
Qed.

Lemma now_commit y s : now (commit y s) = S (now y).
Proof. unfold now. cbn. rewrite length_app. cbn. lia. Qed.

Lemma inv_start rt : inv (start_set rt).
Proof.
  split; cbn.
  - done.
  - intros [|m] c; [|done]. intros [= <-] id Hid. set_solver.
  - intros t th H. by rewrite lookup_empty in H.
  - done.
  - intros a Ha. by apply elem_of_nil in Ha.
  - intros [|k] s s'; done.
Qed.

(** Whether [t] holds the write lock. *)
Definition unlocked (y : shared) (t : nat) : Prop := ∀ s, y_writer y ≠ Some (t, s).

Lemma thread_idle y t th :
  inv y → y_threads y !! t = Some th → (∀ x n, th ≠ TWrites x n) → unlocked y t.
Proof. intros Hi Ht Hn s Hw. destruct (inv_writer _ Hi _ _ Hw) as (x & n & E). naive_solver. Qed.

Lemma inv_set_thread y t th : inv y → unlocked y t → thread_ok y t th → inv (set_thread y t th).
Proof.
  intros Hi Hid Hok. destruct Hi as [H1 H2 H3 H4 H5 H6]. split; cbn; try done.
  - intros t' th' [[<- <-]|[? Ht]]%lookup_insert_Some; [done|by apply H3].
  - intros t' s Hw. rewrite lookup_insert_ne by (intros <-; by eapply Hid). by eapply H4.
Qed.

Lemma inv_finish y t a : inv y → unlocked y t → answered y a → inv (finish y t a).
Proof.
  intros Hi Hid Hok. destruct Hi as [H1 H2 H3 H4 H5 H6]. split; cbn; try done.
  - intros t' th' [? Ht]%lookup_delete_Some. by apply H3.
  - intros t' s Hw. rewrite lookup_delete_ne by (intros <-; by eapply Hid). by eapply H4.
  - intros a' [->|Ha]%elem_of_cons; [done|by apply H5].
Qed.

Lemma inv_store y m id :
  inv y → map_ok y m {[id]} → inv (store y m id).
Proof.
  intros Hi Hok. destruct Hi as [H1 H2 H3 H4 H5 H6]. split; cbn; try done.
  - by rewrite length_alter.
  - intros m' c. rewrite list_lookup_alter. case_decide as Hm; [subst m'|by apply H2].
    intros (c0 & Hc & ->)%fmap_Some. intros i [->%elem_of_singleton|Hin]%elem_of_union;
      [by apply Hok, elem_of_singleton|by apply (H2 _ _ Hc)].
Qed.

Lemma inv_write y t x n :
  inv y → y_threads y !! t = Some (TAdd x n) → y_writer y = None → (add_of (y_set y) x).1 = Ok true →
  inv (set_thread (write_record y t (add_of (y_set y) x).2) t (TWrites x n)).
Proof.
  intros Hi Ht Hw Hr. pose proof (inv_threads _ Hi _ _ Ht) as Hn.
  destruct Hi as [H1 H2 H3 H4 H5 H6]. split; cbn; try done.
  - intros t' th' [[<- <-]|[? Ht']]%lookup_insert_Some; [done|].
    specialize (H3 _ _ Ht'). destruct th'; try done. destruct H3 as (_ & Hw' & _). by rewrite Hw in Hw'.
  - intros t' s [= <- _]. exists x, n. apply lookup_insert_eq.
Qed.

Lemma answered_commit y s a : answered y a → answered (commit y s) a.
Proof.
  destruct a; cbn; intros (k & s0 & Hk & Hs & Hr); exists k, s0;
    (split; [done|]); (split; [by apply version_commit|]); [done|].
  destruct Hr as [Hr Hn]. split; [done|]. intros Hok. destruct (Hn Hok). split; [done|by apply version_commit].
Qed.

Lemma inv_commit y t x n :
  inv y → y_threads y !! t = Some (TWrites x n) →
  let y' := commit y (add_of (y_set y) x).2 in inv (finish y' t (AnsAdd x n (now y') (Ok true))).
Proof.
  intros Hi Ht y'. destruct (inv_threads _ Hi _ _ Ht) as (Hn & Hw & Hr).
  pose proof (version_now y) as Hv. pose proof (now_commit y (add_of (y_set y) x).2 : now y' = _) as Hnow.
  assert (Hmap : ∀ m c, map_ok y m c → map_ok y' m c).
  { intros m c Hc id Hid. destruct (Hc id Hid) as (k & s & Hk & Hs & Hval). exists k, s.
    split_and!; [lia|lia|by apply version_commit|done]. }
  destruct Hi as [H1 H2 H3 H4 H5 H6].
  split; change (now (finish y' t _)) with (now y').
  - rewrite Hnow. cbn [y_maps finish y' commit]. rewrite length_app, H1. cbn. lia.
  - intros m c. cbn. rewrite lookup_app_Some. intros [Hc|[_ Hc]]; [by apply Hmap, H2|].
    apply list_lookup_singleton_Some in Hc as [_ <-]. intros id Hid. set_solver.
  - cbn. intros t' th' [Hne Ht']%lookup_delete_Some. specialize (H3 _ _ Ht').
    destruct th'; cbn in H3 |- *; change (now (finish y' _ _)) with (now y'); try lia.
    + destruct H3 as (? & k & s & Hk & Hs & Hval). split; [done|]. exists k, s.
      change (version (finish y' _ _)) with (version y'). split_and!; [lia|lia|by apply (version_commit y)|done].
    + destruct H3 as (_ & Hw' & _). rewrite Hw in Hw'. by injection Hw' as [= <-].
  - done.
  - intros a [->|Ha]%elem_of_cons; [|by apply answered_commit, H5].
    exists (now y), (y_set y). split_and!; [done|lia|by apply version_commit|done|]. intros _.
    split; [lia|]. change (version y' (S (now y)) = Some (add_of (y_set y) x).2). by rewrite <- Hnow, version_now.
  - intros k s s' Hs Hs'. destruct (decide (k < now y)) as [Hk|Hk].
    + apply (H6 k); eapply version_commit_inv; [exact Hs|lia|exact Hs'|lia].
    + pose proof (version_le _ _ _ Hs') as Hle. change (S k ≤ now y') in Hle. assert (k = now y) as -> by lia.
      exists x. assert (s = y_set y) as ->.
      { apply (version_commit_inv y (add_of (y_set y) x).2) in Hs; [congruence|done]. }
      assert (s' = (add_of (y_set y) x).2) as ->.
      { change (version y' (S (now y)) = Some s') in Hs'. rewrite <- Hnow, version_now in Hs'. by injection Hs'. }
      by rewrite <- Hr, <- surjective_pairing.
Qed.

Lemma inv_advance y t y' : inv y → advance y t = Some y' → inv y'.
Proof.
  intros Hi. unfold advance. destruct (y_threads y !! t) as [th|] eqn:Ht; [|done].
  pose proof (inv_threads _ Hi _ _ Ht) as Hok.
  assert (Hid : (∀ x n, th ≠ TWrites x n) → unlocked y t) by (by eapply thread_idle).
  destruct th as [id n|id n m|id n m|id n m v|x n|x n]; cbn in Hok.
  - intros [= <-]. apply inv_set_thread; [done|by apply Hid|cbn; lia].
  - case_decide as Hin; intros [= <-]; [|apply inv_set_thread; [done|by apply Hid|done]].
    apply inv_finish; [done|by apply Hid|].
    destruct (y_maps y !! m) as [c|] eqn:Hc; cbn in Hin; [|by apply not_elem_of_empty in Hin].
    destruct (inv_map _ Hi _ _ Hc _ Hin) as (k & s & Hk & Hs & Hv).
    exists k, s. split_and!; [lia|lia|done|done].
  - destruct (y_writer y); intros [= <-]. apply inv_set_thread; [done|by apply Hid|]. split; [lia|].
    exists (now y), (y_set y). split_and!; [lia|lia|apply version_now|done].
  - intros [= <-]. destruct Hok as (Hn & k & s & Hk & Hs & Hv).
    apply inv_finish; [|destruct v; by apply Hid|].
    + destruct v; [|done]. apply inv_store; [done|]. intros i ->%elem_of_singleton. by exists k, s.
    + destruct v; (exists k, s; split_and!; [lia| |done|done]); change (k ≤ now y); lia.
  - destruct (add_of (y_set y) x) as [r s] eqn:Ea.
    assert (Hans : r ≠ Ok true → inv (finish y t (AnsAdd x n (now y) r))).
    { intros Hr. apply inv_finish; [done|by apply Hid|]. exists (now y), (y_set y).
      split_and!; [lia|lia|apply version_now|by rewrite Ea|done]. }
    destruct r as [[]|e]; [destruct (y_writer y) eqn:Hw; [done|]..|]; intros [= <-]; try by apply Hans.
    replace s with (add_of (y_set y) x).2 by (by rewrite Ea). apply inv_write with (n := n); rewrite ?Ea; done.
  - destruct Hok as (_ & Hw & _). rewrite Hw. rewrite decide_True by done. intros [= <-]. by apply inv_commit.
Qed.

Lemma cache_inv_step y y' : inv y → step y y' → inv y'.
Proof.
  intros Hi [t c Hf|t y1 Ha]; [|by eapply inv_advance].
  apply inv_set_thread; [done| |destruct c; cbn; lia].
  intros s Hw. destruct (inv_writer _ Hi _ _ Hw) as (x & n & E). by rewrite Hf in E.
Qed.

Lemma cache_reachable_inv rt y : reachable rt y → inv y.
Proof.
  intros Hr. assert (H : inv (start_set rt)) by apply inv_start. revert H.
  induction Hr as [|y0 y1 y2 Hs _ IH]; [done|]. intros H. apply IH. by eapply cache_inv_step.
Qed.

(** ** No call waits for ever *)

(** The steps a call has left. *)
Definition left_of (th : thread) : nat :=
  match th with
  | TValid _ _ => 4 | TLoaded _ _ _ => 3 | TMissed _ _ _ => 2 | TWalked _ _ _ _ => 1
  | TAdd _ _ => 2 | TWrites _ _ => 1
  end.
Definition pending (m : gmap nat thread) : nat := sum_list (map (left_of ∘ snd) (map_to_list m)).

Lemma pending_lookup m t th : m !! t = Some th → pending m = left_of th + pending (delete t m).
Proof. intros Ht. unfold pending. by rewrite <- (map_to_list_delete m t th Ht). Qed.

Lemma pending_insert m t th th' :
  m !! t = Some th → pending (<[t := th']> m) = left_of th' + pending (delete t m).
Proof. intros Ht. by rewrite (pending_lookup _ t th' (lookup_insert_eq _ _ _)), delete_insert_eq. Qed.

Lemma advance_left y t y' : advance y t = Some y' → pending (y_threads y') < pending (y_threads y).
Proof.
  unfold advance. destruct (y_threads y !! t) as [th|] eqn:Ht; [|done].
  rewrite (pending_lookup _ _ _ Ht).
  assert (Hset : ∀ th', left_of th' < left_of th →
    pending (<[t := th']> (y_threads y)) < left_of th + pending (delete t (y_threads y))).
  { intros th' Hl. rewrite (pending_insert _ _ _ _ Ht). lia. }
  assert (Hdel : pending (delete t (y_threads y)) < left_of th + pending (delete t (y_threads y)))
    by (destruct th; cbn; lia).
  destruct th as [id n|id n m|id n m|id n m v|x n|x n].
  - intros [= <-]. apply Hset. cbn. lia.
  - case_decide; intros [= <-]; [done|apply Hset; cbn; lia].
  - destruct (y_writer y); intros [= <-]. apply Hset. cbn. lia.
  - intros [= <-]. by destruct v.
  - destruct (add_of (y_set y) x) as [[[]|e] s]; [destruct (y_writer y); [done|]..|]; intros [= <-]; try done.
    apply Hset. cbn. lia.
  - destruct (y_writer y) as [[t' s]|]; [case_decide|]; intros [= <-]. done.
Qed.

(** Somebody can always go on. *)
Lemma advance_some y : inv y → y_threads y ≠ ∅ → ∃ t y', advance y t = Some y'.
Proof.
  intros Hi Hne. destruct (y_writer y) as [[t s]|] eqn:Hw.
  - destruct (inv_writer _ Hi _ _ Hw) as (x & n & Ht). exists t. unfold advance. rewrite Ht, Hw.
    rewrite decide_True by done. by eexists.
  - apply map_choose in Hne as (t & th & Ht). exists t. unfold advance. rewrite Ht, Hw.
    destruct th as [id n|id n m|id n m|id n m v|x n|x n].
    + by eexists.
    + case_decide; by eexists.
    + by eexists.
    + by eexists.
    + destruct (add_of (y_set y) x) as [[[]|e] s]; by eexists.
    + destruct (inv_threads _ Hi _ _ Ht) as (_ & E & _). by rewrite Hw in E.
Qed.

Lemma calls_end y : inv y → ∃ y', rtc step y y' ∧ y_threads y' = ∅.
Proof.
  remember (pending (y_threads y)) as k eqn:Ek. revert y Ek.
  induction k as [k IH] using lt_wf_ind. intros y -> Hi.
  destruct (decide (y_threads y = ∅)) as [E|Hne]; [by exists y|].
  destruct (advance_some y Hi Hne) as (t & y1 & Ha).
  destruct (IH _ (advance_left _ _ _ Ha) y1 eq_refl (inv_advance _ _ _ Hi Ha)) as (y2 & Hr & E).
  exists y2. split; [|done]. eapply rtc_l; [by eapply SAdvance|done].
Qed.
End invariant.

(** ** Theorems *)

Section theorems.
Context {ed : Ed25519}.

(** One lookup decides about an identity that was never admitted. *)
Lemma valid_admitted s id : valid s id = true → id ≠ root s → is_Some (admissions s !! id).
Proof.
  unfold valid, walk_fuel. rewrite Nat.add_comm. cbn [Nat.add validAt]. intros H Hr.
  rewrite decide_False in H by done. rewrite decide_False in H by apply not_elem_of_empty.
  destruct (match revocations s !! id with Some _ => _ | None => _ end) as [[[] vis]|] eqn:E;
    cbn in H; [done| |done].
  by destruct (admissions s !! id).
Qed.

(** C33: however calls of [Valid] and of the operations that add records
    interleave, each answer is right for the records at one moment between
    the call and its answer, and the changes made are the record operations,
    one after the other: the lock and the cache together are as good as doing
    every call at once. *)
Theorem set_linearizable rt y a :
  reachable rt y → a ∈ y_answers y → answered y a ∧ chained y.
Proof. intros Hi%cache_reachable_inv Ha. split; [by apply inv_answers|by apply inv_chained]. Qed.

(** The map the next [Valid] looks into holds members of the current
    records only, so it has at most one entry per admission, and one more. *)
Theorem cache_current rt y c :
  reachable rt y → y_maps y !! now y = Some c →
  (∀ id, id ∈ c → valid (y_set y) id = true) ∧ size c ≤ S (size (admissions (y_set y))).
Proof.
  intros Hi%cache_reachable_inv Hc.
  assert (Hv : ∀ id, id ∈ c → valid (y_set y) id = true).
  { intros id Hin. destruct (inv_map _ Hi _ _ Hc _ Hin) as (k & s & Hk & Hs & Hv).
    assert (k = now y) as -> by lia. rewrite version_now in Hs. by injection Hs as ->. }
  split; [done|]. etrans; [apply (subseteq_size _ ({[root (y_set y)]} ∪ dom (admissions (y_set y))))|].
  - intros id Hin. specialize (Hv id Hin). destruct (decide (id = root (y_set y))) as [->|Hr]; [set_solver|].
    apply elem_of_union_r, elem_of_dom. by apply valid_admitted.
  - rewrite size_union_alt, size_singleton.
    assert (size (dom (admissions (y_set y)) ∖ {[root (y_set y)]}) ≤ size (dom (admissions (y_set y)))).
    { apply subseteq_size. set_solver. } rewrite size_dom in *. lia.
Qed.

(** Readers and writers never block each other for good: from every state
    the calls under way can all come to their answers, and every step of one
    brings it nearer. *)
Theorem set_calls_end rt y :
  reachable rt y →
  (∃ y', rtc step y y' ∧ y_threads y' = ∅) ∧
  (y_threads y ≠ ∅ → ∃ t y', advance y t = Some y') ∧
  (∀ t y', advance y t = Some y' → pending (y_threads y') < pending (y_threads y)).
Proof.
  intros Hi%cache_reachable_inv. split_and!; [by apply calls_end|by apply advance_some|].
  intros t y'. apply advance_left.
Qed.
End theorems.

(** ** A race *)

#[local] Existing Instance Toy.toy.

Lemma take_elem {A} (x : A) n l : x ∈ take n l → x ∈ l.
Proof. intros (i & Hi & _)%elem_of_take. by eapply list_elem_of_lookup_2. Qed.

Inductive move := MCall (t : nat) (c : call) | MGo (t : nat).

Definition play1 (y : shared) (m : move) : option shared :=
  match m with
  | MCall t c => match y_threads y !! t with Some _ => None | None => Some (set_thread y t (called c (now y))) end
  | MGo t => advance y t
  end.
Fixpoint play (y : shared) (l : list move) : option shared :=
  match l with [] => Some y | m :: l => y ← play1 y m; play y l end.

Lemma play_steps y l y' : play y l = Some y' → rtc step y y'.
Proof.
  revert y. induction l as [|m l IH]; intros y; cbn; [by intros [= ->]|].
  destruct (play1 y m) as [y1|] eqn:E; [|done]. cbn. intros Hp. eapply rtc_l; [|by apply IH].
  destruct m as [t c|t]; cbn in E; [|by eapply SAdvance].
  destruct (y_threads y !! t) eqn:Et; [done|]. injection E as <-. by apply SCall.
Qed.

Definition add (t : nat) (x : record) : list move := [MCall t (CAdd x); MGo t; MGo t].

(** [dan] is found valid while his revocation arrives: the answer goes to the
    map just replaced, and whoever asks next is told that he is no member. *)
Definition race_moves : list move :=
  add 0 (RAdm adm_ann) ++ add 0 (RAdm adm_bob) ++ add 0 (RAdm adm_cat) ++ add 0 (RAdm adm_dan) ++
  [MCall 1 (CValid (key dan)); MGo 1; MGo 1; MGo 1;     (* loaded, missed, walked *)
   MCall 2 (CAdd (RRev rev_dan)); MGo 2;                (* written *)
   MCall 3 (CValid (key dan)); MGo 3; MGo 3;            (* the old map, missed *)
   MGo 2;                                               (* the map replaced *)
   MGo 1;                                               (* stored in the old map *)
   MGo 3; MGo 3;
   MCall 4 (CValid (key bob)); MGo 4; MGo 4; MGo 4; MGo 4].
Definition race : shared := default (start_set (key ann)) (play (start_set (key ann)) race_moves).

Lemma race_reachable : reachable (key ann) race.
Proof.
  assert (H : match play (start_set (key ann)) race_moves with Some _ => true | None => false end = true)
    by (vm_compute; reflexivity).
  unfold reachable, race. destruct (play (start_set (key ann)) race_moves) as [y|] eqn:E; [|discriminate H].
  by apply play_steps in E.
Qed.

Example race_answers :
  take 4 (y_answers race) =
    [AnsValid (key bob) 5 5 true; AnsValid (key dan) 4 5 false; AnsValid (key dan) 4 5 true;
     AnsAdd (RRev rev_dan) 4 5 (Ok true)].
Proof. vm_compute. reflexivity. Qed.

Example race_maps :
  bool_decide (y_maps race = [∅; ∅; ∅; ∅; {[key dan]}; {[key bob]}]) = true.
Proof. vm_compute. reflexivity. Qed.

(** The two answers about [dan], given to calls that overlap the change, belong
    to the records before it and after it. *)
Lemma set_linearizable_witness :
  answered race (AnsValid (key dan) 4 5 true) ∧ answered race (AnsValid (key dan) 4 5 false).
Proof.
  assert (H : AnsValid (key dan) 4 5 true ∈ take 4 (y_answers race) ∧
    AnsValid (key dan) 4 5 false ∈ take 4 (y_answers race)).
  { rewrite race_answers. split; [do 2 right; left|right; left]. }
  destruct H as [H1 H2]. split.
  - exact (proj1 (set_linearizable (key ann) race _ race_reachable (take_elem _ _ _ H1))).
  - exact (proj1 (set_linearizable (key ann) race _ race_reachable (take_elem _ _ _ H2))).
Defined.

Lemma cache_current_witness :
  valid (y_set race) (key bob) = true ∧ length (y_maps race) = 6.
Proof.
  pose proof race_maps as Hm. apply bool_decide_eq_true in Hm.
  assert (Hn : now race = 5) by (vm_compute; reflexivity).
  split; [|by rewrite Hm].
  refine (proj1 (cache_current (key ann) race {[key bob]} race_reachable _) (key bob) _).
  - by rewrite Hm, Hn.
  - by apply elem_of_singleton.
Defined.

Lemma set_calls_end_witness : ∃ y', rtc step race y' ∧ y_threads y' = ∅.
Proof. apply (set_calls_end (key ann) race race_reachable). Defined.
