(* ===== verification/Conflicts.v ===== *)
(** * Conflicts: records that compete for one place

    The set keeps one admission and one revocation per identity, whoever signed
    them. These theorems show what follows where the records in circulation
    conflict: which record stays, and what that does to the members. *)

From S2P Require Import Prelude Wire Encoding Identity Records TrustSet Demo Convergence Validity Membership.

Section conflicts.
Context `{!Ed25519}.
Implicit Types (s : TrustSet).

(** The first revocation of an identity stays for good: whatever is
    delivered afterwards, it is the one the set holds. *)
Lemma first_revocation_final s r l :
  revocations s !! rev_Identity r = Some r → revocations (deliver s l) !! rev_Identity r = Some r.
Proof.
  revert s. induction l as [|[a|q] l IH]; intros s Hr; simpl; [done| |]; apply IH.
  - by destruct (AddAdmission_cases s a) as [[_ ->]|(_ & -> & _)].
  - destruct (AddRevocation_cases s q) as [[[_ Hn] ->]|(_ & -> & _)]; [|done].
    simpl. rewrite lookup_insert_ne; [done|]. intros E. rewrite E in Hn. congruence.
Qed.

(** Revocations are permanent: an identity that revoked itself is never valid
    again (the clock readings of revocations being within [int64]), whatever
    records follow, a fresh admission included. *)
Theorem self_revocation_permanent s r l :
  revocations s !! rev_Identity r = Some r → rev_Revoker r = rev_Identity r →
  rev_IssuedAt r ≤ max_int64 → valid (deliver s l) (rev_Identity r) = false.
Proof.
  intros Hr Hself Ht. apply (first_revocation_final _ _ l) in Hr.
  rewrite valid_walk, walk_eq. case_decide; [done|].
  by rewrite (rev_at_self _ _ r).
Qed.

(** Only the first signature-valid revocation of an identity counts,
    whoever made it: every later one is dropped. With one that has no effect
    in place, an identity cannot be revoked any more, by members or by
    itself (see the examples below). *)
Theorem void_revocation_shields s r0 r :
  rev_accepted s r0 → rev_Identity r = rev_Identity r0 →
  deliver s [RRev r0; RRev r] = deliver s [RRev r0].
Proof.
  intros Ha Hi. simpl.
  destruct (AddRevocation_cases s r0) as [[_ ->]|[Hno _]]; [simpl|done].
  match goal with |- (AddRevocation ?t r).2 = _ =>
    destruct (AddRevocation_cases t r) as [[[_ Hn] _]|(_ & -> & _)]; [|done] end.
  simpl in Hn. by rewrite Hi, lookup_insert_eq in Hn.
Qed.
End conflicts.

Section examples.
#[local] Existing Instance Toy.toy.

Lemma self_revocation_permanent_witness :
valid after (key cat) = false ∧
valid (deliver after [RAdm (Admit ann (key cat) (str "cat") 9 500)]) (key cat) = false.
Proof.
split; [vm_compute; reflexivity|].
apply (self_revocation_permanent after rev_cat); vm_compute; done.
Defined.

(** A stranger's revocation of [dan], which has no effect by itself. *)
Definition void_dan : Revocation := Revoke eve (key dan) 105.

Lemma void_revocation_shields_witness :
rev_accepted cluster void_dan ∧
deliver cluster [RRev void_dan; RRev rev_dan] = deliver cluster [RRev void_dan].
Proof.
assert (Ha : rev_accepted cluster void_dan) by (split; vm_compute; reflexivity).
split; [done|]. apply (void_revocation_shields cluster void_dan rev_dan); [done|reflexivity].
Defined.

(** What records of outsiders can do. A stranger's revocation of a member has
  no effect by itself, but delivered first it keeps a member's own revocation
  of it from having one. A stranger's newer admission of a member takes the
  place of the one that made it a member. And a key that was revoked admits
  by writing an earlier time into the record: the root leaves at 150, and an
  admission it signs afterwards counts if it is dated 149. *)
Theorem outsider_records_matter :
(valid cluster (key eve) = false ∧
 valid (deliver cluster [RRev void_dan; RRev rev_dan]) (key dan) = true ∧
 valid (deliver cluster [RRev rev_dan; RRev void_dan]) (key dan) = false) ∧
(valid cluster (key dan) = true ∧
 valid (deliver cluster [RAdm (Admit eve (key dan) (str "dan") 9 200)]) (key dan) = false) ∧
(let left := deliver cluster [RRev (Revoke ann (key ann) 150)] in
 valid left (key ann) = false ∧
 valid (deliver left [RAdm (Admit ann (key eve) (str "eve") 7 150)]) (key eve) = false ∧
 valid (deliver left [RAdm (Admit ann (key eve) (str "eve") 7 149)]) (key eve) = true).
Proof. vm_compute. done. Qed.

(** Two members that revoke each other in the same second stay: the guard cuts
  the circle, and each revocation voids the other. One second apart, the
  earlier one counts. *)
Example mutual_revocation_example :
let both t := deliver cluster [RRev (Revoke cat (key dan) 160); RRev (Revoke dan (key cat) t)] in
valid (both 160) (key cat) = true ∧ valid (both 160) (key dan) = true ∧
valid (both 161) (key cat) = true ∧ valid (both 161) (key dan) = false.
Proof. vm_compute. done. Qed.
End examples.
