(* ===== verification/Slots.v ===== *)
(** * Slots: overlay slots and names among the members (internal/trust/set.go)

    The queries a node asks of its records besides membership: a free overlay
    slot for a joiner ([FreeHost]), who yields when two members were given the
    same one ([HostConflict]), and who has a name ([ByName], [NameTaken]). They
    iterate over Go maps; the iteration order is an argument here, and the
    results are shown not to depend on it. *)

From S2P Require Import Prelude Wire Encoding Identity Records TrustSet Demo Validity Membership.

(** An order in which Go may iterate over the admissions. *)
Definition iteration (s : TrustSet) (order : list (PublicKey * Admission)) : Prop :=
  order ≡ₚ map_to_list (admissions s).

(** ** Queries *)

(** [Set.validAdmissions] as the list it yields. *)
Definition validAdmissions (s : TrustSet) (order : list (PublicKey * Admission)) : list Admission :=
  (filter (λ ka, valid s ka.1 = true) order).*2.

Definition zeroAdmission : Admission := MkAdmission zeroKey [] 0 zeroKey 0 [].

(** [Set.ByName] *)
Definition ByName (s : TrustSet) (order : list (PublicKey * Admission)) (name : bytes) : Admission * bool :=
  let '(found, n) :=
    foldl (λ acc a, if decide (adm_Name a = name) then (a, acc.2 + 1) else acc)
      (zeroAdmission, 0) (validAdmissions s order) in
  (found, n =? 1).

(** One of [FreeHost]'s two loops,
    [for h := uint64(1); h <= limit && h != 0; h++ { if !used[h] { return h } }],
    from [h] on; [None] is running out of fuel. *)
Fixpoint scan (fuel : nat) (used : gset Z) (limit h : Z) : option (option Z) :=
  match fuel with
  | O => None
  | S fuel' =>
      if (h <=? limit) && negb (h =? 0) then
        if decide (h ∈ used) then scan fuel' used limit (u64 (h + 1))
        else Some (Some h)
      else Some None
  end.

(** One turn more than there are slots in use, and one to see the end. *)
Definition scan_fuel (used : gset Z) : nat := (size used + 2)%nat.

Definition taken (order : list (PublicKey * Admission)) : gset Z :=
  list_to_set ((λ ka, adm_Host ka.2) <$> order).
Definition validTaken (s : TrustSet) (order : list (PublicKey * Admission)) : gset Z :=
  list_to_set ((λ ka, adm_Host ka.2) <$> filter (λ ka, valid s ka.1 = true) order).

(** [Set.FreeHost]; its error is [ErrOverlayFull]. *)
Definition FreeHost (s : TrustSet) (order : list (PublicKey * Admission)) (limit : Z) : result Z :=
  match scan (scan_fuel (taken order)) (taken order) limit 1 with
  | Some (Some h) => Ok h
  | Some None =>
      match scan (scan_fuel (validTaken s order)) (validTaken s order) limit 1 with
      | Some (Some h) => Ok h
      | Some None => Err "no free overlay address"
      | None => Err "out of fuel"
      end
  | None => Err "out of fuel"
  end.

(** [a] has the stronger claim to the slot it shares with [mine]. *)
Definition stronger (id : PublicKey) (mine a : Admission) : bool :=
  (adm_IssuedAt a <? adm_IssuedAt mine) ||
  ((adm_IssuedAt a =? adm_IssuedAt mine) && key_ltb (adm_Identity a) id).

(** [Set.HostConflict] *)
Definition HostConflict (s : TrustSet) (order : list (PublicKey * Admission)) (id : PublicKey)
    : Admission * bool :=
  match admissions s !! id with
  | None => (zeroAdmission, false)
  | Some mine =>
      let fix loop l :=
        match l with
        | [] => (zeroAdmission, false)
        | a :: l' =>
            if decide (adm_Identity a = id) then loop l'
            else if negb (adm_Host a =? adm_Host mine) then loop l'
            else if stronger id mine a then (a, true)
            else loop l'
        end in
      loop (validAdmissions s order)
  end.

(** [Set.NameTaken] *)
Definition NameTaken (s : TrustSet) (order : list (PublicKey * Admission)) (name : bytes)
    (except : PublicKey) : bool :=
  existsb (λ a, bool_decide (adm_Name a = name) && negb (bool_decide (adm_Identity a = except)))
    (validAdmissions s order).

(** ** Valid members' admissions *)

(** [a] is the admission of a current member. *)
Definition held (s : TrustSet) (a : Admission) : Prop :=
  admissions s !! adm_Identity a = Some a ∧ valid s (adm_Identity a) = true.

Section lemmas.
Context `{!Ed25519}.
Implicit Types (s : TrustSet) (order : list (PublicKey * Admission)).

Lemma elem_of_order s order k a :
  iteration s order → (k, a) ∈ order ↔ admissions s !! k = Some a.
Proof. intros ->. apply elem_of_map_to_list. Qed.

Lemma elem_of_validAdmissions s order a :
  set_wf s → iteration s order → a ∈ validAdmissions s order ↔ held s a.
Proof.
  intros [Hwf _] Ho. unfold validAdmissions, held. rewrite list_elem_of_fmap. split.
  - intros ([k b] & -> & [Hv Hin]%list_elem_of_filter). simpl in *.
    apply (elem_of_order s) in Hin; [|done]. destruct (Hwf k b Hin) as [-> _]. done.
  - intros [Ha Hv]. exists (adm_Identity a, a). split; [done|].
    apply list_elem_of_filter. split; [done|]. by apply (elem_of_order s).
Qed.

Lemma validAdmissions_NoDup s order :
  set_wf s → iteration s order → NoDup (adm_Identity <$> validAdmissions s order).
Proof.
  intros [Hwf _] Ho. unfold validAdmissions. rewrite <-list_fmap_compose.
  assert (E : (adm_Identity ∘ snd) <$> filter (λ ka, valid s ka.1 = true) order =
          (filter (λ ka, valid s ka.1 = true) order).*1).
  { apply list_fmap_ext. intros i [k a] Hi. simpl.
    apply list_elem_of_lookup_2, list_elem_of_filter in Hi as [_ Hin].
    apply (elem_of_order s) in Hin; [|done]. by destruct (Hwf k a Hin). }
  rewrite E. assert (Hnd : NoDup order.*1) by (rewrite Ho; apply NoDup_fst_map_to_list).
  clear E Ho. induction order as [|[k a] order IH]; simpl; [constructor|].
  apply NoDup_cons in Hnd as [Hk Hnd]. rewrite filter_cons. case_decide; simpl; [|by apply IH].
  apply NoDup_cons. split; [|by apply IH].
  intros Hin. apply Hk. apply list_elem_of_fmap in Hin as (y & -> & [_ Hy]%list_elem_of_filter).
  exact (list_elem_of_fmap_2 fst order y Hy).
Qed.

Lemma elem_of_taken s order h :
  iteration s order → h ∈ taken order ↔ ∃ k a, admissions s !! k = Some a ∧ adm_Host a = h.
Proof.
  intros Ho. unfold taken. rewrite elem_of_list_to_set, list_elem_of_fmap. split.
  - intros ([k a] & -> & Hin). exists k, a. by rewrite <-(elem_of_order s).
  - intros (k & a & Ha & <-). exists (k, a). split; [done|]. by apply (elem_of_order s).
Qed.

Lemma elem_of_validTaken s order h :
  set_wf s → iteration s order → h ∈ validTaken s order ↔ ∃ a, held s a ∧ adm_Host a = h.
Proof.
  intros Hw Ho. unfold validTaken.
  rewrite elem_of_list_to_set.
  assert (E : (λ ka : PublicKey * Admission, adm_Host ka.2) <$> filter (λ ka, valid s ka.1 = true) order
            = adm_Host <$> validAdmissions s order).
  { unfold validAdmissions. by rewrite <-list_fmap_compose. }
  rewrite E, list_elem_of_fmap. setoid_rewrite (elem_of_validAdmissions s order); naive_solver.
Qed.

(** ** The scan *)

(** The slots in use from [h] on. *)
Definition ahead (used : gset Z) (h : Z) : nat := size (filter (λ x, h ≤ x) used).

Lemma ahead_step used h : h ∈ used → (ahead used (h + 1) < ahead used h)%nat.
Proof.
  intros Hh. apply subset_size. split.
  - intros x. rewrite !elem_of_filter. intros [??]. split; [lia|done].
  - intros Hs. specialize (Hs h). rewrite !elem_of_filter in Hs. destruct Hs; [done|lia].
Qed.

(** The lowest slot at [h] or above, up to the limit, that is not in use. *)
Definition lowest_free (used : gset Z) (limit h : Z) (r : option Z) : Prop :=
  match r with
  | Some x => h ≤ x ≤ limit ∧ x ∉ used ∧ ∀ y, h ≤ y < x → y ∈ used
  | None => ∀ y, h ≤ y ≤ limit → y ∈ used
  end.

Lemma scan_spec fuel used limit h :
  uint64_range limit → 1 ≤ h < 2 ^ 64 → (ahead used h + 2 ≤ fuel)%nat →
  ∃ r, scan fuel used limit h = Some r ∧ lowest_free used limit h r.
Proof.
  intros Hl. revert h. induction fuel as [|n IH]; intros h Hh Hf; [lia|]. simpl.
  rewrite (proj2 (Z.eqb_neq h 0)) by lia. simpl. rewrite andb_true_r.
  destruct (Z.leb_spec h limit) as [Hle|Hgt].
  2:{ exists None. split; [done|]. simpl. lia. }
  case_decide as Hu.
  2:{ exists (Some h). split; [done|]. simpl. split_and!; [lia|lia|done|lia]. }
  pose proof (ahead_step used h Hu) as Hstep.
  destruct (Z.eq_dec (h + 1) (2 ^ 64)) as [Hwrap|Hno].
  - exists None. split.
    + destruct n as [|n]; [lia|]. simpl. rewrite Hwrap. unfold u64.
      rewrite Z.mod_same by lia. simpl. by rewrite andb_false_r.
    + simpl. unfold uint64_range in Hl. intros y Hy. assert (y = h) as -> by lia. done.
  - rewrite u64_id by (unfold uint64_range; lia).
    destruct (IH (h + 1)) as (r & Hr & Hs); [lia|lia|].
    exists r. split; [done|]. destruct r as [x|]; simpl in *.
    + destruct Hs as (Hx & Hfree & Hbelow). split_and!; [lia|lia|done|].
      intros y Hy. destruct (Z.eq_dec y h) as [->|]; [done|]. apply Hbelow. lia.
    + intros y Hy. destruct (Z.eq_dec y h) as [->|]; [done|]. apply Hs. lia.
Qed.

Lemma scan_enough used limit :
  uint64_range limit →
  ∃ r, scan (scan_fuel used) used limit 1 = Some r ∧ lowest_free used limit 1 r.
Proof.
  intros Hl. apply scan_spec; [done|lia|]. unfold scan_fuel, ahead.
  assert (size (filter (λ x : Z, (1 ≤ x)%Z) used) ≤ size used)%nat; [|lia].
  apply subseteq_size. intros x. rewrite elem_of_filter. by intros [_ ?].
Qed.

(** ** Claims to a slot *)

(** [stronger] between the admissions of two identities. *)
Definition claim_lt (a b : Admission) : bool := stronger (adm_Identity b) b a.

Lemma claim_lt_irrefl a : claim_lt a a = false.
Proof.
  unfold claim_lt, stronger. rewrite Z.ltb_irrefl, Z.eqb_refl. simpl. apply key_ltb_irrefl.
Qed.
Lemma claim_lt_trans a b c : claim_lt a b = true → claim_lt b c = true → claim_lt a c = true.
Proof.
  unfold claim_lt, stronger. rewrite !orb_true_iff, !andb_true_iff, !Z.ltb_lt, !Z.eqb_eq.
  intros [?|[? H1]] [?|[? H2]]; [left; lia..|]. right. split; [lia|].
  by eapply key_ltb_trans.
Qed.
Lemma claim_lt_total a b :
  adm_Identity a ≠ adm_Identity b → claim_lt a b = true ∨ claim_lt b a = true.
Proof.
  intros Hne. unfold claim_lt, stronger.
  rewrite !orb_true_iff, !andb_true_iff, !Z.ltb_lt, !Z.eqb_eq.
  destruct (Z.lt_trichotomy (adm_IssuedAt a) (adm_IssuedAt b)) as [?|[?|?]]; [by left; left| |by right; left].
  destruct (key_ltb_total _ _ Hne); [left|right]; right; auto.
Qed.

(** What [HostConflict] looks for. *)
Definition conflicts s (mine a : Admission) : Prop :=
  held s a ∧ adm_Identity a ≠ adm_Identity mine ∧ adm_Host a = adm_Host mine ∧ claim_lt a mine = true.

Lemma HostConflict_spec s order mine :
  set_wf s → iteration s order → admissions s !! adm_Identity mine = Some mine →
  match HostConflict s order (adm_Identity mine) with
  | (a, true) => conflicts s mine a
  | (_, false) => ∀ a, ¬ conflicts s mine a
  end.
Proof.
  intros Hw Ho Hm. unfold HostConflict. rewrite Hm.
  pose proof (elem_of_validAdmissions s order) as Hin.
  assert (Hl : ∀ a, a ∈ validAdmissions s order → held s a) by (intros a; by apply Hin).
  assert (Hr : ∀ a, conflicts s mine a → a ∈ validAdmissions s order) by (intros a [??]; by apply Hin).
  clear Hin. revert Hl Hr. generalize (validAdmissions s order) as l.
  induction l as [|a l IH]; intros Hl Hr.
  { intros a Ha. apply Hr in Ha. set_solver. }
  assert (Hnext : ¬ conflicts s mine a →
    ∀ b, conflicts s mine b → b ∈ l).
  { intros Hno b Hb. pose proof (Hr b Hb) as Hbl. apply elem_of_cons in Hbl as [->|]; done. }
  assert (Hl' : ∀ b, b ∈ l → held s b) by (intros b Hb; apply Hl; set_solver).
  case_decide as Hid; [apply IH; [done|]; apply Hnext; by intros (_ & ? & _)|].
  destruct (Z.eqb_spec (adm_Host a) (adm_Host mine)) as [Hh|Hh]; simpl.
  2:{ apply IH; [done|]. apply Hnext. by intros (_ & _ & ? & _). }
  destruct (stronger (adm_Identity mine) mine a) eqn:Es.
  - split_and!; [apply Hl; set_solver|done..].
  - apply IH; [done|]. apply Hnext. intros (_ & _ & _ & Hc). unfold claim_lt in Hc. congruence.
Qed.

(** Of two members with one slot, one is in the other's way. *)
Lemma no_conflict_unique s o1 o2 a b :
  set_wf s → iteration s o1 → iteration s o2 → held s a → held s b → adm_Host a = adm_Host b →
  (HostConflict s o1 (adm_Identity a)).2 = false → (HostConflict s o2 (adm_Identity b)).2 = false →
  adm_Identity a = adm_Identity b.
Proof.
  intros Hw H1 H2 Ha Hb Hh Na Nb.
  destruct (decide (adm_Identity a = adm_Identity b)) as [|Hne]; [done|exfalso].
  pose proof (HostConflict_spec s o1 a Hw H1 (proj1 Ha)) as Ca.
  pose proof (HostConflict_spec s o2 b Hw H2 (proj1 Hb)) as Cb.
  destruct (HostConflict s o1 (adm_Identity a)) as [xa []]; [done|].
  destruct (HostConflict s o2 (adm_Identity b)) as [xb []]; [done|].
  destruct (claim_lt_total a b Hne) as [Hlt|Hlt].
  - by apply (Cb a).
  - by apply (Ca b).
Qed.

Lemma least_claim (l : list Admission) :
  l ≠ [] → ∃ b, b ∈ l ∧ ∀ c, c ∈ l → claim_lt c b = false.
Proof.
  induction l as [|a l IH]; [done|]. intros _.
  destruct (decide (l = [])) as [->|Hne].
  { exists a. split; [set_solver|]. intros c ->%list_elem_of_singleton. apply claim_lt_irrefl. }
  destruct (IH Hne) as (b & Hb & Hmin). destruct (claim_lt a b) eqn:Eab.
  - exists a. split; [set_solver|]. intros c [->|Hc]%elem_of_cons; [apply claim_lt_irrefl|].
    destruct (claim_lt c a) eqn:Eca; [|done].
    pose proof (claim_lt_trans c a b Eca Eab). rewrite Hmin in *; done.
  - exists b. split; [set_solver|]. intros c [->|Hc]%elem_of_cons; [done|by apply Hmin].
Qed.

(** ** Counting the members with a name *)

Definition pick (name : bytes) (acc : Admission * Z) (a : Admission) : Admission * Z :=
  if decide (adm_Name a = name) then (a, acc.2 + 1) else acc.

Lemma last_cons_indep {A} (b : A) l d e : List.last (b :: l) d = List.last (b :: l) e.
Proof. revert b. induction l as [|c l IH]; intros b; [done|]. apply (IH c). Qed.

Lemma foldl_pick name l acc :
  (foldl (pick name) acc l).1 = List.last (filter (λ a, adm_Name a = name) l) acc.1 ∧
  (foldl (pick name) acc l).2 = acc.2 + Z.of_nat (length (filter (λ a, adm_Name a = name) l)).
Proof.
  revert acc. induction l as [|a l IH]; intros acc; [simpl; split; [done|lia]|].
  cbn [foldl]. destruct (IH (pick name acc a)) as [-> ->]. unfold pick.
  rewrite filter_cons. case_decide; simpl.
  - split; [|lia]. destruct (filter _ l) as [|b F]; [done|apply last_cons_indep].
  - done.
Qed.

(** ** Properties *)

(** C27: the slot [FreeHost] gives a joiner is within the limit and held by no
    current member. It is the lowest slot no admission uses, or, when all are
    used, the lowest no member holds; and there is an error exactly when the
    members hold them all. The iteration order does not matter, and the loop
    over [uint64] ends whatever the limit, [2^64-1] included. *)
Theorem FreeHost_spec s order limit :
  set_wf s → iteration s order → uint64_range limit →
  let used h := ∃ k a, admissions s !! k = Some a ∧ adm_Host a = h in
  let occupied h := ∃ a, held s a ∧ adm_Host a = h in
  match FreeHost s order limit with
  | Ok h =>
      1 ≤ h ≤ limit ∧ ¬ occupied h ∧
      ((¬ used h ∧ ∀ g, 1 ≤ g < h → used g) ∨
       ((∀ g, 1 ≤ g ≤ limit → used g) ∧ ∀ g, 1 ≤ g < h → occupied g))
  | Err e => e = "no free overlay address"%string ∧ ∀ g, 1 ≤ g ≤ limit → occupied g
  end.
Proof.
  intros Hw Ho Hl used occupied.
  assert (Hu : ∀ h, h ∈ taken order ↔ used h) by (intros h; by apply elem_of_taken).
  assert (Hv : ∀ h, h ∈ validTaken s order ↔ occupied h) by (intros h; by apply elem_of_validTaken).
  assert (Hsub : ∀ h, occupied h → used h).
  { intros h (a & [Ha _] & <-). by exists (adm_Identity a), a. }
  unfold FreeHost.
  destruct (scan_enough (taken order) limit Hl) as ([h|] & -> & Hs); simpl in Hs.
  - destruct Hs as (Hr & Hf & Hb). rewrite Hu in Hf. split_and!; [lia|lia|by auto|].
    left. split; [done|]. intros g Hg. by apply Hu, Hb.
  - destruct (scan_enough (validTaken s order) limit Hl) as ([h|] & -> & Hs2); simpl in Hs2.
    + destruct Hs2 as (Hr & Hf & Hb). rewrite Hv in Hf. split_and!; [lia|lia|done|].
      right. split; intros g Hg; [by apply Hu, Hs|by apply Hv, Hb].
    + split; [done|]. intros g Hg. by apply Hv, Hs2.
Qed.

(** Of the members that were given one slot, exactly one is told that
    nobody has a stronger claim, so all nodes with the same records agree on
    who keeps the address. *)
Theorem slot_has_one_holder s order a :
  set_wf s → iteration s order → held s a →
  exists! b, held s b ∧ adm_Host b = adm_Host a ∧ (HostConflict s order (adm_Identity b)).2 = false.
Proof.
  intros Hw Ho Ha.
  assert (Hspec : ∀ b, held s b →
    (HostConflict s order (adm_Identity b)).2 = false ↔ ∀ c, ¬ conflicts s b c).
  { intros b [Hb _]. pose proof (HostConflict_spec s order b Hw Ho Hb) as Hc.
    destruct (HostConflict s order (adm_Identity b)) as [c [|]]; naive_solver. }
  set (l := filter (λ b, adm_Host b = adm_Host a) (validAdmissions s order)).
  assert (Hl : ∀ b, b ∈ l ↔ held s b ∧ adm_Host b = adm_Host a).
  { intros b. unfold l. rewrite list_elem_of_filter, (elem_of_validAdmissions s) by done. tauto. }
  destruct (least_claim l) as (b & Hb & Hmin).
  { intros E. assert (a ∈ l) as Hal by (by apply Hl). rewrite E in Hal. set_solver. }
  apply Hl in Hb as [Hb Hh]. exists b. split.
  - split_and!; [done..|]. apply Hspec; [done|]. intros c (Hc & _ & Hch & Hlt).
    rewrite Hmin in Hlt; [done|]. apply Hl. split; [done|congruence].
  - intros c (Hc & Hch & Hno). rewrite (Hspec c Hc) in Hno.
    destruct (decide (adm_Identity b = adm_Identity c)) as [E|Hne].
    { destruct Hb as [Hb _], Hc as [Hc _]. rewrite E in Hb. congruence. }
    destruct (claim_lt_total b c Hne) as [Hlt|Hlt].
    + destruct (Hno b). split_and!; [done|done|congruence|done].
    + rewrite Hmin in Hlt; [done|]. by apply Hl.
Qed.

(** [ByName] finds a member exactly when one member alone has the name,
    and then it is that one. *)
Theorem ByName_spec s order name a :
  set_wf s → iteration s order →
  ByName s order name = (a, true) ↔
    held s a ∧ adm_Name a = name ∧ (∀ b, held s b → adm_Name b = name → b = a).
Proof.
  intros Hw Ho. unfold ByName. fold (pick name).
  destruct (foldl_pick name (validAdmissions s order) (zeroAdmission, 0)) as [Ea En].
  destruct (foldl (pick name) _ _) as [found n]. simpl in *.
  set (l := filter (λ b, adm_Name b = name) (validAdmissions s order)) in *.
  assert (Hl : ∀ b, b ∈ l ↔ held s b ∧ adm_Name b = name).
  { intros b. unfold l. rewrite list_elem_of_filter, (elem_of_validAdmissions s) by done. tauto. }
  assert (Hnd : NoDup (adm_Identity <$> l)).
  { pose proof (validAdmissions_NoDup s order Hw Ho) as Hnd. unfold l. clear -Hnd.
    induction (validAdmissions s order) as [|b k IH]; [done|].
    apply NoDup_cons in Hnd as [Hb Hnd]. rewrite filter_cons. case_decide; [|by apply IH].
    simpl. apply NoDup_cons. split; [|by apply IH].
    intros (c & E & [_ Hc]%list_elem_of_filter)%list_elem_of_fmap. apply Hb. rewrite E.
    by apply list_elem_of_fmap_2. }
  clearbody l. split.
  - intros [= <- Hn%Z.eqb_eq]. subst n. destruct l as [|b [|]]; simpl in *; [lia| |lia]. subst found.
    destruct (proj1 (Hl b)) as [Hb Hname]; [set_solver|]. split_and!; [done..|].
    intros c Hc Hcn. apply list_elem_of_singleton. by apply Hl.
  - intros (Ha & Hname & Huniq).
    assert (Hall : ∀ b, b ∈ l → b = a) by (intros b [??]%Hl; by apply Huniq).
    assert (Hin : a ∈ l) by (by apply Hl).
    destruct l as [|b [|c l]]; [set_solver| |].
    + simpl in *. rewrite (Hall b) in * by set_solver. by subst.
    + exfalso. rewrite (Hall b), (Hall c) in Hnd by set_solver. simpl in Hnd.
      apply NoDup_cons in Hnd as [Hno _]. apply Hno. by left.
Qed.

Lemma NameTaken_spec s order name except :
  set_wf s → iteration s order →
  NameTaken s order name except = true ↔
    ∃ a, held s a ∧ adm_Name a = name ∧ adm_Identity a ≠ except.
Proof.
  intros Hw Ho. unfold NameTaken. rewrite existsb_exists. split.
  - intros (a & Ha%list_elem_of_In & Hc). apply (elem_of_validAdmissions s) in Ha; [|done..].
    apply andb_true_iff in Hc as [Hn%bool_decide_eq_true Hi%negb_true_iff%bool_decide_eq_false].
    by exists a.
  - intros (a & Ha & Hn & Hi). exists a.
    rewrite <-list_elem_of_In, (elem_of_validAdmissions s), !bool_decide_eq_true_2, bool_decide_eq_false_2 by done.
    done.
Qed.
End lemmas.

Section witness.
#[local] Existing Instance Toy.toy.

(** [cat] and [eve] were both given slot 3, [eve] later. *)
Definition clash : TrustSet := deliver cluster [RAdm (Admit ann (key eve) (str "eve") 3 104)].
Definition clash_order : list (PublicKey * Admission) := reverse (map_to_list (admissions clash)).

Lemma clash_ok : set_wf clash ∧ iteration clash clash_order.
Proof. split; [apply deliver_wf, deliver_wf, NewSet_wf|apply reverse_Permutation]. Qed.

Example clash_eval :
FreeHost clash clash_order 7 = Ok 5 ∧
FreeHost clash clash_order 4 = Err "no free overlay address" ∧
(HostConflict clash clash_order (key eve)).2 = true ∧
(HostConflict clash clash_order (key cat)).2 = false.
Proof. vm_compute. done. Qed.

Lemma FreeHost_spec_witness :
∃ h, FreeHost clash clash_order 7 = Ok h ∧ 1 ≤ h ≤ 7.
Proof.
pose proof (FreeHost_spec clash clash_order 7 (proj1 clash_ok) (proj2 clash_ok)
              ltac:(unfold uint64_range; lia)) as Hs.
assert (E : FreeHost clash clash_order 7 = Ok 5) by (vm_compute; reflexivity).
rewrite E in Hs. exists 5. split; [done|]. apply Hs.
Defined.

Lemma held_cat : held clash adm_cat.
Proof. split; vm_compute; reflexivity. Qed.

Lemma slot_has_one_holder_witness :
exists! b, held clash b ∧ adm_Host b = adm_Host adm_cat ∧
           (HostConflict clash clash_order (adm_Identity b)).2 = false.
Proof.
apply (slot_has_one_holder clash clash_order adm_cat); [apply clash_ok|apply clash_ok|apply held_cat].
Defined.

Lemma ByName_spec_witness :
ByName clash clash_order (str "cat") = (adm_cat, true) ∧ held clash adm_cat.
Proof.
assert (E : ByName clash clash_order (str "cat") = (adm_cat, true)) by (vm_compute; reflexivity).
split; [done|].
apply (ByName_spec clash clash_order (str "cat") adm_cat (proj1 clash_ok) (proj2 clash_ok)). exact E.
Defined.
End witness.
