(* ===== verification/GoStrings.v ===== *)
(** * GoStrings: what the program uses of the standard library's [strings]

    Go strings are byte strings, read as UTF-8 where a function works on
    characters. *)

From S2P Require Import Prelude.

(** ** White space: [strings.TrimSpace] *)

(** The UTF-8 forms of the characters [unicode.IsSpace] accepts. *)
Definition spaces : list bytes :=
  [[Byte.x09]; [Byte.x0a]; [Byte.x0b]; [Byte.x0c]; [Byte.x0d]; [Byte.x20];
   [Byte.xc2; Byte.x85]; [Byte.xc2; Byte.xa0]; [Byte.xe1; Byte.x9a; Byte.x80];
   [Byte.xe2; Byte.x80; Byte.x80]; [Byte.xe2; Byte.x80; Byte.x81]; [Byte.xe2; Byte.x80; Byte.x82];
   [Byte.xe2; Byte.x80; Byte.x83]; [Byte.xe2; Byte.x80; Byte.x84]; [Byte.xe2; Byte.x80; Byte.x85];
   [Byte.xe2; Byte.x80; Byte.x86]; [Byte.xe2; Byte.x80; Byte.x87]; [Byte.xe2; Byte.x80; Byte.x88];
   [Byte.xe2; Byte.x80; Byte.x89]; [Byte.xe2; Byte.x80; Byte.x8a]; [Byte.xe2; Byte.x80; Byte.xa8];
   [Byte.xe2; Byte.x80; Byte.xa9]; [Byte.xe2; Byte.x80; Byte.xaf]; [Byte.xe2; Byte.x81; Byte.x9f];
   [Byte.xe3; Byte.x80; Byte.x80]].

(** The rest of [t] after one of [ps], if it starts with one. *)
Fixpoint strip_one (ps : list bytes) (t : bytes) : option bytes :=
  match ps with
  | [] => None
  | p :: ps' => if decide (take (length p) t = p) then Some (drop (length p) t) else strip_one ps' t
  end.

Fixpoint trim_left (fuel : nat) (ps : list bytes) (t : bytes) : bytes :=
  match fuel with
  | O => t
  | S n => match strip_one ps t with Some t' => trim_left n ps t' | None => t end
  end.

(** The right end is trimmed as the left end of the reversed string: no space
    character's bytes end those of a longer character. *)
Definition TrimSpace (t : bytes) : bytes :=
  let l := trim_left (length t) spaces t in
  reverse (trim_left (length l) (map reverse spaces) (reverse l)).

(** ** Case *)

Definition is_upper (c : byte) : bool := (65 <=? Z_of_byte c) && (Z_of_byte c <=? 90).
Definition is_lower (c : byte) : bool := (97 <=? Z_of_byte c) && (Z_of_byte c <=? 122).

(** [strings.ToLower] of an ASCII string. *)
Definition ToLower (t : bytes) : bytes :=
  map (λ c, if is_upper c then byte_of_Z (Z_of_byte c + 32) else c) t.

(** [strings.ToUpper], up to characters outside ASCII: exactly two of them have
    an upper-case form in ASCII, U+0131 (C4 B1) and U+017F (C5 BF). Every other
    one stays outside it, whatever it becomes, and is kept as it is here. *)
Fixpoint ToUpper (t : bytes) : bytes :=
  match t with
  | [] => []
  | c :: t' =>
      let up := (if is_lower c then byte_of_Z (Z_of_byte c - 32) else c) in
      match t' with
      | d :: t'' =>
          if decide (c = Byte.xc4 ∧ d = Byte.xb1) then Byte.x49 :: ToUpper t''
          else if decide (c = Byte.xc5 ∧ d = Byte.xbf) then Byte.x53 :: ToUpper t''
          else up :: ToUpper t'
      | [] => [up]
      end
  end.

(** ** Facts *)

(** A byte that is no part of a space character, and ASCII. *)
Definition plain (c : byte) : bool := (33 <=? Z_of_byte c) && (Z_of_byte c <? 128).

Lemma plain_not_strip ps c t :
  forallb (λ p, match p with x :: _ => negb (plain x) | [] => false end) ps = true →
  plain c = true → strip_one ps (c :: t) = None.
Proof.
  intros Hps Hc. induction ps as [|p ps IH]; simpl in *; [done|].
  apply andb_true_iff in Hps as [Hp Hps]. destruct p as [|x p]; [done|].
  rewrite decide_False; [by apply IH|]. simpl. intros [= <- _]. by rewrite Hc in Hp.
Qed.

Lemma spaces_not_plain :
  forallb (λ p, match p with x :: _ => negb (plain x) | [] => false end) spaces = true ∧
  forallb (λ p, match p with x :: _ => negb (plain x) | [] => false end) (map reverse spaces) = true.
Proof. by vm_compute. Qed.

Lemma trim_left_plain n ps c t :
  forallb (λ p, match p with x :: _ => negb (plain x) | [] => false end) ps = true →
  plain c = true → trim_left n ps (c :: t) = c :: t.
Proof. intros Hps Hc. destruct n; cbn [trim_left]; [done|]. by rewrite plain_not_strip. Qed.

Lemma trim_left_all_plain n ps t :
  forallb (λ p, match p with x :: _ => negb (plain x) | [] => false end) ps = true →
  forallb plain t = true → trim_left n ps t = t.
Proof.
  intros Hps. destruct t as [|c t].
  - intros _. destruct n; [done|]. cbn [trim_left].
    assert (strip_one ps [] = None) as ->; [|done].
    induction ps as [|p ps IH]; simpl in *; [done|]. apply andb_true_iff in Hps as [Hp Hps].
    destruct p as [|x p]; [done|]. rewrite decide_False by done. by apply IH.
  - simpl. intros [Hc _]%andb_true_iff. by apply trim_left_plain.
Qed.

(** Blanks around a text of printable ASCII characters do not matter. *)
Lemma TrimSpace_plain t : forallb plain t = true → TrimSpace t = t.
Proof.
  intros Ht. destruct spaces_not_plain as [H1 H2]. unfold TrimSpace.
  rewrite (trim_left_all_plain (length t) spaces) by done.
  rewrite trim_left_all_plain; [apply reverse_involutive|done|].
  rewrite forallb_forall in *. intros c Hc. apply Ht. apply list_elem_of_In in Hc.
  apply list_elem_of_In. rewrite elem_of_reverse in Hc. exact Hc.
Qed.

Definition letter_or_digit (c : byte) : bool :=
  is_upper c || is_lower c || ((48 <=? Z_of_byte c) && (Z_of_byte c <=? 57)).

(** Lower and upper case are inverse on upper-case letters and digits. *)
Lemma ToUpper_ToLower_char c :
  is_upper c || ((48 <=? Z_of_byte c) && (Z_of_byte c <=? 57)) = true →
  ToUpper [if is_upper c then byte_of_Z (Z_of_byte c + 32) else c] = [c] ∧
  Z_of_byte (if is_upper c then byte_of_Z (Z_of_byte c + 32) else c) < 128.
Proof. destruct c; vm_compute; done. Qed.

Lemma ToUpper_ascii_cons c t : Z_of_byte c < 128 → ToUpper (c :: t) = ToUpper [c] ++ ToUpper t.
Proof.
  intros Hc. assert (c ≠ Byte.xc4 ∧ c ≠ Byte.xc5) as [H1 H2].
  { split; intros ->; vm_compute in Hc; done. }
  destruct t as [|d t]; [done|]. cbn [ToUpper].
  rewrite !decide_False by naive_solver. done.
Qed.

Lemma ToUpper_ToLower t :
  forallb (λ c, is_upper c || ((48 <=? Z_of_byte c) && (Z_of_byte c <=? 57))) t = true →
  ToUpper (ToLower t) = t.
Proof.
  induction t as [|c t IH]; [done|]. cbn [forallb ToLower map].
  intros [Hc Ht]%andb_true_iff. destruct (ToUpper_ToLower_char c Hc) as [H1 H2].
  rewrite ToUpper_ascii_cons, H1 by done. fold (ToLower t). by rewrite IH.
Qed.

Example strings_examples :
  TrimSpace (str "  ab c " ++ [Byte.xc2; Byte.xa0; Byte.x0a]) = str "ab c" ∧
  TrimSpace (str "   ") = [] ∧ ToUpper (str "aB3" ++ [Byte.xc4; Byte.xb1]) = str "AB3I" ∧
  ToLower (str "ABc9") = str "abc9".
Proof. by vm_compute. Qed.
