(* ===== verification/Tokens.v ===== *)
(** * Tokens: invitations (internal/enrol/token.go)

    A member keeps the tokens it has minted in memory, by the hash the joiner
    names them with, each with an expiry and the number of enrolments it is
    good for. The printed form survives being parsed, whatever the case and
    the blanks around it, and no sequence of operations admits more joiners
    than a token has uses, or any once it has expired. *)

From S2P Require Import Prelude Encoding GoStrings.

(** [crypto/sha256], as a function of the library. *)
Class Sha256 := sha256 : bytes → bytes.

(** ** Data *)

Definition tokenLen : nat := 32.
Definition tokenIDLen : nat := 8.

(** [tokenID], 8 bytes. *)
Abbreviation tokenID := bytes.

Definition idOf `{!Sha256} (key : bytes) : tokenID := take tokenIDLen (sha256 key).

Record token := MkToken {
  tok_key : bytes;
  tok_expires : Z;   (* nanoseconds *)
  tok_uses : Z;      (* int *)
}.

(** [TokenStore] without its lock and clock: operations take the clock reading. *)
Abbreviation TokenStore := (gmap tokenID token).

Definition NewTokenStore : gmap tokenID token := ∅.

(** ** The printed form *)

Definition encodeToken (key : bytes) : bytes := ToLower (EncodeToString32 key).

Definition decodeToken (s : bytes) : result bytes :=
  match DecodeString32 (ToUpper (TrimSpace s)) with
  | None => Err "join key: illegal base32 data"
  | Some key =>
      if negb (Nat.eqb (length key) tokenLen) then Err "join key: want 32 bytes"
      else Ok key
  end.

(** ** Operations *)

Section operations.
Context `{!Sha256}.

(** Drops the tokens for which [!now.Before(t.expires)]. *)
Definition gc (now : Z) (s : TokenStore) : TokenStore :=
  filter (λ it, now < tok_expires it.2) s.

(** [key] is what [rand.Read] returned, if it did. *)
Definition Mint (now ttl uses : Z) (key : option bytes) (s : TokenStore) : result bytes * TokenStore :=
  if (ttl <=? 0) || (uses <=? 0) then (Err "token ttl and uses must be positive", s)
  else
    match key with
    | None => (Err "reading random source", s)
    | Some key => (Ok (encodeToken key), <[idOf key := MkToken key (now + ttl) uses]> (gc now s))
    end.

Definition lookup_token (now : Z) (id : tokenID) (s : TokenStore) : option bytes * TokenStore :=
  let s := gc now s in (tok_key <$> s !! id, s).

(** [now] is [s.now()] as read by this call. *)
Definition consume (now : Z) (id : tokenID) (s : TokenStore) : bool * TokenStore :=
  match s !! id with
  | None => (false, s)
  | Some t =>
      if negb (now <? tok_expires t) then (false, s)
      else
        let t := MkToken (tok_key t) (tok_expires t) (tok_uses t - 1) in
        (true, if tok_uses t <=? 0 then delete id s else <[id := t]> s)
  end.

(** What happens to a store over time, each operation with its clock reading. *)
Inductive token_op :=
  | OpMint (now ttl uses : Z) (key : option bytes)
  | OpLookup (now : Z) (id : tokenID)
  | OpConsume (now : Z) (id : tokenID).

Definition run_token_op (s : TokenStore) (op : token_op) : TokenStore :=
  match op with
  | OpMint now ttl uses key => (Mint now ttl uses key s).2
  | OpLookup now id => (lookup_token now id s).2
  | OpConsume now id => (consume now id s).2
  end.

(** The enrolments of [id] a sequence of operations lets through. *)
Fixpoint admitted (id : tokenID) (s : TokenStore) (ops : list token_op) : Z :=
  match ops with
  | [] => 0
  | op :: ops' =>
      match op with
      | OpConsume now id' => if decide (id' = id) then Z.b2z (consume now id' s).1 else 0
      | _ => 0
      end + admitted id (run_token_op s op) ops'
  end.

(** No operation mints a token that goes by [id]. *)
Definition mints_other (id : tokenID) (op : token_op) : Prop :=
  match op with
  | OpMint _ _ _ (Some key) => idOf key ≠ id
  | _ => True
  end.

Definition op_time (op : token_op) : Z :=
  match op with OpMint now _ _ _ | OpLookup now _ | OpConsume now _ => now end.
End operations.

(** ** Invariant *)

Section lemmas.
Context `{!Sha256}.
Implicit Types (s : TokenStore) (id : tokenID).

Lemma lookup_gc now s id t :
  gc now s !! id = Some t ↔ s !! id = Some t ∧ now < tok_expires t.
Proof. unfold gc. rewrite map_lookup_filter_Some. done. Qed.

(** Every token in a store has a use left and is filed under its own hash. *)
Definition store_ok s : Prop := map_Forall (λ id t, id = idOf (tok_key t) ∧ 0 < tok_uses t) s.

Lemma gc_ok now s : store_ok s → store_ok (gc now s).
Proof. intros Hs id t [Ht _]%lookup_gc. by apply Hs. Qed.

Lemma run_token_op_ok s op : store_ok s → store_ok (run_token_op s op).
Proof.
  intros Hs. destruct op as [now ttl uses key|now id|now id]; simpl.
  - unfold Mint. destruct ((ttl <=? 0) || (uses <=? 0)) eqn:E; [done|].
    destruct key as [key|]; [|done]. simpl. apply map_Forall_insert_2; [|by apply gc_ok].
    simpl. split; [done|]. lia.
  - by apply gc_ok.
  - unfold consume. destruct (s !! id) as [t|] eqn:E; [|done].
    destruct (Z.ltb_spec now (tok_expires t)); simpl; [|done].
    destruct (Z.leb_spec (tok_uses t - 1) 0); simpl; [by apply map_Forall_delete|].
    apply map_Forall_insert_2; [|done]. simpl. split; [by apply (Hs id t)|lia].
Qed.

(** What is left of a token: its uses, none if it is gone. *)
Definition uses_left s id : Z := match s !! id with Some t => tok_uses t | None => 0 end.
Definition expiry s id : option Z := tok_expires <$> s !! id.

Lemma gc_uses now s id : store_ok s → uses_left (gc now s) id ≤ uses_left s id.
Proof.
  intros Hs. unfold uses_left. destruct (gc now s !! id) as [t|] eqn:E.
  - apply lookup_gc in E as [-> _]. done.
  - destruct (s !! id) as [t|] eqn:E2; [|done]. destruct (Hs id t E2). lia.
Qed.

(** One operation spends at most what it lets through. *)
Lemma token_op_uses s op id :
  store_ok s → mints_other id op →
  match op with
  | OpConsume now id' => if decide (id' = id) then Z.b2z (consume now id' s).1 else 0
  | _ => 0
  end + uses_left (run_token_op s op) id ≤ uses_left s id.
Proof.
  intros Hs Hm. destruct op as [now ttl uses key|now id'|now id']; simpl.
  - unfold Mint. destruct (_ || _); [simpl; lia|]. destruct key as [key|]; [|simpl; lia].
    simpl in *. unfold uses_left at 1. rewrite lookup_insert_ne by done.
    apply (gc_uses now s id Hs).
  - apply (gc_uses now s id Hs).
  - unfold consume. destruct (s !! id') as [t|] eqn:E; simpl; [|case_decide; lia].
    destruct (Z.ltb_spec now (tok_expires t)); simpl; [|case_decide; lia].
    destruct (Hs id' t E) as [_ Hpos].
    case_decide as Hid; [subst id'|];
      destruct (Z.leb_spec (tok_uses t - 1) 0); unfold uses_left; rewrite ?E.
    + rewrite lookup_delete_eq. lia.
    + rewrite lookup_insert_eq. simpl. lia.
    + rewrite lookup_delete_ne by done. lia.
    + rewrite lookup_insert_ne by done. lia.
Qed.

Lemma admitted_bound s ops id :
  store_ok s → Forall (mints_other id) ops → admitted id s ops ≤ uses_left s id.
Proof.
  revert s. induction ops as [|op ops IH]; intros s Hs Hops; cbn [admitted].
  - unfold uses_left. destruct (s !! id) as [t|] eqn:E; [|done]. destruct (Hs id t E). lia.
  - apply Forall_cons in Hops as [Hop Hops].
    pose proof (token_op_uses s op id Hs Hop).
    specialize (IH (run_token_op s op) (run_token_op_ok s op Hs) Hops). lia.
Qed.

(** A token that has expired stays so: its expiry never moves. *)
Lemma token_op_expiry s op id e :
  mints_other id op → expiry (run_token_op s op) id = Some e → expiry s id = Some e.
Proof.
  intros Hm. destruct op as [now ttl uses key|now id'|now id']; simpl; unfold expiry.
  - unfold Mint. destruct (_ || _); [done|]. destruct key as [key|]; [|done].
    simpl in *. rewrite lookup_insert_ne by done.
    destruct (gc now s !! id) as [t|] eqn:E; [|done]. apply lookup_gc in E as [-> _]. done.
  - destruct (gc now s !! id) as [t|] eqn:E; [|done]. apply lookup_gc in E as [-> _]. done.
  - unfold consume. destruct (s !! id') as [t|] eqn:E; [|done].
    destruct (now <? tok_expires t); [|done]. simpl.
    destruct (tok_uses t - 1 <=? 0).
    + destruct (decide (id' = id)) as [->|]; [by rewrite lookup_delete_eq|by rewrite lookup_delete_ne].
    + destruct (decide (id' = id)) as [->|]; [|by rewrite lookup_insert_ne].
      rewrite lookup_insert_eq, E. done.
Qed.

Lemma admitted_expired s ops id :
  Forall (mints_other id) ops → (∀ e, expiry s id = Some e → Forall (λ op, e ≤ op_time op) ops) →
  admitted id s ops = 0.
Proof.
  revert s. induction ops as [|op ops IH]; intros s Hops He; [done|]. cbn [admitted].
  apply Forall_cons in Hops as [Hop Hops]. rewrite IH; [|done|].
  - assert (He' : ∀ e, expiry s id = Some e → e ≤ op_time op).
    { intros e Hx. by apply He, Forall_cons in Hx as [? _]. }
    destruct op as [| |now id']; [done..|]. case_decide as Hid; [subst id'|done].
    unfold consume. unfold expiry in He'. destruct (s !! id) as [t|]; [|done].
    specialize (He' _ eq_refl). simpl in He'. by rewrite (proj2 (Z.ltb_ge _ _) He').
  - intros e Hx. apply token_op_expiry in Hx; [|done]. by apply He, Forall_cons in Hx as [_ ?].
Qed.
End lemmas.

(** ** Properties *)

Lemma encode32_letters bs :
  forallb (λ c, is_upper c || ((48 <=? Z_of_byte c) && (Z_of_byte c <=? 57))) (EncodeToString32 bs) = true.
Proof.
  unfold EncodeToString32. rewrite forallb_forall. intros c Hc.
  apply in_map_iff in Hc as (d & <- & Hd). pose proof (digits_of_range 5 bs ltac:(lia)) as Hr.
  rewrite Forall_forall in Hr. specialize (Hr d). apply list_elem_of_In in Hd. specialize (Hr Hd).
  clear Hd. assert (Hb : forallb (λ n, let c := digit alphabet32 (Z.of_nat n) in
     is_upper c || ((48 <=? Z_of_byte c) && (Z_of_byte c <=? 57))) (seq 0 32) = true) by (by vm_compute).
  rewrite forallb_forall in Hb. specialize (Hb (Z.to_nat d)). rewrite Z2Nat.id in Hb by lia.
  apply Hb. apply in_seq. change (2 ^ Z.of_nat 5) with 32 in Hr. lia.
Qed.

Lemma ToLower_plain t :
  forallb (λ c, is_upper c || ((48 <=? Z_of_byte c) && (Z_of_byte c <=? 57))) t = true →
  forallb plain (ToLower t) = true ∧ forallb plain t = true.
Proof.
  induction t as [|c t IH]; [done|]. cbn [forallb ToLower map]. intros [Hc Ht]%andb_true_iff.
  destruct (IH Ht) as [H1 H2]. fold (ToLower t). rewrite H1, H2.
  clear -Hc. revert Hc. destruct c; by vm_compute.
Qed.

(** A printed token parses back to the token, however it is pasted: in the
    lower case it is printed in, with blanks around it, or in upper case. *)
Theorem decodeToken_encodeToken key :
  length key = tokenLen →
  decodeToken (encodeToken key) = Ok key ∧ decodeToken (EncodeToString32 key) = Ok key.
Proof.
  intros Hl. pose proof (encode32_letters key) as He.
  destruct (ToLower_plain _ He) as [H1 H2].
  assert (Hup : ToUpper (EncodeToString32 key) = EncodeToString32 key).
  { revert He. generalize (EncodeToString32 key) as t. induction t as [|c t IH]; [done|].
    cbn [forallb]. intros [Hc Ht]%andb_true_iff.
    assert (ToUpper [c] = [c] ∧ Z_of_byte c < 128) as [Hc1 Hc2].
    { clear -Hc. revert Hc. destruct c; by vm_compute. }
    rewrite ToUpper_ascii_cons, Hc1 by done. by rewrite IH. }
  unfold decodeToken, encodeToken. rewrite !TrimSpace_plain by done.
  rewrite ToUpper_ToLower, Hup, DecodeString32_Encode, Hl by done. done.
Qed.

Section properties.
Context `{!Sha256}.

(** C32: a token minted for [uses] enrolments lets at most that many through,
    however lookups, enrolments and other invitations interleave. *)
Theorem Mint_uses now ttl uses key s ops :
  0 < ttl → 0 < uses → store_ok s → Forall (mints_other (idOf key)) ops →
  admitted (idOf key) (Mint now ttl uses (Some key) s).2 ops ≤ uses.
Proof.
  intros Ht Hu Hs Hops.
  assert (Hok : store_ok (Mint now ttl uses (Some key) s).2)
    by (apply (run_token_op_ok s (OpMint now ttl uses (Some key))); done).
  pose proof (admitted_bound _ ops (idOf key) Hok Hops) as Hb. revert Hb.
  unfold Mint. rewrite (proj2 (Z.leb_gt ttl 0)), (proj2 (Z.leb_gt uses 0)) by done. simpl.
  unfold uses_left at 1. by rewrite lookup_insert_eq.
Qed.

(** And none from its expiry on. *)
Theorem Mint_expires now ttl uses key s ops :
  0 < ttl → 0 < uses → Forall (mints_other (idOf key)) ops →
  Forall (λ op, now + ttl ≤ op_time op) ops →
  admitted (idOf key) (Mint now ttl uses (Some key) s).2 ops = 0.
Proof.
  intros Ht Hu Hops Htime. apply admitted_expired; [done|].
  unfold Mint. rewrite (proj2 (Z.leb_gt ttl 0)), (proj2 (Z.leb_gt uses 0)) by done. simpl.
  intros e. unfold expiry. rewrite lookup_insert_eq. by intros [= <-].
Qed.

(** Until then it is good for every one of them: joiners that prove it
    in time are let through as long as uses are left, and not afterwards. *)
Theorem Mint_serves now ttl uses key s times :
  0 < ttl → 0 < uses → Forall (λ t, t < now + ttl) times →
  admitted (idOf key) (Mint now ttl uses (Some key) s).2 (map (λ t, OpConsume t (idOf key)) times) =
    Z.min uses (Z.of_nat (length times)).
Proof.
  intros Ht Hu Htimes. unfold Mint.
  rewrite (proj2 (Z.leb_gt ttl 0)), (proj2 (Z.leb_gt uses 0)) by done. simpl.
  generalize (gc now s) as s'. revert uses Hu. set (id := idOf key).
  assert (Hgone : ∀ l s', s' !! id = None → admitted id s' (map (λ t, OpConsume t id) l) = 0).
  { induction l as [|t l IH]; intros s' Hs'; [done|]. cbn [map admitted run_token_op].
    rewrite decide_True by done. unfold consume. rewrite Hs'. simpl. by rewrite IH. }
  induction Htimes as [|t times Hlt _ IH]; intros uses Hu s'; [simpl; lia|].
  cbn [map admitted run_token_op length]. rewrite decide_True by done.
  unfold consume. rewrite lookup_insert_eq. simpl.
  rewrite (proj2 (Z.ltb_lt t (now + ttl))) by done. simpl.
  destruct (Z.leb_spec (uses - 1) 0) as [Hz|Hz].
  - rewrite Hgone by apply lookup_delete_eq. lia.
  - rewrite insert_insert_eq, IH by lia. lia.
Qed.
End properties.

(** ** Witnesses: a hash that returns its input *)

Module ToyHash.
#[export] Instance toy_hash : Sha256 := λ b, b.
End ToyHash.

Section witness.
#[local] Existing Instance ToyHash.toy_hash.

Definition demo_key : bytes := replicate tokenLen Byte.x41.
Definition other_key : bytes := replicate tokenLen Byte.x42.
Definition demo_ops : list token_op :=
[OpConsume 5 (idOf demo_key); OpMint 6 10 1 (Some other_key); OpLookup 7 (idOf demo_key);
 OpConsume 8 (idOf demo_key); OpConsume 9 (idOf demo_key)].

Lemma decodeToken_encodeToken_witness :
decodeToken (encodeToken demo_key) = Ok demo_key ∧ decodeToken (EncodeToString32 demo_key) = Ok demo_key.
Proof. apply (decodeToken_encodeToken demo_key). reflexivity. Defined.

Lemma Mint_uses_witness :
admitted (idOf demo_key) (Mint 0 100 2 (Some demo_key) NewTokenStore).2 demo_ops = 2 ∧
admitted (idOf demo_key) (Mint 0 100 2 (Some demo_key) NewTokenStore).2 demo_ops ≤ 2.
Proof.
split; [vm_compute; reflexivity|].
apply (Mint_uses 0 100 2 demo_key NewTokenStore demo_ops); [lia|lia|intros ? ?; done|].
repeat constructor. apply (bool_decide_unpack (idOf other_key ≠ idOf demo_key)). vm_compute. exact I.
Defined.

Lemma Mint_expires_witness :
admitted (idOf demo_key) (Mint 0 5 2 (Some demo_key) NewTokenStore).2 demo_ops = 0.
Proof.
apply (Mint_expires 0 5 2 demo_key NewTokenStore demo_ops); [lia|lia|..].
- repeat constructor. apply (bool_decide_unpack (idOf other_key ≠ idOf demo_key)). vm_compute. exact I.
- repeat constructor; simpl; lia.
Defined.

Lemma Mint_serves_witness :
admitted (idOf demo_key) (Mint 0 100 2 (Some demo_key) NewTokenStore).2
  (map (λ t, OpConsume t (idOf demo_key)) [3; 4; 5]) = 2.
Proof.
apply (Mint_serves 0 100 2 demo_key NewTokenStore [3; 4; 5]); [lia|lia|].
repeat constructor; lia.
Defined.
End witness.
