(* ===== verification/Prog.v ===== *)
(** * Prog: programs that interact

    A program that reads, writes, or calls what the model leaves out, as the
    tree of its interactions: an event and what it does with each answer. All
    programs here end, so the tree is an inductive type, and proofs are by
    induction on it or on its runs. *)

From S2P Require Import Prelude.

Inductive prog (E : Type → Type) (A : Type) : Type :=
  | Ret (a : A)
  | Vis {X : Type} (e : E X) (k : X → prog E A).
Arguments Ret {E A} a.
Arguments Vis {E A X} e k.

Fixpoint bind {E A B} (p : prog E A) (f : A → prog E B) : prog E B :=
  match p with
  | Ret a => f a
  | Vis e k => Vis e (λ x, bind (k x) f)
  end.

Definition trigger {E X} (e : E X) : prog E X := Vis e Ret.

Declare Scope prog_scope.
Delimit Scope prog_scope with prog.

Notation "'let*' x ':=' p 'in' q" := (bind p (λ x, q))
  (at level 200, x pattern, p at level 200, q at level 200, right associativity) : prog_scope.
(** [if x, err := p; err != nil { return err }] *)
Notation "'let*?' x ':=' p 'in' q" := (bind p (λ r, match r with Ok x => q | Err msg => Ret (Err msg) end))
  (at level 200, x pattern, p at level 200, q at level 200, right associativity) : prog_scope.
Notation "'check' c 'else' msg 'in' q" := (if (c : bool) then q else Ret (Err msg%string))
  (at level 200, c at level 200, msg at level 200, q at level 200, right associativity) : prog_scope.

(** ** Runs *)

(** An event that happened, with its answer. *)
Inductive happened (E : Type → Type) : Type :=
  | Ev {X : Type} (e : E X) (x : X).
Arguments Ev {E X} e x.

(** [runs p tr r]: the program gives [r], having been answered as in [tr]. *)
Fixpoint runs {E A} (p : prog E A) (tr : list (happened E)) (r : A) : Prop :=
  match p with
  | Ret a => tr = [] ∧ a = r
  | Vis e k => ∃ x tr', tr = Ev e x :: tr' ∧ runs (k x) tr' r
  end.

(** What a program has done when it is stopped somewhere. *)
Fixpoint reaches {E A} (p : prog E A) (tr : list (happened E)) : Prop :=
  match p with
  | Ret _ => tr = []
  | Vis e k => tr = [] ∨ ∃ x tr', tr = Ev e x :: tr' ∧ reaches (k x) tr'
  end.

Lemma runs_bind {E A B} (p : prog E A) (f : A → prog E B) tr b :
  runs (bind p f) tr b ↔ ∃ tr1 a tr2, tr = tr1 ++ tr2 ∧ runs p tr1 a ∧ runs (f a) tr2 b.
Proof.
  revert tr. induction p as [a|X e k IH]; intros tr; simpl; split.
  - intros Hr. by exists [], a, tr.
  - by intros (tr1 & a' & tr2 & -> & [-> ->] & Hr).
  - intros (x & tr' & -> & Hk). apply IH in Hk as (tr1 & a & tr2 & -> & H1 & H2).
    exists (Ev e x :: tr1), a, tr2. split_and!; [done| |done]. by exists x, tr1.
  - intros (tr1 & a & tr2 & -> & (x & tr' & -> & H1) & H2). exists x, (tr' ++ tr2).
    split; [done|]. apply IH. by exists tr', a, tr2.
Qed.

(** A bind whose first part is one event. *)
Lemma runs_event {E X A} (e : E X) (f : X → prog E A) tr r :
  runs (bind (trigger e) f) tr r → ∃ x tr', tr = Ev e x :: tr' ∧ runs (f x) tr' r.
Proof. intros (x & tr' & -> & H). eauto. Qed.

Lemma runs_step {E X A} (e : E X) (f : X → prog E A) x tr r :
  runs (f x) tr r → runs (bind (trigger e) f) (Ev e x :: tr) r.
Proof. intros H. by exists x, tr. Qed.

(** Every way a run of a program without loops goes: each answer that is a
    [result] succeeds or fails, each condition holds or not. *)
Ltac run_events H :=
  cbn [bind trigger runs] in H;
  repeat match type of H with
    | ∃ _, _ =>
        let x := fresh "x" in
        destruct H as (x & ? & -> & H); try match type of x with result _ => destruct x as [x|] end;
        cbn [bind trigger runs] in H
    | context [decide ?P] => destruct (decide P); cbn [bind trigger runs] in H
    | _ ∧ _ => destruct H as [-> <-]
    end.

(** A program stopped inside a sequence is in its first part or its second. *)
Lemma reaches_bind {E A B} (p : prog E A) (f : A → prog E B) tr :
  reaches (bind p f) tr →
  reaches p tr ∨ ∃ tr1 a tr2, tr = tr1 ++ tr2 ∧ runs p tr1 a ∧ reaches (f a) tr2.
Proof.
  revert tr. induction p as [a|X e k IH]; intros tr; simpl.
  - intros Hr. right. by exists [], a, tr.
  - intros [->|(x & tr' & -> & Hk)]; [left; by left|].
    apply IH in Hk as [Hk|(tr1 & a & tr2 & -> & H1 & H2)].
    + left. right. by exists x, tr'.
    + right. exists (Ev e x :: tr1), a, tr2. split_and!; [done| |done]. by exists x, tr1.
Qed.

Lemma runs_reaches {E A} (p : prog E A) tr r : runs p tr r → reaches p tr.
Proof.
  revert tr. induction p as [a|X e k IH]; intros tr; simpl; [by intros [-> _]|].
  intros (x & tr' & -> & Hk). right. exists x, tr'. split; [done|]. by apply IH.
Qed.

(** Every program ends: whatever the answers are, as long as each event is
    answered, there is a run. *)
Lemma runs_total {E A} (p : prog E A) (oracle : ∀ X, E X → X) : ∃ tr r, runs p tr r.
Proof.
  induction p as [a|X e k IH]; simpl; [by exists [], a|].
  destruct (IH (oracle X e)) as (tr & r & Hr). exists (Ev e (oracle X e) :: tr), r.
  by exists (oracle X e), tr.
Qed.

(** ** Programs inside others

    A part that interacts by its own events, as a part of a program that has
    others besides. *)

Fixpoint translate {E F} (h : ∀ X, E X → F X) {A} (p : prog E A) : prog F A :=
  match p with
  | Ret a => Ret a
  | Vis e k => Vis (h _ e) (λ x, translate h (k x))
  end.

Definition seen_as {E F} (h : ∀ X, E X → F X) (e : happened E) : happened F :=
  match e with Ev e x => Ev (h _ e) x end.

Lemma runs_translate {E F} (h : ∀ X, E X → F X) {A} (p : prog E A) tr r :
  runs (translate h p) tr r ↔ ∃ tr0, runs p tr0 r ∧ tr = map (seen_as h) tr0.
Proof.
  revert tr. induction p as [a|X e k IH]; intros tr; simpl; split.
  - intros [-> ->]. by exists [].
  - by intros (tr0 & [-> ->] & ->).
  - intros (x & tr' & -> & H). apply IH in H as (tr0 & H0 & ->).
    exists (Ev e x :: tr0). split; [|done]. by exists x, tr0.
  - intros (tr0 & (x & tr' & -> & H) & ->). exists x, (map (seen_as h) tr'). split; [done|].
    apply IH. by exists tr'.
Qed.

Lemma reaches_translate {E F} (h : ∀ X, E X → F X) {A} (p : prog E A) tr :
  reaches (translate h p) tr → ∃ tr0, reaches p tr0 ∧ tr = map (seen_as h) tr0.
Proof.
  revert tr. induction p as [a|X e k IH]; intros tr; simpl; [by intros ->; exists []|].
  intros [->|(x & tr' & -> & H)]; [exists []; split; [by left|done]|].
  apply IH in H as (tr0 & H & ->). exists (Ev e x :: tr0). split; [|done]. right. by exists x, tr0.
Qed.
