(* ===== verification/Enrol.v ===== *)
(** * Enrol: the enrolment exchange (internal/enrol/protocol.go, server.go)

    Both sides of the exchange in which a joiner and a member prove to each
    other that they hold an invitation token, as programs over their
    connection: [handle] is the member's, [Join] the joiner's. Token store,
    clock, random source and the member's records are events, so a theorem
    about all runs of a program holds whatever they answer and whatever the
    other side sends. *)

From S2P Require Import Prelude Wire Netip Encoding Identity Records TrustSet Validity GoStrings Tokens Prog.

(** ** What the exchange uses of other libraries *)

(** [crypto/hkdf] with SHA-256, and [crypto/hmac]. *)
Class Kdf := {
  hkdf_key : bytes → bytes → bytes → nat → bytes;   (* secret, salt, info, length *)
  hmac_sha256 : bytes → bytes → bytes;              (* key, message *)
}.

(** [encoding/json] on one message type: [Marshal] may fail, and [Unmarshal]
    into a zero value. *)
Class Json (A : Type) := {
  json_Marshal : A → option bytes;
  json_Unmarshal : bytes → option A;
}.

(** ** Messages *)

Definition protocolVersion : Z := 4.
Definition nonceLen : nat := 32.
Definition maxFrame : Z := 2 ^ 20.
Definition kdfInfo : bytes := str "cheesecloth/enrol/v4".
Definition transcriptDomain : bytes := str "cheesecloth/enrol/transcript/v4".
Definition labelMember : bytes := str "member".
Definition labelJoiner : bytes := str "joiner".

Record hello := MkHello {
  hello_Version : Z;
  hello_TokenID : bytes;
  hello_Identity : PublicKey;
  hello_Nonce : bytes;
  hello_Name : bytes;
}.

Record challenge := MkChallenge {
  ch_Identity : PublicKey;
  ch_Nonce : bytes;
  ch_MAC : bytes;
}.

Record proof_msg := MkProof { proof_MAC : bytes }.

Inductive ack := MkAck.

Record Welcome := MkWelcome {
  w_Root : PublicKey;
  w_Records : trust_Records;
  w_Admission : Admission;
  w_GossipAddr : bytes;
  w_OverlayNet : Prefix;
  w_Error : bytes;
}.

#[export] Instance hello_eq_dec : EqDecision hello.
Proof. solve_decision. Defined.
#[export] Instance challenge_eq_dec : EqDecision challenge.
Proof. solve_decision. Defined.
#[export] Instance proof_msg_eq_dec : EqDecision proof_msg.
Proof. solve_decision. Defined.
#[export] Instance ack_eq_dec : EqDecision ack.
Proof. solve_decision. Defined.
#[export] Instance Welcome_eq_dec : EqDecision Welcome.
Proof. solve_decision. Defined.

Definition zeroAdm : Admission := MkAdmission zeroKey [] 0 zeroKey 0 [].
(** [Welcome{Error: reason}] *)
Definition refusal (reason : bytes) : Welcome :=
  MkWelcome zeroKey (MkRecords [] []) zeroAdm [] zeroPrefix reason.

(** ** Keys and transcripts *)

Section crypto.
Context `{!Kdf}.

Definition deriveKey (tok nJ nM : bytes) : bytes := hkdf_key tok (nJ ++ nM) kdfInfo 32.

Definition transcript (j m : PublicKey) (nJ nM name : bytes) : bytes :=
  Canonical transcriptDomain [key_bytes j; key_bytes m; nJ; nM; name].

(** What goes into the HMAC. *)
Definition mac_input (label tr : bytes) : bytes := label ++ [Byte.x00] ++ tr.
Definition mac (key label tr : bytes) : bytes := hmac_sha256 key (mac_input label tr).
End crypto.

(** ** Events *)

Inductive enrolE : Type → Type :=
  | ReadFull (n : Z) : enrolE (option bytes)          (* io.ReadFull from the connection *)
  | Write (b : bytes) : enrolE bool                   (* conn.Write, whether it succeeded *)
  | RandRead (n : nat) : enrolE (option bytes)        (* crypto/rand *)
  | NowUnix : enrolE Z
  | Lookup (id : tokenID) : enrolE (option bytes)     (* s.Tokens.lookup *)
  | Consume (id : tokenID) : enrolE bool              (* s.Tokens.consume *)
  | CurrentRecords : enrolE trust_Records             (* s.Records *)
  | Admit_ (joiner : PublicKey) (name : bytes) : enrolE (result (Admission * trust_Records)).

Abbreviation enrol_prog := (prog enrolE).

(** ** Frames *)

Section frames.
Local Open Scope prog_scope.

Definition writeFrame {A} `{!Json A} (v : A) : enrol_prog (result unit) :=
  match json_Marshal v with
  | None => Ret (Err "json")
  | Some body =>
      if maxFrame <? Z.of_nat (length body) then Ret (Err "frame too large")
      else
        let* ok := trigger (Write (be_bytes 4 (Z.of_nat (length body)))) in
        if negb ok then Ret (Err "write")
        else
          let* ok := trigger (Write body) in
          Ret (if (ok : bool) then Ok () else Err "write")
  end.

Definition readFrame (A : Type) `{!Json A} : enrol_prog (result A) :=
  let* hdr := trigger (ReadFull 4) in
  match hdr with
  | None => Ret (Err "read")
  | Some hdr =>
      let n := be_value hdr in
      if maxFrame <? n then Ret (Err "frame too large")
      else
        let* body := trigger (ReadFull n) in
        match body with
        | None => Ret (Err "read")
        | Some body =>
            Ret match json_Unmarshal body with
                | Some v => Ok v
                | None => Err "json"
                end
        end
  end.

Definition randomNonce : enrol_prog (result bytes) :=
  let* n := trigger (RandRead nonceLen) in
  Ret match n with Some n => Ok n | None => Err "reading random source" end.
End frames.

(** ** The member's side *)

(** [enrol.Server], without the functions and stores that are events. *)
Record Server := MkServer {
  srv_Identity : Identity;
  srv_Root : PublicKey;
  srv_GossipAddr : bytes;
  srv_HasRecords : bool;       (* s.Records != nil *)
  srv_OverlayNet : Prefix;
}.

(** [bound]: [peer] is [conn.PeerIdentity()]. *)
Definition bound (peer claimed : PublicKey) : bool := bool_decide (peer = claimed).

Section server.
Context `{!Ed25519, !Sha256, !Kdf}.
Context `{!Json hello, !Json challenge, !Json proof_msg, !Json ack, !Json Welcome}.
Local Open Scope prog_scope.

Definition refuse (reason : String.string) : enrol_prog (result unit) :=
  let* r := writeFrame (refusal (str reason)) in
  Ret match r with
      | Err _ => Err "refused (the refusal could not be sent)"
      | Ok _ => Err reason
      end.

(** The size the welcome would have is left out of the result, as it only
    goes into a message. *)
Definition welcomeFits (s : Server) (name : bytes) : enrol_prog bool :=
  if negb (srv_HasRecords s) then Ret true
  else
    let* records := trigger CurrentRecords in
    let* now := trigger NowUnix in
    let probe := MkAdmission zeroKey name max_uint64 zeroKey now (replicate 64 Byte.x00) in
    let w := MkWelcome (srv_Root s) (MkRecords (Admissions records ++ [probe]) (Revocations records))
               probe (srv_GossipAddr s) (srv_OverlayNet s) [] in
    Ret match json_Marshal w with
        | None => true
        | Some body => Z.of_nat (length body) <=? maxFrame
        end.

(** The last part of [Server.handle], once the joiner has proved the token:
    it is told why it is refused, or gets its welcome. *)
Definition admit_joiner (s : Server) (h : hello) : enrol_prog (result unit) :=
  let* fits := welcomeFits s (hello_Name h) in
  if negb fits then refuse "this cluster's membership records no longer fit in an enrolment message"
  else
    let* admitted := trigger (Admit_ (hello_Identity h) (hello_Name h)) in
    match admitted with
    | Err msg => refuse msg
    | Ok (adm, records) =>
        let*? _ := writeFrame (MkWelcome (srv_Root s) records adm (srv_GossipAddr s) (srv_OverlayNet s) []) in
        let* a := readFrame ack in
        Ret match a with
            | Err _ => Err "joiner did not acknowledge the welcome"
            | Ok _ => Ok ()
            end
    end.

(** Its middle part: challenge and proof, with the token found. *)
Definition prove_token (s : Server) (h : hello) (key : bytes) : enrol_prog (result unit) :=
  let*? nM := randomNonce in
  let k := deriveKey key (hello_Nonce h) nM in
  let tr := transcript (hello_Identity h) (Public (srv_Identity s)) (hello_Nonce h) nM (hello_Name h) in
  let*? _ := writeFrame (MkChallenge (Public (srv_Identity s)) nM (mac k labelMember tr)) in
  let*? p := readFrame proof_msg in
  check bool_decide (proof_MAC p = mac k labelJoiner tr)
    else "joiner could not prove knowledge of the token" in
  let* spent := trigger (Consume (hello_TokenID h)) in
  check spent else "token was spent or expired during the exchange" in
  admit_joiner s h.

(** [Server.handle] on a connection whose peer is [peer]. *)
Definition handle (s : Server) (peer : PublicKey) : enrol_prog (result unit) :=
  let*? h := readFrame hello in
  check (hello_Version h =? protocolVersion) && (length (hello_TokenID h) =? tokenIDLen)%nat
        && (length (hello_Nonce h) =? nonceLen)%nat && negb (bool_decide (hello_Name h = []))
    else "malformed hello" in
  check bound peer (hello_Identity h) else "claimed identity does not match the connection's" in
  let* key := trigger (Lookup (hello_TokenID h)) in
  match key with
  | None => Ret (Err "silent")
  | Some key => prove_token s h key
  end.

(** ** The joiner's side *)

(** The records a joiner builds from a welcome, before and after its own. *)
Definition welcome_set (w : Welcome) : TrustSet := (Merge (NewSet (w_Root w)) (w_Records w)).2.

Definition Join (peer : PublicKey) (tok : bytes) (id : Identity) (name : bytes)
    : enrol_prog (result (Welcome * PublicKey)) :=
  match decodeToken tok with
  | Err msg => Ret (Err msg)
  | Ok key =>
      let*? nJ := randomNonce in
      let tid := idOf key in
      let*? _ := writeFrame (MkHello protocolVersion tid (Public id) nJ name) in
      let*? c := readFrame challenge in
      check (length (ch_Nonce c) =? nonceLen)%nat else "malformed challenge" in
      check bound peer (ch_Identity c) else "claimed identity does not match the connection's" in
      let k := deriveKey key nJ (ch_Nonce c) in
      let tr := transcript (Public id) (ch_Identity c) nJ (ch_Nonce c) name in
      check bool_decide (ch_MAC c = mac k labelMember tr)
        else "member could not prove knowledge of the join key" in
      let*? _ := writeFrame (MkProof (mac k labelJoiner tr)) in
      let*? w := readFrame Welcome in
      check bool_decide (w_Error w = []) else "the member refused to admit this node" in
      let set := welcome_set w in
      check valid set (ch_Identity c) else "member is not a valid member of the cluster it described" in
      check bool_decide (adm_Identity (w_Admission w) = Public id) &&
            bool_decide (adm_Admitter (w_Admission w) = ch_Identity c)
        else "welcome carries an admission for someone else" in
      match AddAdmission set (w_Admission w) with
      | (Err msg, _) => Ret (Err msg)
      | (Ok _, set) =>
          check valid set (Public id) else "admission does not make us a member" in
          let*? _ := writeFrame MkAck in
          Ret (Ok (w, ch_Identity c))
      end
  end.
End server.
