(* ===== verification/EnrolSafety.v ===== *)
(** * EnrolSafety: what every run of the exchange guarantees

    Theorems about all runs of [handle] and [Join], whatever the other side
    sends and wherever the connection breaks: nobody is admitted without
    proving a pending token and spending one of its uses, an unproved peer is
    told nothing, and the joiner only accepts a welcome whose records prove it. *)

From S2P Require Import Prelude Wire Netip Encoding Identity Records TrustSet Validity GoStrings Tokens Prog Enrol.

(** ** What a trace shows *)

(** The calls that matter to the member: into the token store, and to admit. *)
Inductive act :=
  | ALookup (id : tokenID) (key : option bytes)
  | AConsume (id : tokenID) (ok : bool)
  | AAdmit (joiner : PublicKey) (name : bytes).

Definition act_of (h : happened enrolE) : option act :=
  match h with
  | Ev e x =>
      match e in enrolE X return X → option act with
      | Lookup id => λ key, Some (ALookup id key)
      | Consume id => λ ok, Some (AConsume id ok)
      | Admit_ j n => λ _, Some (AAdmit j n)
      | _ => λ _, None
      end x
  end.
Definition acts (tr : list (happened enrolE)) : list act := omap act_of tr.

(** The byte strings handed to the connection, in order. *)
Definition write_of (h : happened enrolE) : option bytes :=
  match h with Ev e _ => match e with Write b => Some b | _ => None end end.
Definition sent (tr : list (happened enrolE)) : list bytes := omap write_of tr.

(** What was read from the connection, and from the random source. *)
Definition read_of (h : happened enrolE) : option bytes :=
  match h with
  | Ev e x => match e in enrolE X return X → option bytes with ReadFull _ => λ b, b | _ => λ _, None end x
  end.
Definition received (tr : list (happened enrolE)) : list bytes := omap read_of tr.
Definition random_of (h : happened enrolE) : option bytes :=
  match h with
  | Ev e x => match e in enrolE X return X → option bytes with RandRead _ => λ b, b | _ => λ _, None end x
  end.
Definition randoms (tr : list (happened enrolE)) : list bytes := omap random_of tr.

Lemma acts_app a b : acts (a ++ b) = acts a ++ acts b.
Proof. apply omap_app. Qed.
Lemma sent_app a b : sent (a ++ b) = sent a ++ sent b.
Proof. apply omap_app. Qed.
Lemma received_app a b : received (a ++ b) = received a ++ received b.
Proof. apply omap_app. Qed.
Lemma randoms_app a b : randoms (a ++ b) = randoms a ++ randoms b.
Proof. apply omap_app. Qed.

(** What [writeFrame] writes when nothing fails. *)
Definition frame_of {A} `{!Json A} (v : A) : list bytes :=
  match json_Marshal v with
  | Some body =>
      if maxFrame <? Z.of_nat (length body) then []
      else [be_bytes 4 (Z.of_nat (length body)); body]
  | None => []
  end.

(** ** The parts of the exchange *)

Section parts.
Context {A : Type} `{!Json A}.

Lemma writeFrame_reaches (v : A) tr :
  reaches (writeFrame v) tr → acts tr = [] ∧ received tr = [] ∧ sent tr `prefix_of` frame_of v.
Proof.
  unfold writeFrame, frame_of. destruct (json_Marshal v) as [body|]; [|simpl; intros ->; done].
  destruct (maxFrame <? _); [simpl; intros ->; done|].
  simpl. intros [->|(ok & tr1 & -> & Hr)]; [split_and!; [done..|apply prefix_nil]|].
  destruct ok; simpl in Hr; [|subst; split_and!; [done..|by exists [body]]].
  destruct Hr as [->|(ok & tr2 & -> & Hr)]; [split_and!; [done..|by exists [body]]|].
  simpl in Hr. subst. done.
Qed.

Lemma readFrame_reaches tr :
  reaches (readFrame A) tr → acts tr = [] ∧ sent tr = [].
Proof.
  unfold readFrame. simpl. intros [->|(hdr & tr1 & -> & Hr)]; [done|].
  destruct hdr as [hdr|]; simpl in Hr; [|by subst].
  destruct (maxFrame <? _); [simpl in Hr; by subst|]. simpl in Hr.
  destruct Hr as [->|(body & tr2 & -> & Hr)]; [done|].
  destruct body as [body|]; simpl in Hr; by subst.
Qed.

Lemma readFrame_runs tr (v : A) :
  runs (readFrame A) tr (Ok v) → ∃ body, body ∈ received tr ∧ json_Unmarshal body = Some v.
Proof.
  unfold readFrame. simpl. intros (hdr & tr1 & -> & Hr).
  destruct hdr as [hdr|]; simpl in Hr; [|by destruct Hr as [_ ?]].
  destruct (maxFrame <? _); [by destruct Hr as [_ ?]|]. simpl in Hr.
  destruct Hr as (body & tr2 & -> & Hr). destruct body as [body|]; simpl in Hr; [|by destruct Hr].
  destruct Hr as [-> Hr]. exists body. destruct (json_Unmarshal body); [|done].
  simplify_eq. split; [|done]. simpl. set_solver.
Qed.

Lemma readFrame_runs_reaches tr (r : result A) :
  runs (readFrame A) tr r → acts tr = [] ∧ sent tr = [].
Proof. intros Hr. by apply readFrame_reaches, (runs_reaches _ _ r). Qed.

Lemma writeFrame_runs_reaches (v : A) tr r :
  runs (writeFrame v) tr r → acts tr = [] ∧ received tr = [] ∧ sent tr `prefix_of` frame_of v.
Proof. intros Hr. by apply writeFrame_reaches, (runs_reaches _ _ r). Qed.
End parts.

Lemma randomNonce_reaches tr : reaches randomNonce tr → acts tr = [] ∧ sent tr = [].
Proof.
  unfold randomNonce. simpl. intros [->|(n & tr1 & -> & Hr)]; [done|]. simpl in Hr. by subst.
Qed.
Lemma randomNonce_runs tr r :
  runs randomNonce tr r → acts tr = [] ∧ sent tr = [] ∧ ∀ n, r = Ok n → n ∈ randoms tr.
Proof.
  unfold randomNonce. simpl. intros (n & tr1 & -> & -> & <-).
  split_and!; [done..|]. intros m. destruct n as [n|]; [|done]. intros [= <-]. simpl. set_solver.
Qed.

(** ** Labels *)

Lemma mac_input_inj l l' t t' :
  no_nul l → no_nul l' → mac_input l t = mac_input l' t' → l = l' ∧ t = t'.
Proof. unfold mac_input. simpl. intros Hl Hl'. by apply domain_app_inj. Qed.

Lemma labels_no_nul : no_nul labelMember ∧ no_nul labelJoiner ∧ no_nul transcriptDomain.
Proof. split_and!; by apply (bool_decide_unpack (no_nul _)). Qed.

Lemma transcript_inj j m nJ nM name j' m' nJ' nM' name' :
  Forall field_fits [nJ; nM; name] → Forall field_fits [nJ'; nM'; name'] →
  transcript j m nJ nM name = transcript j' m' nJ' nM' name' →
  j = j' ∧ m = m' ∧ nJ = nJ' ∧ nM = nM' ∧ name = name'.
Proof.
  intros Hf Hf' Ht.
  assert (Hk : ∀ k, field_fits (key_bytes k)).
  { intros k. unfold field_fits. rewrite key_bytes_length. done. }
  apply canonical_bytes_inj in Ht as [_ Ht]; [|apply labels_no_nul|apply labels_no_nul|..].
  - injection Ht as Hj Hm -> -> ->. split_and!; [by apply key_bytes_inj..|done|done|done].
  - constructor; [apply Hk|]. constructor; [apply Hk|]. exact Hf.
  - constructor; [apply Hk|]. constructor; [apply Hk|]. exact Hf'.
Qed.

(** ** The member *)

(** Kept folded, now that what they do is known. *)
#[local] Opaque readFrame writeFrame randomNonce.

Section server.
Context `{!Ed25519, !Sha256, !Kdf}.
Context `{!Json hello, !Json challenge, !Json proof_msg, !Json ack, !Json Welcome}.
Implicit Types (s : Server) (peer : PublicKey).

Lemma refuse_reaches reason tr : reaches (refuse reason) tr → acts tr = [].
Proof.
  unfold refuse. intros [Hr|(tr1 & a & tr2 & -> & Hr & Hr2)]%reaches_bind.
  - by apply writeFrame_reaches in Hr as [? _].
  - apply writeFrame_runs_reaches in Hr as [Ha _]. simpl in Hr2. subst.
    by rewrite acts_app, Ha.
Qed.

Lemma welcomeFits_reaches s name tr : reaches (welcomeFits s name) tr → acts tr = [].
Proof.
  unfold welcomeFits. destruct (negb (srv_HasRecords s)); [simpl; by intros ->|].
  simpl. intros [->|(rs & tr1 & -> & [->|(now & tr2 & -> & Hr)])]; [done..|]. simpl in Hr. by subst.
Qed.

#[local] Opaque refuse welcomeFits.

(** What the member has done by the time it has sent the challenge, after it
    found the token. *)
Record challenged s peer (h : hello) (key nM : bytes) (tr : list (happened enrolE)) : Prop := {
  chd_acts : acts tr = [ALookup (hello_TokenID h) (Some key)];
  chd_hello : hello_Identity h = peer ∧ hello_Name h ≠ [] ∧
              length (hello_Nonce h) = nonceLen ∧ hello_Version h = protocolVersion;
  chd_nonce : nM ∈ randoms tr;
  chd_sent : sent tr `prefix_of` frame_of (MkChallenge (Public (srv_Identity s)) nM
    (mac (deriveKey key (hello_Nonce h) nM) labelMember
      (transcript peer (Public (srv_Identity s)) (hello_Nonce h) nM (hello_Name h))));
}.

(** The MAC a joiner must send to be admitted. *)
Definition joiner_mac s peer (h : hello) (key nM : bytes) : bytes :=
  mac (deriveKey key (hello_Nonce h) nM) labelJoiner
    (transcript peer (Public (srv_Identity s)) (hello_Nonce h) nM (hello_Name h)).

(** A run of [handle], stopped anywhere: before the challenge, in it, waiting
    for the proof, or after a proof that was good. *)
Inductive handle_phase s peer (tr : list (happened enrolE)) : Prop :=
  | phase_hello : acts tr = [] → sent tr = [] → handle_phase s peer tr
  | phase_unknown id : acts tr = [ALookup id None] → sent tr = [] → handle_phase s peer tr
  | phase_challenge h key nM :
      acts tr = [ALookup (hello_TokenID h) (Some key)] →
      sent tr `prefix_of` frame_of (MkChallenge (Public (srv_Identity s)) nM
        (mac (deriveKey key (hello_Nonce h) nM) labelMember
          (transcript peer (Public (srv_Identity s)) (hello_Nonce h) nM (hello_Name h)))) →
      handle_phase s peer tr
  | phase_proved h key nM p body ok tr1 tr2 :
      tr = tr1 ++ Ev (Consume (hello_TokenID h)) ok :: tr2 →
      challenged s peer h key nM tr1 →
      body ∈ received tr1 → json_Unmarshal body = Some p → proof_MAC p = joiner_mac s peer h key nM →
      (acts tr2 = [] ∨ acts tr2 = [AAdmit peer (hello_Name h)]) → (ok = false → tr2 = []) →
      handle_phase s peer tr.

(** After the token was spent. *)
Lemma spent_reaches s (h : hello) tr :
  reaches (admit_joiner s h) tr →
  acts tr = [] ∨ acts tr = [AAdmit (hello_Identity h) (hello_Name h)].
Proof.
  unfold admit_joiner.
  intros [Hr|(tr1 & fits & tr2 & -> & Hr & Hr2)]%reaches_bind.
  { left. by eapply welcomeFits_reaches. }
  apply runs_reaches, welcomeFits_reaches in Hr. rewrite acts_app, Hr. simpl.
  destruct fits; simpl in Hr2; [|left; by apply refuse_reaches in Hr2].
  destruct Hr2 as [->|(adm & tr3 & -> & Hr2)]; [by left|]. right.
  change (AAdmit (hello_Identity h) (hello_Name h) :: acts tr3 = [AAdmit (hello_Identity h) (hello_Name h)]).
  f_equal. destruct adm as [[adm records]|msg]; [|by apply refuse_reaches in Hr2].
  apply reaches_bind in Hr2 as [Hw|(tr4 & r & tr5 & -> & Hw & Hr2)].
  { by apply writeFrame_reaches in Hw as [? _]. }
  apply writeFrame_runs_reaches in Hw as [Hw _]. rewrite acts_app, Hw.
  destruct r as [u|msg]; [|simpl in Hr2; by subst].
  apply reaches_bind in Hr2 as [Ha|(tr6 & a & tr7 & -> & Ha & Hr2)].
  { by apply readFrame_reaches in Ha as [? _]. }
  apply readFrame_runs_reaches in Ha as [Ha _]. rewrite acts_app, Ha. simpl in Hr2. by subst.
Qed.

#[local] Opaque admit_joiner.

(** From the token found on. *)
Lemma challenge_phases s peer (h : hello) key pre tr :
  hello_Identity h = peer → hello_Name h ≠ [] → length (hello_Nonce h) = nonceLen →
  hello_Version h = protocolVersion →
  acts pre = [ALookup (hello_TokenID h) (Some key)] → sent pre = [] →
  reaches (prove_token s h key) tr → handle_phase s peer (pre ++ tr).
Proof.
  intros Hpeer Hname Hn Hv A0 S0 Hrest. unfold prove_token in Hrest.
  assert (Hquiet : ∀ tr, acts tr = [] → sent tr = [] → handle_phase s peer (pre ++ tr)).
  { intros tr0 A S. apply (phase_challenge _ _ _ h key []).
    - by rewrite acts_app, A0, A.
    - rewrite sent_app, S0, S. apply prefix_nil. }
  apply reaches_bind in Hrest as [Hr|(tr1 & nM & tr2 & -> & Hr & Hrest)].
  { by apply randomNonce_reaches in Hr as [??]; apply Hquiet. }
  apply randomNonce_runs in Hr as (A1 & S1 & Hrand).
  destruct nM as [nM|]; [|simpl in Hrest; subst; rewrite app_nil_r; by apply Hquiet].
  specialize (Hrand nM eq_refl). cbv zeta in Hrest. rewrite Hpeer in Hrest.
  apply reaches_bind in Hrest as [Hr|(tr3 & u & tr4 & -> & Hr & Hrest)].
  { apply writeFrame_reaches in Hr as (A & _ & S). apply (phase_challenge _ _ _ h key nM).
    - by rewrite !acts_app, A0, A1, A.
    - by rewrite !sent_app, S0, S1. }
  apply writeFrame_runs_reaches in Hr as (A3 & _ & S3).
  assert (Hch : challenged s peer h key nM (pre ++ tr1 ++ tr3)).
  { split; [by rewrite !acts_app, A0, A1, A3|done| |by rewrite !sent_app, S0, S1].
    rewrite !randoms_app, !elem_of_app. auto. }
  assert (Hmore : ∀ tr, acts tr = [] → sent tr = [] → handle_phase s peer (pre ++ tr1 ++ tr3 ++ tr)).
  { intros tr0 A S. destruct Hch as [Hca _ _ Hcs]. apply (phase_challenge _ _ _ h key nM).
    - rewrite (assoc_L _ tr1), (assoc_L _ pre), acts_app, Hca, A. done.
    - rewrite (assoc_L _ tr1), (assoc_L _ pre), sent_app, S, app_nil_r. exact Hcs. }
  destruct u as [u|]; [|simpl in Hrest; subst; by apply Hmore].
  apply reaches_bind in Hrest as [Hr|(tr5 & p & tr6 & -> & Hr & Hrest)].
  { apply readFrame_reaches in Hr as [??]. by apply Hmore. }
  pose proof Hr as Hr'. apply readFrame_runs_reaches in Hr' as [A5 S5].
  destruct p as [p|]; [|simpl in Hrest; subst; rewrite app_nil_r; by apply Hmore].
  apply readFrame_runs in Hr as (body & Hbody & Hp).
  destruct (bool_decide_reflect (proof_MAC p = mac (deriveKey key (hello_Nonce h) nM) labelJoiner
    (transcript peer (Public (srv_Identity s)) (hello_Nonce h) nM (hello_Name h)))) as [Hmac|];
    [|simpl in Hrest; subst; rewrite app_nil_r; by apply Hmore].
  simpl in Hrest. destruct Hrest as [->|(ok & tr7 & -> & Hrest)]; [rewrite app_nil_r; by apply Hmore|].
  assert (Hch' : challenged s peer h key nM (pre ++ tr1 ++ tr3 ++ tr5)).
  { destruct Hch as [Hca ? Hcr Hcs]. split.
    - rewrite (assoc_L _ tr1), (assoc_L _ pre), acts_app, Hca, A5. done.
    - done.
    - rewrite !randoms_app, !elem_of_app in *. tauto.
    - rewrite (assoc_L _ tr1), (assoc_L _ pre), sent_app, S5, app_nil_r. exact Hcs. }
  apply (phase_proved _ _ _ h key nM p body ok (pre ++ tr1 ++ tr3 ++ tr5) tr7); [| | |done|exact Hmac|..].
  - by rewrite <-!(assoc_L (++)).
  - done.
  - rewrite !received_app, !elem_of_app. auto.
  - destruct ok; [|simpl in Hrest; left; by subst].
    apply spent_reaches in Hrest. by rewrite Hpeer in Hrest.
  - intros ->. simpl in Hrest. by subst.
Qed.

Lemma handle_phases s peer tr : reaches (handle s peer) tr → handle_phase s peer tr.
Proof.
  unfold handle.
  intros [Hr|(tr0 & h & tr' & -> & Hr & Hrest)]%reaches_bind.
  { apply readFrame_reaches in Hr as [??]. by apply phase_hello. }
  apply readFrame_runs_reaches in Hr as [A0 S0].
  destruct h as [h|]; [|simpl in Hrest; subst; apply phase_hello; by rewrite ?acts_app, ?sent_app, ?A0, ?S0].
  destruct (_ && negb _) eqn:Ewf; [|simpl in Hrest; subst; apply phase_hello; by rewrite ?acts_app, ?sent_app, ?A0, ?S0].
  unfold bound in Hrest. destruct (bool_decide_reflect (peer = hello_Identity h)) as [Hpeer|];
    [|simpl in Hrest; subst; apply phase_hello; by rewrite ?acts_app, ?sent_app, ?A0, ?S0].
  simpl in Hrest.
  destruct Hrest as [->|(key & tr1 & -> & Hrest)]; [apply phase_hello; by rewrite ?acts_app, ?sent_app, ?A0, ?S0|].
  destruct key as [key|].
  2:{ simpl in Hrest. subst. apply (phase_unknown _ _ _ (hello_TokenID h));
        rewrite ?acts_app, ?sent_app, ?A0, ?S0; done. }
  apply andb_true_iff in Ewf as [[[Hv _]%andb_true_iff Hn]%andb_true_iff Hname].
  apply Z.eqb_eq in Hv. apply Nat.eqb_eq in Hn. apply negb_true_iff, bool_decide_eq_false in Hname.
  set (L := ALookup (hello_TokenID h) (Some key)).
  symmetry in Hpeer.
  assert (Hpre : acts (tr0 ++ [Ev (Lookup (hello_TokenID h)) (Some key)]) = [L] ∧
                 sent (tr0 ++ [Ev (Lookup (hello_TokenID h)) (Some key)]) = []).
  { by rewrite acts_app, sent_app, A0, S0. }
  revert Hpre. rewrite (cons_middle _ tr0 tr1), (assoc_L (++)). generalize (tr0 ++ [Ev (Lookup (hello_TokenID h)) (Some key)]) as pre.
  clear tr0 A0 S0. intros pre [A0 S0]. by eapply challenge_phases.
Qed.

(** C4: whenever [handle] has called [Admit], wherever the run was stopped
    and whatever the peer sent: it was for the connection's own peer, under
    the name it gave; before that the member found the token the peer named,
    drew a fresh nonce, received the HMAC over both identities, both nonces
    and the name under the key derived from that token and those nonces, and
    spent one use of the token; and it admits nobody else in this run. *)
Theorem handle_admits_only_proved s peer tr j name :
  reaches (handle s peer) tr → AAdmit j name ∈ acts tr →
  ∃ h key nM p body tr1 tr2,
    j = peer ∧ name = hello_Name h ∧ hello_Identity h = peer ∧
    tr = tr1 ++ Ev (Consume (hello_TokenID h)) true :: tr2 ∧
    acts tr1 = [ALookup (hello_TokenID h) (Some key)] ∧ nM ∈ randoms tr1 ∧
    body ∈ received tr1 ∧ json_Unmarshal body = Some p ∧
    proof_MAC p = joiner_mac s peer h key nM ∧
    acts tr2 = [AAdmit peer name].
Proof.
  intros Hr Hin. apply handle_phases in Hr.
  destruct Hr as [A _|id A _|h key nM A _|h key nM p body ok tr1 tr2 -> Hc Hb Hp Hm Ha Hno];
    [rewrite A in Hin; set_solver..|].
  destruct Hc as [A1 (Hid & _) Hn _].
  rewrite acts_app, A1 in Hin. change (acts (Ev (Consume (hello_TokenID h)) ok :: tr2))
    with (AConsume (hello_TokenID h) ok :: acts tr2) in Hin.
  destruct Ha as [Ha|Ha]; rewrite Ha in Hin; [set_solver|].
  assert (AAdmit j name = AAdmit peer (hello_Name h)) as [= -> ->] by set_solver.
  destruct ok; [|by rewrite Hno in Ha].
  exists h, key, nM, p, body, tr1, tr2. done.
Qed.

(** A peer that has not proved a token is told nothing but a challenge,
    and not even that unless it named a pending token; in particular no
    reason for a refusal. *)
Theorem handle_silent_before_proof s peer tr :
  reaches (handle s peer) tr → (∀ id, AConsume id true ∉ acts tr) →
  (∃ h key nM, sent tr `prefix_of` frame_of (MkChallenge (Public (srv_Identity s)) nM
     (mac (deriveKey key (hello_Nonce h) nM) labelMember
       (transcript peer (Public (srv_Identity s)) (hello_Nonce h) nM (hello_Name h))))) ∧
  ((∀ id key, ALookup id (Some key) ∉ acts tr) → sent tr = []).
Proof.
  intros Hr Hno. apply handle_phases in Hr.
  assert (Hnil : sent tr = [] → ∃ h key nM, sent tr `prefix_of` frame_of (MkChallenge (Public (srv_Identity s)) nM
     (mac (deriveKey key (hello_Nonce h) nM) labelMember
       (transcript peer (Public (srv_Identity s)) (hello_Nonce h) nM (hello_Name h))))).
  { intros ->. exists (MkHello 0 [] zeroKey [] []), [], []. apply prefix_nil. }
  destruct Hr as [A S|id A S|h key nM A S|h key nM p body ok tr1 tr2 -> Hc Hb Hp Hm Ha Hf].
  - auto.
  - auto.
  - split; [by exists h, key, nM|]. intros Hl. exfalso. apply (Hl (hello_TokenID h) key).
    rewrite A. set_solver.
  - destruct Hc as [A1 _ _ S1]. rewrite acts_app in *.
    change (acts (Ev (Consume (hello_TokenID h)) ok :: tr2))
      with (AConsume (hello_TokenID h) ok :: acts tr2) in *.
    destruct ok; [exfalso; apply (Hno (hello_TokenID h)); set_solver|].
    rewrite (Hf eq_refl) in *. rewrite sent_app. change (sent [Ev (Consume (hello_TokenID h)) false]) with (@nil bytes).
    rewrite app_nil_r. split; [by exists h, key, nM|].
    intros Hl. exfalso. apply (Hl (hello_TokenID h) key). rewrite A1. set_solver.
Qed.

(** ** The joiner *)

(** When [Join] returns a welcome, the peer of the connection has proved
    the token for this exchange; the records it sent make it a member of the
    cluster they describe, and with the admission it signed for this node
    they make this node one. Nothing else in the welcome is believed. *)
Theorem Join_sound peer tok id name tr w m :
  runs (Join peer tok id name) tr (Ok (w, m)) →
  m = peer ∧ w_Error w = [] ∧
  (∃ key nJ c body,
     decodeToken tok = Ok key ∧ nJ ∈ randoms tr ∧ body ∈ received tr ∧ json_Unmarshal body = Some c ∧
     ch_MAC c = mac (deriveKey key nJ (ch_Nonce c)) labelMember
                    (transcript (Public id) peer nJ (ch_Nonce c) name)) ∧
  valid (welcome_set w) peer = true ∧
  adm_Identity (w_Admission w) = Public id ∧ adm_Admitter (w_Admission w) = peer ∧
  is_ok (AddAdmission (welcome_set w) (w_Admission w)).1 = true ∧
  valid (AddAdmission (welcome_set w) (w_Admission w)).2 (Public id) = true.
Proof.
  unfold Join. destruct (decodeToken tok) as [key|]; [|by intros [_ ?]].
  intros (tr1 & nJ & tr2 & -> & Hrand & Hr)%runs_bind. destruct nJ as [nJ|]; [|by destruct Hr].
  apply randomNonce_runs in Hrand as (_ & _ & Hrand). specialize (Hrand nJ eq_refl).
  apply runs_bind in Hr as (tr3 & u & tr4 & -> & _ & Hr). destruct u; [|by destruct Hr].
  apply runs_bind in Hr as (tr5 & c & tr6 & -> & Hc & Hr). destruct c as [c|]; [|by destruct Hr].
  apply readFrame_runs in Hc as (body & Hbody & Hc).
  destruct (_ =? nonceLen)%nat; [|by destruct Hr].
  unfold bound in Hr. destruct (bool_decide_reflect (peer = ch_Identity c)) as [Hp|]; [|by destruct Hr].
  cbv zeta in Hr. rewrite <-Hp in Hr.
  destruct (bool_decide_reflect (ch_MAC c = mac (deriveKey key nJ (ch_Nonce c)) labelMember
    (transcript (Public id) peer nJ (ch_Nonce c) name))) as [Hm|]; [|by destruct Hr].
  apply runs_bind in Hr as (tr7 & u & tr8 & -> & _ & Hr). destruct u; [|by destruct Hr].
  apply runs_bind in Hr as (tr9 & w' & tr10 & -> & _ & Hr). destruct w' as [w'|]; [|by destruct Hr].
  destruct (bool_decide_reflect (w_Error w' = [])) as [He|]; [|by destruct Hr].
  destruct (valid (welcome_set w') peer) eqn:Ev; [|by destruct Hr].
  destruct (bool_decide_reflect (adm_Identity (w_Admission w') = Public id)) as [Hi|]; [|by destruct Hr].
  destruct (bool_decide_reflect (adm_Admitter (w_Admission w') = peer)) as [Ha|]; [|by destruct Hr].
  cbn [andb] in Hr.
  destruct (AddAdmission (welcome_set w') (w_Admission w')) as [[ok|] set] eqn:Eadd; [|by destruct Hr].
  destruct (valid set (Public id)) eqn:Ev2; [|by destruct Hr].
  apply runs_bind in Hr as (tr11 & u & tr12 & -> & _ & Hr). destruct u; [|by destruct Hr].
  destruct Hr as [-> [= <- <-]]. rewrite Eadd. split_and!; try done.
  exists key, nJ, c, body. split_and!; [done| | |done|done].
  - rewrite randoms_app, elem_of_app. by left.
  - rewrite !received_app, !elem_of_app. auto.
Qed.
End server.

(** What the HMACs are computed over says who is speaking, to whom, with
    which nonces and about which name: no two exchanges, and no two sides of
    one, have it in common, so a MAC cannot be reflected or replayed. *)
Theorem mac_input_binding (side side' : bool) j m nJ nM name j' m' nJ' nM' name' :
  Forall field_fits [nJ; nM; name] → Forall field_fits [nJ'; nM'; name'] →
  let label (b : bool) := if b then labelMember else labelJoiner in
  mac_input (label side) (transcript j m nJ nM name) =
  mac_input (label side') (transcript j' m' nJ' nM' name') →
  side = side' ∧ j = j' ∧ m = m' ∧ nJ = nJ' ∧ nM = nM' ∧ name = name'.
Proof.
  intros Hf Hf' label Hm. destruct labels_no_nul as (Hl1 & Hl2 & _).
  apply mac_input_inj in Hm as [Hl Ht]; [|by destruct side|by destruct side'].
  split; [destruct side, side'; done|]. by apply transcript_inj.
Qed.
