(* ===== verification/EnrolRun.v ===== *)
(** * EnrolRun: the two sides of an enrolment, run against each other

    A member and a joiner connected by a link that loses nothing: each side
    runs until it waits for bytes that have not come, then the other does. An
    honest joiner with a pending token ends up with its welcome, the member
    with the acknowledgement, after three turns each, and the token has one use
    less. *)

From S2P Require Import Prelude Wire Netip Encoding Identity Records TrustSet Validity GoStrings Tokens Prog Enrol EnrolSafety Demo.

(** ** One side and its surroundings *)

Record side := MkSide {
  inb : bytes;                       (* arrived, not yet read *)
  outb : bytes;                      (* written, not yet delivered *)
  store : gmap tokenID token;        (* the member's tokens *)
  now : Z;                           (* the clock, standing still *)
  random : bytes;                    (* what the random source gives *)
  current : trust_Records;           (* the member's records *)
  admit_fn : PublicKey → bytes → result (Admission * trust_Records);
}.

Definition with_in (d : side) (b : bytes) : side :=
  MkSide b (outb d) (store d) (now d) (random d) (current d) (admit_fn d).
Definition with_out (d : side) (b : bytes) : side :=
  MkSide (inb d) b (store d) (now d) (random d) (current d) (admit_fn d).
Definition with_store (d : side) (t : gmap tokenID token) : side :=
  MkSide (inb d) (outb d) t (now d) (random d) (current d) (admit_fn d).

Section run.
Context `{!Sha256}.

(** The answer to an event; [None] is waiting for more bytes. *)
Definition answer {X} (e : enrolE X) (d : side) : option (X * side) :=
  match e in enrolE X return option (X * side) with
  | ReadFull n =>
      if n <=? Z.of_nat (length (inb d)) then
        Some (Some (take (Z.to_nat n) (inb d)), with_in d (drop (Z.to_nat n) (inb d)))
      else None
  | Write b => Some (true, with_out d (outb d ++ b))
  | RandRead n => Some (Some (random d), d)
  | NowUnix => Some (now d, d)
  | Lookup id => let '(k, t) := lookup_token (now d) id (store d) in Some (k, with_store d t)
  | Consume id => let '(ok, t) := consume (now d) id (store d) in Some (ok, with_store d t)
  | CurrentRecords => Some (current d, d)
  | Admit_ j name => Some (admit_fn d j name, d)
  end.

(** Run until the program ends or waits. *)
Fixpoint exec {A} (p : enrol_prog A) (d : side) : enrol_prog A * side :=
  match p with
  | Ret a => (Ret a, d)
  | Vis e k =>
      match answer e d with
      | Some (x, d') => exec (k x) d'
      | None => (Vis e k, d)
      end
  end.

(** What happened on the way. *)
Fixpoint exec_trace {A} (p : enrol_prog A) (d : side) : list (happened enrolE) :=
  match p with
  | Ret a => []
  | Vis e k =>
      match answer e d with
      | Some (x, d') => Ev e x :: exec_trace (k x) d'
      | None => []
      end
  end.

Lemma exec_trace_reaches {A} (p : enrol_prog A) d : reaches p (exec_trace p d).
Proof.
  revert d. induction p as [a|X e k IH]; intros d; simpl; [done|].
  destruct (answer e d) as [[x d']|]; [|by left]. right. by exists x, (exec_trace (k x) d').
Qed.

Lemma exec_trace_runs {A} (p : enrol_prog A) d a d' :
  exec p d = (Ret a, d') → runs p (exec_trace p d) a.
Proof.
  revert d. induction p as [b|X e k IH]; intros d; simpl; [by intros [= ->]|].
  destruct (answer e d) as [[x d1]|]; [|done]. intros Hx. exists x, (exec_trace (k x) d1).
  split; [done|]. by apply IH.
Qed.

Definition deliver_to (d from : side) : side := with_in d (inb d ++ outb from).
Definition flushed (d : side) : side := with_out d [].

(** [n] turns, the joiner first. *)
Fixpoint link {A B} (n : nat) (jp : enrol_prog A) (j : side) (mp : enrol_prog B) (m : side)
    : (enrol_prog A * side) * (enrol_prog B * side) :=
  match n with
  | O => ((jp, j), (mp, m))
  | S n =>
      let '(jp, j) := exec jp j in
      let '(mp, m) := exec mp (deliver_to m j) in
      link n jp (deliver_to (flushed j) m) mp (flushed m)
  end.

(** ** Frames over the link *)

(** A message JSON can carry: it is encoded within a frame, and decodes back. *)
Definition sendable {A} `{!Json A} (v : A) : Prop :=
  ∃ body, json_Marshal v = Some body ∧ Z.of_nat (length body) ≤ maxFrame ∧ json_Unmarshal body = Some v.

Definition frame_bytes {A} `{!Json A} (v : A) : bytes :=
  match json_Marshal v with
  | Some body => be_bytes 4 (Z.of_nat (length body)) ++ body
  | None => []
  end.

Lemma exec_writeFrame {A B} `{!Json A} (v : A) (f : result unit → enrol_prog B) d :
  sendable v → exec (bind (writeFrame v) f) d = exec (f (Ok ())) (with_out d (outb d ++ frame_bytes v)).
Proof.
  intros (body & Hm & Hl & _). unfold writeFrame, frame_bytes. rewrite Hm.
  rewrite (proj2 (Z.ltb_ge _ _) Hl). simpl. by rewrite <-(assoc_L (++)).
Qed.

Lemma exec_readFrame {A B} `{!Json A} (v : A) (f : result A → enrol_prog B) d rest :
  sendable v → inb d = frame_bytes v ++ rest →
  exec (bind (readFrame A) f) d = exec (f (Ok v)) (with_in d rest).
Proof.
  intros (body & Hm & Hl & Hu) Hin. unfold frame_bytes in Hin. rewrite Hm, <-(assoc_L (++)) in Hin.
  assert (Hn : be_value (be_bytes 4 (Z.of_nat (length body))) = Z.of_nat (length body)).
  { rewrite be_value_bytes. apply Z.mod_small. unfold maxFrame in Hl. lia. }
  unfold readFrame. cbn [bind trigger exec answer]. rewrite Hin.
  rewrite (proj2 (Z.leb_le 4 _)) by (rewrite length_app, length_be_bytes; lia).
  rewrite take_app_length', drop_app_length' by (by rewrite length_be_bytes).
  rewrite Hn, (proj2 (Z.ltb_ge _ _) Hl). cbn [bind trigger exec answer with_in inb].
  rewrite (proj2 (Z.leb_le (Z.of_nat (length body)) _)) by (rewrite length_app; lia).
  rewrite Nat2Z.id, take_app_length', drop_app_length' by done. rewrite Hu. done.
Qed.

Lemma exec_wait {A B} `{!Json A} (f : result A → enrol_prog B) d :
  inb d = [] → exec (bind (readFrame A) f) d = (bind (readFrame A) f, d).
Proof. intros Hin. unfold readFrame. cbn [bind trigger exec answer]. by rewrite Hin. Qed.
End run.

Section honest.
Context `{!Ed25519, !Sha256, !Kdf}.
Context `{!Json hello, !Json challenge, !Json proof_msg, !Json ack, !Json Welcome}.

(** What an honest enrolment starts from. *)
Record honest (s : Server) (m j : side) (tok : bytes) (id : Identity) (name key : bytes)
    (t : token) (adm : Admission) (records : trust_Records) : Prop := {
  ho_token : decodeToken tok = Ok key;
  ho_id : length (idOf key) = tokenIDLen;
  ho_name : name ≠ [];
  ho_nJ : length (random j) = nonceLen;
  ho_nM : length (random m) = nonceLen;
  ho_pending : store m !! idOf key = Some t ∧ tok_key t = key ∧ now m < tok_expires t;
  ho_idle : inb j = [] ∧ outb j = [] ∧ inb m = [] ∧ outb m = [];
  ho_fits : srv_HasRecords s = false ∨
    ∃ body, json_Marshal (MkWelcome (srv_Root s)
      (MkRecords (Admissions (current m) ++ [MkAdmission zeroKey name max_uint64 zeroKey (now m) (replicate 64 Byte.x00)])
                 (Revocations (current m)))
      (MkAdmission zeroKey name max_uint64 zeroKey (now m) (replicate 64 Byte.x00))
      (srv_GossipAddr s) (srv_OverlayNet s) []) = Some body ∧ Z.of_nat (length body) ≤ maxFrame;
  ho_admit : admit_fn m (Public id) name = Ok (adm, records);
}.

Definition the_welcome (s : Server) (adm : Admission) (records : trust_Records) : Welcome :=
  MkWelcome (srv_Root s) records adm (srv_GossipAddr s) (srv_OverlayNet s) [].

(** The records the member hands out stand up to the joiner's checks. *)
Definition welcome_holds (me joiner : PublicKey) (w : Welcome) : Prop :=
  valid (welcome_set w) me = true ∧
  adm_Identity (w_Admission w) = joiner ∧ adm_Admitter (w_Admission w) = me ∧
  is_ok (AddAdmission (welcome_set w) (w_Admission w)).1 = true ∧
  valid (AddAdmission (welcome_set w) (w_Admission w)).2 joiner = true.

(** The messages of the run. *)
Definition run_hello (j : side) (id : Identity) (key name : bytes) : hello :=
  MkHello protocolVersion (idOf key) (Public id) (random j) name.
Definition run_key (m j : side) (key : bytes) : bytes := deriveKey key (random j) (random m).
Definition run_transcript (s : Server) (m j : side) (id : Identity) (name : bytes) : bytes :=
  transcript (Public id) (Public (srv_Identity s)) (random j) (random m) name.
Definition run_challenge (s : Server) (m j : side) (id : Identity) (key name : bytes) : challenge :=
  MkChallenge (Public (srv_Identity s)) (random m)
    (mac (run_key m j key) labelMember (run_transcript s m j id name)).
Definition run_proof (s : Server) (m j : side) (id : Identity) (key name : bytes) : proof_msg :=
  MkProof (mac (run_key m j key) labelJoiner (run_transcript s m j id name)).

Lemma exec_welcomeFits {B} s (m : side) name (f : bool → enrol_prog B) d :
  (srv_HasRecords s = false ∨
    ∃ body, json_Marshal (MkWelcome (srv_Root s)
      (MkRecords (Admissions (current m) ++ [MkAdmission zeroKey name max_uint64 zeroKey (now m) (replicate 64 Byte.x00)])
                 (Revocations (current m)))
      (MkAdmission zeroKey name max_uint64 zeroKey (now m) (replicate 64 Byte.x00))
      (srv_GossipAddr s) (srv_OverlayNet s) []) = Some body ∧ Z.of_nat (length body) ≤ maxFrame) →
  current d = current m → now d = now m →
  exec (bind (welcomeFits s name) f) d = exec (f true) d.
Proof.
  unfold welcomeFits. intros [->|(body & Hm & Hl)] Hc Hn; [done|].
  destruct (negb (srv_HasRecords s)); [done|].
  cbn [bind trigger exec answer]. rewrite Hc, Hn, Hm. by rewrite (proj2 (Z.leb_le _ _) Hl).
Qed.

Lemma exec_nonce {B} (f : result bytes → enrol_prog B) d :
  exec (bind randomNonce f) d = exec (f (Ok (random d))) d.
Proof. done. Qed.

Lemma exec_lookup {B} key t (f : option bytes → enrol_prog B) d :
  store d !! idOf key = Some t → tok_key t = key → now d < tok_expires t →
  exec (bind (trigger (Lookup (idOf key))) f) d =
    exec (f (Some key)) (with_store d (gc (now d) (store d))).
Proof.
  intros Ht Hk Hn. cbn [bind trigger exec answer]. unfold lookup_token.
  rewrite (proj2 (lookup_gc (now d) (store d) (idOf key) t)) by done. simpl. by rewrite Hk.
Qed.

Lemma exec_consume {B} key t (f : bool → enrol_prog B) d :
  store d !! idOf key = Some t → now d < tok_expires t →
  exec (bind (trigger (Consume (idOf key))) f) d =
    exec (f true) (with_store d (consume (now d) (idOf key) (store d)).2).
Proof.
  intros Ht Hn. cbn [bind trigger exec answer]. unfold consume. rewrite Ht.
  by rewrite (proj2 (Z.ltb_lt _ _) Hn).
Qed.

Lemma exec_admit {B} k n (f : result (Admission * trust_Records) → enrol_prog B) d :
  exec (bind (trigger (Admit_ k n)) f) d = exec (f (admit_fn d k n)) d.
Proof. done. Qed.

(** An honest enrolment succeeds: with a pending token, messages JSON can
    carry and an admission that makes the joiner a member in the records it
    is sent, after three turns each the joiner holds exactly the welcome the
    member built and knows the member by its connection, the member has its
    acknowledgement, and one use of the token is spent. *)
Theorem honest_enrolment s m j tok id name key t adm records :
  honest s m j tok id name key t adm records →
  sendable (run_hello j id key name) → sendable (run_challenge s m j id key name) →
  sendable (run_proof s m j id key name) → sendable (the_welcome s adm records) → sendable MkAck →
  welcome_holds (Public (srv_Identity s)) (Public id) (the_welcome s adm records) →
  ∃ j' m',
    link 3 (Join (Public (srv_Identity s)) tok id name) j (handle s (Public id)) m =
      ((Ret (Ok (the_welcome s adm records, Public (srv_Identity s))), j'), (Ret (Ok ()), m')) ∧
    store m' = (consume (now m) (idOf key) (gc (now m) (store m))).2.
Proof.
  intros [Htok Hid Hname HnJ HnM (Ht & Hk & Hexp) (Ij & Oj & Im & Om) Hfits Hadm] Sh Sc Sp Sw Sa
    (Hv & Hai & Haa & Hok & Hv2).
  cbn [link]. unfold Join at 1. rewrite Htok, exec_nonce.
  rewrite (exec_writeFrame (run_hello j id key name)) by done.
  rewrite exec_wait by done.
  unfold handle at 1. rewrite (exec_readFrame (run_hello j id key name) _ _ []).
  2: done.
  2: { unfold deliver_to. cbn. rewrite Im, Oj, app_nil_r. done. }
  cbn [hello_Version hello_TokenID hello_Identity hello_Nonce hello_Name run_hello].
  rewrite Hid, HnJ. rewrite bool_decide_eq_false_2 by done.
  unfold bound. rewrite bool_decide_eq_true_2 by done.
  rewrite Z.eqb_refl, !Nat.eqb_refl. cbn [andb negb].
  rewrite (exec_lookup key t) by (cbn; done).
  unfold prove_token at 1. rewrite exec_nonce.
  rewrite (exec_writeFrame (run_challenge s m j id key name)) by done.
  rewrite exec_wait by done.
  rewrite (exec_readFrame (run_challenge s m j id key name) _ _ []).
  2: done.
  2: { cbn. by rewrite Ij, Om, app_nil_r. }
  cbn [ch_Nonce ch_Identity ch_MAC run_challenge]. rewrite HnM, Nat.eqb_refl.
  rewrite !bool_decide_eq_true_2 by done.
  rewrite (exec_writeFrame (run_proof s m j id key name)) by done.
  rewrite exec_wait by done.
  rewrite (exec_readFrame (run_proof s m j id key name) _ _ []).
  2: done.
  2: { cbn. rewrite ?Oj, ?app_nil_r. done. }
  rewrite bool_decide_eq_true_2 by done.
  change (hello_TokenID (run_hello j id key name)) with (idOf key).
  rewrite (exec_consume key t) by (cbn; (by apply lookup_gc) || done).
  unfold admit_joiner at 1. rewrite (exec_welcomeFits s m) by done. cbn [negb].
  rewrite exec_admit. cbn [hello_Identity hello_Name run_hello].
  match goal with |- context [admit_fn ?d (Public id) name] =>
    change (admit_fn d (Public id) name) with (admit_fn m (Public id) name) end.
  rewrite Hadm. rewrite (exec_writeFrame (the_welcome s adm records)) by done.
  rewrite exec_wait by done.
  rewrite (exec_readFrame (the_welcome s adm records) _ _ []).
  2: done.
  2: { cbn. by rewrite app_nil_r. }
  rewrite Hv, Hai, Haa. rewrite !bool_decide_eq_true_2 by done. cbn [andb].
  destruct (AddAdmission (welcome_set (the_welcome s adm records)) _) as [[ok|] set]; [|done].
  cbn [snd] in Hv2. rewrite Hv2.
  rewrite (exec_writeFrame MkAck) by done. cbn [exec].
  rewrite (exec_readFrame MkAck _ _ []).
  2: done.
  2: { cbn. by rewrite app_nil_r. }
  cbn [exec]. eexists _, _. split; [reflexivity|]. done.
Qed.
End honest.

(** ** Witness *)

Section witness.
#[local] Existing Instance Toy.toy.
#[local] Existing Instance ToyHash.toy_hash.

(** Key derivation and HMAC that keep all they are given, and a codec for the
  messages of one run. *)
#[local] Instance toy_kdf : Kdf := { hkdf_key k s i n := k ++ s ++ i; hmac_sha256 k m := k ++ m }.
Definition one_message {A} `{!EqDecision A} (v : A) (text : bytes) : Json A := {|
json_Marshal w := if decide (w = v) then Some text else None;
json_Unmarshal b := if decide (b = text) then Some v else None;
|}.

Definition demo_tok : bytes := encodeToken demo_key.
(** [bob] enrols [eve], who is no member yet; [bob]'s records are [cluster]'s. *)
Definition demo_srv : Server := MkServer bob (key ann) (str "192.0.2.1:7946") true (MkPrefix (A4 167772160) 8).
Definition demo_adm : Admission := Admit bob (key eve) (str "eve") 5 200.
Definition demo_records : trust_Records := Records (AddAdmission cluster demo_adm).2.
Definition demo_m : side :=
MkSide [] [] (Mint 0 1000 2 (Some demo_key) NewTokenStore).2 200 (replicate nonceLen Byte.x6d)
  (Records cluster) (λ _ _, Ok (demo_adm, demo_records)).
Definition demo_j : side :=
MkSide [] [] ∅ 200 (replicate nonceLen Byte.x6a) (MkRecords [] []) (λ _ _, Err "not a member").

#[local] Instance jh : Json hello := one_message (run_hello demo_j eve demo_key (str "eve")) (str "hello").
#[local] Instance jc : Json challenge := one_message (run_challenge demo_srv demo_m demo_j eve demo_key (str "eve")) (str "challenge").
#[local] Instance jp : Json proof_msg := one_message (run_proof demo_srv demo_m demo_j eve demo_key (str "eve")) (str "proof").
#[local] Instance ja : Json ack := one_message MkAck (str "{}").
#[local] Instance jw : Json Welcome := {|
json_Marshal w := if decide (w = the_welcome demo_srv demo_adm demo_records) then Some (str "welcome") else Some (str "probe");
json_Unmarshal b := if decide (b = str "welcome") then Some (the_welcome demo_srv demo_adm demo_records) else None;
|}.

Lemma one_message_sendable {A} `{!EqDecision A} (v : A) text :
Z.of_nat (length text) ≤ maxFrame → @sendable A (one_message v text) v.
Proof. intros Hl. exists text. simpl. by rewrite !decide_True. Qed.

Lemma honest_enrolment_witness :
∃ j' m',
  link 3 (Join (key bob) demo_tok eve (str "eve")) demo_j (handle demo_srv (key eve)) demo_m =
    ((Ret (Ok (the_welcome demo_srv demo_adm demo_records, key bob)), j'), (Ret (Ok ()), m')) ∧
  store m' = (consume 200 (idOf demo_key) (gc 200 (store demo_m))).2.
Proof.
apply (honest_enrolment demo_srv demo_m demo_j demo_tok eve (str "eve") demo_key
         (MkToken demo_key 1000 2) demo_adm demo_records).
- split; try (vm_compute; reflexivity).
  + discriminate.
  + split_and!; vm_compute; reflexivity.
  + split_and!; reflexivity.
  + right. exists (str "probe"). split; vm_compute; [reflexivity|discriminate].
- apply one_message_sendable. vm_compute. discriminate.
- apply one_message_sendable. vm_compute. discriminate.
- apply one_message_sendable. vm_compute. discriminate.
- exists (str "welcome"). split_and!; [|vm_compute; discriminate|]; cbn; by rewrite decide_True.
- apply one_message_sendable. vm_compute. discriminate.
- split_and!; vm_compute; reflexivity.
Defined.

(** The same run from one side only, with everything the other sends already
  there: the member's with a good proof and with a bad one, the joiner's. *)
Definition frame_text (t : bytes) : bytes := be_bytes 4 (Z.of_nat (length t)) ++ t.
Definition member_trace : list (happened enrolE) :=
exec_trace (handle demo_srv (key eve))
  (with_in demo_m (frame_text (str "hello") ++ frame_text (str "proof") ++ frame_text (str "{}"))).
Definition member_trace_bad : list (happened enrolE) :=
exec_trace (handle demo_srv (key eve)) (with_in demo_m (frame_text (str "hello") ++ frame_text (str "guess"))).
Definition joiner_side : side := with_in demo_j (frame_text (str "challenge") ++ frame_text (str "welcome")).
Definition joiner_trace : list (happened enrolE) :=
exec_trace (Join (key bob) demo_tok eve (str "eve")) joiner_side.

Lemma handle_admits_only_proved_witness :
AAdmit (key eve) (str "eve") ∈ acts member_trace ∧
∃ h k nM p body tr1 tr2,
  key eve = key eve ∧ str "eve" = hello_Name h ∧ hello_Identity h = key eve ∧
  member_trace = tr1 ++ Ev (Consume (hello_TokenID h)) true :: tr2 ∧
  acts tr1 = [ALookup (hello_TokenID h) (Some k)] ∧ nM ∈ randoms tr1 ∧
  body ∈ received tr1 ∧ json_Unmarshal body = Some p ∧
  proof_MAC p = joiner_mac demo_srv (key eve) h k nM ∧
  acts tr2 = [AAdmit (key eve) (str "eve")].
Proof.
assert (Hin : AAdmit (key eve) (str "eve") ∈ acts member_trace).
{ assert (E : acts member_trace = [ALookup (idOf demo_key) (Some demo_key); AConsume (idOf demo_key) true;
    AAdmit (key eve) (str "eve")]) by (vm_compute; reflexivity).
  rewrite E. right. right. left. }
split; [exact Hin|].
apply (handle_admits_only_proved demo_srv (key eve) member_trace); [apply exec_trace_reaches|exact Hin].
Defined.

Lemma handle_silent_before_proof_witness :
∃ h k nM, sent member_trace_bad `prefix_of` frame_of (MkChallenge (Public (srv_Identity demo_srv)) nM
   (mac (deriveKey k (hello_Nonce h) nM) labelMember
     (transcript (key eve) (Public (srv_Identity demo_srv)) (hello_Nonce h) nM (hello_Name h)))).
Proof.
apply (handle_silent_before_proof demo_srv (key eve) member_trace_bad); [apply exec_trace_reaches|].
intros id. assert (E : acts member_trace_bad = [ALookup (idOf demo_key) (Some demo_key)]) by (vm_compute; reflexivity).
rewrite E. intros [?|[]%elem_of_nil]%elem_of_cons. discriminate.
Defined.

Lemma Join_sound_witness :
runs (Join (key bob) demo_tok eve (str "eve")) joiner_trace
  (Ok (the_welcome demo_srv demo_adm demo_records, key bob)) ∧
valid (welcome_set (the_welcome demo_srv demo_adm demo_records)) (key bob) = true.
Proof.
assert (Hr : runs (Join (key bob) demo_tok eve (str "eve")) joiner_trace
  (Ok (the_welcome demo_srv demo_adm demo_records, key bob))).
{ eapply exec_trace_runs. vm_compute. reflexivity. }
split; [exact Hr|].
apply (Join_sound (key bob) demo_tok eve (str "eve") joiner_trace _ _ Hr).
Defined.

Lemma mac_input_binding_witness :
mac_input labelMember (transcript (key ann) (key bob) [Byte.x01] [Byte.x02] (str "n")) =
mac_input labelMember (transcript (key ann) (key bob) [Byte.x01] [Byte.x02] (str "n")) ∧ key ann = key ann.
Proof.
split; [reflexivity|].
apply (mac_input_binding true true (key ann) (key bob) [Byte.x01] [Byte.x02] (str "n")
         (key ann) (key bob) [Byte.x01] [Byte.x02] (str "n")); [repeat constructor..|reflexivity].
Defined.
End witness.
