(* ===== verification/State.v ===== *)
(** * State: what a node persists (internal/cluster/state.go)

    The node metadata of internal/overlay/node.go comes first.

    The state file and the [Bootstrap] a node starts from. The file system is
    a map from paths to contents with the operations [save] uses, any of which
    may fail, or be the last one before a crash. Saving is atomic: whatever
    happens, the state file holds the old contents or the new. *)

From S2P Require Import Prelude Wire Netip Encoding Identity Records TrustSet Validity Prog Enrol.

(** ** Node metadata (internal/overlay/node.go) *)

Record Meta := MkMeta {
  m_OverlayAddr : Addr;
  m_PubKey : bytes;
  m_AllowedIPs : list Prefix;
  m_Identity : PublicKey;
  m_Signature : bytes;
}.

Record Node := MkNode {
  n_Name : bytes;
  n_Addr : Addr;
  n_Port : Z;          (* uint16 *)
  n_Meta : Meta;       (* embedded *)
}.
#[export] Instance Meta_eq_dec : EqDecision Meta.
Proof. solve_decision. Defined.
#[export] Instance Node_eq_dec : EqDecision Node.
Proof. solve_decision. Defined.

(** [Meta.Encode]: the wire form, failing if it exceeds [limit]. *)
Definition Meta_Encode `{!Json Meta} (m : Meta) (limit : Z) : result bytes :=
  match json_Marshal m with
  | None => Err "encoding node meta"
  | Some b =>
      if limit <? Z.of_nat (length b) then Err "could not fit node metadata"
      else Ok b
  end.

Definition DecodeMeta `{!Json Meta} (b : bytes) : result Meta :=
  match json_Unmarshal b with
  | Some m => Ok m
  | None => Err "decoding node meta"
  end.

(** ** The state and its bootstrap form *)

Record state := MkState {
  st_Seed : bytes;
  st_Root : option PublicKey;      (* *trust.PublicKey *)
  st_OverlayNet : Prefix;
  st_Records : trust_Records;
  st_Peers : list Node;
}.

(** [&state{}] *)
Definition emptyState : state := MkState [] None zeroPrefix (MkRecords [] []) [].

Record Bootstrap := MkBootstrap {
  b_Identity : Identity;
  b_Root : PublicKey;
  b_OverlayNet : Prefix;
  b_Records : trust_Records;
  b_Peers : list Node;
}.

Definition statePath (dir name : bytes) : bytes := dir ++ str "/" ++ name ++ str ".json".

(** ** The file system *)

Abbreviation fs := (gmap bytes bytes).

(** What [save] does to it. [CreateTemp] chooses a random suffix. *)
Inductive fsE : Type → Type :=
  | MkdirAll : fsE bool
  | CreateTemp (base : bytes) : fsE (option bytes)    (* the new file's path *)
  | WriteFile (path b : bytes) : fsE bool
  | Sync (path : bytes) : fsE bool
  | Close (path : bytes) : fsE bool
  | Rename (src dst : bytes) : fsE bool
  | Remove (path : bytes) : fsE bool.

(** What an operation can do to the files and answer. *)
Definition fs_step {X} (e : fsE X) (f : fs) (x : X) (f' : fs) : Prop :=
  match e in fsE X return X → Prop with
  | MkdirAll => λ _, f' = f
  | CreateTemp base => λ r,
      match r with
      | None => f' = f
      (* the directory of base, its name, a dot and a random string; O_EXCL *)
      | Some path => (∃ rnd, path = base ++ str "." ++ rnd) ∧ f !! path = None ∧ f' = <[path := []]> f
      end
  | WriteFile path b => λ ok,
      if (ok : bool) then f' = <[path := default [] (f !! path) ++ b]> f
      else ∃ b', b' `prefix_of` b ∧ f' = <[path := default [] (f !! path) ++ b']> f
  | Sync _ | Close _ => λ _, f' = f
  | Rename src dst => λ ok,
      if (ok : bool) then ∃ b, f !! src = Some b ∧ f' = <[dst := b]> (delete src f)
      else f' = f
  | Remove path => λ ok, f' = if (ok : bool) then delete path f else f
  end x.

(** Files after the operations of a trace. *)
Fixpoint fs_run (f : fs) (tr : list (happened fsE)) (f' : fs) : Prop :=
  match tr with
  | [] => f' = f
  | Ev e x :: tr => ∃ f1, fs_step e f x f1 ∧ fs_run f1 tr f'
  end.

Section state.
Context `{!Json state}.
Local Open Scope prog_scope.

(** [state.save]. The deferred [os.Remove] of the temporary file runs on
    every return once the file was created. *)
Definition save (s : state) (path : bytes) : prog fsE (result unit) :=
  let* ok := trigger MkdirAll in
  if negb ok then Ret (Err "mkdir")
  else
    match json_Marshal s with
    | None => Ret (Err "json")
    | Some stateOut =>
        let* tmp := trigger (CreateTemp path) in
        match tmp with
        | None => Ret (Err "create")
        | Some tmp =>
            let return_ (r : result unit) := let* _ := trigger (Remove tmp) in Ret r in
            let* ok := trigger (WriteFile tmp stateOut) in
            if negb ok then let* _ := trigger (Close tmp) in return_ (Err "write")
            else
              let* ok := trigger (Sync tmp) in
              if negb ok then let* _ := trigger (Close tmp) in return_ (Err "sync")
              else
                let* ok := trigger (Close tmp) in
                if negb ok then return_ (Err "close")
                else
                  let* ok := trigger (Rename tmp path) in
                  return_ (if (ok : bool) then Ok () else Err "rename")
        end
    end.

(** What reading a file gives: [os.ReadFile]. *)
Inductive read_file := NotExist | Unreadable | Contents (b : bytes).

Definition loadState (file : read_file) : result state :=
  match file with
  | NotExist => Ok emptyState
  | Unreadable => Err "reading state"
  | Contents b =>
      match json_Unmarshal b with
      | Some s => Ok s
      | None => Err "decoding state"
      end
  end.

(** The three readers that report on a state without creating one. *)
Definition KnownNodes (file : read_file) : list Node :=
  match loadState file with Ok st => st_Peers st | Err _ => [] end.

Definition KnownOverlayNet (file : read_file) : option Prefix :=
  match loadState file with
  | Ok st => if Prefix_IsValid (st_OverlayNet st) then Some (st_OverlayNet st) else None
  | Err _ => None
  end.

Context `{!Ed25519}.

Definition LocalIdentity (file : read_file) : option PublicKey :=
  match loadState file with
  | Ok st =>
      if decide (st_Seed st = []) then None
      else match IdentityFromSeed (st_Seed st) with Ok id => Some (Public id) | Err _ => None end
  | Err _ => None
  end.

(** [Load], given what reading the file, drawing a seed and saving the new
    state gave; also what it saves, if it does. *)
Definition Load (file : read_file) (random : option bytes) (saved : bool)
    : result Bootstrap * option state :=
  match loadState file with
  | Err msg => (Err msg, None)
  | Ok st =>
      let finish (st : state) (wrote : option state) :=
        match IdentityFromSeed (st_Seed st) with
        | Err msg => (Err msg, wrote)
        | Ok id =>
            (Ok (MkBootstrap id (default zeroKey (st_Root st)) (st_OverlayNet st) (st_Records st) (st_Peers st)), wrote)
        end in
      if decide (st_Seed st = []) then
        match NewIdentity random with
        | Err msg => (Err msg, None)
        | Ok id =>
            let st := MkState (Seed id) None zeroPrefix (MkRecords [] []) [] in
            if saved then finish st (Some st) else (Err "saving new identity", Some st)
        end
      else finish st None
  end.

(** What [os.Remove] gives, and what is at the path then. *)
Inductive removal := Removed | WasMissing | RemoveFailed.
Definition file_after (r : removal) (file : read_file) : read_file :=
  match r with Removed | WasMissing => NotExist | RemoveFailed => file end.

Definition Forget (r : removal) : result unit :=
  match r with Removed | WasMissing => Ok () | RemoveFailed => Err "removing state" end.

Definition Enrolled (b : Bootstrap) : bool := negb (bool_decide (b_Root b = zeroKey)).

(** [Bootstrap.save] saves this state. *)
Definition boot_state (b : Bootstrap) : state :=
  MkState (Seed (b_Identity b)) (if Enrolled b then Some (b_Root b) else None)
    (b_OverlayNet b) (b_Records b) (b_Peers b).

(** [Bootstrap.Host] *)
Fixpoint find_host (k : PublicKey) (l : list Admission) : result Z :=
  match l with
  | [] => Err "no admission record for this node"
  | a :: l' => if decide (adm_Identity a = k) then Ok (adm_Host a) else find_host k l'
  end.
Definition Host (b : Bootstrap) : result Z := find_host (Public (b_Identity b)) (Admissions (b_Records b)).

Definition InitRoot (b : Bootstrap) (nodeName : bytes) (now : Z) : Bootstrap :=
  MkBootstrap (b_Identity b) (Public (b_Identity b)) (b_OverlayNet b)
    (MkRecords [SelfAdmit (b_Identity b) nodeName now] []) [].

(** [Bootstrap.Enrol] *)
Definition boot_Enrol (b : Bootstrap) (root : PublicKey) (records : trust_Records) (net : Prefix) : Bootstrap :=
  MkBootstrap (b_Identity b) root net records [].

(** ** Crash safety *)

Lemma dot_suffix_ne (p r : bytes) : p ++ str "." ++ r ≠ p.
Proof. intros E. apply (f_equal length) in E. rewrite !length_app in E. simpl in E. lia. Qed.

(** What the files can be while [save] runs: nothing created yet; the
    temporary file with what was written so far; or the move done. *)
Inductive save_files (old : fs) (path new : bytes) (f : fs) : Prop :=
  | sf_same : f = old → save_files old path new f
  | sf_temp rnd b : f = <[path ++ str "." ++ rnd := b]> old → old !! (path ++ str "." ++ rnd) = None →
      save_files old path new f
  | sf_moved rnd : f = <[path := new]> (delete (path ++ str "." ++ rnd) old) →
      old !! (path ++ str "." ++ rnd) = None → save_files old path new f.

Definition keeps (old : fs) (path new : bytes) (f : fs) : Prop :=
  f !! path = old !! path ∨ f !! path = Some new.

Lemma save_files_keeps old path new f : save_files old path new f → keeps old path new f.
Proof.
  intros [->|rnd b -> Hn|rnd -> Hn]; [by left| |right; apply lookup_insert_eq].
  left. apply lookup_insert_ne. apply dot_suffix_ne.
Qed.

(** A prefix of the new contents in the temporary file, and nothing else
    changed: what holds from its creation to the move. *)
Definition temp_file (old : fs) (path tmp b : bytes) (f : fs) : Prop :=
  (∃ rnd, tmp = path ++ str "." ++ rnd) ∧ old !! tmp = None ∧ f = <[tmp := b]> old.

Lemma temp_file_keeps old path tmp b new f : temp_file old path tmp b f → keeps old path new f.
Proof.
  intros ((rnd & ->) & _ & ->). left. apply lookup_insert_ne, dot_suffix_ne.
Qed.

Lemma temp_removed old path tmp b new f (ok : bool) :
  temp_file old path tmp b f → keeps old path new (if ok then delete tmp f else f).
Proof.
  intros Ht. destruct ok; [|by eapply temp_file_keeps]. destruct Ht as ((rnd & ->) & Hn & ->).
  left. rewrite delete_insert_id by done. done.
Qed.

(** Giving up: the temporary file is closed, or not, and removed. *)
Lemma give_up_keeps old path tmp b new f (r : result unit) tr f' :
  temp_file old path tmp b f →
  reaches (let* _ := trigger (Close tmp) in let* _ := trigger (Remove tmp) in Ret r)%prog tr ∨
  reaches (let* _ := trigger (Remove tmp) in Ret r)%prog tr →
  fs_run f tr f' → keeps old path new f'.
Proof.
  intros Ht Hr. assert (Hrem : ∀ tr f', reaches (let* _ := trigger (Remove tmp) in Ret r)%prog tr →
    fs_run f tr f' → keeps old path new f').
  { intros tr1 f1. simpl. intros [->|(ok & tr2 & -> & ->)]; simpl.
    - intros ->. by eapply temp_file_keeps.
    - intros (f2 & -> & ->). by eapply temp_removed. }
  destruct Hr as [Hr|Hr]; [|by apply Hrem].
  simpl in Hr. destruct Hr as [->|(ok & tr2 & -> & Hr)]; simpl.
  - intros ->. by eapply temp_file_keeps.
  - intros (f1 & -> & Hf). exact (Hrem _ _ Hr Hf).
Qed.

Lemma save_keeps s path new old tr f :
  json_Marshal s = Some new → reaches (save s path) tr → fs_run old tr f → keeps old path new f.
Proof.
  unfold save. intros -> Hr. assert (Hsame : keeps old path new old) by (by left).
  simpl in Hr. destruct Hr as [->|(ok & tr1 & -> & Hr)]; simpl; [by intros ->|].
  intros (f0 & -> & Hf). destruct ok; simpl in Hr; [|subst; simpl in Hf; subst; exact Hsame].
  destruct Hr as [->|(tmp & tr2 & -> & Hr)]; [simpl in Hf; by subst|].
  simpl in Hf. destruct Hf as (f1 & Hc & Hf).
  destruct tmp as [tmp|]; [|simpl in Hr; subst; simpl in Hf; subst; exact Hsame].
  destruct Hc as (Hname & Hnew & Hf1).
  assert (Ht : ∀ b, temp_file old path tmp b (<[tmp := b]> old)) by done.
  simpl in Hr. destruct Hr as [->|(ok & tr3 & -> & Hr)]; [simpl in Hf; subst; eapply temp_file_keeps, Ht|].
  simpl in Hf. destruct Hf as (f2 & Hw & Hf). subst f1. rewrite lookup_insert_eq in Hw. simpl in Hw.
  assert (∃ b, f2 = <[tmp := b]> old ∧ (ok = true → b = new)) as (b & -> & Hb).
  { destruct ok; [|destruct Hw as (b & _ & Hw)]; eexists; rewrite Hw, insert_insert_eq; done. }
  destruct ok; cbn [negb] in Hr; [|eapply (give_up_keeps _ _ _ _ _ _ (Err "write")); [apply Ht|left; exact Hr|exact Hf]].
  rewrite (Hb eq_refl) in *. clear Hb Hw b.
  simpl in Hr. destruct Hr as [->|(ok & tr4 & -> & Hr)]; [simpl in Hf; subst; eapply temp_file_keeps, Ht|].
  simpl in Hf. destruct Hf as (f3 & -> & Hf).
  destruct ok; cbn [negb] in Hr; [|eapply (give_up_keeps _ _ _ _ _ _ (Err "sync")); [apply Ht|left; exact Hr|exact Hf]].
  simpl in Hr. destruct Hr as [->|(ok & tr5 & -> & Hr)]; [simpl in Hf; subst; eapply temp_file_keeps, Ht|].
  simpl in Hf. destruct Hf as (f4 & -> & Hf).
  destruct ok; cbn [negb] in Hr; [|eapply (give_up_keeps _ _ _ _ _ _ (Err "close")); [apply Ht|right; exact Hr|exact Hf]].
  simpl in Hr. destruct Hr as [->|(ok & tr6 & -> & Hr)]; [simpl in Hf; subst; eapply temp_file_keeps, Ht|].
  simpl in Hf. destruct Hf as (f5 & Hm & Hf).
  destruct ok; [|subst f5; eapply (give_up_keeps _ _ _ _ _ _ (Err "rename")); [apply Ht|right; exact Hr|exact Hf]].
  destruct Hm as (b & Eb & ->). rewrite lookup_insert_eq in Eb. injection Eb as <-.
  destruct Hname as (rnd & ->). right.
  destruct Hr as [->|(ok & tr7 & -> & ->)]; simpl in Hf.
  - subst. apply lookup_insert_eq.
  - destruct Hf as (f6 & -> & ->). destruct ok; [|apply lookup_insert_eq].
    rewrite lookup_delete_ne by apply dot_suffix_ne. apply lookup_insert_eq.
Qed.

(** A save that reports success has moved the new contents into place. *)
Lemma save_ok s path old tr f :
  runs (save s path) tr (Ok ()) → fs_run old tr f →
  ∃ new, json_Marshal s = Some new ∧ f !! path = Some new.
Proof.
  unfold save. simpl. intros (ok & tr1 & -> & Hr). simpl. intros (f0 & -> & Hf).
  destruct ok; [|by destruct Hr]. cbn [negb] in Hr.
  destruct (json_Marshal s) as [new|]; [|by destruct Hr]. exists new. split; [done|].
  simpl in Hr. destruct Hr as (tmp & tr2 & -> & Hr). simpl in Hf. destruct Hf as (f1 & Hc & Hf).
  destruct tmp as [tmp|]; [|by destruct Hr]. destruct Hc as ((rnd & ->) & Hnew & ->).
  simpl in Hr. destruct Hr as (ok & tr3 & -> & Hr). simpl in Hf. destruct Hf as (f2 & Hw & Hf).
  destruct ok; [|simpl in Hr; by destruct Hr as (?&?&?&?&?&?&?&?)].
  rewrite lookup_insert_eq, insert_insert_eq in Hw. simpl in Hw. subst f2.
  simpl in Hr. destruct Hr as (ok & tr4 & -> & Hr). simpl in Hf. destruct Hf as (f3 & -> & Hf).
  destruct ok; [|simpl in Hr; by destruct Hr as (?&?&?&?&?&?&?&?)].
  simpl in Hr. destruct Hr as (ok & tr5 & -> & Hr). simpl in Hf. destruct Hf as (f4 & -> & Hf).
  destruct ok; [|simpl in Hr; by destruct Hr as (?&?&?&?&?)].
  simpl in Hr. destruct Hr as (ok & tr6 & -> & ok2 & tr7 & -> & -> & Hr).
  destruct ok; [|done]. simpl in Hf. destruct Hf as (f5 & (b & Eb & ->) & f6 & -> & ->).
  rewrite lookup_insert_eq in Eb. injection Eb as <-.
  destruct ok2; [|apply lookup_insert_eq].
  rewrite lookup_delete_ne by apply dot_suffix_ne. apply lookup_insert_eq.
Qed.

Lemma IdentityFromSeed_Seed i : length (Seed i) = seedLen → IdentityFromSeed (Seed i) = Ok i.
Proof. intros Hl. unfold IdentityFromSeed. rewrite decide_True by done. by destruct i. Qed.

Lemma NewIdentity_Ok random i : NewIdentity random = Ok i → random = Some (Seed i) ∧ length (Seed i) = seedLen.
Proof.
  unfold NewIdentity, IdentityFromSeed. destruct random as [seed|]; [|done]. case_decide; [|done]. by intros [= <-].
Qed.

(** ** Properties *)

(** C22: saving is atomic. Whatever operation fails, and wherever the process
    is stopped, the state file holds what it held before or the complete new
    contents; and when [save] reports success it holds the new ones. *)
Theorem save_atomic s path old tr f :
  reaches (save s path) tr → fs_run old tr f →
  (f !! path = old !! path ∨ ∃ new, json_Marshal s = Some new ∧ f !! path = Some new) ∧
  (runs (save s path) tr (Ok ()) → ∃ new, json_Marshal s = Some new ∧ f !! path = Some new).
Proof.
  intros Hr Hf. split; [|intros Hok; by eapply save_ok].
  destruct (json_Marshal s) as [new|] eqn:E.
  - destruct (save_keeps s path new old tr f E Hr Hf) as [Hk|Hk]; [by left|right; by exists new].
  - left. unfold save in Hr. rewrite E in Hr. simpl in Hr.
    destruct Hr as [->|(ok & tr1 & -> & Hr)]; simpl in Hf; [by subst|].
    destruct Hf as (f0 & -> & Hf). destruct ok; simpl in Hr; subst; simpl in Hf; by subst.
Qed.

(** C34: a node restarts with what it saved: loading the file a bootstrap was
    saved to gives the bootstrap back and writes nothing, if the JSON of its
    state decodes to that state. *)
Theorem Load_saved b text random saved :
  length (Seed (b_Identity b)) = seedLen →
  json_Marshal (boot_state b) = Some text → json_Unmarshal text = Some (boot_state b) →
  Load (Contents text) random saved = (Ok b, None).
Proof.
  intros Hs _ Hu. unfold Load. simpl. rewrite Hu. simpl.
  rewrite decide_False by (intros E; rewrite E in Hs; done).
  rewrite IdentityFromSeed_Seed by done. destruct b as [i r net recs peers]. simpl.
  unfold Enrolled. simpl. destruct (bool_decide_reflect (r = zeroKey)) as [->|]; done.
Qed.

(** A node that has forgotten its state starts as a new one: with the identity
    of a fresh seed, in no cluster, with no records and no peers. *)
Theorem Forget_forgets r file seed :
  Forget r = Ok () → length seed = seedLen →
  ∃ b, (Load (file_after r file) (Some seed) true).1 = Ok b ∧ Seed (b_Identity b) = seed ∧
    Enrolled b = false ∧ b_Records b = MkRecords [] [] ∧ b_Peers b = [].
Proof.
  intros Hr Hs. assert (file_after r file = NotExist) as -> by (by destruct r).
  assert (E : IdentityFromSeed seed = Ok (MkIdentity seed)) by (unfold IdentityFromSeed; by rewrite decide_True).
  unfold Load. cbn [loadState NewIdentity]. rewrite E. cbn. rewrite E. eexists. by split_and!.
Qed.

(** C35: a state file that cannot be read or decoded stops the start, and is
    never overwritten: [Load] only writes when there was no file, or one
    without a seed, and then what it writes holds a fresh identity and
    nothing else. *)
Theorem Load_keeps_damaged file random saved :
  (is_ok (loadState file) = false → (Load file random saved).2 = None ∧ is_ok (Load file random saved).1 = false) ∧
  (∀ st, (Load file random saved).2 = Some st →
     (file = NotExist ∨ ∃ text st0, file = Contents text ∧ json_Unmarshal text = Some st0 ∧ st_Seed st0 = []) ∧
     ∃ seed, random = Some seed ∧ st = MkState seed None zeroPrefix (MkRecords [] []) []).
Proof.
  unfold Load. split.
  - destruct (loadState file); done.
  - intros st. destruct file as [| |text]; simpl; [|done|].
    + destruct (NewIdentity random) as [id|e] eqn:En; [|done]. apply NewIdentity_Ok in En as (-> & Hl).
      intros Hw. split; [by left|]. exists (Seed id). split; [done|].
      rewrite IdentityFromSeed_Seed in Hw by done. by destruct saved; simplify_eq/=.
    + destruct (json_Unmarshal text) as [st0|] eqn:Eu; simpl; [|done].
      destruct (decide (st_Seed st0 = [])) as [Es|].
      * destruct (NewIdentity random) as [id|e] eqn:En; [|done]. apply NewIdentity_Ok in En as (-> & Hl).
        intros Hw. split; [right; by exists text, st0|]. exists (Seed id). split; [done|].
        rewrite IdentityFromSeed_Seed in Hw by done. by destruct saved; simplify_eq/=.
      * by destruct (IdentityFromSeed (st_Seed st0)).
Qed.
End state.

Section witness.
#[local] Existing Instance Toy.toy.
(** A codec that knows the state of one node. *)
Definition demo_boot : Bootstrap :=
MkBootstrap (Toy.node Byte.x0a) (Public (Toy.node Byte.x0a)) (MkPrefix (A4 167772160) 8) (MkRecords [] []) [].
#[local] Instance toy_state : Json state := {|
json_Marshal s := Some (str "state");
json_Unmarshal b := if decide (b = str "state") then Some (boot_state demo_boot) else None;
|}.
Definition demo_path : bytes := statePath (str "/var/lib/cheesecloth") (str "wgmesh").
Definition demo_files : gmap bytes bytes := {[demo_path := str "old"]}.

(** The disk is full while the temporary file is written. *)
Lemma save_atomic_witness :
let tmp := demo_path ++ str "." ++ str "1" in
let files := <[tmp := str "st"]> (demo_files) in
files !! demo_path = demo_files !! demo_path ∨
∃ new, json_Marshal emptyState = Some new ∧ files !! demo_path = Some new.
Proof.
intros tmp files.
apply (save_atomic emptyState demo_path demo_files
  [Ev MkdirAll true; Ev (CreateTemp demo_path) (Some tmp); Ev (WriteFile tmp (str "state")) false]).
- right. exists true, [Ev (CreateTemp demo_path) (Some tmp); Ev (WriteFile tmp (str "state")) false].
  split; [reflexivity|]. right. exists (Some tmp), [Ev (WriteFile tmp (str "state")) false].
  split; [reflexivity|]. right. exists false, []. split; [reflexivity|]. left. reflexivity.
- exists demo_files. split; [reflexivity|]. exists (<[tmp := []]> demo_files). split.
  + split_and!; [by exists (str "1")|apply lookup_singleton_ne; discriminate|reflexivity].
  + exists files. split; [|reflexivity]. exists (str "st"). split; [by exists (str "ate")|].
    rewrite lookup_insert_eq, insert_insert_eq. reflexivity.
Defined.

Lemma Load_saved_witness : Load (Contents (str "state")) None false = (Ok demo_boot, None).
Proof.
apply (Load_saved demo_boot (str "state")); [reflexivity|reflexivity|].
cbn. by rewrite decide_True.
Defined.
End witness.
