(* ===== verification/GoNet.v ===== *)
(** * GoNet: addresses as text, and what the program uses of Go's [net]

    [strconv.Itoa], [netip.Addr.String], [netip.AddrPort.String],
    [net.SplitHostPort] and [net.JoinHostPort] as the standard library has
    them, with the round trip between the last two. *)

From S2P Require Import Prelude Netip State.

(** ** Numbers *)

Definition digit (n : Z) : byte := byte_of_Z (if n <? 10 then 48 + n else 87 + n).

(** The digits of a natural number in base [b], most significant first. *)
Fixpoint digits_fuel (fuel : nat) (b n : Z) (acc : bytes) : bytes :=
  match fuel with
  | O => acc
  | S f =>
      let acc := digit (n `mod` b) :: acc in
      if n <? b then acc else digits_fuel f b (n / b) acc
  end.
(** 64 digits are enough for any [uint64] in any base. *)
Definition FormatUint (b n : Z) : bytes := digits_fuel 64 b n [].
Definition Itoa (n : Z) : bytes :=
  if n <? 0 then Byte.x2d :: FormatUint 10 (- n) else FormatUint 10 n.

Example Itoa_examples : Itoa 7946 = str "7946" ∧ Itoa 0 = str "0" ∧ Itoa (-12) = str "-12" ∧
  Itoa max_uint64 = str "18446744073709551615" ∧ FormatUint 16 64206 = str "face".
Proof. by vm_compute. Qed.

(** ** [netip.Addr.String] *)

Definition octet (v : Z) (i : Z) : bytes := FormatUint 10 ((v / 2 ^ (8 * i)) `mod` 256).
Definition string4 (v : Z) : bytes :=
  octet v 3 ++ str "." ++ octet v 2 ++ str "." ++ octet v 1 ++ str "." ++ octet v 0.

(** The sixteen-bit group [i] of an IPv6 address, from the left. *)
Definition v6u16 (v : Z) (i : nat) : Z := (v / 2 ^ (16 * (7 - Z.of_nat i))) `mod` 2 ^ 16.

(** The zero groups from [i] on. *)
Fixpoint zero_run (fuel : nat) (v : Z) (i : nat) : nat :=
  match fuel with
  | O => i
  | S f => if Nat.ltb i 8 && (v6u16 v i =? 0) then zero_run f v (S i) else i
  end.
(** The first longest run of two or more. *)
Fixpoint longest_run (fuel : nat) (v : Z) (i : nat) (best : option (nat * nat)) : option (nat * nat) :=
  match fuel with
  | O => best
  | S f =>
      let j := zero_run 8 v i in
      let len := match best with Some (s, e) => (e - s)%nat | None => 0%nat end in
      longest_run f v (S i)
        (if Nat.leb 2 (j - i) && Nat.ltb len (j - i) then Some (i, j) else best)
  end.
Fixpoint groups6 (fuel : nat) (v : Z) (run : option (nat * nat)) (i : nat) : bytes :=
  match fuel with
  | O => []
  | S f =>
      if Nat.leb 8 i then []
      else match run with
           | Some (s, e) =>
               if Nat.eqb i s then
                 str "::" ++ (if Nat.leb 8 e then [] else FormatUint 16 (v6u16 v e) ++ groups6 f v run (S e))
               else (if Nat.ltb 0 i then str ":" else []) ++ FormatUint 16 (v6u16 v i) ++ groups6 f v run (S i)
           | None => (if Nat.ltb 0 i then str ":" else []) ++ FormatUint 16 (v6u16 v i) ++ groups6 f v run (S i)
           end
  end.
Definition string6 (v : Z) : bytes := groups6 9 v (longest_run 8 v 0 None) 0.

Definition with_zone (z : bytes) : bytes := match z with [] => [] | _ => str "%" ++ z end.

Definition Addr_String (a : Addr) : bytes :=
  match a with
  | AZero => str "invalid IP"
  | A4 v => string4 v
  | A6 v z => (if Is4In6 a then str "::ffff:" ++ string4 (v `mod` 2 ^ 32) else string6 v) ++ with_zone z
  end.

(** [AddrPort.String] *)
Definition AddrPort_String (a : Addr) (port : Z) : bytes :=
  match a with
  | AZero => str "invalid AddrPort"
  | A4 v => string4 v ++ str ":" ++ FormatUint 10 port
  | A6 _ _ => str "[" ++ Addr_String a ++ str "]:" ++ FormatUint 10 port
  end.

Example String_examples :
  Addr_String (A4 0x0A000102) = str "10.0.1.2" ∧
  Addr_String (A6 0x20010DB8000000000000000000000001 []) = str "2001:db8::1" ∧
  Addr_String (A6 0x20010DB8000000010000000000000000 []) = str "2001:db8:0:1::" ∧
  Addr_String (A6 0 []) = str "::" ∧
  Addr_String (A6 0xFFFF01020304 []) = str "::ffff:1.2.3.4" ∧
  Addr_String (A6 0x00010000000200000003000000040005 []) = str "1:0:2:0:3:0:4:5" ∧
  Addr_String (A6 (0xFE80 * 2 ^ 112 + 1) (str "eth0")) = str "fe80::1%eth0" ∧
  AddrPort_String (A6 1 []) 7946 = str "[::1]:7946".
Proof. by vm_compute. Qed.

(** [Node.GossipAddr] of internal/overlay/node.go *)
Definition GossipAddr (n : Node) : bytes :=
  if n_Port n =? 0 then Addr_String (n_Addr n) else AddrPort_String (n_Addr n) (n_Port n).

(** ** [net.SplitHostPort] and [net.JoinHostPort] *)

Definition colon : byte := Byte.x3a.
Definition lbracket : byte := Byte.x5b.
Definition rbracket : byte := Byte.x5d.

(** [strings.IndexByte] and [strings.LastIndexByte]; -1 is [None]. *)
Fixpoint IndexByte (s : bytes) (c : byte) : option nat :=
  match s with
  | [] => None
  | d :: s => if decide (d = c) then Some 0%nat else S <$> IndexByte s c
  end.
Definition LastIndexByte (s : bytes) (c : byte) : option nat :=
  (λ i, length s - 1 - i)%nat <$> IndexByte (reverse s) c.

Definition SplitHostPort (hostport : bytes) : result (bytes * bytes) :=
  match LastIndexByte hostport colon with
  | None => Err "missing port in address"
  | Some i =>
      let finish (host : bytes) (j k : nat) :=
        match IndexByte (drop j hostport) lbracket, IndexByte (drop k hostport) rbracket with
        | Some _, _ => Err "unexpected '[' in address"
        | _, Some _ => Err "unexpected ']' in address"
        | None, None => Ok (host, drop (S i) hostport)
        end in
      if decide (head hostport = Some lbracket) then
        match IndexByte hostport rbracket with
        | None => Err "missing ']' in address"
        | Some e =>
            if Nat.eqb (S e) (length hostport) then Err "missing port in address"
            else if Nat.eqb (S e) i then finish (take (e - 1) (drop 1 hostport)) 1%nat (S e)
            else if decide (hostport !! S e = Some colon) then Err "too many colons in address"
            else Err "missing port in address"
        end
      else
        let host := take i hostport in
        match IndexByte host colon with
        | Some _ => Err "too many colons in address"
        | None => finish host 0%nat 0%nat
        end
  end.

Definition JoinHostPort (host port : bytes) : bytes :=
  match IndexByte host colon with
  | Some _ => [lbracket] ++ host ++ [rbracket; colon] ++ port
  | None => host ++ [colon] ++ port
  end.

(** [strings.Trim(s, "[]")] *)
Fixpoint trim_brackets_left (s : bytes) : bytes :=
  match s with
  | c :: s' => if decide (c = lbracket ∨ c = rbracket) then trim_brackets_left s' else s
  | [] => []
  end.
Definition TrimBrackets (s : bytes) : bytes :=
  reverse (trim_brackets_left (reverse (trim_brackets_left s))).

Example SplitHostPort_examples :
  SplitHostPort (str "10.0.0.1:80") = Ok (str "10.0.0.1", str "80") ∧
  SplitHostPort (str "[::1]:80") = Ok (str "::1", str "80") ∧
  SplitHostPort (str "[::1]") = Err "missing port in address" ∧
  SplitHostPort (str "::1") = Err "too many colons in address" ∧
  SplitHostPort (str "host") = Err "missing port in address" ∧
  SplitHostPort (str "[::1") = Err "missing ']' in address" ∧
  SplitHostPort (str "a]:1") = Err "unexpected ']' in address" ∧
  JoinHostPort (str "::1") (str "80") = str "[::1]:80" ∧ TrimBrackets (str "[::1]") = str "::1".
Proof. by vm_compute. Qed.

(** ** Lemmas *)

Lemma IndexByte_None s c : IndexByte s c = None ↔ c ∉ s.
Proof.
  induction s as [|d s IH]; cbn; [split; [intros _ ?%elem_of_nil|]; done|].
  case_decide as Hd; [split; [done|]; intros H; destruct H; subst; left|].
  rewrite fmap_None, IH, not_elem_of_cons. naive_solver.
Qed.

Lemma IndexByte_app s c t : c ∉ s → IndexByte (s ++ c :: t) c = Some (length s).
Proof.
  induction s as [|d s IH]; cbn; intros H; [by rewrite decide_True|].
  apply not_elem_of_cons in H as [Hd H]. rewrite decide_False, IH by congruence. done.
Qed.

Lemma LastIndexByte_app s c t : c ∉ t → LastIndexByte (s ++ c :: t) c = Some (length s).
Proof.
  intros H. unfold LastIndexByte.
  rewrite reverse_app, reverse_cons, <- app_assoc. cbn [app].
  rewrite IndexByte_app by by rewrite elem_of_reverse.
  cbn. f_equal. rewrite length_app, length_reverse. cbn. lia.
Qed.

(** A host and port as the program has them. *)
Definition good_host (h : bytes) : Prop := lbracket ∉ h ∧ rbracket ∉ h.
Definition good_port (p : bytes) : Prop := colon ∉ p ∧ lbracket ∉ p ∧ rbracket ∉ p.

Lemma split_join h p : good_host h → good_port p → SplitHostPort (JoinHostPort h p) = Ok (h, p).
Proof.
  intros (Hl & Hr) (Pc & Pl & Pr). unfold SplitHostPort, JoinHostPort.
  destruct (IndexByte h colon) as [i|] eqn:E.
  - change ([lbracket] ++ h ++ [rbracket; colon] ++ p) with (lbracket :: h ++ rbracket :: colon :: p).
    assert (Hi : LastIndexByte (lbracket :: h ++ rbracket :: colon :: p) colon = Some (length h + 2)%nat).
    { replace (lbracket :: h ++ rbracket :: colon :: p) with ((lbracket :: h ++ [rbracket]) ++ colon :: p)
        by (cbn; by rewrite <- app_assoc).
      rewrite LastIndexByte_app by done. f_equal. cbn. rewrite length_app. cbn. lia. }
    rewrite Hi, decide_True by done.
    change (lbracket :: h ++ rbracket :: colon :: p) with ((lbracket :: h) ++ rbracket :: colon :: p).
    rewrite IndexByte_app by (rewrite not_elem_of_cons; done).
    cbn [length]. rewrite (proj2 (Nat.eqb_neq _ _)) by (rewrite length_app; cbn; lia).
    rewrite (proj2 (Nat.eqb_eq _ _)) by lia.
    cbn [app drop]. rewrite !drop_0.
    rewrite (proj2 (IndexByte_None (h ++ rbracket :: colon :: p) lbracket)).
    2: { rewrite not_elem_of_app, !not_elem_of_cons. done. }
    replace (drop (S (length h)) (h ++ rbracket :: colon :: p)) with (colon :: p)
      by (rewrite drop_app_ge by lia; by replace (S (length h) - length h)%nat with 1%nat by lia).
    rewrite (proj2 (IndexByte_None (colon :: p) rbracket)) by (rewrite not_elem_of_cons; done).
    replace (S (length h) - 1)%nat with (length h) by lia. rewrite take_app_length.
    do 2 f_equal. replace (length h + 2)%nat with (S (S (length h))) by lia.
    rewrite drop_app_ge by lia. by replace (S (S (length h)) - length h)%nat with 2%nat by lia.
  - apply IndexByte_None in E. change (h ++ [colon] ++ p) with (h ++ colon :: p).
    rewrite LastIndexByte_app by done. rewrite decide_False.
    2: { destruct h as [|c h]; [done|]. cbn. intros [= ->]. apply Hl. left. }
    rewrite take_app_length, (proj2 (IndexByte_None h colon)) by done.
    rewrite !drop_0, !(proj2 (IndexByte_None (h ++ colon :: p) _)).
    + do 2 f_equal. rewrite drop_app_ge by lia. by replace (S (length h) - length h)%nat with 1%nat by lia.
    + rewrite not_elem_of_app, not_elem_of_cons. done.
    + rewrite not_elem_of_app, not_elem_of_cons. done.
Qed.
