(* ===== verification/GoTime.v ===== *)
(** * GoTime: durations as text (Go's time.Duration, and fmt's one decimal)

    [Duration.String] and [time.ParseDuration], with which the operator's
    command sends how long a token is good for and the agent reads it, and the
    rounding of a quotient to one decimal. Fractions are read through [float64],
    which is the standard library's binary64 of SpecFloat. *)

From Stdlib Require Import SpecFloat.
From S2P Require Import Prelude GoNet.

(** ** [Duration.String] *)

(** [fmtFrac]: the fraction of [v / 10^prec], without trailing zeros, and what
    is before the point. *)
Fixpoint fmtFrac_loop (prec : nat) (v : Z) (print : bool) (acc : bytes) : bytes * Z :=
  match prec with
  | O => (if print then Byte.x2e :: acc else acc, v)
  | S prec =>
      let print := print || negb (v `mod` 10 =? 0) in
      fmtFrac_loop prec (v / 10) print (if print then digit (v `mod` 10) :: acc else acc)
  end.
Definition fmtFrac (prec : nat) (v : Z) : bytes * Z := fmtFrac_loop prec v false [].

Definition Duration_String (d : Z) : bytes :=
  let u := Z.abs d in
  let neg := if d <? 0 then [Byte.x2d] else [] in
  let with_unit (prec : nat) (unit : bytes) := let '(f, v) := fmtFrac prec u in FormatUint 10 v ++ f ++ unit in
  if u =? 0 then str "0s"
  else if u <? 10 ^ 3 then neg ++ with_unit O (str "ns")
  else if u <? 10 ^ 6 then neg ++ with_unit 3%nat [Byte.xc2; Byte.xb5; Byte.x73]   (* µs *)
  else if u <? 10 ^ 9 then neg ++ with_unit 6%nat (str "ms")
  else
    let '(f, v) := fmtFrac 9 u in
    let secs := FormatUint 10 (v `mod` 60) ++ f ++ str "s" in
    let m := v / 60 in
    neg ++
    (if 0 <? m then
       let h := m / 60 in
       (if 0 <? h then FormatUint 10 h ++ str "h" else []) ++ FormatUint 10 (m `mod` 60) ++ str "m"
     else []) ++ secs.

Example Duration_String_examples :
  map Duration_String [0; 600 * 10 ^ 9; 1500 * 10 ^ 6; 90 * 60 * 10 ^ 9; 1000; 1001; -1; - 2 ^ 63] =
    [str "0s"; str "10m0s"; str "1.5s"; str "1h30m0s"; [Byte.x31; Byte.xc2; Byte.xb5; Byte.x73];
     str "1.001" ++ [Byte.xc2; Byte.xb5; Byte.x73]; str "-1ns"; str "-2562047h47m16.854775808s"].
Proof. vm_compute. reflexivity. Qed.

(** ** [ParseDuration] *)

Definition is_digit (c : byte) : bool := (48 <=? Z_of_byte c) && (Z_of_byte c <=? 57).
Definition digit_value (c : byte) : Z := Z_of_byte c - 48.

(** [leadingInt]; no answer on overflow. *)
Fixpoint leadingInt (s : bytes) (x : Z) : option (Z * bytes) :=
  match s with
  | [] => Some (x, [])
  | c :: s' =>
      if is_digit c then
        if 2 ^ 63 / 10 <? x then None
        else let x := x * 10 + digit_value c in if 2 ^ 63 <? x then None else leadingInt s' x
      else Some (x, s)
  end.

(** Binary64. *)
Definition f64 (n : Z) : spec_float := binary_normalize 53 1024 n 0 false.
Definition f64_mul : spec_float → spec_float → spec_float := SFmul 53 1024.
Definition f64_div : spec_float → spec_float → spec_float := SFdiv 53 1024.
(** [uint64] of a nonnegative number within its range. *)
Definition f64_trunc (x : spec_float) : Z :=
  match x with
  | S754_finite false m e => if 0 <=? e then Zpos m * 2 ^ e else Zpos m / 2 ^ (- e)
  | _ => 0
  end.

(** [leadingFraction]: digits past what fits are skipped. *)
Fixpoint leadingFraction (s : bytes) (x : Z) (scale : spec_float) (overflow : bool) : Z * spec_float * bytes :=
  match s with
  | [] => (x, scale, [])
  | c :: s' =>
      if negb (is_digit c) then (x, scale, s)
      else if overflow then leadingFraction s' x scale true
      else if (2 ^ 63 - 1) / 10 <? x then leadingFraction s' x scale true
      else
        let y := x * 10 + digit_value c in
        if 2 ^ 63 <? y then leadingFraction s' x scale true
        else leadingFraction s' y (f64_mul scale (f64 10)) false
  end.

(** The text up to the next digit or point, and the rest. *)
Fixpoint unit_text (s : bytes) : bytes * bytes :=
  match s with
  | [] => ([], [])
  | c :: s' =>
      if bool_decide (c = Byte.x2e) || is_digit c then ([], s)
      else let '(u, rest) := unit_text s' in (c :: u, rest)
  end.

Definition unitMap (u : bytes) : option Z :=
  if decide (u = str "ns") then Some 1
  else if decide (u = str "us" ∨ u = [Byte.xc2; Byte.xb5; Byte.x73] ∨ u = [Byte.xce; Byte.xbc; Byte.x73]) then Some (10 ^ 3)
  else if decide (u = str "ms") then Some (10 ^ 6)
  else if decide (u = str "s") then Some (10 ^ 9)
  else if decide (u = str "m") then Some (60 * 10 ^ 9)
  else if decide (u = str "h") then Some (3600 * 10 ^ 9)
  else None.

(** The loop over the parts; [d], a [uint64], is what was read. A part takes a
    character at least. *)
Fixpoint parse_parts (fuel : nat) (s : bytes) (d : Z) : result Z :=
  match fuel with
  | O => Err "out of fuel"
  | S fuel =>
      match s with
      | [] => Ok d
      | c :: _ =>
          if negb (bool_decide (c = Byte.x2e) || is_digit c) then Err "time: invalid duration"
          else
            match leadingInt s 0 with
            | None => Err "time: invalid duration"
            | Some (v, s1) =>
                let pre := negb (length s1 =? length s)%nat in
                let '(f, scale, s2, post) :=
                  match s1 with
                  | c :: s1' =>
                      if decide (c = Byte.x2e) then
                        let '(f, scale, s2) := leadingFraction s1' 0 (f64 1) false in
                        (f, scale, s2, negb (length s2 =? length s1')%nat)
                      else (0, f64 1, s1, false)
                  | [] => (0, f64 1, s1, false)
                  end in
                if negb pre && negb post then Err "time: invalid duration"
                else
                  let '(u, s3) := unit_text s2 in
                  if decide (u = []) then Err "time: missing unit in duration"
                  else
                    match unitMap u with
                    | None => Err "time: unknown unit"
                    | Some unit =>
                        if 2 ^ 63 / unit <? v then Err "time: invalid duration"
                        else
                          let v := v * unit in
                          let v := if 0 <? f then v + f64_trunc (f64_mul (f64 f) (f64_div (f64 unit) scale)) else v in
                          if (0 <? f) && (2 ^ 63 <? v) then Err "time: invalid duration"
                          else
                            let d := (d + v) `mod` 2 ^ 64 in
                            if 2 ^ 63 <? d then Err "time: invalid duration" else parse_parts fuel s3 d
                    end
            end
      end
  end.

Definition ParseDuration (s : bytes) : result Z :=
  let '(neg, s) :=
    match s with
    | c :: s' => if decide (c = Byte.x2d) then (true, s') else if decide (c = Byte.x2b) then (false, s') else (false, s)
    | [] => (false, [])
    end in
  if decide (s = str "0") then Ok 0
  else if decide (s = []) then Err "time: invalid duration"
  else
    match parse_parts (S (length s)) s 0 with
    | Err e => Err e
    | Ok d =>
        if neg then Ok (- d)
        else if 2 ^ 63 - 1 <? d then Err "time: invalid duration"
        else Ok d
    end.

Example ParseDuration_examples :
  map ParseDuration [str "10m"; str "1.5h"; str "-2562047h47m16.854775808s"; str "1h30m"; str ".5s"; str "0"] =
    [Ok (600 * 10 ^ 9); Ok (5400 * 10 ^ 9); Ok (- 2 ^ 63); Ok (5400 * 10 ^ 9); Ok (5 * 10 ^ 8); Ok 0] ∧
  map (is_ok ∘ ParseDuration) [str "10"; str "s"; str "1d"; str ""; str "9223372036854775808ns"; str ".s"] =
    [false; false; false; false; false; false].
Proof. vm_compute. split; reflexivity. Qed.

(** ["%.1f"] of a quotient of [float64]s: the nearest tenth of what division
    gave, an even one where two are as near. *)
Definition round_even (a b : Z) : Z :=
  let q := a / b in
  let r := a `mod` b in
  if 2 * r <? b then q else if b <? 2 * r then q + 1 else if Z.even q then q else q + 1.
Definition one_decimal (n div : Z) : bytes :=
  match f64_div (f64 n) (f64 div) with
  | S754_finite false m e =>
      let tenths := if 0 <=? e then 10 * (Zpos m * 2 ^ e) else round_even (10 * Zpos m) (2 ^ (- e)) in
      Itoa (tenths / 10) ++ str "." ++ Itoa (tenths `mod` 10)
  | _ => str "0.0"
  end.

Example one_decimal_examples :
  map (λ n, one_decimal n 1024) [1024; 1536; 1075; 1048575] = [str "1.0"; str "1.5"; str "1.0"; str "1024.0"] ∧
  one_decimal (2 ^ 63 - 1) (1024 ^ 5) = str "8192.0".
Proof. vm_compute. split; reflexivity. Qed.

(** ** Whole numbers in [float64] *)

Lemma digits2_log2 p : Zdigits2 (Zpos p) = Z.log2 (Zpos p) + 1.
Proof.
  cbn [Zdigits2]. induction p as [p IH|p IH|]; [| |done].
  - cbn [digits2_pos]. rewrite Pos2Z.inj_succ, IH, (Pos2Z.inj_xI p), Z.log2_succ_double by lia. lia.
  - cbn [digits2_pos]. rewrite Pos2Z.inj_succ, IH, (Pos2Z.inj_xO p), Z.log2_double by lia. lia.
Qed.

(** Shifting zeros out loses nothing. *)
Lemma shr_zeros n m :
  SpecFloat.iter_pos shr_1 n (Build_shr_record (Zpos (Pos.iter xO m n)) false false) = Build_shr_record (Zpos m) false false.
Proof.
  assert (Hgo : ∀ n x, SpecFloat.iter_pos shr_1 n x = Pos.iter shr_1 x n).
  { clear. intros n. induction n as [n IH|n IH|]; intros x; cbn; [|by rewrite !IH|done].
    by rewrite !IH, !Pos.iter_swap. }
  rewrite Hgo. induction n as [|n IH] using Pos.peano_ind; [done|].
  rewrite (Pos.iter_succ n _ xO), Pos.iter_succ_r. exact IH.
Qed.

Lemma iter_xO m n : Zpos (Pos.iter xO m n) = Zpos m * 2 ^ Zpos n.
Proof.
  induction n as [|n IH] using Pos.peano_ind; [cbn; lia|].
  rewrite Pos.iter_succ, Pos2Z.inj_xO, IH, Pos2Z.inj_succ, Z.pow_succ_r by lia. lia.
Qed.

(** The bits of a mantissa. *)
Definition mantissa (n : Z) : Z := n * 2 ^ (52 - Z.log2 n).

Lemma shr_exact n j e :
  0 < n → 0 ≤ j → shr (shr_record_of_loc (n * 2 ^ j) loc_Exact) e j = (Build_shr_record n false false, e + j).
Proof.
  intros Hn Hj. destruct n as [|p|]; [lia| |lia]. unfold shr, shr_record_of_loc.
  destruct j as [|k|]; [by rewrite Z.mul_1_r, Z.add_0_r| |lia].
  rewrite <-iter_xO, shr_zeros. done.
Qed.

Lemma mantissa_bounds n : 0 < n < 2 ^ 53 → 0 ≤ 52 - Z.log2 n ∧ 0 < mantissa n ∧ Z.log2 (mantissa n) = 52.
Proof.
  intros Hn. assert (Hl : Z.log2 n < 53) by (apply Z.log2_lt_pow2; lia). pose proof (Z.log2_nonneg n).
  unfold mantissa. split; [lia|]. split; [apply Z.mul_pos_pos; [lia|apply Z.pow_pos_nonneg; lia]|].
  rewrite Z.log2_mul_pow2 by lia. lia.
Qed.

(** A number [n] below [2^53], written with [k] zeros and the exponent that
    makes up for them, is rounded to itself. *)
Lemma round_exact n k :
  0 < n < 2 ^ 53 → 52 - Z.log2 n ≤ k →
  ∃ p, mantissa n = Zpos p ∧
    binary_round_aux 53 1024 false (n * 2 ^ k) (- k) loc_Exact = S754_finite false p (Z.log2 n - 52).
Proof.
  intros Hn Hk. destruct (mantissa_bounds n Hn) as (Hs & Hpos & Hlog).
  assert (∃ p, mantissa n = Zpos p) as [p Ep] by (clear -Hpos; destruct (mantissa n); [lia|eauto|lia]).
  exists p. split; [done|].
  assert (Hlog' : Z.log2 n ≤ 52) by lia. pose proof (Z.log2_nonneg n).
  assert (Hd : ∀ m, 0 < m → Zdigits2 m = Z.log2 m + 1).
  { intros m Hm. destruct m as [|q|]; [lia|apply digits2_log2|lia]. }
  set (j := k - (52 - Z.log2 n)).
  assert (E : n * 2 ^ k = mantissa n * 2 ^ j).
  { unfold mantissa, j. rewrite <-Z.mul_assoc, <-Z.pow_add_r by lia. f_equal. f_equal. lia. }
  unfold binary_round_aux, shr_fexp.
  assert (Hf : fexp 53 1024 (Zdigits2 (n * 2 ^ k) + - k) - - k = j).
  { rewrite Hd by (apply Z.mul_pos_pos; [lia|apply Z.pow_pos_nonneg; lia]). rewrite Z.log2_mul_pow2 by lia.
    unfold fexp, emin, j. lia. }
  rewrite Hf, E, shr_exact by lia. cbn [shr_m loc_of_shr_record round_nearest_even].
  assert (Hf2 : fexp 53 1024 (Zdigits2 (mantissa n) + (- k + j)) - (- k + j) = 0).
  { rewrite Hd, Hlog by lia. unfold fexp, emin, j. lia. }
  rewrite Hf2. cbn [shr shr_record_of_loc shr_m]. rewrite Ep.
  replace (- k + j) with (Z.log2 n - 52) by (unfold j; lia).
  by rewrite (proj2 (Z.leb_le _ _)) by lia.
Qed.

(** Its [float64] is itself, and so is a product that stays below. *)
Lemma f64_whole n : 0 < n < 2 ^ 53 → ∃ p, mantissa n = Zpos p ∧ f64 n = S754_finite false p (Z.log2 n - 52).
Proof.
  intros Hn. destruct (mantissa_bounds n Hn) as (Hs & Hpos & Hlog). pose proof (Z.log2_nonneg n).
  destruct (round_exact n (52 - Z.log2 n) Hn ltac:(lia)) as (p & Hp & Hr). exists p. split; [done|].
  rewrite <-Hr. unfold f64, binary_normalize. destruct n as [|q|] eqn:Eq; [lia| |lia]. rewrite <-Eq in *.
  unfold binary_round. 
  assert (Ef : fexp 53 1024 (Zpos (digits2_pos q) + 0) = - (52 - Z.log2 n)).
  { pose proof (digits2_log2 q) as Hd. cbn [Zdigits2] in Hd. rewrite Hd, <-Eq. unfold fexp, emin. lia. }
  rewrite Ef. unfold shl_align. rewrite Z.sub_0_r.
  destruct (52 - Z.log2 n) as [|d|] eqn:Ed; [|clear Hr|lia].
  - cbv beta iota delta [Z.opp]. by rewrite Z.mul_1_r, Eq.
  - cbv beta iota delta [Z.opp]. by rewrite Eq, <-iter_xO.
Qed.

Lemma f64_trunc_whole n p : 0 < n < 2 ^ 53 → mantissa n = Zpos p → f64_trunc (S754_finite false p (Z.log2 n - 52)) = n.
Proof.
  intros Hn Hp. destruct (mantissa_bounds n Hn) as (Hs & _). cbn [f64_trunc]. rewrite <-Hp. unfold mantissa.
  replace (- (Z.log2 n - 52)) with (52 - Z.log2 n) by lia.
  destruct (Z.leb_spec 0 (Z.log2 n - 52)).
  - replace (52 - Z.log2 n) with 0 by lia. replace (Z.log2 n - 52) with 0 by lia. lia.
  - apply Z.div_mul. apply Z.pow_nonzero; lia.
Qed.

Lemma f64_mul_whole a b : 0 < a → 0 < b → a * b < 2 ^ 53 → f64_trunc (f64_mul (f64 a) (f64 b)) = a * b.
Proof.
  intros Ha Hb Hab. assert (Ha' : 0 < a < 2 ^ 53) by nia. assert (Hb' : 0 < b < 2 ^ 53) by nia.
  destruct (f64_whole a Ha') as (p & Hp & ->), (f64_whole b Hb') as (q & Hq & ->).
  destruct (mantissa_bounds a Ha') as (Hsa & _), (mantissa_bounds b Hb') as (Hsb & _).
  unfold f64_mul, SFmul. cbn [xorb]. rewrite Pos2Z.inj_mul, <-Hp, <-Hq.
  set (k := (52 - Z.log2 a) + (52 - Z.log2 b)).
  assert (E : mantissa a * mantissa b = a * b * 2 ^ k).
  { unfold mantissa, k. rewrite Z.pow_add_r by lia. ring. }
  replace (Z.log2 a - 52 + (Z.log2 b - 52)) with (- k) by (unfold k; lia).
  rewrite E. pose proof (Z.log2_mul_below a b Ha Hb).
  destruct (round_exact (a * b) k) as (r & Hr & ->); [nia|unfold k; lia|].
  apply f64_trunc_whole; [nia|done].
Qed.

(** ** Digits *)

Definition dvalue (x : Z) (ds : bytes) : Z := foldl (λ x c, x * 10 + digit_value c) x ds.

Lemma digit_ok m : 0 ≤ m < 10 → is_digit (digit m) = true ∧ digit_value (digit m) = m.
Proof.
  intros Hm. assert (m ∈ seqZ 0 10) as Hin by (apply elem_of_seqZ; lia). clear Hm.
  repeat (apply elem_of_cons in Hin as [->|Hin]; [done|]). by apply not_elem_of_nil in Hin.
Qed.

Lemma digit_range c : is_digit c = true → 0 ≤ digit_value c ≤ 9.
Proof. unfold is_digit, digit_value. lia. Qed.

Lemma dvalue_mono ds x : forallb is_digit ds = true → 0 ≤ x → x * 10 ^ Z.of_nat (length ds) ≤ dvalue x ds < (x + 1) * 10 ^ Z.of_nat (length ds).
Proof.
  revert x. induction ds as [|c ds IH]; intros x Hd Hx; cbn [dvalue foldl length]; [lia|].
  cbn [forallb] in Hd. apply andb_prop in Hd as [Hc Hd]. pose proof (digit_range c Hc).
  specialize (IH (x * 10 + digit_value c) Hd ltac:(lia)). unfold dvalue in IH.
  rewrite Nat2Z.inj_succ, Z.pow_succ_r by lia. nia.
Qed.

Lemma digits_value fuel n acc :
  0 ≤ n < 10 ^ Z.of_nat fuel → (0 < fuel)%nat →
  ∃ ds, digits_fuel fuel 10 n acc = ds ++ acc ∧ forallb is_digit ds = true ∧ ds ≠ [] ∧ dvalue 0 ds = n.
Proof.
  revert n acc. induction fuel as [|fuel IH]; intros n acc Hn Hf; [lia|]. cbn [digits_fuel].
  pose proof (Z.mod_pos_bound n 10 ltac:(lia)) as Hm. destruct (digit_ok _ Hm) as [Hd Hv].
  destruct (Z.ltb_spec n 10) as [Hlt|Hge].
  - exists [digit (n `mod` 10)]. split_and!; [done|by cbn; rewrite Hd|done|].
    cbn. rewrite Hv, Z.mod_small; lia.
  - destruct (IH (n / 10) (digit (n `mod` 10) :: acc)) as (ds & E & Hds & _ & Hval).
    + split; [apply Z.div_pos; lia|]. apply Z.div_lt_upper_bound; [lia|].
      rewrite Nat2Z.inj_succ, Z.pow_succ_r in Hn; lia.
    + destruct fuel; [|lia]. change (10 ^ Z.of_nat 1) with 10 in Hn. lia.
    + exists (ds ++ [digit (n `mod` 10)]). split_and!.
      * by rewrite E, <-app_assoc.
      * rewrite forallb_app, Hds. cbn. by rewrite Hd.
      * by destruct ds.
      * unfold dvalue in *. rewrite foldl_app, Hval. cbn. rewrite Hv. pose proof (Z.div_mod n 10 ltac:(lia)). lia.
Qed.

Lemma FormatUint_digits n :
  0 ≤ n ≤ 2 ^ 64 → forallb is_digit (FormatUint 10 n) = true ∧ FormatUint 10 n ≠ [] ∧ dvalue 0 (FormatUint 10 n) = n.
Proof.
  intros Hn. destruct (digits_value 64 n []) as (ds & E & H1 & H2 & H3).
  - split; [lia|]. apply Z.le_lt_trans with (2 ^ 64); [lia|]. vm_compute. reflexivity.
  - lia.
  - rewrite app_nil_r in E. unfold FormatUint. rewrite E. done.
Qed.

(** What stops a run of digits. *)
Definition no_digit (s : bytes) : Prop := match s with [] => True | c :: _ => is_digit c = false end.

Lemma leadingInt_digits ds rest x :
  forallb is_digit ds = true → no_digit rest → 0 ≤ x → dvalue x ds ≤ 2 ^ 63 → leadingInt (ds ++ rest) x = Some (dvalue x ds, rest).
Proof.
  revert x. induction ds as [|c ds IH]; intros x Hd Hr Hx Hle.
  - destruct rest as [|c rest]; [done|]. cbn in Hr |- *. by rewrite Hr.
  - cbn [forallb] in Hd. apply andb_prop in Hd as [Hc Hd]. pose proof (digit_range c Hc) as Hv.
    pose proof (dvalue_mono ds (x * 10 + digit_value c) Hd ltac:(lia)) as Hm.
    change (dvalue x (c :: ds)) with (dvalue (x * 10 + digit_value c) ds) in *.
    assert (Hpow : 1 ≤ 10 ^ Z.of_nat (length ds)) by (apply (Z.pow_le_mono_r 10 0); lia).
    assert (Hle' : x * 10 + digit_value c ≤ 2 ^ 63) by nia.
    cbn [app leadingInt]. rewrite Hc.
    rewrite (proj2 (Z.ltb_ge _ _)) by (apply Z.div_le_lower_bound; lia).
    cbv zeta. rewrite (proj2 (Z.ltb_ge _ _)) by done. apply IH; try done. lia.
Qed.

(** The scale after [k] digits. *)
Fixpoint scale (k : nat) : spec_float := match k with O => f64 1 | S k => f64_mul (scale k) (f64 10) end.

Lemma leadingFraction_digits ds rest x k :
  forallb is_digit ds = true → no_digit rest → 0 ≤ x → (x + 1) * 10 ^ Z.of_nat (length ds) ≤ 10 ^ 9 →
  leadingFraction (ds ++ rest) x (scale k) false = (dvalue x ds, scale (k + length ds), rest).
Proof.
  revert x k. induction ds as [|c ds IH]; intros x k Hd Hr Hx Hle.
  - rewrite Nat.add_0_r. destruct rest as [|c rest]; [done|]. cbn in Hr |- *. by rewrite Hr.
  - cbn [forallb] in Hd. apply andb_prop in Hd as [Hc Hd]. pose proof (digit_range c Hc) as Hv.
    cbn [length] in Hle. rewrite Nat2Z.inj_succ, Z.pow_succ_r in Hle by lia.
    assert (Hpow : 1 ≤ 10 ^ Z.of_nat (length ds)) by (apply (Z.pow_le_mono_r 10 0); lia).
    cbn [app leadingFraction]. rewrite Hc. cbn [negb].
    rewrite (proj2 (Z.ltb_ge _ _)) by (apply Z.div_le_lower_bound; nia).
    rewrite (proj2 (Z.ltb_ge _ _)) by nia.
    change (f64_mul (scale k) (f64 10)) with (scale (S k)). rewrite IH; [|done|done|nia|nia].
    cbn [length]. by rewrite Nat.add_succ_r.
Qed.

(** ** [fmtFrac] *)

Lemma fmtFrac_padded prec v acc :
  0 ≤ v → ∃ ds, fmtFrac_loop prec v true acc = (Byte.x2e :: ds ++ acc, v / 10 ^ Z.of_nat prec) ∧
    forallb is_digit ds = true ∧ length ds = prec ∧ dvalue 0 ds = v `mod` 10 ^ Z.of_nat prec.
Proof.
  revert v acc. induction prec as [|prec IH]; intros v acc Hv.
  - exists []. split_and!; [|done|done|]; cbn; by rewrite ?Z.div_1_r, ?Z.mod_1_r.
  - cbn [fmtFrac_loop orb]. pose proof (Z.mod_pos_bound v 10 ltac:(lia)) as Hm. destruct (digit_ok _ Hm) as [Hd Hval].
    destruct (IH (v / 10) (digit (v `mod` 10) :: acc)) as (ds & -> & Hds & Hl & Hdv); [apply Z.div_pos; lia|].
    assert (Hp : 10 ^ Z.of_nat (S prec) = 10 * 10 ^ Z.of_nat prec) by (rewrite Nat2Z.inj_succ, Z.pow_succ_r; lia).
    assert (Hp0 : 0 < 10 ^ Z.of_nat prec) by (apply Z.pow_pos_nonneg; lia).
    exists (ds ++ [digit (v `mod` 10)]). split_and!.
    + rewrite <-app_assoc, Hp, Z.div_div by lia. done.
    + rewrite forallb_app, Hds. cbn. by rewrite Hd.
    + rewrite length_app. cbn. lia.
    + unfold dvalue in *. rewrite foldl_app, Hdv. cbn. rewrite Hval, Hp, Z.rem_mul_r by lia. lia.
Qed.

(** What it prints is the fraction, in no more digits than the precision. *)
Lemma fmtFrac_spec prec v :
  0 ≤ v → ∃ ds, fmtFrac prec v = ((match ds with [] => [] | _ => Byte.x2e :: ds end), v / 10 ^ Z.of_nat prec) ∧
    forallb is_digit ds = true ∧ (length ds ≤ prec)%nat ∧ (ds ≠ [] → 0 < dvalue 0 ds) ∧
    dvalue 0 ds * 10 ^ (Z.of_nat prec - Z.of_nat (length ds)) = v `mod` 10 ^ Z.of_nat prec.
Proof.
  unfold fmtFrac. revert v. induction prec as [|prec IH]; intros v Hv.
  - exists []. split_and!; [|done|done|done|]; cbn; by rewrite ?Z.div_1_r, ?Z.mod_1_r.
  - cbn [fmtFrac_loop orb]. pose proof (Z.mod_pos_bound v 10 ltac:(lia)) as Hm. destruct (digit_ok _ Hm) as [Hd Hval].
    assert (Hp : 10 ^ Z.of_nat (S prec) = 10 * 10 ^ Z.of_nat prec) by (rewrite Nat2Z.inj_succ, Z.pow_succ_r; lia).
    assert (Hp0 : 0 < 10 ^ Z.of_nat prec) by (apply Z.pow_pos_nonneg; lia).
    destruct (Z.eqb_spec (v `mod` 10) 0) as [E|E]; cbn [negb].
    + destruct (IH (v / 10)) as (ds & -> & Hds & Hl & Hpos & Hdv); [apply Z.div_pos; lia|]. exists ds.
      split_and!; [by rewrite Hp, Z.div_div by lia|done|lia|done|].
      rewrite Hp, Z.rem_mul_r, E, <-Hdv by lia.
      replace (Z.of_nat (S prec) - Z.of_nat (length ds)) with (Z.succ (Z.of_nat prec - Z.of_nat (length ds))) by lia.
      rewrite Z.pow_succ_r by lia. lia.
    + destruct (fmtFrac_padded prec (v / 10) [digit (v `mod` 10)]) as (ds & -> & Hds & Hl & Hdv); [apply Z.div_pos; lia|].
      assert (Hval' : dvalue 0 (ds ++ [digit (v `mod` 10)]) = v `mod` 10 ^ Z.of_nat (S prec)).
      { unfold dvalue in *. rewrite foldl_app, Hdv. cbn. rewrite Hval, Hp, Z.rem_mul_r by lia. lia. }
      exists (ds ++ [digit (v `mod` 10)]). split_and!.
      * rewrite Hp, Z.div_div by lia. by destruct ds.
      * rewrite forallb_app, Hds. cbn. by rewrite Hd.
      * rewrite length_app. cbn. lia.
      * intros _. rewrite Hval', Hp, Z.rem_mul_r by lia. pose proof (Z.mod_pos_bound (v / 10) (10 ^ Z.of_nat prec) Hp0). lia.
      * rewrite Hval', length_app. cbn [length]. replace (Z.of_nat (S prec) - Z.of_nat (length ds + 1)) with 0 by lia. lia.
Qed.

(** ** The round trip *)

Lemma div_scale prec k :
  (prec = 3 ∨ prec = 6 ∨ prec = 9)%nat → (k ≤ prec)%nat →
  f64_div (f64 (10 ^ Z.of_nat prec)) (scale k) = f64 (10 ^ (Z.of_nat prec - Z.of_nat k)).
Proof.
  intros [->|[->| ->]] Hk; do 10 (destruct k as [|k]; [first [lia|vm_compute; reflexivity]|]); lia.
Qed.

Lemma unit_text_app u rest :
  forallb (λ c, negb (bool_decide (c = Byte.x2e) || is_digit c)) u = true →
  match rest with [] => True | c :: _ => bool_decide (c = Byte.x2e) || is_digit c = true end →
  unit_text (u ++ rest) = (u, rest).
Proof.
  intros Hu Hr. induction u as [|c u IH].
  - destruct rest as [|c rest]; [done|]. cbn. by rewrite Hr.
  - cbn [forallb] in Hu. apply andb_prop in Hu as [Hc Hu]. cbn [app unit_text].
    destruct (bool_decide (c = Byte.x2e) || is_digit c); [done|]. by rewrite IH.
Qed.

(** One part of a text: a whole number, perhaps a fraction, and a unit. *)
Lemma parse_part fuel v ds u unit rest d w :
  0 ≤ v → 0 < unit → v * unit + w ≤ 2 ^ 63 → 0 ≤ w → 0 ≤ d → d + (v * unit + w) ≤ 2 ^ 63 →
  forallb is_digit ds = true → (length ds ≤ 9)%nat →
  w = (if 0 <? dvalue 0 ds then f64_trunc (f64_mul (f64 (dvalue 0 ds)) (f64_div (f64 unit) (scale (length ds)))) else 0) →
  u ≠ [] → unitMap u = Some unit → forallb (λ c, negb (bool_decide (c = Byte.x2e) || is_digit c)) u = true →
  match rest with [] => True | c :: _ => bool_decide (c = Byte.x2e) || is_digit c = true end →
  parse_parts (S fuel) (FormatUint 10 v ++ (match ds with [] => [] | _ => Byte.x2e :: ds end) ++ u ++ rest) d =
    parse_parts fuel rest (d + (v * unit + w)).
Proof.
  intros Hv Hunit Hle Hw Hd Hsum Hds Hlen Ew Hu Em Hul Hrest.
  assert (Hv63 : v ≤ 2 ^ 63) by nia.
  destruct (FormatUint_digits v ltac:(lia)) as (Hf1 & Hf2 & Hf3).
  set (tail := (match ds with [] => [] | _ => Byte.x2e :: ds end) ++ u ++ rest).
  assert (Hnd : no_digit (u ++ rest)).
  { destruct u as [|c u]; [done|]. cbn in Hul |- *. apply andb_prop in Hul as [Hc _]. by destruct (is_digit c), (bool_decide _). }
  assert (Hnt : no_digit tail) by (unfold tail; destruct ds; done).
  destruct (FormatUint 10 v) as [|c0 fs] eqn:Ef; [done|]. cbn [parse_parts app].
  assert (Hc0 : is_digit c0 = true) by (cbn in Hf1; by apply andb_prop in Hf1 as [? _]).
  rewrite Hc0, orb_true_r. cbn [negb].
  change (c0 :: fs ++ tail) with ((c0 :: fs) ++ tail). rewrite leadingInt_digits by (rewrite ?Hf3; done). rewrite Hf3.
  replace (length tail =? length ((c0 :: fs) ++ tail))%nat with false
    by (symmetry; apply Nat.eqb_neq; rewrite length_app; cbn; lia).
  cbn [negb andb].
  assert (Hfrac : ∃ post, (match tail with
      | c :: s1' =>
          if decide (c = Byte.x2e) then
            let '(f, scale, s2) := leadingFraction s1' 0 (f64 1) false in
            (f, scale, s2, negb (length s2 =? length s1')%nat)
          else (0, f64 1, tail, false)
      | [] => (0, f64 1, tail, false)
      end) = (dvalue 0 ds, scale (length ds), u ++ rest, post)).
  { unfold tail. destruct ds as [|e ds].
    - destruct u as [|c u]; [done|]. cbn in Hul. apply andb_prop in Hul as [Hc _].
      cbn [app]. rewrite decide_False by (intros ->; done). by exists false.
    - cbn [app]. rewrite decide_True by done. change (f64 1) with (scale 0).
      change (e :: ds ++ u ++ rest) with ((e :: ds) ++ u ++ rest).
      rewrite leadingFraction_digits; [by eexists|done|done|lia|].
      rewrite Z.mul_1_l. apply Z.pow_le_mono_r; lia. }
  destruct Hfrac as [post ->]. rewrite unit_text_app by done. rewrite decide_False by done. rewrite Em.
  rewrite (proj2 (Z.ltb_ge _ _)) by (apply Z.div_le_lower_bound; nia).
  assert (Ev : (if 0 <? dvalue 0 ds then v * unit + f64_trunc (f64_mul (f64 (dvalue 0 ds)) (f64_div (f64 unit) (scale (length ds))))
    else v * unit) = v * unit + w) by (rewrite Ew; destruct (0 <? dvalue 0 ds); lia).
  cbv zeta. rewrite Ev. rewrite (proj2 (Z.ltb_ge (2 ^ 63) (v * unit + w))) by lia. rewrite andb_false_r.
  rewrite Z.mod_small by lia. by rewrite (proj2 (Z.ltb_ge _ _)) by lia.
Qed.

(** A text that a unit can follow, and be followed by. *)
Definition unit_ok (u : bytes) : Prop :=
  u ≠ [] ∧ forallb (λ c, negb (bool_decide (c = Byte.x2e) || is_digit c)) u = true.
Definition next_ok (rest : bytes) : Prop :=
  match rest with [] => True | c :: _ => bool_decide (c = Byte.x2e) || is_digit c = true end.

Lemma whole_part fuel v u unit rest d :
  0 ≤ v → 0 < unit → 0 ≤ d → d + v * unit ≤ 2 ^ 63 → unit_ok u → unitMap u = Some unit → next_ok rest →
  parse_parts (S fuel) (FormatUint 10 v ++ u ++ rest) d = parse_parts fuel rest (d + v * unit).
Proof.
  intros Hv Hunit Hd Hle [Hu1 Hu2] Em Hr. rewrite <-(Z.add_0_r (v * unit)).
  apply (parse_part fuel v [] u unit rest d 0); try done; cbn; lia.
Qed.

Lemma frac_part fuel prec v x u rest d :
  (prec = 3 ∨ prec = 6 ∨ prec = 9)%nat → 0 ≤ v → 0 ≤ x → 0 ≤ d →
  d + (v * 10 ^ Z.of_nat prec + x `mod` 10 ^ Z.of_nat prec) ≤ 2 ^ 63 →
  unit_ok u → unitMap u = Some (10 ^ Z.of_nat prec) → next_ok rest →
  parse_parts (S fuel) (FormatUint 10 v ++ (fmtFrac prec x).1 ++ u ++ rest) d =
    parse_parts fuel rest (d + (v * 10 ^ Z.of_nat prec + x `mod` 10 ^ Z.of_nat prec)).
Proof.
  intros Hp Hv Hx Hd Hle [Hu1 Hu2] Em Hr.
  destruct (fmtFrac_spec prec x Hx) as (ds & E & Hds & Hl & Hpos & Hval). rewrite E. cbn [fst].
  assert (Hunit : 0 < 10 ^ Z.of_nat prec) by (apply Z.pow_pos_nonneg; lia).
  assert (Hmod := Z.mod_pos_bound x (10 ^ Z.of_nat prec) Hunit).
  apply parse_part; try done; try nia; try lia.
  destruct (Z.ltb_spec 0 (dvalue 0 ds)) as [HD|HD].
  - rewrite div_scale, <-Hval by done. rewrite f64_mul_whole; [done|done|apply Z.pow_pos_nonneg; lia|].
    rewrite Hval. apply Z.lt_le_trans with (10 ^ Z.of_nat prec); [lia|].
    by destruct Hp as [->|[->| ->]].
  - destruct ds as [|c ds]; [|specialize (Hpos ltac:(done)); lia]. rewrite <-Hval. done.
Qed.

Lemma starts_digit n rest : 0 ≤ n ≤ 2 ^ 64 → next_ok (FormatUint 10 n ++ rest) ∧
  ∃ c t, FormatUint 10 n ++ rest = c :: t ∧ is_digit c = true.
Proof.
  intros Hn. destruct (FormatUint_digits n Hn) as (H1 & H2 & _).
  destruct (FormatUint 10 n) as [|c t]; [done|]. cbn in H1. apply andb_prop in H1 as [Hc _].
  split; [cbn; by rewrite Hc, orb_true_r|]. by exists c, (t ++ rest).
Qed.

(** The text of a duration without its sign. *)
Definition magnitude (u : Z) : bytes :=
  let with_unit (prec : nat) (unit : bytes) := let '(f, v) := fmtFrac prec u in FormatUint 10 v ++ f ++ unit in
  if u <? 10 ^ 3 then with_unit O (str "ns")
  else if u <? 10 ^ 6 then with_unit 3%nat [Byte.xc2; Byte.xb5; Byte.x73]
  else if u <? 10 ^ 9 then with_unit 6%nat (str "ms")
  else
    let '(f, v) := fmtFrac 9 u in
    let secs := FormatUint 10 (v `mod` 60) ++ f ++ str "s" in
    let m := v / 60 in
    (if 0 <? m then
       let h := m / 60 in
       (if 0 <? h then FormatUint 10 h ++ str "h" else []) ++ FormatUint 10 (m `mod` 60) ++ str "m"
     else []) ++ secs.

Lemma Duration_String_magnitude d :
  d ≠ 0 → Duration_String d = (if d <? 0 then [Byte.x2d] else []) ++ magnitude (Z.abs d).
Proof.
  intros Hd. unfold Duration_String, magnitude. rewrite (proj2 (Z.eqb_neq _ _)) by lia.
  repeat case_match; done.
Qed.

Lemma fmtFrac_value prec v : 0 ≤ v → (fmtFrac prec v).2 = v / 10 ^ Z.of_nat prec.
Proof. intros Hv. by destruct (fmtFrac_spec prec v Hv) as (ds & -> & _). Qed.

Lemma more_fuel f f' s d r : parse_parts f s d = Ok r → (f ≤ f')%nat → parse_parts f' s d = Ok r.
Proof.
  revert f' s d. induction f as [|f IH]; intros f' s d H Hle; [done|]. destruct f' as [|f']; [lia|].
  cbn [parse_parts] in *. destruct s as [|c s]; [done|].
  repeat (case_match; try done); (apply IH; [done|lia]).
Qed.

Lemma no_parts f d : parse_parts (S f) [] d = Ok d.
Proof. done. Qed.

Lemma long_enough n rest : 0 ≤ n ≤ 2 ^ 64 → (1 + length rest ≤ length (FormatUint 10 n ++ rest))%nat.
Proof.
  intros Hn. destruct (FormatUint_digits n Hn) as (_ & H & _). rewrite length_app.
  destruct (FormatUint 10 n); [done|]. cbn. lia.
Qed.

(** What is to be shown of a part. *)
Ltac part_side := first [apply starts_digit; lia|lia|by split|reflexivity|apply Z.mod_pos_bound; lia|exact I|tauto|done].

(** Seconds, with their fraction, are what is left of a duration. *)
Lemma seconds_part fuel u d :
  0 ≤ u ≤ 2 ^ 63 → 0 ≤ d → d + ((u / 10 ^ 9) `mod` 60 * 10 ^ 9 + u `mod` 10 ^ 9) ≤ 2 ^ 63 →
  parse_parts (S (S fuel)) (FormatUint 10 ((u / 10 ^ 9) `mod` 60) ++ (fmtFrac 9 u).1 ++ str "s") d =
    Ok (d + ((u / 10 ^ 9) `mod` 60 * 10 ^ 9 + u `mod` 10 ^ 9)).
Proof.
  intros Hu Hd Hle. rewrite <-(app_nil_r (str "s")).
  rewrite (frac_part (S fuel) 9 _ u (str "s") []); part_side.
Qed.

Lemma magnitude_parses u : 0 < u ≤ 2 ^ 63 → ∃ f, parse_parts f (magnitude u) 0 = Ok u ∧ (f ≤ S (length (magnitude u)))%nat ∧
  ∃ c t, magnitude u = c :: t ∧ is_digit c = true ∧ t ≠ [].
Proof.
  intros Hu.
  assert (Hfirst : ∀ n rest, 0 ≤ n ≤ 2 ^ 64 → rest ≠ [] →
    ∃ c t, FormatUint 10 n ++ rest = c :: t ∧ is_digit c = true ∧ t ≠ []).
  { intros n rest Hn Hr. destruct (FormatUint_digits n Hn) as (H1 & H2 & _).
    destruct (FormatUint 10 n) as [|c t]; [done|]. cbn in H1. apply andb_prop in H1 as [Hc _].
    exists c, (t ++ rest). split_and!; [done|done|]. by destruct t, rest. }
  assert (Hone : ∀ prec un, (prec = 3 ∨ prec = 6)%nat → unit_ok un → unitMap un = Some (10 ^ Z.of_nat prec) →
    let s := FormatUint 10 (fmtFrac prec u).2 ++ (fmtFrac prec u).1 ++ un in
    ∃ f, parse_parts f s 0 = Ok u ∧ (f ≤ S (length s))%nat ∧ ∃ c t, s = c :: t ∧ is_digit c = true ∧ t ≠ []).
  { intros prec un Hp Hun Em. cbn zeta. rewrite fmtFrac_value by lia.
    assert (Hpos : 0 < 10 ^ Z.of_nat prec) by (apply Z.pow_pos_nonneg; lia).
    assert (Hdm := Z.div_mod u (10 ^ Z.of_nat prec) ltac:(lia)). assert (Hm := Z.mod_pos_bound u _ Hpos).
    assert (Hq : 0 ≤ u / 10 ^ Z.of_nat prec) by (apply Z.div_pos; lia).
    assert (Hq2 : u / 10 ^ Z.of_nat prec ≤ u) by (apply Z.div_le_upper_bound; nia).
    exists 2%nat. split; [|split].
    - rewrite <-(app_nil_r un). rewrite (frac_part 1 prec _ u un []) by part_side.
      rewrite no_parts. f_equal. lia.
    - pose proof (long_enough (u / 10 ^ Z.of_nat prec) ((fmtFrac prec u).1 ++ un) ltac:(lia)). lia.
    - apply Hfirst; [lia|]. destruct Hun as [Hun _]. intros [_ ?]%app_eq_nil. done. }
  unfold magnitude.
  destruct (Z.ltb_spec u (10 ^ 3)).
  { cbn [fmtFrac fmtFrac_loop]. exists 2%nat. change (if false then _ else _) with (@nil byte). split; [|split].
    - rewrite <-(app_nil_r (str "ns")). cbn [app]. rewrite (whole_part 1 u (str "ns") 1 []) by part_side.
      rewrite no_parts. f_equal. lia.
    - pose proof (long_enough u (str "ns") ltac:(lia)). cbn [app] in *. lia.
    - by apply Hfirst; [lia|]. }
  destruct (Z.ltb_spec u (10 ^ 6)).
  { specialize (Hone 3%nat [Byte.xc2; Byte.xb5; Byte.x73] ltac:(tauto) ltac:(by split) eq_refl).
    by destruct (fmtFrac 3 u). }
  destruct (Z.ltb_spec u (10 ^ 9)).
  { specialize (Hone 6%nat (str "ms") ltac:(tauto) ltac:(by split) eq_refl). by destruct (fmtFrac 6 u). }
  pose proof (seconds_part) as Hsec. pose proof (fmtFrac_value 9 u ltac:(lia)) as Hv. change (Z.of_nat 9) with 9 in Hv.
  destruct (fmtFrac 9 u) as [f v] eqn:Ef. cbn [snd] in Hv. subst v.
  assert (Hdm := Z.div_mod u (10 ^ 9) ltac:(lia)). assert (Hm := Z.mod_pos_bound u (10 ^ 9) ltac:(lia)).
  assert (Hs := Z.div_mod (u / 10 ^ 9) 60 ltac:(lia)). assert (Hsm := Z.mod_pos_bound (u / 10 ^ 9) 60 ltac:(lia)).
  assert (Hh := Z.div_mod (u / 10 ^ 9 / 60) 60 ltac:(lia)). assert (Hhm := Z.mod_pos_bound (u / 10 ^ 9 / 60) 60 ltac:(lia)).
  set (q := u / 10 ^ 9) in *. set (m := q / 60) in *. set (h := m / 60) in *.
  set (secs := FormatUint 10 (q `mod` 60) ++ f ++ str "s").
  assert (Hsecs : ∀ fuel d, 0 ≤ d → d + (q `mod` 60 * 10 ^ 9 + u `mod` 10 ^ 9) ≤ 2 ^ 63 →
    parse_parts (S (S fuel)) secs d = Ok (d + (q `mod` 60 * 10 ^ 9 + u `mod` 10 ^ 9))).
  { intros fuel d Hd0 Hle. pose proof (Hsec fuel u d ltac:(lia) Hd0 Hle) as E. rewrite Ef in E. exact E. }
  assert (Hq0 : 0 ≤ q) by (apply Z.div_pos; lia). assert (Hm0 : 0 ≤ m) by (apply Z.div_pos; lia).
  assert (Hh0 : 0 ≤ h) by (apply Z.div_pos; lia).
  assert (Hls : (2 ≤ length secs)%nat).
  { pose proof (long_enough (q `mod` 60) (f ++ str "s") ltac:(lia)) as Hl.
    assert (length (f ++ str "s") = (length f + 1)%nat) by (rewrite length_app; reflexivity). unfold secs. lia. }
  assert (Hlu : ∀ (c : byte) (rest : bytes), length ([c] ++ rest) = S (length rest)) by done.
  destruct (Z.ltb_spec 0 m) as [Hmp|Hmp].
  - destruct (Z.ltb_spec 0 h) as [Hhp|Hhp].
    + exists 4%nat. rewrite <-!app_assoc. split; [|split].
      * rewrite (whole_part 3 h (str "h") (3600 * 10 ^ 9)) by part_side.
        rewrite (whole_part 2 (m `mod` 60) (str "m") (60 * 10 ^ 9)) by part_side.
        rewrite Hsecs by lia. f_equal. lia.
      * pose proof (long_enough h (str "h" ++ FormatUint 10 (m `mod` 60) ++ str "m" ++ secs) ltac:(lia)) as Hl.
        change (str "h") with [Byte.x68] in *. rewrite Hlu in Hl.
        pose proof (long_enough (m `mod` 60) (str "m" ++ secs) ltac:(lia)). lia.
      * apply Hfirst; [lia|done].
    + exists 3%nat. cbn [app]. rewrite <-!app_assoc. split; [|split].
      * rewrite (whole_part 2 (m `mod` 60) (str "m") (60 * 10 ^ 9)) by part_side.
        rewrite Hsecs by lia. f_equal. lia.
      * pose proof (long_enough (m `mod` 60) (str "m" ++ secs) ltac:(lia)) as Hl.
        change (str "m") with [Byte.x6d] in *. rewrite Hlu in Hl. lia.
      * apply Hfirst; [lia|done].
  - exists 2%nat. cbn [app]. split; [|split].
    + rewrite Hsecs by lia. f_equal. lia.
    + lia.
    + apply Hfirst; [lia|]. by destruct f.
Qed.

Lemma Duration_String_ne d : - 2 ^ 63 ≤ d ≤ 2 ^ 63 → Duration_String d ≠ [].
Proof.
  intros Hd. destruct (decide (d = 0)) as [->|Hne]; [done|]. rewrite Duration_String_magnitude by done.
  destruct (magnitude_parses (Z.abs d)) as (_ & _ & _ & c & t & -> & _); [lia|]. by destruct (d <? 0).
Qed.

(** A duration is read back from its text, the shortest and the longest too. *)
Theorem ParseDuration_String d : - 2 ^ 63 ≤ d < 2 ^ 63 → ParseDuration (Duration_String d) = Ok d.
Proof.
  intros Hd. destruct (decide (d = 0)) as [->|Hne]; [vm_compute; reflexivity|].
  rewrite Duration_String_magnitude by done.
  destruct (magnitude_parses (Z.abs d)) as (f & Hp & Hn & c & t & E & Hc & Ht); [lia|].
  apply (more_fuel _ (S (length (magnitude (Z.abs d))))) in Hp; [|done].
  assert (Hnz : magnitude (Z.abs d) ≠ str "0") by (rewrite E; by destruct t).
  assert (Hnn : magnitude (Z.abs d) ≠ []) by (rewrite E; done).
  unfold ParseDuration. destruct (Z.ltb_spec d 0).
  - cbn [app]. rewrite decide_True, decide_False, decide_False, Hp by done. f_equal. lia.
  - cbn [app]. rewrite E in *. rewrite (decide_False (P := c = Byte.x2d)), (decide_False (P := c = Byte.x2b)) by (by intros ->).
    rewrite decide_False, decide_False, Hp by done. rewrite (proj2 (Z.ltb_ge _ _)) by lia. f_equal. lia.
Qed.
