(* ===== verification/Hosts.v ===== *)
(** * Hosts: the managed block of the hosts file (internal/etchosts/etchosts.go)

    [writeEntries] as a function from the old contents to the new, and
    [WriteEntries] as a program over the file system: the new contents go to a
    temporary file that is moved over the hosts file, or copied into it where
    it cannot be moved. *)

From S2P Require Import Prelude GoStrings Prog.

(** ** More of [strings] and [bufio] *)

Definition nl : byte := Byte.x0a.
Definition cr : byte := Byte.x0d.
Definition tab : byte := Byte.x09.
Definition space : byte := Byte.x20.

(** [strings.HasSuffix] *)
Definition HasSuffix (s suffix : bytes) : bool := bool_decide (suffix `suffix_of` s).

(** The text up to the first white space. *)
Fixpoint until_space (t : bytes) : bytes :=
  match strip_one spaces t, t with
  | None, c :: t' => c :: until_space t'
  | _, _ => []
  end.

(** [strings.Fields] *)
Fixpoint fields_from (fuel : nat) (t : bytes) : list bytes :=
  match fuel with
  | O => []
  | S n =>
      match trim_left (length t) spaces t with
      | [] => []
      | t => let f := until_space t in f :: fields_from n (drop (length f) t)
      end
  end.
Definition Fields (t : bytes) : list bytes := fields_from (length t) t.

(** [strings.Join] *)
Fixpoint Join_strings (l : list bytes) (sep : bytes) : bytes :=
  match l with
  | [] => []
  | [s] => s
  | s :: l => s ++ sep ++ Join_strings l sep
  end.

(** The lines of a text, without their ends: [bufio.ScanLines] drops the
    newline and a carriage return before it. *)
Fixpoint lines_from (line : bytes) (t : bytes) : list bytes :=
  match t with
  | [] => if decide (line = []) then [] else [reverse line]
  | c :: t => if decide (c = nl) then reverse line :: lines_from [] t else lines_from (c :: line) t
  end.
Definition raw_lines (t : bytes) : list bytes := lines_from [] t.
Definition dropCR (line : bytes) : bytes :=
  match reverse line with
  | c :: l => if decide (c = cr) then reverse l else line
  | [] => line
  end.
(** A line that does not fit the scanner's buffer is an error. *)
Definition MaxScanTokenSize : nat := 64 * 1024.
Definition ScanLines (t : bytes) : result (list bytes) :=
  if forallb (λ l, Nat.ltb (length l) MaxScanTokenSize) (raw_lines t) then Ok (map dropCR (raw_lines t))
  else Err "bufio.Scanner: token too long".

(** [fmt.Fprintln] of each line. *)
Definition println (l : list bytes) : bytes := l ≫= (λ line, line ++ [nl]).

(** ** [writeEntries] *)

Abbreviation entries := (gmap bytes (list bytes)).

Definition defaultBanner : bytes := str "# ! MANAGED AUTOMATICALLY !".

(** The [EtcHosts] fields that say what is written. *)
Record EtcHosts := MkEtcHosts { eh_Banner : bytes; eh_Path : bytes }.

Definition banner_of (eh : EtcHosts) : bytes :=
  if decide (eh_Banner eh = []) then defaultBanner else eh_Banner eh.

(** [writeEntryWithBanner]: the line written, if any. *)
Definition writeEntryWithBanner (banner ip : bytes) (names : list bytes) : list bytes :=
  if decide (ip = [] ∨ names = []) then []
  else [ip ++ [tab] ++ Join_strings names [space] ++ [tab] ++ banner].

Definition managed (banner line : bytes) : bool := HasSuffix (TrimSpace line) (TrimSpace banner).

(** The loop over the lines: the lines written and the addresses done.
    [Fields(line)[0]] panics if there are no fields: no answer. *)
Fixpoint rewrite_lines (banner : bytes) (ipsToNames : entries) (written : gset bytes)
    (lines : list bytes) : option (list bytes * gset bytes) :=
  match lines with
  | [] => Some ([], written)
  | line :: lines =>
      if negb (managed banner line) then
        '(out, written) ← rewrite_lines banner ipsToNames written lines;
        Some (line :: out, written)
      else
        ip ← head (Fields line);
        match ipsToNames !! ip with
        | Some names =>
            if decide (ip ∈ written) then rewrite_lines banner ipsToNames written lines
            else
              '(out, written) ← rewrite_lines banner ipsToNames ({[ip]} ∪ written) lines;
              Some (writeEntryWithBanner banner ip names ++ out, written)
        | None => rewrite_lines banner ipsToNames written lines
        end
  end.

(** The loop over the map, in the order Go happens to take. *)
Fixpoint append_new (banner : bytes) (written : gset bytes) (order : list (bytes * list bytes))
    : list bytes :=
  match order with
  | [] => []
  | (ip, names) :: order =>
      (if decide (ip ∈ written) then [] else writeEntryWithBanner banner ip names) ++
      append_new banner written order
  end.

Definition rewrite_all (banner : bytes) (ipsToNames : entries) (order : list (bytes * list bytes))
    (lines : list bytes) : option (list bytes) :=
  '(out, written) ← rewrite_lines banner ipsToNames ∅ lines;
  Some (out ++ append_new banner written order).

(** What [writeEntries] flushes to [dest]; no answer if it panics. *)
Definition writeEntries (eh : EtcHosts) (orig : bytes) (ipsToNames : entries)
    (order : list (bytes * list bytes)) : option (result bytes) :=
  match ScanLines orig with
  | Err e => Some (Err e)
  | Ok lines => (Ok ∘ println) <$> rewrite_all (banner_of eh) ipsToNames order lines
  end.

(** [hostsFor] of internal/cli: the block of one interface. *)
Definition hostsFor (iface : bytes) : EtcHosts :=
  MkEtcHosts (str "# ! managed automatically by cheesecloth interface " ++ iface) [].

(** ** [WriteEntries] *)

Inductive hostsE : Type → Type :=
  | OpenHosts : hostsE (option bytes)        (* open the hosts file; its contents *)
  | CreateTemp : hostsE bool
  | WriteTemp (b : bytes) : hostsE bool
  | SyncTemp : hostsE bool
  | StatHosts : hostsE bool
  | ChmodTemp : hostsE bool
  | ChownTemp : hostsE bool                  (* keepOwner *)
  | RenameTemp : hostsE bool                 (* over the hosts file *)
  | SeekTemp : hostsE bool
  | SeekHosts : hostsE bool
  | TruncateHosts : hostsE bool
  | CopyToHosts : hostsE bool                (* the temporary file's contents *)
  | SyncHosts : hostsE bool
  | RemoveTemp : hostsE bool.                (* close and remove *)

Section WriteEntries.
Local Open Scope prog_scope.

Definition movePreservePerms : prog hostsE (result unit) :=
  let* ok := trigger SyncTemp in
  check ok else "could not sync changes" in
  let* ok := trigger StatHosts in
  check ok else "could not stat" in
  let* ok := trigger ChmodTemp in
  check ok else "could not chmod" in
  let* _ := trigger ChownTemp in
  let* ok := trigger RenameTemp in
  if (ok : bool) then Ret (Ok ())
  else
    let* ok := trigger SeekTemp in
    check ok else "seek" in
    let* ok := trigger SeekHosts in
    check ok else "seek" in
    let* ok := trigger TruncateHosts in
    check ok else "truncate" in
    let* ok := trigger CopyToHosts in
    check ok else "copy" in
    let* ok := trigger SyncHosts in
    Ret (if (ok : bool) then Ok () else Err "sync").

(** The deferred close and removal of the temporary file run on every return
    once it was created; a panic of [writeEntries] is an error here. *)
Definition WriteEntries (eh : EtcHosts) (ipsToNames : entries) (order : list (bytes * list bytes))
    : prog hostsE (result unit) :=
  let* file := trigger OpenHosts in
  match file with
  | None => Ret (Err "could not open for reading")
  | Some orig =>
      let* ok := trigger CreateTemp in
      check ok else "could not create tempfile" in
      let* r :=
        match writeEntries eh orig ipsToNames order with
        | None => Ret (Err "panic")
        | Some (Err e) => Ret (Err e)
        | Some (Ok out) =>
            let* ok := trigger (WriteTemp out) in
            check ok else "error writing hosts file" in
            movePreservePerms
        end in
      let* _ := trigger RemoveTemp in
      Ret r
  end.
End WriteEntries.
