(* ===== verification/HostsProps.v ===== *)
(** * HostsProps: what the hosts file writer guarantees

    The managed block comes out as exactly the entries asked for, everything
    else stays line by line, writing the same entries again changes nothing,
    the blocks of two interfaces do not touch, and the hosts file is replaced
    as a whole unless it cannot be renamed over. *)

From S2P Require Import Prelude GoStrings Prog Hosts.

(** ** Words, and the ends of a text *)

Definition word (t : bytes) : Prop := t ≠ [] ∧ forallb plain t = true.

(** A banner: text between two visible characters, on one line. *)
Definition good_banner (b : bytes) : Prop :=
  (∃ c t, b = c :: t ∧ plain c = true) ∧ (∃ t d, b = t ++ [d] ∧ plain d = true) ∧ nl ∉ b.

Lemma TrimSpace_ends c t u d :
  c :: t = u ++ [d] → plain c = true → plain d = true → TrimSpace (c :: t) = c :: t.
Proof.
  intros E Hc Hd. destruct spaces_not_plain as [H1 H2]. unfold TrimSpace.
  rewrite (trim_left_plain (length (c :: t)) spaces) by done.
  rewrite E at 2. rewrite reverse_snoc, trim_left_plain by done.
  rewrite <- reverse_snoc, <- E. apply reverse_involutive.
Qed.

Lemma TrimSpace_banner b : good_banner b → TrimSpace b = b.
Proof. intros ((c & t & -> & Hc) & (u & d & E & Hd) & _). by eapply TrimSpace_ends. Qed.

Lemma word_cons t : word t → ∃ c t', t = c :: t' ∧ plain c = true.
Proof. intros [Hne Hp]. destruct t as [|c t']; [done|]. apply andb_true_iff in Hp as [? _]. eauto. Qed.

Lemma word_not_in t c : word t → plain c = false → c ∉ t.
Proof.
  intros [_ Hp] Hc Hin. rewrite forallb_forall in Hp.
  apply list_elem_of_In, Hp in Hin. congruence.
Qed.

Lemma until_space_plain t c u :
  forallb plain t = true → is_Some (strip_one spaces (c :: u)) → until_space (t ++ c :: u) = t.
Proof.
  intros Ht [v Hv]. induction t as [|d t IH]; cbn [until_space app].
  - by rewrite Hv.
  - apply andb_true_iff in Ht as [Hd Ht]. rewrite plain_not_strip; [|apply spaces_not_plain|done].
    by rewrite IH.
Qed.

(** ** Lines *)

Lemma lines_from_app line l t :
  nl ∉ l → lines_from line (l ++ nl :: t) = reverse (reverse l ++ line) :: lines_from [] t.
Proof.
  revert line. induction l as [|c l IH]; intros line Hl; cbn [app lines_from].
  - by rewrite decide_True.
  - rewrite decide_False by set_solver. rewrite IH by set_solver. do 2 f_equal.
    by rewrite reverse_cons, <- app_assoc.
Qed.

Lemma raw_lines_println ls : Forall (λ l, nl ∉ l) ls → raw_lines (println ls) = ls.
Proof.
  unfold raw_lines, println. induction 1 as [|l ls Hl Hls IH]; [done|].
  cbn [mbind list_bind]. rewrite <- app_assoc. cbn [app]. rewrite lines_from_app by done.
  rewrite app_nil_r, reverse_involutive, IH. done.
Qed.

Lemma raw_lines_no_nl t line : nl ∉ line → Forall (λ l, nl ∉ l) (lines_from line t).
Proof.
  revert line. induction t as [|c t IH]; intros line Hl; cbn [lines_from].
  - case_decide; constructor; [|constructor]. by rewrite elem_of_reverse.
  - case_decide as Hc.
    + constructor; [by rewrite elem_of_reverse|]. apply IH. set_solver.
    + apply IH. set_solver.
Qed.

Lemma raw_lines_no_cr t line : cr ∉ t → cr ∉ line → Forall (λ l, cr ∉ l) (lines_from line t).
Proof.
  revert line. induction t as [|c t IH]; intros line Ht Hl; cbn [lines_from].
  - case_decide; constructor; [|constructor]. by rewrite elem_of_reverse.
  - case_decide as Hc.
    + constructor; [by rewrite elem_of_reverse|]. apply IH; set_solver.
    + apply IH; set_solver.
Qed.

Lemma dropCR_id l : cr ∉ l → dropCR l = l.
Proof.
  intros H. unfold dropCR. destruct (reverse l) as [|c u] eqn:E; [done|].
  rewrite decide_False; [done|]. intros ->. apply H. rewrite <- elem_of_reverse, E. left.
Qed.

Lemma map_dropCR_id ls : Forall (λ l, cr ∉ l) ls → map dropCR ls = ls.
Proof. induction 1 as [|l ls Hl _ IH]; [done|]. cbn. by rewrite dropCR_id, IH. Qed.

Definition fits (l : bytes) : Prop := (length l < MaxScanTokenSize)%nat.

Lemma ScanLines_println ls :
  Forall (λ l, nl ∉ l ∧ cr ∉ l ∧ fits l) ls → ScanLines (println ls) = Ok ls.
Proof.
  intros H. unfold ScanLines. rewrite raw_lines_println by (eapply Forall_impl; [exact H|naive_solver]).
  assert (forallb (λ l, Nat.ltb (length l) MaxScanTokenSize) ls = true) as ->.
  { apply forallb_forall. intros l Hl%list_elem_of_In. rewrite Forall_forall in H.
    apply Nat.ltb_lt, (H l Hl). }
  rewrite map_dropCR_id; [done|]. eapply Forall_impl; [exact H|naive_solver].
Qed.

Lemma ScanLines_lines t ls :
  ScanLines t = Ok ls → cr ∉ t → Forall (λ l, nl ∉ l ∧ cr ∉ l ∧ fits l) ls.
Proof.
  unfold ScanLines. intros H Hcr. destruct (forallb _ (raw_lines t)) eqn:E; simplify_eq.
  pose proof (raw_lines_no_nl t [] ltac:(set_solver)) as Hnl.
  pose proof (raw_lines_no_cr t [] Hcr ltac:(set_solver)) as Hc.
  rewrite map_dropCR_id by done. fold (raw_lines t) in Hnl, Hc.
  rewrite Forall_forall in *. rewrite forallb_forall in E. intros l Hl.
  split_and!; [auto|auto|]. apply Nat.ltb_lt, E, list_elem_of_In, Hl.
Qed.

(** ** Managed lines *)

Definition entry (banner ip : bytes) (names : list bytes) : bytes :=
  ip ++ [tab] ++ Join_strings names [space] ++ [tab] ++ banner.

Lemma entry_ends banner ip names :
  good_banner banner → word ip →
  ∃ c t u d, entry banner ip names = c :: t ∧ entry banner ip names = u ++ [d] ∧
    plain c = true ∧ plain d = true.
Proof.
  intros (_ & (u & d & -> & Hd) & _) Hip. destruct (word_cons ip Hip) as (c & t & -> & Hc).
  eexists c, _, ((c :: t) ++ [tab] ++ Join_strings names [space] ++ [tab] ++ u), d.
  split_and!; [reflexivity| |done|done]. unfold entry. by rewrite <- !app_assoc.
Qed.

Lemma entry_managed banner ip names :
  good_banner banner → word ip → managed banner (entry banner ip names) = true.
Proof.
  intros Hb Hip. unfold managed, HasSuffix. apply bool_decide_eq_true_2.
  destruct (entry_ends banner ip names Hb Hip) as (c & t & u & d & E & E2 & Hc & Hd).
  rewrite TrimSpace_banner, E, (TrimSpace_ends c t u d), <- E by congruence.
  exists (ip ++ [tab] ++ Join_strings names [space] ++ [tab]). unfold entry. by rewrite <- !app_assoc.
Qed.

Lemma entry_first banner ip names : word ip → head (Fields (entry banner ip names)) = Some ip.
Proof.
  intros Hip. pose proof Hip as [_ Hp]. destruct (word_cons ip Hip) as (c & t & -> & Hc).
  unfold entry, Fields. set (u := Join_strings names [space] ++ [tab] ++ banner).
  destruct spaces_not_plain as [H1 _].
  change (head (fields_from (S (length (t ++ tab :: u))) (c :: t ++ tab :: u)) = Some (c :: t)).
  cbn [fields_from]. rewrite trim_left_plain by done. cbn [head].
  f_equal. apply (until_space_plain (c :: t) tab u Hp). by eexists.
Qed.

(** With a proper banner the line's first field is there. *)
Lemma managed_has_field banner line :
  good_banner banner → managed banner line = true → is_Some (head (Fields line)).
Proof.
  intros Hb Hm%bool_decide_eq_true. rewrite (TrimSpace_banner banner Hb) in Hm.
  unfold Fields. destruct line as [|c t].
  - destruct Hm as [x Hx]. destruct Hb as ((c & t & -> & _) & _). by destruct x.
  - cbn [length fields_from]. destruct (trim_left (S (length t)) spaces (c :: t)) as [|d u] eqn:E; [|by eexists].
    exfalso. unfold TrimSpace in Hm. cbn [length] in Hm. rewrite E in Hm. cbn in Hm.
    destruct Hm as [x Hx]. destruct Hb as ((c' & t' & -> & _) & _). by destruct x.
Qed.

(** ** The lines written *)

(** A line of the new file: one that was kept, or an entry. *)
Inductive item :=
  | Kept (line : bytes)
  | Entry (ip : bytes) (names : list bytes).

Definition render (banner : bytes) (i : item) : bytes :=
  match i with Kept line => line | Entry ip names => entry banner ip names end.

Definition kept_of (items : list item) : list bytes :=
  items ≫= (λ i, match i with Kept line => [line] | Entry _ _ => [] end).
Definition ips_of (items : list item) : list bytes :=
  items ≫= (λ i, match i with Kept _ => [] | Entry ip _ => [ip] end).

Section Block.
Variables (banner : bytes) (m : entries).
Context (Hbanner : good_banner banner).

Definition unmanaged (lines : list bytes) : list bytes :=
  filter (λ l, managed banner l = false) lines.

(** The items written for some lines, when the addresses of [written] were
    done before and those of [written'] are afterwards. *)
Record block (items : list item) (lines : list bytes) (written written' : gset bytes) : Prop := {
  bl_kept : kept_of items = unmanaged lines;
  bl_nodup : NoDup (ips_of items);
  bl_fresh ip : ip ∈ ips_of items → ip ∉ written ∧ ip ∈ written';
  bl_entry ip names : Entry ip names ∈ items → m !! ip = Some names ∧ ip ≠ [] ∧ names ≠ [];
  bl_mono : written ⊆ written';
  bl_done ip names : ip ∈ written' → m !! ip = Some names → ip ≠ [] → names ≠ [] →
    ip ∈ written ∨ Entry ip names ∈ items;
}.

Lemma elem_of_ips ip items : ip ∈ ips_of items ↔ ∃ names, Entry ip names ∈ items.
Proof.
  unfold ips_of. rewrite list_elem_of_bind. split.
  - intros ([line|ip' names] & Hi & Hin); [by apply elem_of_nil in Hi|].
    apply list_elem_of_singleton in Hi as ->. eauto.
  - intros [names Hin]. eexists. split; [|exact Hin]. by apply list_elem_of_singleton.
Qed.

Lemma writeEntry_cases ip names :
  writeEntryWithBanner banner ip names = map (render banner)
    (if decide (ip = [] ∨ names = []) then [] else [Entry ip names]).
Proof. unfold writeEntryWithBanner. by case_decide. Qed.

Lemma rewrite_lines_block lines written out written' :
  rewrite_lines banner m written lines = Some (out, written') →
  ∃ items, out = map (render banner) items ∧ block items lines written written'.
Proof.
  revert written out written'. induction lines as [|line lines IH]; intros written out written'; cbn.
  { intros [= <- <-]. exists []. split; [done|].
    split; cbn; [done|constructor|by intros ? ?%elem_of_nil|by intros ? ? ?%elem_of_nil|done|auto]. }
  destruct (managed banner line) eqn:Em; cbn [negb].
  - destruct (head (Fields line)) as [ip|]; cbn; [|done].
    assert (Hskip : unmanaged (line :: lines) = unmanaged lines).
    { unfold unmanaged. by rewrite filter_cons_False by congruence. }
    destruct (m !! ip) as [names|] eqn:Ei.
    + case_decide as Hw.
      * intros (items & -> & [])%IH. exists items. split; [done|]. split; rewrite ?Hskip; done.
      * destruct (rewrite_lines banner m _ lines) as [[out1 w1]|] eqn:Er; cbn; [|done].
        intros [= <- <-]. apply IH in Er as (items & -> & [H1 H2 H3 H4 H5 H6]).
        rewrite writeEntry_cases, <- map_app.
        eexists. split; [reflexivity|]. case_decide as Hempty.
        -- cbn [app]. constructor; [by rewrite Hskip|done| |done| |].
           ++ intros i Hi. destruct (H3 i Hi) as [Hx Hy]. split; [|done].
              intros Hz. by apply Hx, elem_of_union_r.
           ++ etrans; [apply union_subseteq_r|exact H5].
           ++ intros ip' names' Hin Hm Hne1 Hne2. destruct (H6 ip' names' Hin Hm Hne1 Hne2) as [Hx|Hx]; [|by right].
              apply elem_of_union in Hx as [->%elem_of_singleton|]; [|by left]. naive_solver.
        -- assert (Hip : ip ∈ w1) by (apply H5, elem_of_union_l, elem_of_singleton; done).
           constructor.
           ++ rewrite Hskip. exact H1.
           ++ constructor; [|done]. intros Hin. apply H3 in Hin as [Hin _].
              by apply Hin, elem_of_union_l, elem_of_singleton.
           ++ intros i Hi. apply elem_of_cons in Hi as [->|Hi]; [done|].
              destruct (H3 i Hi) as [Hx Hy]. split; [|done]. intros Hz. by apply Hx, elem_of_union_r.
           ++ intros ip' names' [[= -> ->]|Hin]%elem_of_cons; [naive_solver|by apply H4].
           ++ etrans; [apply union_subseteq_r|exact H5].
           ++ intros ip' names' Hin Hm Hne1 Hne2. destruct (H6 ip' names' Hin Hm Hne1 Hne2) as [Hx|Hx].
              ** apply elem_of_union in Hx as [->%elem_of_singleton|]; [|by left].
                 assert (names' = names) as -> by congruence. right. left.
              ** right. by right.
    + intros (items & -> & [])%IH. exists items. split; [done|]. split; rewrite ?Hskip; done.
  - destruct (rewrite_lines banner m written lines) as [[out1 w1]|] eqn:Er; cbn; [|done].
    intros [= <- <-]. apply IH in Er as (items & -> & [H1 H2 H3 H4 H5 H6]).
    exists (Kept line :: items). split; [done|].
    assert (Hk : unmanaged (line :: lines) = line :: unmanaged lines).
    { unfold unmanaged. by rewrite filter_cons_True. }
    constructor; [|done|done| |done|].
    + rewrite Hk. cbn. by rewrite <- H1.
    + intros ip names [?|Hin]%elem_of_cons; [done|by apply H4].
    + intros ip names Hin Hm Hne1 Hne2. destruct (H6 ip names Hin Hm Hne1 Hne2); [by left|right; by right].
Qed.

Lemma append_new_block order written :
  NoDup order.*1 → (∀ ip names, (ip, names) ∈ order → m !! ip = Some names) →
  ∃ items, append_new banner written order = map (render banner) items ∧
    kept_of items = [] ∧ NoDup (ips_of items) ∧
    ∀ ip names, Entry ip names ∈ items ↔ (ip, names) ∈ order ∧ ip ∉ written ∧ ip ≠ [] ∧ names ≠ [].
Proof.
  induction order as [|[ip names] order IH]; intros Hnd Hm; cbn.
  { exists []. split_and!; [done|done|constructor|]. set_solver. }
  apply NoDup_cons in Hnd as [Hnot Hnd].
  destruct IH as (items & -> & Hk & Hn & He); [done|intros; apply Hm; by right|].
  case_decide as Hw.
  - exists items. split_and!; [done|done|done|]. intros ip' names'. rewrite He.
    rewrite elem_of_cons. naive_solver.
  - rewrite writeEntry_cases, <- map_app. eexists. split; [reflexivity|].
    case_decide as Hempty; cbn.
    + split_and!; [done|done|]. intros ip' names'. rewrite He, elem_of_cons. naive_solver.
    + split_and!; [done| |].
      * constructor; [|done]. rewrite elem_of_ips. intros (names' & Hin%He).
        apply Hnot. destruct Hin as (Hin & _). apply (list_elem_of_fmap_2 fst) in Hin. done.
      * intros ip' names'. rewrite !elem_of_cons, He. naive_solver.
Qed.

(** The whole file: unmanaged lines as they were, and one entry for each
    address that has names. *)
Definition describes (items : list item) (lines : list bytes) : Prop :=
  kept_of items = unmanaged lines ∧ NoDup (ips_of items) ∧
  ∀ ip names, Entry ip names ∈ items ↔ m !! ip = Some names ∧ ip ≠ [] ∧ names ≠ [].

Lemma rewrite_all_block order lines out :
  order ≡ₚ map_to_list m → rewrite_all banner m order lines = Some out →
  ∃ items, out = map (render banner) items ∧ describes items lines.
Proof.
  unfold rewrite_all. intros Ho. destruct (rewrite_lines banner m ∅ lines) as [[out1 w1]|] eqn:Er; [|done].
  cbn. intros [= <-]. apply rewrite_lines_block in Er as (items1 & -> & [H1 H2 H3 H4 H5 H6]).
  destruct (append_new_block order w1) as (items2 & -> & Hk & Hn & He).
  { rewrite Ho. apply NoDup_fst_map_to_list. }
  { intros ip names Hin. rewrite Ho in Hin. by apply elem_of_map_to_list. }
  exists (items1 ++ items2). rewrite map_app. split; [done|].
  unfold describes, kept_of, ips_of. rewrite !bind_app. fold (kept_of items1) (kept_of items2) (ips_of items1) (ips_of items2).
  rewrite Hk, app_nil_r. split_and!; [done| |].
  - apply NoDup_app. split_and!; [done| |done]. intros ip Hin1 Hin2.
    apply H3 in Hin1 as [_ Hin1]. apply elem_of_ips in Hin2 as (names & Hin2%He). naive_solver.
  - intros ip names. rewrite elem_of_app, He, Ho, elem_of_map_to_list. split.
    + intros [Hin|(Hm & _ & ?)]; [by apply H4|done].
    + intros (Hm & Hne1 & Hne2). destruct (decide (ip ∈ w1)) as [Hw|Hw]; [|by right].
      destruct (H6 ip names Hw Hm Hne1 Hne2); [set_solver|by left].
Qed.

Lemma rewrite_lines_total written lines : is_Some (rewrite_lines banner m written lines).
Proof.
  revert written. induction lines as [|line lines IH]; intros written; cbn; [by eexists|].
  destruct (managed banner line) eqn:Em; cbn [negb].
  - destruct (managed_has_field banner line Hbanner Em) as [ip ->]. cbn.
    destruct (m !! ip) as [names|]; [|apply IH]. case_decide; [apply IH|].
    destruct (IH ({[ip]} ∪ written)) as [[out w] ->]. by eexists.
  - destruct (IH written) as [[out w] ->]. by eexists.
Qed.

(** ** Writing the same entries again *)

Context (Hwords : ∀ ip names, m !! ip = Some names → word ip ∧ Forall word names).

Lemma rewrite_lines_fix items written :
  NoDup (ips_of items) → (∀ ip, ip ∈ ips_of items → ip ∉ written) →
  (∀ ip names, Entry ip names ∈ items → m !! ip = Some names ∧ ip ≠ [] ∧ names ≠ []) →
  Forall (λ l, managed banner l = false) (kept_of items) →
  ∃ written', rewrite_lines banner m written (map (render banner) items) =
      Some (map (render banner) items, written') ∧
    ∀ ip, ip ∈ ips_of items ∨ ip ∈ written → ip ∈ written'.
Proof.
  revert written. induction items as [|[line|ip names] items IH]; intros written Hnd Hfresh He Hk.
  - exists written. split; [done|]. intros ip [Hin|]; [by apply elem_of_nil in Hin|done].
  - cbn in Hk. inversion Hk as [|? ? Hline Hrest]; subst.
    destruct (IH written) as (w & Hr & Hw); [done|done|intros; apply He; by right|done|].
    exists w. cbn. rewrite Hline. cbn [negb]. rewrite Hr. by split.
  - cbn in Hnd. apply NoDup_cons in Hnd as [Hnot Hnd].
    destruct (He ip names ltac:(left)) as (Hm & Hne1 & Hne2). destruct (Hwords ip names Hm) as [Hip _].
    destruct (IH ({[ip]} ∪ written)) as (w & Hr & Hw); [done| |intros; apply He; by right|done|].
    { intros ip' Hin [->%elem_of_singleton|Hx]%elem_of_union; [done|].
      eapply Hfresh; [|exact Hx]. by right. }
    exists w. cbn [map render rewrite_lines]. rewrite entry_managed, entry_first by done.
    cbn [negb mbind option_bind]. rewrite Hm. rewrite decide_False by (apply Hfresh; by left).
    rewrite Hr. cbn. unfold writeEntryWithBanner. rewrite decide_False by naive_solver. split; [done|].
    intros ip' Hin. apply Hw. destruct Hin as [[->|Hin]%elem_of_cons|Hin]; [|by left|].
    + right. apply elem_of_union_l. by apply elem_of_singleton.
    + right. by apply elem_of_union_r.
Qed.

Lemma append_new_none order written :
  (∀ ip names, (ip, names) ∈ order → ip ∈ written ∨ ip = [] ∨ names = []) →
  append_new banner written order = [].
Proof.
  induction order as [|[ip names] order IH]; intros H; cbn; [done|].
  rewrite IH by (intros; apply H; by right). rewrite app_nil_r. case_decide as Hw; [done|].
  unfold writeEntryWithBanner. rewrite decide_True; [done|]. destruct (H ip names); [left|done|done].
Qed.

Lemma rewrite_all_fix items lines order :
  describes items lines → order ≡ₚ map_to_list m →
  rewrite_all banner m order (map (render banner) items) = Some (map (render banner) items).
Proof.
  intros (Hk & Hnd & He) Ho. unfold rewrite_all.
  destruct (rewrite_lines_fix items ∅) as (w & -> & Hw); [done|set_solver|intros; by apply He| |].
  { rewrite Hk. apply Forall_forall. intros l Hl. by apply list_elem_of_filter in Hl as [? _]. }
  cbn. rewrite append_new_none; [by rewrite app_nil_r|].
  intros ip names Hin. rewrite Ho in Hin. apply elem_of_map_to_list in Hin.
  destruct (decide (ip = [])); [auto|]. destruct (decide (names = [])); [auto|].
  left. apply Hw. left. apply elem_of_ips. exists names. by apply He.
Qed.

Lemma word_in_line t : word t → nl ∉ t ∧ cr ∉ t.
Proof. intros H. split; by apply (word_not_in t _ H). Qed.

Lemma Join_words names : Forall word names → nl ∉ Join_strings names [space] ∧ cr ∉ Join_strings names [space].
Proof.
  induction 1 as [|n names Hn Hns [IH1 IH2]]; [split; by intros ?%elem_of_nil|].
  destruct (word_in_line n Hn). destruct names as [|n' names]; [done|].
  cbn [Join_strings] in *. rewrite !not_elem_of_app.
  split_and!; try done; by intros ?%list_elem_of_singleton.
Qed.

Lemma entry_line ip names :
  cr ∉ banner → m !! ip = Some names → nl ∉ entry banner ip names ∧ cr ∉ entry banner ip names.
Proof.
  intros Hcr Hm. destruct (Hwords ip names Hm) as [Hip Hn]. destruct Hbanner as (_ & _ & Hnl).
  destruct (word_in_line ip Hip). destruct (Join_words names Hn).
  unfold entry. rewrite !not_elem_of_app. split_and!; try done; by intros ?%list_elem_of_singleton.
Qed.
End Block.

(** ** The properties *)

(** C30: for a proper banner and a hosts file whose lines fit the scanner,
    [writeEntries] writes the lines without the banner as they were, in order,
    and exactly one line for each address that has names; it never panics. *)
Theorem writeEntries_exact (eh : EtcHosts) (orig : bytes) (lines : list bytes) (m : entries)
    (order : list (bytes * list bytes)) :
  good_banner (banner_of eh) → order ≡ₚ map_to_list m → ScanLines orig = Ok lines →
  ∃ items, writeEntries eh orig m order = Some (Ok (println (map (render (banner_of eh)) items))) ∧
    kept_of items = filter (λ l, managed (banner_of eh) l = false) lines ∧
    NoDup (ips_of items) ∧
    ∀ ip names, Entry ip names ∈ items ↔ m !! ip = Some names ∧ ip ≠ [] ∧ names ≠ [].
Proof.
  intros Hb Ho Hs. unfold writeEntries. rewrite Hs.
  destruct (rewrite_all (banner_of eh) m order lines) as [out|] eqn:E.
  - destruct (rewrite_all_block _ _ Hb _ _ _ Ho E) as (items & -> & H). by exists items.
  - unfold rewrite_all in E. destruct (rewrite_lines_total (banner_of eh) m Hb ∅ lines) as [[o w] Hr].
    by rewrite Hr in E.
Qed.

(** Writing the same entries into the file that came out changes nothing,
    whatever order the map is iterated in either time. *)
Theorem writeEntries_idempotent (eh : EtcHosts) (orig : bytes) (m : entries)
    (order order' : list (bytes * list bytes)) (out : bytes) :
  good_banner (banner_of eh) → cr ∉ banner_of eh → cr ∉ orig →
  (∀ ip names, m !! ip = Some names →
    word ip ∧ Forall word names ∧ fits (entry (banner_of eh) ip names)) →
  order ≡ₚ map_to_list m → order' ≡ₚ map_to_list m →
  writeEntries eh orig m order = Some (Ok out) → writeEntries eh out m order' = Some (Ok out).
Proof.
  intros Hb Hcb Hco Hm Ho Ho' H. unfold writeEntries in H. destruct (ScanLines orig) as [lines|] eqn:Es; [|done].
  destruct (rewrite_all (banner_of eh) m order lines) as [ls|] eqn:Er; [|done]. injection H as <-.
  destruct (rewrite_all_block _ _ Hb _ _ _ Ho Er) as (items & -> & Hd).
  assert (Hw : ∀ ip names, m !! ip = Some names → word ip ∧ Forall word names).
  { intros ip names Hmi. by destruct (Hm ip names Hmi) as (? & ? & _). }
  unfold writeEntries, compose. rewrite ScanLines_println.
  - by erewrite rewrite_all_fix.
  - destruct Hd as (Hk & _ & He). pose proof (ScanLines_lines _ _ Es Hco) as Hl.
    rewrite Forall_forall in *. intros l Hin. apply list_elem_of_fmap in Hin as ([line|ip names] & -> & Hin).
    + apply Hl. cbn. assert (Hin' : line ∈ kept_of items).
      { apply list_elem_of_bind. eexists. split; [|exact Hin]. by apply list_elem_of_singleton. }
      rewrite Hk in Hin'. by apply list_elem_of_filter in Hin' as [_ ?].
    + apply He in Hin as (Hmi & _ & _). cbn.
      destruct (entry_line _ m Hb Hw ip names Hcb Hmi). split_and!; [done|done|by eapply Hm].
Qed.

(** ** The blocks of two interfaces *)

Lemma last_space_inj (x y i j : bytes) :
  x ++ [space] ++ i = y ++ [space] ++ j → space ∉ i → space ∉ j → i = j.
Proof.
  revert y. induction x as [|c x IH]; intros [|d y] H Hi Hj; cbn [app] in *.
  - by injection H.
  - injection H as _ ->. exfalso. apply Hi, elem_of_app. right. left.
  - injection H as _ <-. exfalso. apply Hj, elem_of_app. right. left.
  - injection H as _ H. by apply (IH y).
Qed.

Lemma hostsFor_banner iface :
  banner_of (hostsFor iface) =
    str "# ! managed automatically by cheesecloth interface" ++ [space] ++ iface.
Proof. done. Qed.

Lemma hostsFor_good iface : word iface → good_banner (banner_of (hostsFor iface)).
Proof.
  intros Hi. rewrite hostsFor_banner. split_and!.
  - eexists _, _. by split.
  - destruct (last iface) as [d|] eqn:E; [|by apply last_None in E as ->; destruct Hi].
    apply last_Some in E as [u E]. exists (str "# ! managed automatically by cheesecloth interface" ++ [space] ++ u), d.
    rewrite E, <- !app_assoc. split; [done|]. destruct Hi as [_ Hp]. rewrite E, forallb_app in Hp.
    apply andb_true_iff in Hp as [_ Hp]. cbn in Hp. by rewrite andb_true_r in Hp.
  - rewrite !not_elem_of_app. split_and!; [|by intros ?%list_elem_of_singleton|by apply word_in_line].
    apply (bool_decide_unpack _). by vm_compute.
Qed.

(** An agent that writes the block of one interface treats no entry of another
    one's as its own, so it keeps it. *)
Theorem hostsFor_separate i j ip names :
  word i → word j → word ip →
  managed (banner_of (hostsFor j)) (entry (banner_of (hostsFor i)) ip names) = true → i = j.
Proof.
  intros Hi Hj Hip Hm%bool_decide_eq_true. pose proof (hostsFor_good i Hi) as Gi.
  rewrite (TrimSpace_banner _ (hostsFor_good j Hj)) in Hm.
  destruct (entry_ends _ ip names Gi Hip) as (c & t & u & d & E1 & E2 & Hc & Hd).
  rewrite E1, (TrimSpace_ends c t u d), <- E1 in Hm by congruence.
  destruct Hm as [x Hx]. unfold entry in Hx. rewrite !hostsFor_banner, !app_assoc in Hx.
  rewrite <- (app_assoc _ [space] i), <- (app_assoc _ [space] j) in Hx.
  apply last_space_inj in Hx; [done|by apply word_not_in|by apply word_not_in].
Qed.

(** ** The file as a whole *)

(** What the operations do to the hosts file and the temporary file; reading
    is of the whole file, and a write that fails leaves a part. *)
Definition hosts_step {X} (e : hostsE X) (f : bytes * bytes) (x : X) (f' : bytes * bytes) : Prop :=
  let '(hosts, tmp) := f in
  match e in hostsE X return X → Prop with
  | OpenHosts => λ r, f' = f ∧ (r = None ∨ r = Some hosts)
  | CreateTemp => λ ok, if (ok : bool) then f' = (hosts, []) else f' = f
  | WriteTemp b => λ ok,
      if (ok : bool) then f' = (hosts, tmp ++ b)
      else ∃ b', b' `prefix_of` b ∧ f' = (hosts, tmp ++ b')
  | RenameTemp => λ ok, if (ok : bool) then f' = (tmp, []) else f' = f
  | TruncateHosts => λ ok, if (ok : bool) then f' = ([], tmp) else f' = f
  | CopyToHosts => λ ok,
      if (ok : bool) then f' = (hosts ++ tmp, tmp)
      else ∃ b', b' `prefix_of` tmp ∧ f' = (hosts ++ b', tmp)
  | SyncTemp | StatHosts | ChmodTemp | ChownTemp | SeekTemp | SeekHosts | SyncHosts | RemoveTemp =>
      λ _, f' = f
  end x.

Fixpoint hosts_run (f : bytes * bytes) (tr : list (happened hostsE)) (f' : bytes * bytes) : Prop :=
  match tr with
  | [] => f' = f
  | Ev e x :: tr => ∃ f1, hosts_step e f x f1 ∧ hosts_run f1 tr f'
  end.

(** Where the hosts file can be: as it was, as it should be, or, once renaming
    over it has failed, a beginning of what it should be. *)
Definition hosts_left (renamed : Prop) (old new hosts : bytes) : Prop :=
  hosts = old ∨ hosts = new ∨ (renamed ∧ hosts `prefix_of` new).

Ltac next_event Hr Hf :=
  cbn in Hr; destruct Hr as [->|(?ok & ?tr & -> & Hr)];
    [cbn in Hf; subst; by left|
     cbn in Hf; let Hs := fresh "Hs" in destruct Hf as (?f & Hs & Hf);
     first [progress subst|idtac]].
Ltac last_events Hr Hf :=
  cbn in Hr; subst; cbn in Hf; subst; by left.

(** Copying into the hosts file, after the rename failed. *)
Definition copyOver : prog hostsE (result unit) :=
  (let* ok := trigger SeekTemp in
   check ok else "seek" in
   let* ok := trigger SeekHosts in
   check ok else "seek" in
   let* ok := trigger TruncateHosts in
   check ok else "truncate" in
   let* ok := trigger CopyToHosts in
   check ok else "copy" in
   let* ok := trigger SyncHosts in
   Ret (if (ok : bool) then Ok () else Err "sync"))%prog.

Lemma copyOver_left {B} (k : result unit → prog hostsE B) old new tr f :
  (∀ r tr f g, reaches (k r) tr → hosts_run f tr g → g.1 = f.1) →
  reaches (bind copyOver k) tr → hosts_run (old, new) tr f → hosts_left True old new f.1.
Proof.
  intros Hk Hr Hf. unfold hosts_left.
  next_event Hr Hf. destruct ok; [|rewrite (Hk _ _ _ _ Hr Hf); by left].
  next_event Hr Hf. destruct ok; [|rewrite (Hk _ _ _ _ Hr Hf); by left].
  next_event Hr Hf. destruct ok; [|subst; rewrite (Hk _ _ _ _ Hr Hf); by left]. subst.
  cbn in Hr. destruct Hr as [->|(ok & tr3 & -> & Hr)].
  { cbn in Hf. subst. right; right. split; [done|]. apply prefix_nil. }
  cbn in Hf. destruct Hf as (f3 & Hs & Hf). destruct ok.
  - subst. cbn in Hr. destruct Hr as [->|(ok & tr4 & -> & Hr)]; [cbn in Hf; subst; right; by left|].
    cbn in Hf. destruct Hf as (f4 & -> & Hf). rewrite (Hk _ _ _ _ Hr Hf). right; by left.
  - destruct Hs as (b & Hb & ->). rewrite (Hk _ _ _ _ Hr Hf). right; right. by split.
Qed.

(** Any other end of [WriteEntries] removes the temporary file and no more. *)
Definition finish (r : result unit) : prog hostsE (result unit) :=
  (let* _ := trigger RemoveTemp in Ret r)%prog.

Lemma finish_keeps r tr f g : reaches (finish r) tr → hosts_run f tr g → g.1 = f.1.
Proof.
  intros Hr Hf. cbn in Hr. destruct Hr as [->|(ok & tr1 & -> & ->)]; cbn in Hf; [by subst|].
  by destruct f, Hf as (f1 & -> & ->).
Qed.

Lemma move_left old new tr f :
  reaches (bind movePreservePerms finish) tr → hosts_run (old, new) tr f →
  hosts_left (Ev RenameTemp false ∈ tr) old new f.1.
Proof.
  intros Hr Hf. unfold hosts_left. pose proof (λ r tr f g, finish_keeps r tr f g) as Hfin.
  do 3 (next_event Hr Hf; destruct ok; [|rewrite (Hfin _ _ _ _ Hr Hf); by left]).
  next_event Hr Hf. next_event Hr Hf. destruct ok0.
  - subst. rewrite (Hfin _ _ _ _ Hr Hf). right; by left.
  - subst. destruct (copyOver_left finish old new _ f Hfin Hr Hf) as [|[|[_ ?]]]; [by left|right; by left|].
    right; right. split; [|done]. do 4 right. left.
Qed.

(** C31: whatever fails and wherever the process stops, the hosts file holds its
    old contents or the complete new ones; only where it could not be renamed
    over, and its contents are being replaced in place, a beginning of them. *)
Theorem hosts_replaced_whole (eh : EtcHosts) (m : entries) (order : list (bytes * list bytes))
    (old tmp : bytes) (tr : list (happened hostsE)) (f : bytes * bytes) :
  reaches (WriteEntries eh m order) tr → hosts_run (old, tmp) tr f →
  f.1 = old ∨ ∃ new, writeEntries eh old m order = Some (Ok new) ∧
    (f.1 = new ∨ (Ev RenameTemp false ∈ tr ∧ f.1 `prefix_of` new)).
Proof.
  intros Hr Hf. unfold WriteEntries in Hr.
  cbn in Hr. destruct Hr as [->|(file & tr1 & -> & Hr)]; [cbn in Hf; subst; by left|].
  cbn in Hf. destruct Hf as (f1 & [-> Hfile] & Hf).
  destruct file as [orig|]; [|cbn in Hr; subst; cbn in Hf; subst; by left].
  destruct Hfile as [?|[= ->]]; [done|].
  next_event Hr Hf. destruct ok; [|cbn in Hr; subst; cbn in Hf; subst; by left]. subst.
  assert (Hother : ∀ r tr f, reaches (bind (Ret r) finish) tr → hosts_run (old, []) tr f → f.1 = old).
  { intros r tr0 f0 H1 H2. by apply (finish_keeps r tr0 _ f0) in H2. }
  destruct (writeEntries eh old m order) as [[new|e]|] eqn:Ew; [|left; by eapply Hother..].
  next_event Hr Hf. destruct ok.
  - subst. destruct (move_left old new _ f Hr Hf) as [?|[?|[??]]]; [by left|right; eauto|].
    right. exists new. split; [done|]. right. split; [|done]. do 3 right. done.
  - left. destruct Hs as (b & _ & ->). by apply (finish_keeps _ _ _ _ Hr) in Hf.
Qed.

(** When [WriteEntries] reports success the hosts file holds the new contents. *)
Theorem hosts_written (eh : EtcHosts) (m : entries) (order : list (bytes * list bytes))
    (old tmp : bytes) (tr : list (happened hostsE)) (f : bytes * bytes) :
  runs (WriteEntries eh m order) tr (Ok ()) → hosts_run (old, tmp) tr f →
  ∃ new, writeEntries eh old m order = Some (Ok new) ∧ f.1 = new.
Proof.
  intros Hr Hf. unfold WriteEntries in Hr. cbn in Hr. destruct Hr as (file & tr1 & -> & Hr).
  cbn in Hf. destruct Hf as (f1 & [-> Hfile] & Hf). destruct file as [orig|]; [|by destruct Hr].
  destruct Hfile as [?|[= ->]]; [done|].
  cbn in Hr. destruct Hr as (ok & tr2 & -> & Hr). cbn in Hf. destruct Hf as (f2 & Hs & Hf).
  destruct ok; [|by destruct Hr]. subst.
  destruct (writeEntries eh old m order) as [[new|e]|]; [|by destruct Hr as (?&?&?&?&?)..].
  exists new. split; [done|].
  cbn in Hr. destruct Hr as (ok & tr3 & -> & Hr). cbn in Hf. destruct Hf as (f3 & Hs & Hf).
  destruct ok; [|by destruct Hr as (?&?&?&?&?)]. subst.
  do 3 (cbn in Hr; destruct Hr as (ok & ?tr & -> & Hr); cbn in Hf; destruct Hf as (?f & -> & Hf);
    destruct ok; [|by destruct Hr as (?&?&?&?&?)]).
  cbn in Hr. destruct Hr as (ok & ?tr & -> & Hr). cbn in Hf. destruct Hf as (?f & -> & Hf).
  cbn in Hr. destruct Hr as (ok1 & ?tr & -> & Hr). cbn in Hf. destruct Hf as (?f & Hs & Hf).
  destruct ok1; [subst; by apply (finish_keeps _ _ _ _ (runs_reaches _ _ _ Hr)) in Hf|]. subst.
  do 2 (cbn in Hr; destruct Hr as (ok1 & ?tr & -> & Hr); cbn in Hf; destruct Hf as (?f & -> & Hf);
    destruct ok1; [|by destruct Hr as (?&?&?&?&?)]).
  do 2 (cbn in Hr; destruct Hr as (ok1 & ?tr & -> & Hr); cbn in Hf; destruct Hf as (?f & Hs & Hf);
    destruct ok1; [subst|by destruct Hr as (?&?&?&?&?)]).
  cbn in Hr. destruct Hr as (ok1 & ?tr & -> & Hr). cbn in Hf. destruct Hf as (?f & -> & Hf).
  by apply (finish_keeps _ _ _ _ (runs_reaches (finish (if ok1 then Ok () else Err "sync")) _ _ Hr)) in Hf.
Qed.

(** ** Examples *)

Definition demo_hosts : EtcHosts := hostsFor (str "wgoverlay").
Definition demo_banner : bytes := banner_of demo_hosts.
Definition demo_entries : entries := {[str "10.0.0.2" := [str "bob"]; str "10.0.0.3" := [str "cat"]]}.
Definition demo_order : list (bytes * list bytes) := map_to_list demo_entries.
(** Two lines of the administrator's and an entry of a node that has left. *)
Definition demo_lines : list bytes :=
  [str "127.0.0.1 localhost"; entry demo_banner (str "10.0.0.9") [str "old"]; str "# end"].
Definition demo_file : bytes := println demo_lines.
Definition demo_out : bytes :=
  println [str "127.0.0.1 localhost"; str "# end"; entry demo_banner (str "10.0.0.3") [str "cat"];
    entry demo_banner (str "10.0.0.2") [str "bob"]].

Lemma demo_word : word (str "wgoverlay").
Proof. by split. Qed.
Lemma demo_banner_good : good_banner demo_banner.
Proof. exact (hostsFor_good _ demo_word). Qed.
Lemma demo_scan : ScanLines demo_file = Ok demo_lines.
Proof. vm_compute. reflexivity. Qed.

Lemma writeEntries_exact_witness :
  ∃ items, writeEntries demo_hosts demo_file demo_entries demo_order =
      Some (Ok (println (map (render demo_banner) items))) ∧
    Entry (str "10.0.0.2") [str "bob"] ∈ items.
Proof.
  destruct (writeEntries_exact demo_hosts demo_file demo_lines demo_entries demo_order
    demo_banner_good ltac:(reflexivity) demo_scan) as (items & H1 & _ & _ & H2).
  exists items. split; [exact H1|]. apply H2. by split_and!.
Defined.

Lemma demo_entries_words ip names :
  demo_entries !! ip = Some names → word ip ∧ Forall word names ∧ fits (entry demo_banner ip names).
Proof.
  unfold demo_entries. intros [[<- <-]|[_ [<- <-]%lookup_singleton_Some]]%lookup_insert_Some;
    (split; [by split|]; split; [repeat constructor; done|]; apply Nat.ltb_lt; vm_compute; reflexivity).
Qed.

Lemma writeEntries_idempotent_witness :
  writeEntries demo_hosts demo_file demo_entries demo_order = Some (Ok demo_out) ∧
  writeEntries demo_hosts demo_out demo_entries (reverse demo_order) = Some (Ok demo_out).
Proof.
  assert (H : writeEntries demo_hosts demo_file demo_entries demo_order = Some (Ok demo_out)).
  { vm_compute. reflexivity. }
  split; [exact H|].
  apply (writeEntries_idempotent demo_hosts demo_file demo_entries demo_order (reverse demo_order) demo_out).
  - exact demo_banner_good.
  - apply (bool_decide_unpack _). by vm_compute.
  - apply (bool_decide_unpack _). by vm_compute.
  - exact demo_entries_words.
  - reflexivity.
  - apply reverse_Permutation.
  - exact H.
Defined.

Lemma hostsFor_separate_witness :
  managed (banner_of (hostsFor (str "wg0"))) (entry (banner_of (hostsFor (str "wg0"))) (str "10.0.0.2") [str "bob"]) = true ∧
  str "wg0" = str "wg0".
Proof.
  assert (H : managed (banner_of (hostsFor (str "wg0")))
    (entry (banner_of (hostsFor (str "wg0"))) (str "10.0.0.2") [str "bob"]) = true) by (vm_compute; reflexivity).
  split; [exact H|].
  apply (hostsFor_separate (str "wg0") (str "wg0") (str "10.0.0.2") [str "bob"]); [by split..|exact H].
Defined.

(** A rename that fails, as over the bind mount of a container, and a copy
    that is cut short. *)
Definition demo_cut : list (happened hostsE) :=
  [Ev OpenHosts (Some demo_file); Ev CreateTemp true; Ev (WriteTemp demo_out) true; Ev SyncTemp true;
   Ev StatHosts true; Ev ChmodTemp true; Ev ChownTemp true; Ev RenameTemp false; Ev SeekTemp true;
   Ev SeekHosts true; Ev TruncateHosts true].

Lemma demo_cut_reaches : reaches (WriteEntries demo_hosts demo_entries demo_order) demo_cut.
Proof.
  assert (H : writeEntries demo_hosts demo_file demo_entries demo_order = Some (Ok demo_out)).
  { vm_compute. reflexivity. }
  right. exists (Some demo_file), (tail demo_cut). split; [done|]. cbn [bind trigger].
  right. exists true, (drop 2 demo_cut). split; [done|]. rewrite H.
  right. exists true, (drop 3 demo_cut). split; [done|].
  do 3 (right; eexists true, _; split; [done|]). right; eexists true, _; split; [done|].
  right; eexists false, _; split; [done|]. do 3 (right; eexists true, _; split; [done|]). by left.
Qed.

Lemma hosts_replaced_whole_witness :
  ∃ f, hosts_run (demo_file, []) demo_cut f ∧
    (f.1 = demo_file ∨ ∃ new, writeEntries demo_hosts demo_file demo_entries demo_order = Some (Ok new) ∧
      (f.1 = new ∨ (Ev RenameTemp false ∈ demo_cut ∧ f.1 `prefix_of` new))).
Proof.
  exists ([], demo_out). assert (Hrun : hosts_run (demo_file, []) demo_cut ([], demo_out)).
  { exists (demo_file, []). split; [split; [done|by right]|]. eexists; split; [done|].
    do 8 (eexists; split; [done|]). eexists; split; [done|]. done. }
  split; [exact Hrun|].
  exact (hosts_replaced_whole demo_hosts demo_entries demo_order demo_file [] demo_cut _ demo_cut_reaches Hrun).
Defined.

(** The carriage returns of a file with Windows line ends are lost, also on
    the lines that are not ours. *)
Example line_ends_change :
  writeEntries demo_hosts (str "127.0.0.1 localhost" ++ [cr; nl]) ∅ [] =
    Some (Ok (str "127.0.0.1 localhost" ++ [nl])).
Proof. vm_compute. reflexivity. Qed.
