(* ===== verification/Bind.v ===== *)
(** * Bind: which address a node advertises (internal/cli/bind.go, internal/cluster/transport.go)

    The bind address itself, or for a wildcard the best address of its family
    among the host's: a public one if there is any, else any global one; and
    what the gossip transport makes of the address it is given. *)

From S2P Require Import Prelude Netip.

(** ** More of [net/netip] *)

(** Byte [i] of an IPv4 address, and of an IPv6 one, from the left. *)
Definition v4_byte (v : Z) (i : Z) : Z := (v / 2 ^ (8 * (3 - i))) `mod` 256.
Definition v6_byte (v : Z) (i : Z) : Z := (v / 2 ^ (8 * (15 - i))) `mod` 256.

Definition IsLoopback (a : Addr) : bool :=
  match Unmap a with
  | A4 v => v4_byte v 0 =? 127
  | A6 v _ => v =? 1
  | AZero => false
  end.
Definition IsMulticast (a : Addr) : bool :=
  match Unmap a with
  | A4 v => Z.land (v4_byte v 0) 240 =? 224
  | A6 v _ => v6_byte v 0 =? 255
  | AZero => false
  end.
Definition IsLinkLocalUnicast (a : Addr) : bool :=
  match Unmap a with
  | A4 v => (v4_byte v 0 =? 169) && (v4_byte v 1 =? 254)
  | A6 v _ => (v6_byte v 0 =? 254) && (Z.land (v6_byte v 1) 192 =? 128)
  | AZero => false
  end.
Definition IsGlobalUnicast (a : Addr) : bool :=
  match a with
  | AZero => false
  | _ =>
      if Is4 a && (bool_decide (a = A4 0) || bool_decide (a = A4 0xFFFFFFFF)) then false
      else negb (bool_decide (a = A6 0 [])) && negb (IsLoopback a) && negb (IsMulticast a) &&
           negb (IsLinkLocalUnicast a)
  end.
Definition IsPrivate (a : Addr) : bool :=
  match Unmap a with
  | A4 v =>
      (v4_byte v 0 =? 10) || ((v4_byte v 0 =? 172) && (Z.land (v4_byte v 1) 240 =? 16)) ||
      ((v4_byte v 0 =? 192) && (v4_byte v 1 =? 168))
  | A6 v _ => Z.land (v6_byte v 0) 254 =? 252
  | AZero => false
  end.

(** ** bind.go *)

(** [net.Addr]: an [*net.IPNet], an [*net.IPAddr], or something else. *)
Inductive netAddr :=
  | NetIPNet (ip : bytes)
  | NetIPAddr (ip : bytes)
  | NetOther.

Fixpoint firstAddr (addrs : list netAddr) (want : Addr → bool) : option Addr :=
  match addrs with
  | [] => None
  | na :: addrs =>
      match na with
      | NetOther => firstAddr addrs want
      | NetIPNet ip | NetIPAddr ip =>
          match AddrFromSlice ip with
          | None => firstAddr addrs want
          | Some addr =>
              let addr := Unmap addr in
              if want addr then Some addr else firstAddr addrs want
          end
      end
  end.

Definition sharedAddressSpace : Prefix := MkPrefix (A4 0x64400000) 10.

Definition isPublic (addr : Addr) : bool :=
  IsGlobalUnicast addr && negb (IsPrivate addr) && negb (Contains sharedAddressSpace addr).

Definition inFamily (wildcard : Addr) (want : Addr → bool) (x : Addr) : bool :=
  Bool.eqb (Is4 x) (Is4 wildcard) && want x.

Definition pickAdvertiseAddr (wildcard : Addr) (addrs : list netAddr) : option Addr :=
  match firstAddr addrs (inFamily wildcard isPublic) with
  | Some addr => Some addr
  | None => firstAddr addrs (inFamily wildcard IsGlobalUnicast)
  end.

(** An interface of the host, as [net.Interfaces] lists it. *)
Record netInterface := MkInterface {
  if_Name : bytes;
  if_Up : bool;
  if_Loopback : bool;
  if_Addrs : option (list netAddr);     (* None: listing them failed *)
}.

Definition upInterfaceAddrs (ifaces : option (list netInterface)) (skip : bytes) : list netAddr :=
  match ifaces with
  | None => []
  | Some l => l ≫= (λ i,
      if negb (if_Up i) || if_Loopback i || bool_decide (if_Name i = skip) then []
      else default [] (if_Addrs i))
  end.

(** [AgentCmd.advertiseAddr], with the host's addresses. *)
Definition advertiseAddr (BindAddr : Addr) (addrs : list netAddr) : result Addr :=
  if negb (IsUnspecified BindAddr) then Ok BindAddr
  else
    match pickAdvertiseAddr BindAddr addrs with
    | Some addr => Ok addr
    | None => Err "no address found to advertise for cluster membership"
    end.

(** [net.IP.IsUnspecified], in either form of an IPv4 address. *)
Definition IP_IsUnspecified (ip : bytes) : bool :=
  bool_decide (ip = replicate 4 Byte.x00) || bool_decide (ip = replicate 16 Byte.x00) ||
  bool_decide (ip = replicate 10 Byte.x00 ++ [Byte.xff; Byte.xff] ++ replicate 4 Byte.x00).

(** [FinalAdvertiseAddr]: [local] and [localPort] are the address the socket is bound to, and
    [ParseIP] is [net.ParseIP]. *)
Definition FinalAdvertiseAddr (ParseIP : bytes → option bytes) (local : bytes) (localPort : Z)
    (ip : bytes) (port : Z) : result (bytes * Z) :=
  if decide (ip = []) then
    if IP_IsUnspecified local then Err "an advertise address is required when binding a wildcard"
    else Ok (local, localPort)
  else
    match ParseIP ip with
    | None => Err "invalid advertise address %q"
    | Some parsed => Ok (parsed, if decide (port = 0) then localPort else port)
    end.

(** ** What is chosen *)

(** The addresses of a list, unmapped, in order. *)
Definition addresses (addrs : list netAddr) : list Addr :=
  addrs ≫= (λ na, match na with
                  | NetOther => []
                  | NetIPNet ip | NetIPAddr ip =>
                      match AddrFromSlice ip with Some a => [Unmap a] | None => [] end
                  end).

Lemma firstAddr_find addrs want : firstAddr addrs want = head (filter (λ a, want a = true) (addresses addrs)).
Proof.
  unfold addresses. induction addrs as [|na addrs IH]; [done|]. cbn [firstAddr mbind list_bind].
  destruct na as [ip|ip|]; [| |exact IH].
  all: destruct (AddrFromSlice ip) as [a|]; [|exact IH]; cbn [app].
  all: rewrite filter_cons; destruct (want (Unmap a)) eqn:E.
  all: try (rewrite decide_True by done; done).
  all: rewrite decide_False by done; exact IH.
Qed.

Lemma public_is_global a : isPublic a = true → IsGlobalUnicast a = true.
Proof. unfold isPublic. by intros [[? _]%andb_true_iff _]%andb_true_iff. Qed.

(** For a wildcard, the address advertised is a global one of the wildcard's
    family, and a public one if the host has any of that family; there is none
    exactly when the host has no global address of the family. *)
Theorem pickAdvertiseAddr_spec wildcard addrs :
  match pickAdvertiseAddr wildcard addrs with
  | Some a =>
      a ∈ addresses addrs ∧ Is4 a = Is4 wildcard ∧ IsGlobalUnicast a = true ∧
      (isPublic a = false → ∀ b, b ∈ addresses addrs → Is4 b = Is4 wildcard → isPublic b = false)
  | None => ∀ b, b ∈ addresses addrs → Is4 b = Is4 wildcard → IsGlobalUnicast b = false
  end.
Proof.
  assert (Hfind : ∀ want, match firstAddr addrs (inFamily wildcard want) with
    | Some a => a ∈ addresses addrs ∧ Is4 a = Is4 wildcard ∧ want a = true
    | None => ∀ b, b ∈ addresses addrs → Is4 b = Is4 wildcard → want b = false
    end).
  { intros want. rewrite firstAddr_find. destruct (filter _ _) as [|a l] eqn:E; cbn.
    - intros b Hb H4. destruct (want b) eqn:Ew; [|done]. exfalso.
      assert (Hin : b ∈ filter (λ a, inFamily wildcard want a = true) (addresses addrs)).
      { apply list_elem_of_filter. unfold inFamily. by rewrite H4, Ew, Bool.eqb_reflx. }
      rewrite E in Hin. by apply elem_of_nil in Hin.
    - assert (Ha : a ∈ filter (λ a, inFamily wildcard want a = true) (addresses addrs)) by (rewrite E; left).
      apply list_elem_of_filter in Ha as [[H4%Bool.eqb_prop Hw]%andb_true_iff Hin]. done. }
  unfold pickAdvertiseAddr. pose proof (Hfind isPublic) as H1. pose proof (Hfind IsGlobalUnicast) as H2.
  destruct (firstAddr addrs (inFamily wildcard isPublic)) as [a|].
  - destruct H1 as (? & ? & Hp). split_and!; [done|done|by apply public_is_global|congruence].
  - destruct (firstAddr addrs (inFamily wildcard IsGlobalUnicast)) as [a|]; naive_solver.
Qed.

Example advertise_examples :
  let lan := NetIPNet [Byte.xc0; Byte.xa8; Byte.x01; Byte.x05] in
  let cgnat := NetIPAddr [Byte.x64; Byte.x40; Byte.x00; Byte.x01] in
  let wan := NetIPAddr [Byte.xcb; Byte.x00; Byte.x71; Byte.x07] in
  let local := NetIPNet [Byte.xa9; Byte.xfe; Byte.x00; Byte.x01] in
  advertiseAddr (A4 0) [NetOther; local; lan; cgnat; wan] = Ok (A4 0xCB007107) ∧
  advertiseAddr (A4 0) [local; lan; cgnat] = Ok (A4 0xC0A80105) ∧
  is_ok (advertiseAddr (A6 0 []) [local; lan; wan]) = false ∧
  advertiseAddr (A4 7) [] = Ok (A4 7).
Proof. by vm_compute. Qed.

(** The transport never settles on a wildcard by itself, and when it is given
    an address it is that one, with the port of the socket where none is given. *)
Theorem FinalAdvertiseAddr_spec ParseIP local localPort ip port a p :
  FinalAdvertiseAddr ParseIP local localPort ip port = Ok (a, p) →
  (ip = [] ∧ a = local ∧ IP_IsUnspecified a = false ∧ p = localPort) ∨
  (ParseIP ip = Some a ∧ (p = port ∨ port = 0 ∧ p = localPort)).
Proof.
  unfold FinalAdvertiseAddr. case_decide as Hip.
  - destruct (IP_IsUnspecified local) eqn:E; [done|]. intros [= -> ->]. by left.
  - destruct (ParseIP ip) as [parsed|]; [|done]. intros [= -> <-]. right. split; [done|].
    case_decide; [by right|by left].
Qed.
