(* ===== verification/Wg.v ===== *)
(** * Wg: the WireGuard interface (internal/wg/wireguard.go)

    [SetUpInterface] brings device, address, MTU and routes in line with a list
    of nodes. The device, the network stack and the WireGuard client are the
    interfaces of the source ([device], [linker], [wgClient]): a class of
    operations on a state of the operating system, with the contract their
    comments state. *)

From S2P Require Import Prelude Netip Overlay Identity State.

(** ** [net.IPNet] and [net.IPMask] *)

Record IPNet := MkIPNet { ipn_IP : bytes; ipn_Mask : bytes }.

(** [net.CIDRMask] byte by byte; nil out of range. *)
Fixpoint cidr_bytes (l : nat) (n : Z) : bytes :=
  match l with
  | O => []
  | S l' =>
      if 8 <=? n then byte_of_Z 255 :: cidr_bytes l' (n - 8)
      else byte_of_Z (255 - Z.shiftr 255 n) :: cidr_bytes l' 0
  end.
Definition CIDRMask (ones bits : Z) : bytes :=
  if negb ((bits =? 32) || (bits =? 128)) then []
  else if (ones <? 0) || (bits <? ones) then []
  else cidr_bytes (Z.to_nat (bits / 8)) ones.

(** The leading ones of a byte, if the rest is zeros. *)
Definition leading_ones (v : Z) : option Z :=
  match v with
  | 0 => Some 0 | 128 => Some 1 | 192 => Some 2 | 224 => Some 3 | 240 => Some 4
  | 248 => Some 5 | 252 => Some 6 | 254 => Some 7 | _ => None
  end.
Fixpoint simpleMaskLength (mask : bytes) : option Z :=
  match mask with
  | [] => Some 0
  | b :: rest =>
      if Z_of_byte b =? 255 then (λ n, 8 + n) <$> simpleMaskLength rest
      else if forallb (λ c, Z_of_byte c =? 0) rest then leading_ones (Z_of_byte b) else None
  end.
(** [IPMask.Size]: the ones and the bits; both 0 for a mask of no prefix. *)
Definition Mask_Size (mask : bytes) : Z * Z :=
  match simpleMaskLength mask with
  | Some ones => (ones, 8 * Z.of_nat (length mask))
  | None => (0, 0)
  end.

Definition prefixFromIPNet (n : option IPNet) : Prefix * bool :=
  match n with
  | None => (zeroPrefix, false)
  | Some n =>
      match AddrFromSlice (ipn_IP n) with
      | None => (zeroPrefix, false)
      | Some addr =>
          let '(ones, bits) := Mask_Size (ipn_Mask n) in
          let ones := if (bits =? 128) && Is4In6 addr then ones - 96 else ones in
          (PrefixFrom (Unmap addr) ones, true)
      end
  end.

Definition prefixToIPNet (p : Prefix) : IPNet :=
  MkIPNet (AsSlice (pfx_Addr p)) (CIDRMask (Bits p) (BitLen (pfx_Addr p))).

(** ** Configurations *)

Definition wgKey : Type := bytes.

Record UDPAddr := MkUDPAddr { udp_IP : bytes; udp_Zone : bytes; udp_Port : Z }.
Definition zone_of (a : Addr) : bytes := match a with A6 _ z => z | _ => [] end.
(** [net.UDPAddrFromAddrPort(netip.AddrPortFrom(a, uint16(port)))] *)
Definition UDPAddrFrom (a : Addr) (port : Z) : UDPAddr :=
  MkUDPAddr (AsSlice a) (zone_of a) (port `mod` 2 ^ 16).

Record PeerConfig := MkPeerConfig {
  pc_PublicKey : wgKey;
  pc_ReplaceAllowedIPs : bool;
  pc_Keepalive : option Z;
  pc_Endpoint : UDPAddr;
  pc_AllowedIPs : list IPNet;
}.

Record wgConfig := MkWgConfig {
  wc_PrivateKey : wgKey;
  wc_ListenPort : Z;
  wc_ReplacePeers : bool;
  wc_Peers : list PeerConfig;
}.

(** ** The interfaces *)

(** [wgtypes]: keys and their text. *)
Class WgTypes := {
  wg_ParseKey : bytes → result wgKey;
  PublicKey_of : wgKey → wgKey;              (* Key.PublicKey *)
}.

Class Network := {
  os : Type;
  dev_Create : os → bytes → Z → result bytes * os;
  dev_Delete : os → bytes → result unit * os;
  ConfigureDevice : os → bytes → wgConfig → result unit * os;
  link_SetAddr : os → bytes → Prefix → result unit * os;
  link_SetMTU : os → bytes → Z → result unit * os;
  link_Up : os → bytes → result unit * os;
  link_Routes : os → bytes → result (list Prefix) * os;
  link_AddRoute : os → bytes → Prefix → result unit * os;
  link_DelRoute : os → bytes → Prefix → result unit * os;
}.

(** The networks that have routes: valid, written with their host bits clear,
    and not an IPv4 network inside IPv6. *)
Definition routable (p : Prefix) : Prop :=
  good_prefix p ∧ Masked p = p ∧ Is4In6 (pfx_Addr p) = false.

(** What the operations promise, in terms of the routes through an interface
    and the configuration of a device. A network that is [foreign] is routed
    already, though not by a route that [Routes] lists, and [AddRoute] may
    leave it at that; one that is [stuck] has a route that [DelRoute] does not
    find. Deletion is only promised for an [entry], a network as [Routes] lists
    them. *)
Class NetworkLaws `{!Network} := {
  routes_of : os → bytes → gset Prefix;
  config_of : os → bytes → option wgConfig;
  foreign : os → bytes → Prefix → Prop;
  stuck : os → bytes → Prefix → Prop;
  entry : Prefix → Prop;
  Configure_ok o i c o' : ConfigureDevice o i c = (Ok (), o') → config_of o' i = Some c;
  Routes_ok o i l o' :
    link_Routes o i = (Ok l, o') → (∀ p, p ∈ l ↔ p ∈ routes_of o i) ∧ routes_of o' i = routes_of o i;
  Routes_entry o i l o' p : link_Routes o i = (Ok l, o') → p ∈ l → entry p;
  AddRoute_ok o i p o' :
    routable p → link_AddRoute o i p = (Ok (), o') →
    routes_of o' i = {[p]} ∪ routes_of o i ∨ foreign o i p ∧ routes_of o' i = routes_of o i;
  DelRoute_ok o i p o' :
    entry p → link_DelRoute o i p = (Ok (), o') →
    routes_of o' i = routes_of o i ∖ {[p]} ∨ stuck o i p ∧ routes_of o' i = routes_of o i;
  AddRoute_foreign o i p o' q :
    routable p → link_AddRoute o i p = (Ok (), o') → foreign o i q → foreign o' i q;
  DelRoute_foreign o i p o' q :
    entry p → link_DelRoute o i p = (Ok (), o') → q ≠ p → foreign o i q → foreign o' i q;
  DelRoute_stuck o i p o' q : entry p → link_DelRoute o i p = (Ok (), o') → stuck o i q → stuck o' i q;
  Routes_foreign o i l o' q : link_Routes o i = (Ok l, o') → foreign o i q → foreign o' i q;
  SetAddr_config o i p d : config_of (link_SetAddr o i p).2 d = config_of o d;
  SetMTU_config o i m d : config_of (link_SetMTU o i m).2 d = config_of o d;
  Up_config o i d : config_of (link_Up o i).2 d = config_of o d;
  Routes_config o i d : config_of (link_Routes o i).2 d = config_of o d;
  AddRoute_config o i p d : config_of (link_AddRoute o i p).2 d = config_of o d;
  DelRoute_config o i p d : config_of (link_DelRoute o i p).2 d = config_of o d;
}.

(** ** The interface of an agent *)

(** [type State struct]; client, device and linker are the class. *)
Record State := MkState {
  iface : bytes;
  s_mtu : Z;
  keepalive : Z;               (* a time.Duration *)
  osName : bytes;
  privKey : wgKey;
  overlayAddr : Addr;
  s_port : Z;
  PubKey : wgKey;
}.

Definition hostPrefix (addr : Addr) : Prefix := PrefixFrom addr (BitLen addr).

Definition peerPrefixes (node : Node) : list Prefix :=
  hostPrefix (m_OverlayAddr (n_Meta node)) :: m_AllowedIPs (n_Meta node).

(** [type Config struct]; the device is chosen by Userspace, see the interfaces. *)
Record Config := MkConfig {
  cfg_Interface : bytes;
  cfg_Port : Z;
  cfg_OverlayAddr : Addr;
  cfg_MTU : Z;
  cfg_PersistentKeepalive : Z;
  cfg_Userspace : bool;
}.

(** [newState], given what [wgtypes.GeneratePrivateKey] answers. *)
Definition newState `{!WgTypes} (cfg : Config) (generated : result wgKey) : result State :=
  match generated with
  | Err _ => Err "generating private key"
  | Ok key => Ok (MkState (cfg_Interface cfg) (cfg_MTU cfg) (cfg_PersistentKeepalive cfg) []
                    key (cfg_OverlayAddr cfg) (cfg_Port cfg) (PublicKey_of key))
  end.

(** Which device [platform] settles on. *)
Inductive deviceKind := KernelDevice | UserspaceDevice.

(** [New], given what [platform] settled on, and what [wgctrl.New] and
    [wgtypes.GeneratePrivateKey] answer. *)
Definition wg_New `{!WgTypes} {D} (platform : result D) (client : result unit) (generated : result wgKey)
    (cfg : Config) : result (D * State) :=
  match platform with
  | Err e => Err e
  | Ok dev =>
      match client with
      | Err _ => Err "instantiating wireguard client"
      | Ok _ =>
          match newState cfg generated with
          | Err e => Err e
          | Ok s => Ok (dev, s)
          end
      end
  end.

(** An interface that is made has everything from its configuration, a key of
    its own that is fresh, with the public key peers learn, and no name of the
    system's yet. *)
Lemma wg_New_Ok `{!WgTypes} {D} (platform : result D) client generated cfg dev s :
  wg_New platform client generated cfg = Ok (dev, s) →
  platform = Ok dev ∧ is_ok client = true ∧ generated = Ok (privKey s) ∧ PubKey s = PublicKey_of (privKey s) ∧ osName s = [] ∧
  iface s = cfg_Interface cfg ∧ s_mtu s = cfg_MTU cfg ∧ keepalive s = cfg_PersistentKeepalive cfg ∧
  overlayAddr s = cfg_OverlayAddr cfg ∧ s_port s = cfg_Port cfg.
Proof. unfold wg_New, newState. destruct platform, client, generated; try done. by intros [= <- <-]. Qed.

Section Interface.
Context {types : WgTypes} {network : Network}.
Open Scope go_scope.

Definition peerConfig (s : State) (node : Node) : result PeerConfig :=
  let? pubKey := wg_ParseKey (m_PubKey (n_Meta node)) in
  Ok (MkPeerConfig pubKey true
    (if 0 <? keepalive s then Some (keepalive s) else None)
    (UDPAddrFrom (n_Addr node) (s_port s))
    (map prefixToIPNet (peerPrefixes node))).

Fixpoint nodesToPeerConfigs (s : State) (nodes : list Node) : result (list PeerConfig) :=
  match nodes with
  | [] => Ok []
  | node :: nodes =>
      let? c := peerConfig s node in
      let? cs := nodesToPeerConfigs s nodes in
      Ok (c :: cs)
  end.

(** The loop of [SetUpInterface] that adds the routes. *)
Fixpoint addRoutes (o : os) (name : bytes) (dsts : list Prefix) : result unit * os :=
  match dsts with
  | [] => (Ok (), o)
  | dst :: dsts =>
      match link_AddRoute o name dst with
      | (Err e, o) => (Err e, o)
      | (Ok _, o) => addRoutes o name dsts
      end
  end.

(** The loop of [removeStaleRoutes]. *)
Fixpoint deleteRoutes (o : os) (name : bytes) (wanted : gset Prefix) (routes : list Prefix)
    : result unit * os :=
  match routes with
  | [] => (Ok (), o)
  | dst :: routes =>
      if decide (dst ∈ wanted) then deleteRoutes o name wanted routes
      else match link_DelRoute o name dst with
           | (Err e, o) => (Err e, o)
           | (Ok _, o) => deleteRoutes o name wanted routes
           end
  end.

Definition removeStaleRoutes (s : State) (o : os) (name : bytes) (wanted : gset Prefix)
    : result unit * os :=
  let wanted := {[hostPrefix (overlayAddr s)]} ∪ wanted in
  match link_Routes o name with
  | (Err e, o) => (Err e, o)
  | (Ok routes, o) => deleteRoutes o name wanted routes
  end.

Definition set_osName (s : State) (name : bytes) : State :=
  MkState (iface s) (s_mtu s) (keepalive s) name (privKey s) (overlayAddr s) (s_port s) (PubKey s).

Definition SetUpInterface (s : State) (o : os) (nodes : list Node) : result unit * State * os :=
  match dev_Create o (iface s) (s_mtu s) with
  | (Err e, o) => (Err e, s, o)
  | (Ok name, o) =>
      let s := if decide (name ≠ osName s) then set_osName s name else s in
      match nodesToPeerConfigs s nodes with
      | Err e => (Err e, s, o)
      | Ok peerCfgs =>
          match ConfigureDevice o (iface s) (MkWgConfig (privKey s) (s_port s) true peerCfgs) with
          | (Err e, o) => (Err e, s, o)
          | (Ok _, o) =>
              match link_SetAddr o name (hostPrefix (overlayAddr s)) with
              | (Err e, o) => (Err e, s, o)
              | (Ok _, o) =>
                  match link_SetMTU o name (s_mtu s) with
                  | (Err e, o) => (Err e, s, o)
                  | (Ok _, o) =>
                      match link_Up o name with
                      | (Err e, o) => (Err e, s, o)
                      | (Ok _, o) =>
                          let dsts := nodes ≫= peerPrefixes in
                          match addRoutes o name dsts with
                          | (Err e, o) => (Err e, s, o)
                          | (Ok _, o) =>
                              let '(r, o) := removeStaleRoutes s o name (list_to_set dsts) in
                              (r, s, o)
                          end
                      end
                  end
              end
          end
      end
  end.

Definition DownInterface (s : State) (o : os) : result unit * State * os :=
  match dev_Delete o (iface s) with
  | (Err e, o) => (Err e, s, o)
  | (Ok _, o) => (Ok (), set_osName s [], o)
  end.
End Interface.

(** ** Masks and prefixes *)

(** The masks of the two families, all of them. *)
Lemma Size_CIDRMask ones bits :
  (bits = 32 ∨ bits = 128) → 0 ≤ ones ≤ bits → Mask_Size (CIDRMask ones bits) = (ones, bits).
Proof.
  intros Hb Ho.
  assert (H : ∀ b, (b = 32 ∨ b = 128) → ∀ n, (n < Z.to_nat b + 1)%nat →
    Mask_Size (CIDRMask (Z.of_nat n) b) = (Z.of_nat n, b)).
  { intros b [-> | ->] n Hn.
    - do 33 (destruct n as [|n]; [vm_compute; reflexivity|]). lia.
    - do 129 (destruct n as [|n]; [vm_compute; reflexivity|]). lia. }
  specialize (H bits Hb (Z.to_nat ones)). rewrite Z2Nat.id in H by lia. apply H. lia.
Qed.

Lemma prefix_from_to p :
  good_prefix p →
  prefixFromIPNet (Some (prefixToIPNet p)) =
    (PrefixFrom (Unmap (pfx_Addr p)) (if Is4In6 (pfx_Addr p) then Bits p - 96 else Bits p), true).
Proof.
  intros Hp. pose proof Hp as [(Hwf & Hz & _) _]. unfold prefixFromIPNet, prefixToIPNet. cbn [ipn_IP ipn_Mask].
  destruct (good_prefix_cases p Hp) as [(v & E & Hv & Hb)|(v & E & Hv & Hb)]; rewrite E in Hwf |- *;
    cbn [pfx_Addr Bits BitLen] in *;
    rewrite AddrFromSlice_AsSlice, Size_CIDRMask by (done || lia); [done|].
  cbn [withoutZone]. by destruct (Is4In6 (A6 v [])).
Qed.

Lemma prefix_back p :
  good_prefix p → Is4In6 (pfx_Addr p) = false →
  prefixFromIPNet (Some (prefixToIPNet p)) = (p, true).
Proof.
  intros Hp H4. rewrite prefix_from_to, H4 by done. do 2 f_equal.
  destruct (good_prefix_cases p Hp) as [(v & E & Hv & Hb)|(v & E & Hv & Hb)]; rewrite E in H4 |- *;
    cbn [pfx_Addr Bits Unmap] in *; rewrite ?H4; unfold PrefixFrom; cbn [withoutZone Addr_IsValid BitLen];
    by rewrite (proj2 (Z.leb_le _ _)), (proj2 (Z.leb_le _ _)) by lia.
Qed.

(** What [prefixToIPNet] makes of a valid prefix, [prefixFromIPNet] reads back
    as it was, unless it is an IPv4 network written inside IPv6. *)
Theorem prefix_roundtrip p :
  good_prefix p → Is4In6 (pfx_Addr p) = false →
  prefixFromIPNet (Some (prefixToIPNet p)) = (p, true).
Proof. apply prefix_back. Qed.

Definition lan : Prefix := MkPrefix (A4 0xC0A80100) 24.
Lemma lan_good : good_prefix lan.
Proof. split; [|done]. split_and!; [cbn; lia|done|right; cbn; lia]. Qed.

Lemma prefix_roundtrip_witness :
  prefixFromIPNet (Some (prefixToIPNet lan)) = (lan, true).
Proof. apply (prefix_roundtrip lan); [exact lan_good|reflexivity]. Defined.

(** An IPv4 network inside IPv6 comes back as the IPv4 network, and one wider
    than the IPv4 space as no network at all, though accepted. *)
Example mapped_prefixes :
  prefixFromIPNet (Some (prefixToIPNet (MkPrefix (A6 0xFFFFC0A80100 []) 120))) = (lan, true) ∧
  (prefixFromIPNet (Some (prefixToIPNet (MkPrefix (A6 0xFFFF00000000 []) 80)))).2 = true ∧
  Prefix_IsValid (prefixFromIPNet (Some (prefixToIPNet (MkPrefix (A6 0xFFFF00000000 []) 80)))).1 = false.
Proof. by vm_compute. Qed.

(** ** What setting up the interface achieves *)

Section Achieves.
Context {types : WgTypes} {network : Network} {laws : NetworkLaws}.

Lemma hostPrefix_masked a : addr_wf a → Masked (hostPrefix a) = hostPrefix a.
Proof.
  intros Hwf. unfold hostPrefix, PrefixFrom, Masked. destruct a as [|v|v z]; cbn in *; [done| |];
    unfold PrefixFrom; cbn; rewrite mask_top_arith by lia; cbn; by rewrite Z.mod_1_r, Z.sub_0_r.
Qed.

Lemma hostPrefix_routable a :
  addr_wf a → a ≠ AZero → Is4In6 a = false → routable (hostPrefix a).
Proof.
  intros Hwf Hne H4. split; [|split; [by apply hostPrefix_masked|]].
  - split; [|by destruct a]. destruct a as [|v|v z]; [done| |]; cbn in *; split_and!; cbn; auto; lia.
  - by destruct a.
Qed.

Lemma addRoutes_ok dsts o name o' :
  Forall routable dsts → addRoutes o name dsts = (Ok (), o') →
  routes_of o name ⊆ routes_of o' name ∧ routes_of o' name ⊆ list_to_set dsts ∪ routes_of o name ∧
  (∀ p, p ∈ dsts → p ∈ routes_of o' name ∨ foreign o' name p) ∧
  (∀ q, foreign o name q → foreign o' name q) ∧ ∀ d, config_of o' d = config_of o d.
Proof.
  revert o. induction dsts as [|p dsts IH]; intros o Hm; cbn; [intros [= ->]; set_solver|].
  inversion Hm as [|? ? Hp Hm']; subst. destruct (link_AddRoute o name p) as [[[]|e] o1] eqn:E; [|done].
  intros Hr. destruct (IH o1 Hm' Hr) as (H1 & H2 & H3 & H4 & H5).
  pose proof (λ q, AddRoute_foreign _ _ _ _ q Hp E) as Hf.
  pose proof (AddRoute_config o name p) as Hc. rewrite E in Hc. cbn in Hc.
  pose proof (AddRoute_ok _ _ _ _ Hp E) as Hr1. split_and!.
  - destruct Hr1 as [Hr1|[_ Hr1]]; clear -H1 Hr1; set_solver.
  - destruct Hr1 as [Hr1|[_ Hr1]]; rewrite Hr1 in H2; clear -H2; set_solver.
  - intros q [->|Hq]%elem_of_cons; [|by apply H3].
    destruct Hr1 as [Hr1|[Hr1 _]]; [left; set_solver|right; by apply H4, Hf].
  - intros q Hq. by apply H4, Hf.
  - intros d. by rewrite H5, Hc.
Qed.

Lemma deleteRoutes_ok wanted routes o name o' :
  Forall entry routes → deleteRoutes o name wanted routes = (Ok (), o') →
  routes_of o' name ⊆ routes_of o name ∧
  (∀ p, p ∈ routes_of o name → p ∈ wanted → p ∈ routes_of o' name) ∧
  (∀ p, p ∈ routes → p ∈ routes_of o' name → p ∈ wanted ∨ stuck o' name p) ∧
  (∀ q, stuck o name q → stuck o' name q) ∧
  (∀ q, q ∈ wanted → foreign o name q → foreign o' name q) ∧ ∀ d, config_of o' d = config_of o d.
Proof.
  revert o. induction routes as [|p routes IH]; intros o He; cbn.
  - intros [= ->]. split_and!; try done. intros p Hp. by apply elem_of_nil in Hp.
  - apply Forall_cons in He as [Hep He]. specialize (λ o, IH o He). case_decide as Hp.
    + intros Hr. destruct (IH o Hr) as (H1 & H2 & H3 & H4 & H5 & H6). split_and!; [done|done| |done..].
      intros q [->|Hq]%elem_of_cons Hin; [by left|by apply H3].
    + destruct (link_DelRoute o name p) as [[[]|e] o1] eqn:E; [|done].
      intros Hr. destruct (IH o1 Hr) as (H1 & H2 & H3 & H4 & H5 & H6).
      pose proof (DelRoute_ok _ _ _ _ Hep E) as Hd. pose proof (λ q, DelRoute_stuck _ _ _ _ q Hep E) as Hs. split_and!.
      * destruct Hd as [Hd|[_ Hd]]; set_solver.
      * intros q Hq Hw. apply H2; [|done]. destruct Hd as [Hd|[_ Hd]]; set_solver.
      * intros q [->|Hq]%elem_of_cons Hin; [|by apply H3].
        right. apply H4, Hs. destruct Hd as [Hd|[Hd _]]; [set_solver|done].
      * intros q Hq. by apply H4, Hs.
      * intros q Hq Hf. apply H5; [done|]. apply (DelRoute_foreign _ _ _ _ _ Hep E); [by intros ->|done].
      * intros d. rewrite H6. pose proof (DelRoute_config o name p d) as H7. by rewrite E in H7.
Qed.

Lemma removeStaleRoutes_ok s o name wanted o' :
  removeStaleRoutes s o name wanted = (Ok (), o') →
  (∀ p, p ∈ routes_of o name → p ∈ wanted → p ∈ routes_of o' name) ∧
  (∀ p, p ∈ routes_of o' name → p ∈ wanted ∨ p = hostPrefix (overlayAddr s) ∨ stuck o' name p) ∧
  (∀ q, q ∈ wanted → foreign o name q → foreign o' name q) ∧ ∀ d, config_of o' d = config_of o d.
Proof.
  unfold removeStaleRoutes. destruct (link_Routes o name) as [[l|e] o1] eqn:E; [|done].
  intros (H1 & H2 & H3 & _ & H5 & H6)%deleteRoutes_ok;
    [|by apply Forall_forall; intros p; apply (Routes_entry _ _ _ _ p E)]. destruct (Routes_ok _ _ _ _ E) as [Hl Ho]. split_and!.
  - intros p Hp Hw. apply H2; [by rewrite Ho|set_solver].
  - intros p Hp. assert (Hin : p ∈ l) by (apply Hl; rewrite <- Ho; by apply H1).
    destruct (H3 p Hin Hp) as [[->%elem_of_singleton|Hw]%elem_of_union|Hs]; auto.
  - intros q Hq Hf. apply H5; [set_solver|]. by apply (Routes_foreign _ _ _ _ _ E).
  - intros d. rewrite H6. pose proof (Routes_config o name d) as H7. by rewrite E in H7.
Qed.

(** The nodes have addresses and networks there can be routes to. *)
Definition nodes_routable (nodes : list Node) : Prop :=
  Forall (λ n, addr_wf (m_OverlayAddr (n_Meta n)) ∧ m_OverlayAddr (n_Meta n) ≠ AZero ∧
    Is4In6 (m_OverlayAddr (n_Meta n)) = false ∧ Forall routable (m_AllowedIPs (n_Meta n))) nodes.

Lemma nodes_routable_prefixes nodes :
  nodes_routable nodes → Forall routable (nodes ≫= peerPrefixes).
Proof.
  intros H. apply Forall_bind, (Forall_impl _ _ _ H). intros n (Hwf & Hne & H4 & Hm).
  constructor; [by apply hostPrefix_routable|done].
Qed.

(** The route part of [SetUpInterface], on an interface that is up. *)
Lemma routes_exact s o name nodes o1 o2 :
  nodes_routable nodes → addRoutes o name (nodes ≫= peerPrefixes) = (Ok (), o1) →
  removeStaleRoutes s o1 name (list_to_set (nodes ≫= peerPrefixes)) = (Ok (), o2) →
  (∀ p, p ∈ nodes ≫= peerPrefixes → p ∈ routes_of o2 name ∨ foreign o2 name p) ∧
  (∀ p, p ∈ routes_of o2 name →
    p ∈ nodes ≫= peerPrefixes ∨ p = hostPrefix (overlayAddr s) ∨ stuck o2 name p) ∧
  ∀ d, config_of o2 d = config_of o d.
Proof.
  intros Hm (_ & _ & H3 & _ & H5)%addRoutes_ok (H6 & H7 & H8 & H9)%removeStaleRoutes_ok;
    [|by apply nodes_routable_prefixes]. split_and!.
  - intros p Hp. assert (Hw := Hp). apply (elem_of_list_to_set (C:=gset Prefix)) in Hw.
    destruct (H3 p Hp) as [Hin|Hf]; [left; by apply H6|right; by apply H8].
  - intros p Hp. rewrite <- (elem_of_list_to_set (C:=gset Prefix)). by apply H7.
  - intros d. by rewrite H9, H5.
Qed.

(** When [SetUpInterface] succeeds, the device is configured with exactly the
    nodes as peers, every network of a node is routed through the interface,
    unless it was routed otherwise before, and nothing else is but this node's
    own address and routes that cannot be removed. *)
Theorem SetUpInterface_exact s o nodes s' o' :
  nodes_routable nodes → SetUpInterface s o nodes = (Ok (), s', o') →
  (∃ peers, nodesToPeerConfigs s nodes = Ok peers ∧
    config_of o' (iface s) = Some (MkWgConfig (privKey s) (s_port s) true peers)) ∧
  (∀ p, p ∈ nodes ≫= peerPrefixes → p ∈ routes_of o' (osName s') ∨ foreign o' (osName s') p) ∧
  (∀ p, p ∈ routes_of o' (osName s') →
    p ∈ nodes ≫= peerPrefixes ∨ p = hostPrefix (overlayAddr s) ∨ stuck o' (osName s') p).
Proof.
  intros Hm. unfold SetUpInterface.
  destruct (dev_Create o (iface s) (s_mtu s)) as [[name|e] o1]; [|done].
  set (s1 := if decide (name ≠ osName s) then set_osName s name else s).
  assert (Hs1 : osName s1 = name ∧ iface s1 = iface s ∧ privKey s1 = privKey s ∧ s_port s1 = s_port s ∧
    overlayAddr s1 = overlayAddr s ∧ nodesToPeerConfigs s1 nodes = nodesToPeerConfigs s nodes).
  { unfold s1. case_decide as Hn; [|by rewrite Hn]. split_and!; try done.
    induction nodes as [|n nodes IH]; [done|]. cbn. inversion Hm; subst. by rewrite IH. }
  destruct Hs1 as (Hn & Hi & Hk & Hp & Ha & Hc). rewrite Hc, Hi, Hk, Hp, Ha.
  destruct (nodesToPeerConfigs s nodes) as [peers|e] eqn:Ec; [|done].
  destruct (ConfigureDevice o1 (iface s) _) as [[[]|e] o2] eqn:E2; [|done].
  destruct (link_SetAddr o2 name _) as [[[]|e] o3] eqn:E3; [|done].
  destruct (link_SetMTU o3 name _) as [[[]|e] o4] eqn:E4; [|done].
  destruct (link_Up o4 name) as [[[]|e] o5] eqn:E5; [|done].
  destruct (addRoutes o5 name _) as [[[]|e] o6] eqn:E6; [|done].
  destruct (removeStaleRoutes s1 o6 name _) as [r o7] eqn:E7. intros [= -> <- <-].
  destruct (routes_exact _ _ _ _ _ _ Hm E6 E7) as (R1 & R2 & R3).
  apply Configure_ok in E2.
  pose proof (SetAddr_config o2 name (hostPrefix (overlayAddr s)) (iface s)) as G3. rewrite E3 in G3.
  pose proof (SetMTU_config o3 name (s_mtu s1) (iface s)) as G4. rewrite E4 in G4.
  pose proof (Up_config o4 name (iface s)) as G5. rewrite E5 in G5. cbn in *.
  rewrite Hn, <- Ha. split_and!; [|done..].
  exists peers. split; [done|]. by rewrite R3, G5, G4, G3.
Qed.

(** A node whose key does not parse stops the set-up before the device, its
    address or any route is touched. *)
Theorem SetUpInterface_bad_key s o nodes node e :
  node ∈ nodes → wg_ParseKey (m_PubKey (n_Meta node)) = Err e →
  ∃ e' s', SetUpInterface s o nodes = (Err e', s', (dev_Create o (iface s) (s_mtu s)).2).
Proof.
  intros Hin He. assert (Hbad : ∀ s, ∃ e', nodesToPeerConfigs s nodes = Err e').
  { intros s0. induction nodes as [|n nodes IH]; [by apply elem_of_nil in Hin|]. cbn.
    apply elem_of_cons in Hin as [<-|Hin].
    - exists e. unfold peerConfig. by rewrite He.
    - destruct (IH Hin) as [e' ->]. destruct (peerConfig s0 n); eauto. }
  unfold SetUpInterface. destruct (dev_Create o (iface s) (s_mtu s)) as [[name|e0] o1]; [|eauto].
  destruct (Hbad (if decide (name ≠ osName s) then set_osName s name else s)) as [e' ->]. eauto.
Qed.
End Achieves.

(** ** A network to compute with *)

Module ToyNet.
#[export] Instance types : WgTypes := {
  wg_ParseKey t := if decide (t = []) then Err "empty key" else Ok t;
  PublicKey_of k := k;
}.

(** The routes of each interface and the configuration of each device. *)
Definition state : Type := gmap bytes (gset Prefix) * gmap bytes wgConfig.
Definition routes (o : state) (i : bytes) : gset Prefix := default ∅ (o.1 !! i).

#[export] Instance network : Network := {
  os := state;
  dev_Create o i mtu := (Ok i, o);
  dev_Delete o i := (Ok (), (delete i o.1, delete i o.2));
  ConfigureDevice o i c := (Ok (), (o.1, <[i := c]> o.2));
  link_SetAddr o i p := (Ok (), o);
  link_SetMTU o i m := (Ok (), o);
  link_Up o i := (Ok (), o);
  link_Routes o i := (Ok (elements (routes o i)), o);
  link_AddRoute o i p := (Ok (), (<[i := {[p]} ∪ routes o i]> o.1, o.2));
  link_DelRoute o i p := (Ok (), (<[i := routes o i ∖ {[p]}]> o.1, o.2));
}.

#[export] Instance laws : NetworkLaws.
Proof.
  unshelve eapply (Build_NetworkLaws network routes (λ (o : state) i, o.2 !! i) (λ _ _ _, False) (λ _ _ _, False) (λ _, True)); cbn;
    try done.
  - intros o i c o' [= <-]. cbn. by rewrite lookup_insert_eq.
  - intros o i l o' [= <- <-]. split; [|done]. intros p. apply elem_of_elements.
  - intros o i p o' _ [= <-]. left. unfold routes at 1. cbn. by rewrite lookup_insert_eq.
  - intros o i p o' _ [= <-]. left. unfold routes at 1. cbn. by rewrite lookup_insert_eq.
Defined.
End ToyNet.

#[local] Existing Instance ToyNet.types.
#[local] Existing Instance ToyNet.network.
#[local] Existing Instance ToyNet.laws.

(** A node that lost a route and advertises another network. *)
Definition demo_state : State :=
  MkState (str "wgoverlay") 1420 0 [] (str "private") (A4 0x0A000001) 51820 (str "public").
Definition stale : Prefix := MkPrefix (A4 0xC0A80200) 24.
Definition demo_peer : Node :=
  MkNode (str "bob") (A4 0xCB007102) 7946
    (MkMeta (A4 0x0A000002) (str "bobs-key") [lan] zeroKey []).
Definition demo_os : os := ({[str "wgoverlay" := {[stale]}]}, ∅).
Definition demo_up : result unit * State * os := SetUpInterface demo_state demo_os [demo_peer].

Example demo_up_ok : demo_up.1.1 = Ok ().
Proof. vm_compute. reflexivity. Qed.
Example demo_up_routes :
  bool_decide (ToyNet.routes demo_up.2 (str "wgoverlay") = {[hostPrefix (A4 0x0A000002); lan]}) = true.
Proof. vm_compute. reflexivity. Qed.

Lemma demo_peers_routable : nodes_routable [demo_peer].
Proof.
  constructor; [|constructor]. split_and!; [cbn; lia|done|done|].
  constructor; [|constructor]. split_and!; [exact lan_good|reflexivity|reflexivity].
Qed.

Lemma SetUpInterface_exact_witness :
  demo_up.1.1 = Ok () ∧
  (∀ p, p ∈ routes_of demo_up.2 (osName demo_up.1.2) →
    p ∈ [demo_peer] ≫= peerPrefixes ∨ p = hostPrefix (A4 0x0A000001) ∨ stuck demo_up.2 (osName demo_up.1.2) p).
Proof.
  split; [exact demo_up_ok|].
  destruct (SetUpInterface_exact demo_state demo_os [demo_peer] demo_up.1.2 demo_up.2 demo_peers_routable)
    as (_ & _ & H); [|exact H].
  fold demo_up. rewrite <- demo_up_ok. by destruct demo_up as [[r s] o].
Defined.

Definition keyless : Node := MkNode (str "eve") AZero 0 (MkMeta AZero [] [] zeroKey []).

Lemma SetUpInterface_bad_key_witness :
  ∃ e' s', SetUpInterface demo_state demo_os [keyless] = (Err e', s', demo_os).
Proof.
  apply (SetUpInterface_bad_key demo_state demo_os [keyless] keyless "empty key"); [left|reflexivity].
Defined.
