(* ===== verification/Linux.v ===== *)
(** * Linux: the network stack over netlink (internal/wg/link_linux.go)

    The kernel's WireGuard device and the linker of Linux, over the calls of the
    netlink library, a class with the behaviour of the kernel as its laws. The
    linker keeps the contract Wg asks of a network stack, so that what a
    set-up of the interface achieves is shown of the kernel's routes. *)

From S2P Require Import Prelude Netip Overlay Identity State Wg.

(** ** The netlink library *)

(** Errors the source tells apart: system error numbers, and the library's
    own for a link it does not find. *)
Inductive errno := EEXIST | ENOTEMPTY | ENOENT | ESRCH | EOPNOTSUPP | EINVAL.
Inductive nlerr := Errno (e : errno) | LinkNotFound | OtherErr.

(** [errors.Is(err, os.ErrExist)] and [os.ErrNotExist]: which error numbers
    count is fixed by [syscall.Errno.Is]. *)
Definition ErrExist (e : nlerr) : bool :=
  match e with Errno EEXIST | Errno ENOTEMPTY => true | _ => false end.
Definition ErrNotExist (e : nlerr) : bool :=
  match e with Errno ENOENT => true | _ => false end.
Definition is_EOPNOTSUPP (e : nlerr) : bool :=
  match e with Errno EOPNOTSUPP => true | _ => false end.

Class Netlink := {
  nl_os : Type;
  Link : Type;
  Route : Type;
  Attrs_Index : Link → Z;
  Route_LinkIndex : Route → Z;
  Route_Dst : Route → option IPNet;
  LinkByName : nl_os → bytes → nlerr + Link;
  LinkAdd : nl_os → bytes → option nlerr * nl_os;        (* a wireguard link *)
  LinkDel : nl_os → Link → option nlerr * nl_os;
  AddrReplace : nl_os → Link → IPNet → option nlerr * nl_os;
  LinkSetMTU : nl_os → Link → Z → option nlerr * nl_os;
  LinkSetUp : nl_os → Link → option nlerr * nl_os;
  AddrList : nl_os → Link → nlerr + list (option IPNet);
  RouteList : nl_os → Link → nlerr + list Route;
  RouteAdd : nl_os → Z → IPNet → option nlerr * nl_os;   (* link index, destination; link scope *)
  RouteDel : nl_os → Route → option nlerr * nl_os;
  wgctrl_Configure : nl_os → bytes → wgConfig → result unit * nl_os;   (* wgctrl's ConfigureDevice *)
}.

(** What the kernel does. [nl_routes o i] are the routes of the main table
    through the link with index [i], 0 for those through none: adding one makes it, unless
    some link has a route to the same destination (EEXIST); deleting a route removes
    that route; neither touches links or devices. *)
Class NetlinkLaws `{!Netlink} := {
  nl_routes : nl_os → Z → list Route;
  nl_config : nl_os → bytes → option wgConfig;
  nl_routes_link o i r : r ∈ nl_routes o i → Route_LinkIndex r = i;
  nl_routes_nodup o i : NoDup (nl_routes o i);
  RouteList_ok o l rs : RouteList o l = inr rs → rs = nl_routes o (Attrs_Index l);
  RouteAdd_ok o i p o' :
    routable p → RouteAdd o i (prefixToIPNet p) = (None, o') →
    ∃ r, Route_Dst r = Some (prefixToIPNet p) ∧
      ∀ j r', r' ∈ nl_routes o' j ↔ r' ∈ nl_routes o j ∨ j = i ∧ r' = r;
  RouteAdd_exists o i p e o' :
    routable p → RouteAdd o i (prefixToIPNet p) = (Some e, o') → ErrExist e = true →
    (∃ j r, r ∈ nl_routes o j ∧ Route_Dst r = Some (prefixToIPNet p)) ∧
    ∀ j, nl_routes o' j = nl_routes o j;
  RouteDel_ok o i r e o' :
    r ∈ nl_routes o i → RouteDel o r = (e, o') → (e = None ∨ ∃ e', e = Some e' ∧ ErrNotExist e' = true) →
    ∀ j r', r' ∈ nl_routes o' j ↔ r' ∈ nl_routes o j ∧ r' ≠ r;
  RouteAdd_links o i d n : LinkByName (RouteAdd o i d).2 n = LinkByName o n;
  RouteDel_links o r n : LinkByName (RouteDel o r).2 n = LinkByName o n;
  wgctrl_ok o n c o' : wgctrl_Configure o n c = (Ok (), o') → nl_config o' n = Some c;
  AddrReplace_config o l a d : nl_config (AddrReplace o l a).2 d = nl_config o d;
  LinkSetMTU_config o l m d : nl_config (LinkSetMTU o l m).2 d = nl_config o d;
  LinkSetUp_config o l d : nl_config (LinkSetUp o l).2 d = nl_config o d;
  RouteAdd_config o i a d : nl_config (RouteAdd o i a).2 d = nl_config o d;
  RouteDel_config o r d : nl_config (RouteDel o r).2 d = nl_config o d;
}.

(** ** link_linux.go *)

Section Link.
Context {netlink : Netlink}.

(** [if err != nil { return err }; return nil], the error as its text. *)
Definition of_nlerr (e : option nlerr) : result unit :=
  match e with None => Ok () | Some _ => Err "netlink" end.

(** [kernelDevice] *)
Definition kernelDevice_Create (o : nl_os) (name : bytes) : (nlerr + bytes) * nl_os :=
  let '(err, o) := LinkAdd o name in
  match err with
  | Some e => if negb (ErrExist e) then (inl e, o) else (inr name, o)
  | None => (inr name, o)
  end.

Definition kernelDevice_Delete (o : nl_os) (name : bytes) : result unit * nl_os :=
  match LinkByName o name with
  | inl e => (match e with LinkNotFound => Ok () | _ => Err "netlink" end, o)
  | inr link => let '(err, o) := LinkDel o link in (of_nlerr err, o)
  end.

(** Which device; the linker is the same for both. *)
Definition platform (o : nl_os) (cfg : Config) : result deviceKind * nl_os :=
  if negb (cfg_Userspace cfg) then
    match kernelDevice_Create o (cfg_Interface cfg) with
    | (inr _, o) => (Ok KernelDevice, o)
    | (inl e, o) =>
        if is_EOPNOTSUPP e then (Ok UserspaceDevice, o) else (Err "creating interface", o)
    end
  else (Ok UserspaceDevice, o).

(** [wg.New] on Linux. *)
Definition linux_New `{!WgTypes} (o : nl_os) (client : result unit) (generated : result wgKey) (cfg : Config)
    : result (deviceKind * State) * nl_os :=
  let '(dev, o) := platform o cfg in (wg_New dev client generated cfg, o).

Definition remove (o : nl_os) (iface : bytes) : result unit * nl_os := kernelDevice_Delete o iface.

Definition lookup (o : nl_os) (iface : bytes) : result bytes :=
  match LinkByName o iface with inl _ => Err "netlink" | inr _ => Ok iface end.

(** [netlinkLinker] *)
Definition netlink_SetAddr (o : nl_os) (iface : bytes) (addr : Prefix) : result unit * nl_os :=
  match LinkByName o iface with
  | inl _ => (Err "netlink", o)
  | inr link => let '(err, o) := AddrReplace o link (prefixToIPNet addr) in (of_nlerr err, o)
  end.

Definition netlink_SetMTU (o : nl_os) (iface : bytes) (mtu : Z) : result unit * nl_os :=
  match LinkByName o iface with
  | inl _ => (Err "netlink", o)
  | inr link => let '(err, o) := LinkSetMTU o link mtu in (of_nlerr err, o)
  end.

Definition netlink_Up (o : nl_os) (iface : bytes) : result unit * nl_os :=
  match LinkByName o iface with
  | inl _ => (Err "netlink", o)
  | inr link => let '(err, o) := LinkSetUp o link in (of_nlerr err, o)
  end.

(** The prefixes of a list of networks that are prefixes. *)
Definition as_prefix (n : option IPNet) : option Prefix :=
  let '(p, ok) := prefixFromIPNet n in if (ok : bool) then Some p else None.

Definition netlink_Addrs (o : nl_os) (iface : bytes) : result (list Prefix) :=
  match LinkByName o iface with
  | inl _ => Err "netlink"
  | inr link =>
      match AddrList o link with
      | inl _ => Err "netlink"
      | inr addrs => Ok (omap as_prefix addrs)
      end
  end.

Definition listRoutes (o : nl_os) (iface : bytes) : nlerr + list Route :=
  match LinkByName o iface with
  | inl e => inl e
  | inr link => RouteList o link
  end.

Definition netlink_Routes (o : nl_os) (iface : bytes) : result (list Prefix) :=
  match listRoutes o iface with
  | inl _ => Err "netlink"
  | inr routes => Ok (omap (as_prefix ∘ Route_Dst) routes)
  end.

Definition netlink_AddRoute (o : nl_os) (iface : bytes) (dst : Prefix) : result unit * nl_os :=
  match LinkByName o iface with
  | inl _ => (Err "netlink", o)
  | inr link =>
      let '(err, o) := RouteAdd o (Attrs_Index link) (prefixToIPNet dst) in
      match err with
      | Some e => if negb (ErrExist e) then (Err "netlink", o) else (Ok (), o)
      | None => (Ok (), o)
      end
  end.

(** The loop of [DelRoute]. *)
Fixpoint delRoutes (o : nl_os) (dst : Prefix) (routes : list Route) : result unit * nl_os :=
  match routes with
  | [] => (Ok (), o)
  | r :: routes =>
      let '(p, ok) := prefixFromIPNet (Route_Dst r) in
      if negb ok || bool_decide (p ≠ dst) then delRoutes o dst routes
      else
        let '(err, o) := RouteDel o r in
        match err with
        | Some e => if negb (ErrNotExist e) then (Err "netlink", o) else delRoutes o dst routes
        | None => delRoutes o dst routes
        end
  end.

Definition netlink_DelRoute (o : nl_os) (iface : bytes) (dst : Prefix) : result unit * nl_os :=
  match listRoutes o iface with
  | inl _ => (Err "netlink", o)
  | inr routes => delRoutes o dst routes
  end.

(** The network stack of Linux, with either device. *)
Definition linux_with (create : nl_os → bytes → Z → result bytes * nl_os)
    (delete : nl_os → bytes → result unit * nl_os) : Network := {|
  os := nl_os;
  dev_Create := create;
  dev_Delete := delete;
  ConfigureDevice := wgctrl_Configure;
  link_SetAddr := netlink_SetAddr;
  link_SetMTU := netlink_SetMTU;
  link_Up := netlink_Up;
  link_Routes o iface := (netlink_Routes o iface, o);
  link_AddRoute := netlink_AddRoute;
  link_DelRoute := netlink_DelRoute;
|}.

Definition linux : Network :=
  linux_with
    (λ o name _, match kernelDevice_Create o name with
                 | (inl _, o) => (Err "creating the link", o)
                 | (inr n, o) => (Ok n, o)
                 end)
    kernelDevice_Delete.
End Link.

(** ** The linker keeps its contract *)

Section Contract.
Context {netlink : Netlink} {nl_laws : NetlinkLaws}.

Lemma as_prefix_routable p : routable p → as_prefix (Some (prefixToIPNet p)) = Some p.
Proof. intros (Hg & _ & H4). unfold as_prefix. by rewrite prefix_back. Qed.

(** The networks routed through the link with an index. *)
Definition through (o : nl_os) (i : Z) : gset Prefix :=
  list_to_set (omap (as_prefix ∘ Route_Dst) (nl_routes o i)).

Lemma elem_of_through o i p :
  p ∈ through o i ↔ ∃ r, r ∈ nl_routes o i ∧ as_prefix (Route_Dst r) = Some p.
Proof. unfold through. rewrite elem_of_list_to_set. apply list_elem_of_omap. Qed.

(** A network is routed through another link, or through none. *)
Definition elsewhere (o : nl_os) (i : Z) (p : Prefix) : Prop :=
  ∃ j r, j ≠ i ∧ r ∈ nl_routes o j ∧ Route_Dst r = Some (prefixToIPNet p).

Definition linux_routes (o : nl_os) (name : bytes) : gset Prefix :=
  match LinkByName o name with inl _ => ∅ | inr l => through o (Attrs_Index l) end.
Definition linux_foreign (o : nl_os) (name : bytes) (p : Prefix) : Prop :=
  match LinkByName o name with inl _ => False | inr l => elsewhere o (Attrs_Index l) p end.

(** [AddRoute], whether the route is made or there is one already. *)
Lemma netlink_AddRoute_ok o name p o' :
  routable p → netlink_AddRoute o name p = (Ok (), o') →
  (linux_routes o' name = {[p]} ∪ linux_routes o name ∨
   linux_foreign o name p ∧ linux_routes o' name = linux_routes o name) ∧
  ∀ q, linux_foreign o name q → linux_foreign o' name q.
Proof.
  intros Hp. unfold netlink_AddRoute, linux_routes, linux_foreign.
  destruct (LinkByName o name) as [|l] eqn:El; [done|].
  destruct (RouteAdd o (Attrs_Index l) (prefixToIPNet p)) as [[e|] o1] eqn:E.
  - destruct (ErrExist e) eqn:Ee; [|done]. intros [= <-].
    pose proof (RouteAdd_links o (Attrs_Index l) (prefixToIPNet p) name) as Hl. rewrite E in Hl. cbn in Hl.
    destruct (RouteAdd_exists _ _ _ _ _ Hp E Ee) as [(j & r & Hr & Hd) Heq]. rewrite Hl, El.
    assert (Ht : through o1 (Attrs_Index l) = through o (Attrs_Index l)) by (unfold through; by rewrite Heq).
    rewrite Ht. split.
    + destruct (decide (j = Attrs_Index l)) as [->|Hj]; [left|right; split; [by exists j, r|done]].
      assert (p ∈ through o (Attrs_Index l)); [|set_solver].
      apply elem_of_through. exists r. split; [done|]. by rewrite Hd, as_prefix_routable.
    + intros q (j' & r' & Hj' & Hr' & Hd'). exists j', r'. by rewrite Heq.
  - intros [= <-].
    pose proof (RouteAdd_links o (Attrs_Index l) (prefixToIPNet p) name) as Hl. rewrite E in Hl. cbn in Hl.
    destruct (RouteAdd_ok _ _ _ _ Hp E) as (r & Hd & Heq). rewrite Hl, El. split.
    + left. apply set_eq. intros q. rewrite elem_of_union, elem_of_singleton, !elem_of_through. split.
      * intros (r' & Hr' & Hq). apply Heq in Hr' as [Hr'|[_ ->]]; [right; by exists r'|left].
        rewrite Hd, as_prefix_routable in Hq by done. by injection Hq.
      * intros [->|(r' & Hr' & Hq)].
        -- exists r. split; [apply Heq; by right|]. by rewrite Hd, as_prefix_routable.
        -- exists r'. split; [apply Heq; by left|done].
    + intros q (j' & r' & Hj' & Hr' & Hd'). exists j', r'. split_and!; [done|apply Heq; by left|done].
Qed.

(** The loop of [DelRoute] removes the routes to the network, and those alone. *)
Lemma delRoutes_ok i dst routes o o' :
  NoDup routes → (∀ r, r ∈ routes → r ∈ nl_routes o i) → delRoutes o dst routes = (Ok (), o') →
  (∀ j r, r ∈ nl_routes o' j ↔ r ∈ nl_routes o j ∧ ¬ (r ∈ routes ∧ as_prefix (Route_Dst r) = Some dst)) ∧
  ∀ n, LinkByName o' n = LinkByName o n.
Proof.
  revert o. induction routes as [|r routes IH]; intros o Hnd Hin; cbn.
  - intros [= ->]. split; [|done]. intros j r. set_solver.
  - apply NoDup_cons in Hnd as [Hr Hnd].
    destruct (prefixFromIPNet (Route_Dst r)) as [p ok] eqn:Ep.
    assert (Has : as_prefix (Route_Dst r) = if (ok : bool) then Some p else None)
      by (unfold as_prefix; by rewrite Ep).
    destruct (negb ok || bool_decide (p ≠ dst)) eqn:Eskip.
    + intros Hd. destruct (IH o Hnd) as [H1 H2]; [set_solver|done|]. split; [|done].
      assert (Hne : as_prefix (Route_Dst r) ≠ Some dst).
      { rewrite Has. destruct ok; [|done]. cbn in Eskip. apply bool_decide_eq_true in Eskip. congruence. }
      intros j r'. rewrite H1, elem_of_cons. naive_solver.
    + apply orb_false_iff in Eskip as [Eok Edst]. apply negb_false_iff in Eok. subst ok.
      apply bool_decide_eq_false in Edst. apply dec_stable in Edst. subst p.
      destruct (RouteDel o r) as [err o1] eqn:Edel.
      assert (Hgo : delRoutes o1 dst routes = (Ok (), o') →
        (err = None ∨ ∃ e', err = Some e' ∧ ErrNotExist e' = true) →
        (∀ j r', r' ∈ nl_routes o' j ↔
          r' ∈ nl_routes o j ∧ ¬ (r' ∈ r :: routes ∧ as_prefix (Route_Dst r') = Some dst)) ∧
        ∀ n, LinkByName o' n = LinkByName o n).
      { intros Hd Herr. pose proof (RouteDel_ok o i r err o1 (Hin r ltac:(left)) Edel Herr) as Hdel.
        destruct (IH o1 Hnd) as [H1 H2]; [|done|].
        - intros r' Hr'. apply Hdel. split; [apply Hin; by right|set_solver].
        - split; [|intros n; rewrite H2; pose proof (RouteDel_links o r n) as Hl; by rewrite Edel in Hl].
          intros j r'. rewrite H1, Hdel, elem_of_cons.
          destruct (decide (as_prefix (Route_Dst r') = Some dst)) as [Hd'|Hd']; [|naive_solver].
          split; [naive_solver|]. intros [Hj Hn]. split_and!; [done| |naive_solver].
          intros ->. apply Hn. by split; [left|]. }
      destruct err as [e|]; [destruct (ErrNotExist e) eqn:Ee; cbn; [|done]|]; intros Hd;
        apply Hgo; [done|right; by exists e|done|by left].
Qed.

Lemma netlink_DelRoute_ok o name p o' :
  netlink_DelRoute o name p = (Ok (), o') →
  linux_routes o' name = linux_routes o name ∖ {[p]} ∧
  ∀ q, linux_foreign o name q → linux_foreign o' name q.
Proof.
  unfold netlink_DelRoute, listRoutes, linux_routes, linux_foreign.
  destruct (LinkByName o name) as [|l] eqn:El; [done|].
  destruct (RouteList o l) as [|rs] eqn:Er; [done|]. apply RouteList_ok in Er as ->.
  intros Hd. apply (delRoutes_ok (Attrs_Index l)) in Hd as [H1 H2]; [|apply nl_routes_nodup|done].
  rewrite H2, El. split.
  - apply set_eq. intros q. rewrite elem_of_difference, elem_of_singleton, !elem_of_through. split.
    + intros (r & [Hr Hn]%H1 & Hq). split; [by exists r|]. intros ->. by apply Hn.
    + intros [(r & Hr & Hq) Hne]. exists r. split; [|done]. apply H1. split; [done|]. naive_solver.
  - intros q (j & r & Hj & Hr & Hdst). exists j, r. split_and!; [done| |done]. apply H1. split; [done|].
    intros [Hr' _]. apply nl_routes_link in Hr, Hr'. congruence.
Qed.

Lemma delRoutes_config routes dst o d : nl_config (delRoutes o dst routes).2 d = nl_config o d.
Proof.
  revert o. induction routes as [|r routes IH]; intros o; cbn; [done|].
  destruct (prefixFromIPNet (Route_Dst r)) as [p ok]. case_match; [done|].
  pose proof (RouteDel_config o r d) as Hc. destruct (RouteDel o r) as [[e|] o1]; cbn in Hc;
    [destruct (negb (ErrNotExist e))|]; cbn; by rewrite ?IH.
Qed.

(** The contract of Wg, with any device. *)
Definition linux_laws create delete : @NetworkLaws (linux_with create delete).
Proof.
  unshelve eapply (@Build_NetworkLaws (linux_with create delete) linux_routes nl_config linux_foreign (λ _ _ _, False) (λ _, True)).
  - intros o i c o'. apply wgctrl_ok.
  - intros o i l o'. cbn. intros [= Hl <-]. split; [|done]. unfold netlink_Routes, listRoutes, linux_routes in *.
    destruct (LinkByName o i) as [|k]; [done|]. destruct (RouteList o k) as [|rs] eqn:Er; [done|].
    apply RouteList_ok in Er as ->. injection Hl as <-. intros p. unfold through. by rewrite elem_of_list_to_set.
  - done.
  - intros o i p o' Hp H. by apply (netlink_AddRoute_ok _ _ _ _ Hp H).
  - intros o i p o' _ H. left. by apply (netlink_DelRoute_ok _ _ _ _ H).
  - intros o i p o' q Hp H. by apply (netlink_AddRoute_ok _ _ _ _ Hp H).
  - intros o i p o' q _ H _. by apply (netlink_DelRoute_ok _ _ _ _ H).
  - done.
  - cbn. by intros o i l o' q [= _ <-].
  - intros o i p d. cbn. unfold netlink_SetAddr. destruct (LinkByName o i) as [|l]; [done|].
    pose proof (AddrReplace_config o l (prefixToIPNet p) d) as Hc. by destruct (AddrReplace _ _ _).
  - intros o i m d. cbn. unfold netlink_SetMTU. destruct (LinkByName o i) as [|l]; [done|].
    pose proof (LinkSetMTU_config o l m d) as Hc. by destruct (LinkSetMTU _ _ _).
  - intros o i d. cbn. unfold netlink_Up. destruct (LinkByName o i) as [|l]; [done|].
    pose proof (LinkSetUp_config o l d) as Hc. by destruct (LinkSetUp _ _).
  - done.
  - intros o i p d. cbn. unfold netlink_AddRoute. destruct (LinkByName o i) as [|l]; [done|].
    pose proof (RouteAdd_config o (Attrs_Index l) (prefixToIPNet p) d) as Hc.
    destruct (RouteAdd _ _ _) as [[e|] o1]; [destruct (negb (ErrExist e))|]; done.
  - intros o i p d. cbn. unfold netlink_DelRoute, listRoutes. destruct (LinkByName o i) as [|l]; [done|].
    destruct (RouteList o l) as [|rs]; [done|]. apply delRoutes_config.
Defined.

(** C12: on Linux, when [SetUpInterface] succeeds, the kernel has exactly the
    nodes as peers of the device; every network of a node has a route through
    the interface, unless the kernel refused it for a route to the same
    network elsewhere; and the routes through the interface lead to the networks of the nodes
    and this node's own address alone. *)
Theorem linux_SetUpInterface {types : WgTypes} create delete s (o o' : nl_os) nodes s' :
  nodes_routable nodes →
  @SetUpInterface types (linux_with create delete) s o nodes = (Ok (), s', o') →
  (∃ peers, nodesToPeerConfigs s nodes = Ok peers ∧
    nl_config o' (iface s) = Some (MkWgConfig (privKey s) (s_port s) true peers)) ∧
  (∀ l, LinkByName o' (osName s') = inr l →
    (∀ p, p ∈ nodes ≫= peerPrefixes →
      (∃ r, r ∈ nl_routes o' (Attrs_Index l) ∧ as_prefix (Route_Dst r) = Some p) ∨
      elsewhere o' (Attrs_Index l) p) ∧
    (∀ r p, r ∈ nl_routes o' (Attrs_Index l) → as_prefix (Route_Dst r) = Some p →
      p ∈ nodes ≫= peerPrefixes ∨ p = hostPrefix (overlayAddr s))).
Proof.
  intros Hn Hs.
  destruct (@SetUpInterface_exact _ _ (linux_laws create delete) _ _ _ _ _ Hn Hs) as (H1 & H2 & H3).
  split; [done|]. intros l Hl. cbn in H2, H3. unfold linux_routes, linux_foreign in H2, H3. rewrite Hl in H2, H3. split.
  - intros p [Hp|Hp]%H2; [left; by apply elem_of_through|by right].
  - intros r p Hr Hp. destruct (H3 p) as [?|[?|[]]]; [apply elem_of_through; by exists r|by left|by right].
Qed.

(** The kernel's device is the one unless asked not to or the kernel has
    none, and any other failure to make the link stops the start. *)
Theorem platform_spec o cfg :
  let '(r, o') := platform o cfg in
  match r with
  | Ok KernelDevice =>
      cfg_Userspace cfg = false ∧ ∃ name, kernelDevice_Create o (cfg_Interface cfg) = (inr name, o')
  | Ok UserspaceDevice =>
      if cfg_Userspace cfg then o' = o
      else kernelDevice_Create o (cfg_Interface cfg) = (inl (Errno EOPNOTSUPP), o')
  | Err _ =>
      cfg_Userspace cfg = false ∧
      ∃ e, e ≠ Errno EOPNOTSUPP ∧ kernelDevice_Create o (cfg_Interface cfg) = (inl e, o')
  end.
Proof.
  unfold platform. destruct (cfg_Userspace cfg); cbn; [done|].
  destruct (kernelDevice_Create o (cfg_Interface cfg)) as [[e|name] o'] eqn:E; [|split; [done|by exists name]].
  destruct e as [[]| |]; cbn; try done; (split; [done|]); eexists; (split; [|reflexivity]); done.
Qed.

(** What [New] leaves in the kernel: the interface of the agent's name where
    the kernel runs the device, and nothing of its making where the agent does. *)
Theorem linux_New_spec `{!WgTypes} o o' client generated cfg dev s :
  linux_New o client generated cfg = (Ok (dev, s), o') →
  iface s = cfg_Interface cfg ∧ generated = Ok (privKey s) ∧ PubKey s = PublicKey_of (privKey s) ∧
  match dev with
  | KernelDevice => cfg_Userspace cfg = false ∧ kernelDevice_Create o (iface s) = (inr (iface s), o')
  | UserspaceDevice =>
      if cfg_Userspace cfg then o' = o else kernelDevice_Create o (iface s) = (inl (Errno EOPNOTSUPP), o')
  end.
Proof.
  unfold linux_New. pose proof (platform_spec o cfg) as Hp. destruct (platform o cfg) as [d o1]. intros [= Hnew <-].
  apply wg_New_Ok in Hnew as (-> & _ & -> & Hk & _ & Hi & _). rewrite Hi. split_and!; [done..|].
  destruct dev; [|exact Hp]. destruct Hp as (Hu & name & E). split; [done|]. rewrite E. f_equal.
  unfold kernelDevice_Create in E. destruct (LinkAdd o (cfg_Interface cfg)) as [[e|] o2]; [destruct (negb (ErrExist e)); [done|]|];
    by injection E as <- _.
Qed.
End Contract.

(** A route that is gone when it is deleted is reported by the kernel with
    ESRCH, which [os.ErrNotExist] does not stand for. *)
Example gone_route_is_an_error `{!Netlink} o o' dst r :
  as_prefix (Route_Dst r) = Some dst → RouteDel o r = (Some (Errno ESRCH), o') →
  (delRoutes o dst [r]).1 = Err "netlink".
Proof.
  unfold as_prefix. cbn. destruct (prefixFromIPNet (Route_Dst r)) as [p []]; [|done].
  intros [= ->] ->. by rewrite bool_decide_false by naive_solver.
Qed.

(** ** A kernel to compute with *)

Module ToyKernel.
Record kernel := MkKernel {
  k_links : gmap bytes Z;
  k_routes : gset (Z * (bytes * bytes));       (* link, destination *)
  k_configs : gmap bytes wgConfig;
}.
Definition dst_of (r : Z * (bytes * bytes)) : option IPNet := Some (MkIPNet r.2.1 r.2.2).
Definition routes_at (o : kernel) (i : Z) : list (Z * (bytes * bytes)) :=
  filter (λ r, r.1 = i) (elements (k_routes o)).

#[export] Instance netlink : Netlink := {
  nl_os := kernel;
  Link := Z;
  Route := Z * (bytes * bytes);
  Attrs_Index l := l;
  Route_LinkIndex r := r.1;
  Route_Dst := dst_of;
  LinkByName o n := match k_links o !! n with Some i => inr i | None => inl LinkNotFound end;
  LinkAdd o n :=
    match k_links o !! n with
    | Some _ => (Some (Errno EEXIST), o)
    | None => (None, MkKernel (<[n := Z.of_nat (size (k_links o)) + 1]> (k_links o)) (k_routes o) (k_configs o))
    end;
  LinkDel o l := (None, MkKernel (filter (λ kv, kv.2 ≠ l) (k_links o)) (k_routes o) (k_configs o));
  AddrReplace o l a := (None, o);
  LinkSetMTU o l m := (None, o);
  LinkSetUp o l := (None, o);
  AddrList o l := inr [];
  RouteList o l := inr (routes_at o l);
  RouteAdd o i d :=
    let dst := (ipn_IP d, ipn_Mask d) in
    if decide (Exists (λ r, r.2 = dst) (elements (k_routes o))) then (Some (Errno EEXIST), o)
    else (None, MkKernel (k_links o) ({[(i, dst)]} ∪ k_routes o) (k_configs o));
  RouteDel o r :=
    if decide (r ∈ k_routes o) then (None, MkKernel (k_links o) (k_routes o ∖ {[r]}) (k_configs o))
    else (Some (Errno ESRCH), o);
  wgctrl_Configure o n c := (Ok (), MkKernel (k_links o) (k_routes o) (<[n := c]> (k_configs o)));
}.

Lemma elem_of_routes_at o i r : r ∈ routes_at o i ↔ r.1 = i ∧ r ∈ k_routes o.
Proof. unfold routes_at. by rewrite list_elem_of_filter, elem_of_elements. Qed.

#[export] Instance laws : NetlinkLaws.
Proof.
  unshelve eapply (Build_NetlinkLaws netlink routes_at (λ (o : kernel) n, k_configs o !! n)).
  - intros o i r Hr. by apply elem_of_routes_at in Hr as [Hr _].
  - intros o i. apply NoDup_filter, NoDup_elements.
  - intros o l rs [= <-]. done.
  - intros o i p o' _. cbn. case_decide as Hx; [done|]. intros [= <-].
    exists (i, (ipn_IP (prefixToIPNet p), ipn_Mask (prefixToIPNet p))). split; [done|].
    intros j r'. rewrite !elem_of_routes_at. cbn. set_solver.
  - intros o i p e o' _. cbn. case_decide as Hx; [|done]. intros [= <- <-] _. split; [|done].
    apply Exists_exists in Hx as (r & Hr & Hd). exists r.1, r. apply elem_of_elements in Hr.
    split; [by apply elem_of_routes_at|]. cbn. unfold dst_of. by rewrite Hd.
  - intros o i r e o' Hr. apply elem_of_routes_at in Hr as [_ Hr]. cbn. rewrite decide_True by done.
    intros [= <- <-] _ j r'. rewrite !elem_of_routes_at. cbn. set_solver.
  - intros o i d n. cbn. by case_decide.
  - intros o r n. cbn. by case_decide.
  - intros o n c o'. cbn. intros [= <-]. cbn. apply lookup_insert_eq.
  - done.
  - done.
  - done.
  - intros o i a d. cbn. by case_decide.
  - intros o r d. cbn. by case_decide.
Defined.
End ToyKernel.

#[local] Existing Instance ToyKernel.netlink.
#[local] Existing Instance ToyKernel.laws.
#[local] Existing Instance ToyNet.types.

(** The host's own network card has the first link and a route to [lan]; the
    interface has a route nobody wants any more. *)
Definition net_key (p : Prefix) : bytes * bytes := (ipn_IP (prefixToIPNet p), ipn_Mask (prefixToIPNet p)).
Definition demo_kernel : ToyKernel.kernel :=
  ToyKernel.MkKernel {[str "eth0" := 1; str "wgoverlay" := 2]} {[(1, net_key lan); (2, net_key stale)]} ∅.
Definition linux_up : result unit * State * ToyKernel.kernel :=
  @SetUpInterface _ linux demo_state demo_kernel [demo_peer].

Example linux_up_ok : linux_up.1.1 = Ok ().
Proof. vm_compute. reflexivity. Qed.

(** The stale route is gone and the peer's address routed; its network stays
    with the network card. *)
Example linux_up_routes :
  bool_decide (ToyKernel.k_routes linux_up.2 =
    {[(1, net_key lan); (2, net_key (hostPrefix (A4 0x0A000002)))]}) = true.
Proof. vm_compute. reflexivity. Qed.

Lemma linux_SetUpInterface_witness :
  linux_up.1.1 = Ok () ∧
  ∀ l, LinkByName linux_up.2 (osName linux_up.1.2) = inr l →
    ∀ p, p ∈ [demo_peer] ≫= peerPrefixes →
      (∃ r, r ∈ nl_routes linux_up.2 (Attrs_Index l) ∧ as_prefix (Route_Dst r) = Some p) ∨
      elsewhere linux_up.2 (Attrs_Index l) p.
Proof.
  split; [exact linux_up_ok|]. intros l Hl.
  destruct (linux_SetUpInterface (netlink := ToyKernel.netlink) (types := ToyNet.types)
    (λ o name _, match kernelDevice_Create o name with
                 | (inl _, o) => (Err "creating the link", o)
                 | (inr n, o) => (Ok n, o)
                 end) kernelDevice_Delete
    demo_state demo_kernel linux_up.2 [demo_peer] linux_up.1.2 demo_peers_routable) as [_ H].
  - fold linux. fold linux_up. rewrite <- linux_up_ok. by destruct linux_up as [[r s] o].
  - exact (proj1 (H l Hl)).
Defined.
