(* ===== verification/WinLink.v ===== *)
(** * WinLink: the network stack of Windows (internal/wg/link_windows.go, platform_windows.go)

    The linker of Windows, over the calls of winipcfg, a class with the
    behaviour of the IP helper API as its laws. A route of the forwarding table
    is known by interface, destination and next hop, and the linker lists the
    routes a program added whatever their next hop, but adds and deletes those
    without a gateway alone. The linker keeps the contract Wg asks of a network
    stack, so that what a set-up achieves is shown of the forwarding table. *)

From S2P Require Import Prelude Netip Overlay Identity State Wg.

(** ** net and winipcfg *)

(** The errors the source tells apart. *)
Inductive winerr := OBJECT_ALREADY_EXISTS | NOT_FOUND | OtherWin.
Definition is_exists (e : winerr) : bool := match e with OBJECT_ALREADY_EXISTS => true | _ => false end.
Definition is_not_found (e : winerr) : bool := match e with NOT_FOUND => true | _ => false end.

Inductive family := AF_INET | AF_INET6.
Inductive netAddr := AddrIPNet (n : option IPNet) | OtherAddr.

Class Winipcfg := {
  win_os : Type;
  LUID : Type;
  LUID_eq :: EqDecision LUID;
  NetIf : Type;                                (* net.Interface *)
  IPIf : Type;                                 (* MibIPInterfaceRow *)
  Row : Type;                                  (* MibIPforwardRow2 *)
  If_Index : NetIf → Z;
  If_FlagUp : NetIf → bool;
  Row_LUID : Row → LUID;
  Row_NetMgmt : Row → bool;                    (* Protocol == RouteProtocolNetMgmt *)
  Row_Dst : Row → Prefix;                      (* DestinationPrefix.Prefix() *)
  Row_NextHop : Row → Addr;
  set_NLMTU : IPIf → Z → IPIf;
  InterfaceByName : win_os → bytes → result NetIf;
  Interface_Addrs : win_os → NetIf → result (list netAddr);
  LUIDFromIndex : win_os → Z → result LUID;
  IPInterface : win_os → LUID → family → winerr + IPIf;
  IPIf_Set : win_os → IPIf → option winerr * win_os;
  AddIPAddress : win_os → LUID → Prefix → option winerr * win_os;
  GetIPForwardTable2 : win_os → result (list Row);
  luid_AddRoute : win_os → LUID → Prefix → Addr → Z → option winerr * win_os;
  luid_DeleteRoute : win_os → LUID → Prefix → Addr → option winerr * win_os;
  win_Configure : win_os → bytes → wgConfig → result unit * win_os;   (* wgctrl's ConfigureDevice *)
}.

(** A row has the key a route is found by. *)
Definition has_key `{!Winipcfg} (l : LUID) (p : Prefix) (hop : Addr) (r : Row) : Prop :=
  Row_LUID r = l ∧ Row_Dst r = p ∧ Row_NextHop r = hop.

(** What the stack does: adding a route makes a row of network management,
    unless there is one with its key; deleting one removes the rows with its
    key, and fails to find it only where there is none; neither touches
    interfaces or devices. *)
Class WinLaws `{!Winipcfg} := {
  win_table : win_os → list Row;
  win_config : win_os → bytes → option wgConfig;
  Table_ok o rs : GetIPForwardTable2 o = Ok rs → rs = win_table o;
  AddRoute_made o l p hop m o' :
    routable p → luid_AddRoute o l p hop m = (None, o') →
    ∃ r, has_key l p hop r ∧ Row_NetMgmt r = true ∧
      ∀ r', r' ∈ win_table o' ↔ r' ∈ win_table o ∨ r' = r;
  AddRoute_exists o l p hop m e o' :
    routable p → luid_AddRoute o l p hop m = (Some e, o') → is_exists e = true →
    (∃ r, r ∈ win_table o ∧ has_key l p hop r) ∧ win_table o' = win_table o;
  DeleteRoute_done o l p hop o' :
    luid_DeleteRoute o l p hop = (None, o') →
    ∀ r, r ∈ win_table o' ↔ r ∈ win_table o ∧ ¬ has_key l p hop r;
  DeleteRoute_none o l p hop e o' :
    luid_DeleteRoute o l p hop = (Some e, o') → is_not_found e = true →
    (∀ r, r ∈ win_table o → ¬ has_key l p hop r) ∧ win_table o' = win_table o;
  AddRoute_ifs o l p hop m n : InterfaceByName (luid_AddRoute o l p hop m).2 n = InterfaceByName o n;
  AddRoute_luids o l p hop m i : LUIDFromIndex (luid_AddRoute o l p hop m).2 i = LUIDFromIndex o i;
  DeleteRoute_ifs o l p hop n : InterfaceByName (luid_DeleteRoute o l p hop).2 n = InterfaceByName o n;
  DeleteRoute_luids o l p hop i : LUIDFromIndex (luid_DeleteRoute o l p hop).2 i = LUIDFromIndex o i;
  win_Configure_ok o n c o' : win_Configure o n c = (Ok (), o') → win_config o' n = Some c;
  AddIPAddress_config o l p d : win_config (AddIPAddress o l p).2 d = win_config o d;
  IPIf_Set_config o i d : win_config (IPIf_Set o i).2 d = win_config o d;
  luid_AddRoute_config o l p hop m d : win_config (luid_AddRoute o l p hop m).2 d = win_config o d;
  luid_DeleteRoute_config o l p hop d : win_config (luid_DeleteRoute o l p hop).2 d = win_config o d;
}.

(** ** link_windows.go *)

Section Link.
Context {winipcfg : Winipcfg}.
Open Scope go_scope.

Definition luidOf (o : win_os) (iface : bytes) : result LUID :=
  let? ifi := InterfaceByName o iface in
  LUIDFromIndex o (If_Index ifi `mod` 2 ^ 32).

(** [if err != nil && !errors.Is(err, ...) { return err }; return nil] *)
Definition unless (ignored : winerr → bool) (err : option winerr) : result unit :=
  match err with
  | Some e => if negb (ignored e) then Err "winipcfg" else Ok ()
  | None => Ok ()
  end.

Definition win_SetAddr (o : win_os) (iface : bytes) (addr : Prefix) : result unit * win_os :=
  match luidOf o iface with
  | Err e => (Err e, o)
  | Ok luid => let '(err, o) := AddIPAddress o luid addr in (unless is_exists err, o)
  end.

(** The loop of [SetMTU]. *)
Fixpoint setMTUs (o : win_os) (luid : LUID) (mtu : Z) (families : list family) : result unit * win_os :=
  match families with
  | [] => (Ok (), o)
  | fam :: families =>
      match IPInterface o luid fam with
      | inl e => if is_not_found e then setMTUs o luid mtu families else (Err "winipcfg", o)
      | inr ipif =>
          let '(err, o) := IPIf_Set o (set_NLMTU ipif (mtu `mod` 2 ^ 32)) in
          match err with
          | Some _ => (Err "winipcfg", o)
          | None => setMTUs o luid mtu families
          end
      end
  end.

Definition win_SetMTU (o : win_os) (iface : bytes) (mtu : Z) : result unit * win_os :=
  match luidOf o iface with
  | Err e => (Err e, o)
  | Ok luid => setMTUs o luid mtu [AF_INET; AF_INET6]
  end.

Definition win_Up (o : win_os) (iface : bytes) : result unit :=
  let? ifi := InterfaceByName o iface in
  if negb (If_FlagUp ifi) then Err "the adapter is down" else Ok ().

(** The prefix of an address, where it has one. *)
Definition addr_prefix (a : netAddr) : option Prefix :=
  match a with
  | AddrIPNet n => let '(p, ok) := prefixFromIPNet n in if (ok : bool) then Some p else None
  | OtherAddr => None
  end.

Definition win_Addrs (o : win_os) (iface : bytes) : result (list Prefix) :=
  let? ifi := InterfaceByName o iface in
  let? addrs := Interface_Addrs o ifi in
  Ok (omap addr_prefix addrs).

Fixpoint managedRoutes (rows : list Row) (luid : LUID) : list Prefix :=
  match rows with
  | [] => []
  | row :: rows =>
      if bool_decide (Row_LUID row ≠ luid) || negb (Row_NetMgmt row) then managedRoutes rows luid
      else
        let dst := Row_Dst row in
        if Prefix_IsValid dst then dst :: managedRoutes rows luid else managedRoutes rows luid
  end.

Definition win_Routes (o : win_os) (iface : bytes) : result (list Prefix) :=
  let? luid := luidOf o iface in
  let? rows := GetIPForwardTable2 o in
  Ok (managedRoutes rows luid).

Definition nextHop (dst : Prefix) : Addr :=
  match pfx_Addr dst with A4 _ => A4 0 | _ => A6 0 [] end.

Definition win_AddRoute (o : win_os) (iface : bytes) (dst : Prefix) : result unit * win_os :=
  match luidOf o iface with
  | Err e => (Err e, o)
  | Ok luid => let '(err, o) := luid_AddRoute o luid dst (nextHop dst) 0 in (unless is_exists err, o)
  end.

Definition win_DelRoute (o : win_os) (iface : bytes) (dst : Prefix) : result unit * win_os :=
  match luidOf o iface with
  | Err e => (Err e, o)
  | Ok luid => let '(err, o) := luid_DeleteRoute o luid dst (nextHop dst) in (unless is_not_found err, o)
  end.

(** The [lookup] of platform_windows.go; [platform] there is this network with
    the userspace device and [remove] does nothing. *)
Definition win_lookup (o : win_os) (iface : bytes) : result bytes :=
  let? _ := InterfaceByName o iface in Ok iface.
Definition win_remove (iface : bytes) : result unit := Ok ().

Definition windows_with (create : win_os → bytes → Z → result bytes * win_os)
    (delete : win_os → bytes → result unit * win_os) : Network := {|
  os := win_os;
  dev_Create := create;
  dev_Delete := delete;
  ConfigureDevice := win_Configure;
  link_SetAddr := win_SetAddr;
  link_SetMTU := win_SetMTU;
  link_Up o iface := (win_Up o iface, o);
  link_Routes o iface := (win_Routes o iface, o);
  link_AddRoute := win_AddRoute;
  link_DelRoute := win_DelRoute;
|}.
End Link.

(** ** The linker keeps its contract *)

Section Contract.
Context {winipcfg : Winipcfg} {win_laws : WinLaws}.

(** A row the linker lists. *)
Definition managed (o : win_os) (l : LUID) (r : Row) : Prop :=
  r ∈ win_table o ∧ Row_LUID r = l ∧ Row_NetMgmt r = true.

Lemma elem_of_managedRoutes o l p :
  p ∈ managedRoutes (win_table o) l ↔ ∃ r, managed o l r ∧ Row_Dst r = p ∧ Prefix_IsValid p = true.
Proof.
  unfold managed. induction (win_table o) as [|r rs IH]; cbn; [set_solver|].
  setoid_rewrite elem_of_cons.
  destruct (bool_decide (Row_LUID r ≠ l) || negb (Row_NetMgmt r)) eqn:E.
  - rewrite IH. apply orb_true_iff in E as [E%bool_decide_eq_true|E%negb_true_iff]; naive_solver congruence.
  - apply orb_false_iff in E as [E%bool_decide_eq_false E2%negb_false_iff]. apply dec_stable in E.
    destruct (Prefix_IsValid (Row_Dst r)) eqn:Ev; rewrite ?elem_of_cons, IH; naive_solver congruence.
Qed.

Definition win_routes (o : win_os) (name : bytes) : gset Prefix :=
  match luidOf o name with Err _ => ∅ | Ok l => list_to_set (managedRoutes (win_table o) l) end.

(** The stack has the very route, though not from a program. *)
Definition win_foreign (o : win_os) (name : bytes) (p : Prefix) : Prop :=
  ∃ l r, luidOf o name = Ok l ∧ r ∈ win_table o ∧ has_key l p (nextHop p) r ∧ Row_NetMgmt r = false.

(** A program added a route to the network through a gateway. *)
Definition win_stuck (o : win_os) (name : bytes) (p : Prefix) : Prop :=
  ∃ l r, luidOf o name = Ok l ∧ managed o l r ∧ Row_Dst r = p ∧ Row_NextHop r ≠ nextHop p.

Lemma luidOf_same o o' name :
  (∀ n, InterfaceByName o' n = InterfaceByName o n) → (∀ i, LUIDFromIndex o' i = LUIDFromIndex o i) →
  luidOf o' name = luidOf o name.
Proof. intros H1 H2. unfold luidOf. rewrite H1. by destruct (InterfaceByName o name). Qed.

Lemma luidOf_AddRoute o l p hop m name : luidOf (luid_AddRoute o l p hop m).2 name = luidOf o name.
Proof. apply luidOf_same; intros; [apply AddRoute_ifs|apply AddRoute_luids]. Qed.
Lemma luidOf_DeleteRoute o l p hop name : luidOf (luid_DeleteRoute o l p hop).2 name = luidOf o name.
Proof. apply luidOf_same; intros; [apply DeleteRoute_ifs|apply DeleteRoute_luids]. Qed.

Lemma routable_valid p : routable p → Prefix_IsValid p = true.
Proof. by intros [[_ Hv] _]. Qed.

Lemma win_AddRoute_ok o name p o' :
  routable p → win_AddRoute o name p = (Ok (), o') →
  (win_routes o' name = {[p]} ∪ win_routes o name ∨
   win_foreign o name p ∧ win_routes o' name = win_routes o name) ∧
  (∀ q, win_foreign o name q → win_foreign o' name q) ∧
  ∃ l r, luidOf o' name = Ok l ∧ r ∈ win_table o' ∧ has_key l p (nextHop p) r.
Proof.
  intros Hp. unfold win_AddRoute. destruct (luidOf o name) as [l|] eqn:El; [|done].
  pose proof (luidOf_AddRoute o l p (nextHop p) 0 name) as Hl.
  destruct (luid_AddRoute o l p (nextHop p) 0) as [[e|] o1] eqn:E; cbn in Hl.
  - unfold unless. destruct (is_exists e) eqn:Ee; [|done]. intros [= <-].
    destruct (AddRoute_exists _ _ _ _ _ _ _ Hp E Ee) as [(r & Hr & Hk) Heq].
    unfold win_routes, win_foreign. rewrite Hl, El, Heq. split_and!; [|done|by exists l, r].
    destruct (Row_NetMgmt r) eqn:Em; [left|right; split; [by exists l, r|done]].
    assert (p ∈ managedRoutes (win_table o) l); [|set_solver].
    apply elem_of_managedRoutes. exists r. destruct Hk as (? & ? & ?).
    by split_and!; [split_and!|..]; [..|by apply routable_valid].
  - intros [= <-]. destruct (AddRoute_made _ _ _ _ _ _ Hp E) as (r & Hk & Hm & Ht).
    unfold win_routes, win_foreign. rewrite Hl, El. split_and!.
    + left. apply set_eq. intros q. rewrite elem_of_union, elem_of_singleton, !elem_of_list_to_set, !elem_of_managedRoutes.
      unfold managed. setoid_rewrite Ht. pose proof (routable_valid _ Hp). destruct Hk as (? & ? & ?). split.
      * naive_solver congruence.
      * intros [->|(r' & (? & ? & ?) & ? & ?)]; [exists r|exists r']; naive_solver.
    + intros q (l' & r' & Hl' & Hr' & Hk' & Hm'). exists l', r'. split_and!; [done|apply Ht; by left|done..].
    + exists l, r. split_and!; [done|apply Ht; by right|done].
Qed.

Lemma win_DelRoute_ok o name p o' :
  win_DelRoute o name p = (Ok (), o') →
  (win_routes o' name = win_routes o name ∖ {[p]} ∨
   win_stuck o name p ∧ win_routes o' name = win_routes o name) ∧
  (∀ q, q ≠ p → win_foreign o name q → win_foreign o' name q) ∧
  ∀ q, win_stuck o name q → win_stuck o' name q.
Proof.
  unfold win_DelRoute. destruct (luidOf o name) as [l|] eqn:El; [|done].
  pose proof (luidOf_DeleteRoute o l p (nextHop p) name) as Hl.
  destruct (luid_DeleteRoute o l p (nextHop p)) as [err o1] eqn:E. cbn in Hl. intros Ho.
  assert (Ht : o1 = o' ∧ ∀ r, r ∈ win_table o1 ↔ r ∈ win_table o ∧ ¬ has_key l p (nextHop p) r).
  { unfold unless in Ho. destruct err as [e|].
    - destruct (is_not_found e) eqn:Ee; [|done]. injection Ho as <-. split; [done|].
      destruct (DeleteRoute_none _ _ _ _ _ _ E Ee) as [Hn ->]. naive_solver.
    - injection Ho as <-. split; [done|]. by apply DeleteRoute_done. }
  destruct Ht as [-> Ht]. unfold win_routes, win_foreign, win_stuck. rewrite Hl, El.
  assert (Hr : ∀ q, q ∈ managedRoutes (win_table o') l ↔
    ∃ r, managed o l r ∧ ¬ has_key l p (nextHop p) r ∧ Row_Dst r = q ∧ Prefix_IsValid q = true).
  { intros q. rewrite elem_of_managedRoutes. unfold managed. setoid_rewrite Ht. naive_solver. }
  split_and!.
  - destruct (decide (p ∈ managedRoutes (win_table o') l)) as [Hin|Hin].
    + right. apply Hr in Hin as (r & Hm & Hk & Hd & Hv). pose proof Hm as (? & ? & ?). split.
      * exists l, r. split_and!; [done..|]. intros Hh. by apply Hk.
      * apply set_eq. intros q. rewrite !elem_of_list_to_set, Hr, elem_of_managedRoutes.
        split; [naive_solver|]. intros (r' & ? & ? & ?).
        destruct (decide (q = p)) as [->|Hq]; [by exists r|exists r']. unfold has_key. naive_solver.
    + left. apply set_eq. intros q. rewrite elem_of_difference, elem_of_singleton, !elem_of_list_to_set. split.
      * intros Hq. split; [|by intros ->]. apply elem_of_managedRoutes. apply Hr in Hq. naive_solver.
      * intros [Hq Hne]. apply Hr. apply elem_of_managedRoutes in Hq as (r & ? & ? & ?).
        exists r. unfold has_key. naive_solver.
  - intros q Hq (l' & r & [= <-] & Hin & Hk & Hm). exists l, r. split_and!; [done| |done..].
    apply Ht. split; [done|]. destruct Hk as (? & ? & ?). unfold has_key. naive_solver.
  - intros q (l' & r & [= <-] & (? & ? & ?) & Hd & Hn). exists l, r. split_and!; [done| |done..].
    split_and!; [apply Ht; split; [done|]|done..]. unfold has_key. naive_solver.
Qed.

Lemma setMTUs_config fams o l m d : win_config (setMTUs o l m fams).2 d = win_config o d.
Proof.
  revert o. induction fams as [|f fams IH]; intros o; cbn; [done|].
  destruct (IPInterface o l f) as [e|i]; [by destruct (is_not_found e)|].
  pose proof (IPIf_Set_config o (set_NLMTU i (m `mod` 2 ^ 32)) d) as Hc.
  destruct (IPIf_Set _ _) as [[e|] o1]; cbn in Hc; [done|]. by rewrite IH.
Qed.

(** The contract of Wg, with any device. *)
Definition windows_laws create delete : @NetworkLaws (windows_with create delete).
Proof.
  unshelve eapply (@Build_NetworkLaws (windows_with create delete) win_routes win_config win_foreign win_stuck (λ _, True)).
  - intros o i c o'. apply win_Configure_ok.
  - intros o i l o'. cbn. intros [= Hl <-]. split; [|done]. unfold win_Routes, win_routes in *.
    destruct (luidOf o i) as [k|]; [|done]. cbn in Hl. destruct (GetIPForwardTable2 o) as [rs|] eqn:Er; [|done].
    apply Table_ok in Er as ->. injection Hl as <-. intros p. by rewrite elem_of_list_to_set.
  - done.
  - intros o i p o' Hp H. by apply (win_AddRoute_ok _ _ _ _ Hp H).
  - intros o i p o' _ H. by apply (win_DelRoute_ok _ _ _ _ H).
  - intros o i p o' q Hp H. by apply (win_AddRoute_ok _ _ _ _ Hp H).
  - intros o i p o' q _ H. by apply (win_DelRoute_ok _ _ _ _ H).
  - intros o i p o' q _ H. by apply (win_DelRoute_ok _ _ _ _ H).
  - cbn. by intros o i l o' q [= _ <-].
  - intros o i p d. cbn. unfold win_SetAddr. destruct (luidOf o i) as [l|]; [|done].
    pose proof (AddIPAddress_config o l p d) as Hc. by destruct (AddIPAddress _ _ _).
  - intros o i m d. cbn. unfold win_SetMTU. destruct (luidOf o i) as [l|]; [|done]. apply setMTUs_config.
  - done.
  - done.
  - intros o i p d. cbn. unfold win_AddRoute. destruct (luidOf o i) as [l|]; [|done].
    pose proof (luid_AddRoute_config o l p (nextHop p) 0 d) as Hc. by destruct (luid_AddRoute _ _ _ _ _).
  - intros o i p d. cbn. unfold win_DelRoute. destruct (luidOf o i) as [l|]; [|done].
    pose proof (luid_DeleteRoute_config o l p (nextHop p) d) as Hc. by destruct (luid_DeleteRoute _ _ _ _).
Defined.

(** On Windows, when [SetUpInterface] succeeds, the device has exactly the
    nodes as peers; every network of a node has a row of the forwarding table
    through the interface; and the rows through it that a program made lead to
    the networks of the nodes, to this node's own address, or have a gateway
    and another row leads there as well. *)
Theorem windows_SetUpInterface {types : WgTypes} create delete s (o o' : win_os) nodes s' l :
  nodes_routable nodes → luidOf o' (osName s') = Ok l →
  @SetUpInterface types (windows_with create delete) s o nodes = (Ok (), s', o') →
  (∃ peers, nodesToPeerConfigs s nodes = Ok peers ∧
    win_config o' (iface s) = Some (MkWgConfig (privKey s) (s_port s) true peers)) ∧
  (∀ p, p ∈ nodes ≫= peerPrefixes → ∃ r, r ∈ win_table o' ∧ Row_LUID r = l ∧ Row_Dst r = p) ∧
  (∀ r, managed o' l r → Prefix_IsValid (Row_Dst r) = true →
    Row_Dst r ∈ nodes ≫= peerPrefixes ∨ Row_Dst r = hostPrefix (overlayAddr s) ∨
    ∃ r', managed o' l r' ∧ Row_Dst r' = Row_Dst r ∧ Row_NextHop r' ≠ nextHop (Row_Dst r)).
Proof.
  intros Hn Hl Hs.
  destruct (@SetUpInterface_exact _ _ (windows_laws create delete) _ _ _ _ _ Hn Hs) as (H1 & H2 & H3).
  split; [done|]. cbn in H2, H3. unfold win_routes, win_foreign, win_stuck in H2, H3. rewrite Hl in H2, H3.
  setoid_rewrite elem_of_list_to_set in H2. setoid_rewrite elem_of_list_to_set in H3.
  setoid_rewrite elem_of_managedRoutes in H2. setoid_rewrite elem_of_managedRoutes in H3. split.
  - intros p [(r & (? & ? & _) & ? & _)|(l' & r & [= <-] & ? & (? & ? & _) & _)]%H2; by exists r.
  - intros r Hm Hv. destruct (H3 (Row_Dst r)) as [?|[?|(l' & r' & [= <-] & ? & ? & ?)]]; [by exists r|auto..].
    right; right. by exists r'.
Qed.
End Contract.

(** ** A stack to compute with *)

Module ToyStack.
Record entry := MkRow { r_luid : Z; r_dst : Prefix; r_hop : Addr; r_mgmt : bool }.
#[export] Instance entry_eq : EqDecision entry.
Proof. solve_decision. Defined.

Record stack := MkStack {
  w_ifs : list (bytes * Z);
  w_rows : list entry;
  w_configs : gmap bytes wgConfig;
}.
Definition keyed (l : Z) (p : Prefix) (hop : Addr) (r : entry) : Prop :=
  r_luid r = l ∧ r_dst r = p ∧ r_hop r = hop.
#[export] Instance keyed_dec l p hop r : Decision (keyed l p hop r).
Proof. unfold keyed. apply _. Defined.

Definition index_of (o : stack) (n : bytes) : result Z :=
  match list_find (λ f, f.1 = n) (w_ifs o) with Some (_, f) => Ok f.2 | None => Err "no such interface" end.

#[export] Instance winipcfg : Winipcfg := {
  win_os := stack;
  LUID := Z;
  NetIf := Z;
  IPIf := Z;
  Row := entry;
  If_Index i := i;
  If_FlagUp _ := true;
  Row_LUID := r_luid;
  Row_NetMgmt := r_mgmt;
  Row_Dst := r_dst;
  Row_NextHop := r_hop;
  set_NLMTU i _ := i;
  InterfaceByName := index_of;
  Interface_Addrs o i := Ok [];
  LUIDFromIndex o i := Ok i;
  IPInterface o l f := match f with AF_INET => inr l | AF_INET6 => inl NOT_FOUND end;
  IPIf_Set o i := (None, o);
  AddIPAddress o l p := (Some OBJECT_ALREADY_EXISTS, o);
  GetIPForwardTable2 o := Ok (w_rows o);
  luid_AddRoute o l p hop m :=
    if decide (Exists (keyed l p hop) (w_rows o)) then (Some OBJECT_ALREADY_EXISTS, o)
    else (None, MkStack (w_ifs o) (w_rows o ++ [MkRow l p hop true]) (w_configs o));
  luid_DeleteRoute o l p hop :=
    if decide (Exists (keyed l p hop) (w_rows o))
    then (None, MkStack (w_ifs o) (filter (λ r, ¬ keyed l p hop r) (w_rows o)) (w_configs o))
    else (Some NOT_FOUND, o);
  win_Configure o n c := (Ok (), MkStack (w_ifs o) (w_rows o) (<[n := c]> (w_configs o)));
}.

#[export] Instance laws : WinLaws.
Proof.
  unshelve eapply (Build_WinLaws winipcfg w_rows (λ (o : stack) n, w_configs o !! n)).
  - by intros o rs [= <-].
  - intros o l p hop m o' _. cbn. case_decide; [done|]. intros [= <-]. exists (MkRow l p hop true).
    split_and!; [done..|]. intros r'. cbn. by rewrite elem_of_app, list_elem_of_singleton.
  - intros o l p hop m e o' _. cbn. case_decide as Hx; [|done]. intros [= <- <-] _.
    apply Exists_exists in Hx. done.
  - intros o l p hop o'. cbn. case_decide as Hx; [|done]. intros [= <-] r. cbn.
    rewrite list_elem_of_filter. by rewrite (comm (∧)).
  - intros o l p hop e o'. cbn. case_decide as Hx; [done|]. intros [= <- <-] _. split; [|done].
    intros r Hr Hk. apply Hx, Exists_exists. by exists r.
  - intros o l p hop m n. cbn. by case_decide.
  - done.
  - intros o l p hop n. cbn. by case_decide.
  - done.
  - intros o n c o'. cbn. intros [= <-]. apply lookup_insert_eq.
  - done.
  - done.
  - intros o l p hop m d. cbn. by case_decide.
  - intros o l p hop d. cbn. by case_decide.
Defined.
End ToyStack.

#[local] Existing Instance ToyStack.winipcfg.
#[local] Existing Instance ToyStack.laws.
#[local] Existing Instance ToyNet.types.

Definition on_link (l : Z) (p : Prefix) : ToyStack.entry := ToyStack.MkRow l p (nextHop p) true.
(** A route an operator added through the interface by hand, with a gateway. *)
Definition by_hand : Prefix := MkPrefix (A4 0xC0A80300) 24.
Definition demo_stack : ToyStack.stack :=
  ToyStack.MkStack [(str "wgoverlay", 7)]
    [on_link 7 stale; ToyStack.MkRow 7 by_hand (A4 0x0A000009) true;
     ToyStack.MkRow 7 (hostPrefix (A4 0x0A000001)) (A4 0) false; on_link 8 stale] ∅.
Definition windows_up : result unit * State * ToyStack.stack :=
  @SetUpInterface _ (windows_with (λ o i _, (Ok i, o)) (λ o _, (Ok (), o))) demo_state demo_stack [demo_peer].

Example windows_up_ok : windows_up.1.1 = Ok ().
Proof. vm_compute. reflexivity. Qed.

(** The stale route is gone and the peer's are there; the operator's route is
    listed among the stale ones each time, and stays. *)
Example windows_up_routes :
  ToyStack.w_rows windows_up.2 =
    [ToyStack.MkRow 7 by_hand (A4 0x0A000009) true; ToyStack.MkRow 7 (hostPrefix (A4 0x0A000001)) (A4 0) false;
     on_link 8 stale; on_link 7 (hostPrefix (A4 0x0A000002)); on_link 7 lan].
Proof. vm_compute. reflexivity. Qed.

(** A route with a gateway is one the linker lists and cannot delete. *)
Example gateway_route_stays :
  win_Routes windows_up.2 (str "wgoverlay") = Ok [by_hand; hostPrefix (A4 0x0A000002); lan] ∧
  win_DelRoute windows_up.2 (str "wgoverlay") by_hand = (Ok (), windows_up.2).
Proof. split; vm_compute; reflexivity. Qed.

Lemma windows_SetUpInterface_witness :
  windows_up.1.1 = Ok () ∧
  ∀ p, p ∈ [demo_peer] ≫= peerPrefixes →
    ∃ r, r ∈ win_table windows_up.2 ∧ Row_LUID r = 7 ∧ Row_Dst r = p.
Proof.
  split; [exact windows_up_ok|].
  destruct (windows_SetUpInterface (winipcfg := ToyStack.winipcfg) (types := ToyNet.types)
    (λ o i _, (Ok i, o)) (λ o _, (Ok (), o)) demo_state demo_stack windows_up.2 [demo_peer] windows_up.1.2 7
    demo_peers_routable) as (_ & H & _).
  - vm_compute. reflexivity.
  - fold windows_up. rewrite <- windows_up_ok. by destruct windows_up as [[r s] o].
  - exact H.
Defined.
