(* ===== verification/Userspace.v ===== *)
(** * Userspace: WireGuard inside the agent (internal/wg/userspace.go, uapi_unix.go, uapi_windows.go)

    The device that serves where the kernel has no WireGuard: made on the first
    [Create], replaced when it stopped by itself, stopped by [Delete]. The tun
    interface, the device and the control socket are counted, and no sequence
    of calls, whatever fails in it, leaves one of them behind; the file the
    socket listens on is opened on Unix and not counted. *)

From S2P Require Import Prelude Prog.

(** What happens outside. [NewDevice] takes the tun interface over. The control
    socket is made by the calls of [golang.zx2c4.com/wireguard/ipc]; it and its
    file are their handles. *)
Inductive devE : Type → Type :=
  | DevStopped : devE bool                               (* <-u.dev.Wait() *)
  | CreateTUN (name : bytes) (mtu : Z) : devE (result unit)
  | TunName : devE (result bytes)
  | CloseTUN : devE unit
  | NewDevice : devE unit
  | UAPIOpen (name : bytes) : devE (result Z)            (* the socket's file *)
  | UAPIListen (name : bytes) (file : Z) : devE (result Z)
  | UAPIListenPipe (name : bytes) : devE (result Z)      (* UAPIListen of Windows *)
  | Published (name osName : bytes) : devE (result unit)
  | Unpublished (name : bytes) : devE (result unit)
  | CloseUAPI : devE unit
  | CloseDevice : devE unit.

Record userspaceDevice := MkUserspace {
  u_dev : bool;              (* dev is not nil *)
  u_uapi : bool;
  u_osName : bytes;
}.

Definition stopped : userspaceDevice := MkUserspace false false [].

Section Userspace.
Context (windows : bool) (tunName : bytes → bytes).
Local Open Scope prog_scope.

(** The control socket (uapi_unix.go, uapi_windows.go). On Unix the file stays
    as it is when listening on it fails. *)
Definition uapiListen_unix (name : bytes) : prog devE (result Z) :=
  let*? f := trigger (UAPIOpen name) in
  trigger (UAPIListen name f).
Definition uapiListen_windows (name : bytes) : prog devE (result Z) := trigger (UAPIListenPipe name).
Definition uapiListen (name : bytes) : prog devE (result Z) :=
  if windows then uapiListen_windows name else uapiListen_unix name.

Definition stop : prog devE userspaceDevice :=
  let* _ := trigger CloseUAPI in
  let* _ := trigger CloseDevice in
  Ret stopped.

Definition make (name : bytes) (mtu : Z) (u : userspaceDevice) : prog devE (result bytes * userspaceDevice) :=
  let* tdev := trigger (CreateTUN (tunName name) mtu) in
  match tdev with
  | Err _ => Ret (Err "creating tun interface", u)
  | Ok _ =>
      let* osName := trigger TunName in
      match osName with
      | Err _ =>
          let* _ := trigger CloseTUN in
          Ret (Err "naming tun interface", u)
      | Ok osName =>
          let* _ := trigger NewDevice in
          let* ln := uapiListen name in
          match ln with
          | Err _ =>
              let* _ := trigger CloseDevice in
              Ret (Err "opening the wireguard control socket", u)
          | Ok _ =>
              let* pub := trigger (Published name osName) in
              match pub with
              | Err e =>
                  let* _ := trigger CloseUAPI in
                  let* _ := trigger CloseDevice in
                  Ret (Err e, u)
              | Ok _ => Ret (Ok osName, MkUserspace true true osName)
              end
          end
      end
  end.

Definition Create (name : bytes) (mtu : Z) (u : userspaceDevice) : prog devE (result bytes * userspaceDevice) :=
  if u_dev u then
    let* gone := trigger DevStopped in
    if (gone : bool) then
      let* u := stop in
      make name mtu u
    else Ret (Ok (u_osName u), u)
  else make name mtu u.

Definition Delete (name : bytes) (u : userspaceDevice) : prog devE (result unit * userspaceDevice) :=
  if negb (u_dev u) then Ret (Ok (), u)
  else
    let* u := stop in
    let* r := trigger (Unpublished name) in
    Ret (r, u).

(** ** What is open *)

Record opened := MkOpened { o_tun : Z; o_dev : Z; o_uapi : Z }.

(** The tun interfaces, devices and listening sockets open after an event. The
    file that [UAPIOpen] gives is not among them: the source never closes it. *)
Definition count_event (o : opened) (e : happened devE) : opened :=
  match e with
  | Ev (CreateTUN _ _) (Ok _) => MkOpened (o_tun o + 1) (o_dev o) (o_uapi o)
  | Ev CloseTUN _ => MkOpened (o_tun o - 1) (o_dev o) (o_uapi o)
  | Ev NewDevice _ => MkOpened (o_tun o - 1) (o_dev o + 1) (o_uapi o)
  | Ev (UAPIListen _ _) (Ok _) | Ev (UAPIListenPipe _) (Ok _) => MkOpened (o_tun o) (o_dev o) (o_uapi o + 1)
  | Ev CloseUAPI _ => MkOpened (o_tun o) (o_dev o) (o_uapi o - 1)
  | Ev CloseDevice _ => MkOpened (o_tun o) (o_dev o - 1) (o_uapi o)
  | _ => o
  end.
Definition open_after : opened → list (happened devE) → opened := foldl count_event.

Definition one (b : bool) : Z := if b then 1 else 0.

(** The device the agent knows is the only one there is. *)
Definition tidy (u : userspaceDevice) (o : opened) : Prop :=
  o = MkOpened 0 (one (u_dev u)) (one (u_uapi u)) ∧ u_uapi u = u_dev u ∧ (u_dev u = false → u_osName u = []).

Inductive devOp := OpCreate (name : bytes) (mtu : Z) | OpDelete (name : bytes).

(** What an operation returns: the interface's name, for [Create]. *)
Definition run_op (op : devOp) (u : userspaceDevice) : prog devE (result bytes * userspaceDevice) :=
  match op with
  | OpCreate name mtu => Create name mtu u
  | OpDelete name =>
      let* r := Delete name u in
      Ret (match r.1 with Ok _ => Ok [] | Err e => Err e end, r.2)
  end.

Inductive history : list devOp → list (happened devE) → userspaceDevice → Prop :=
  | history_start : history [] [] stopped
  | history_op ops tr u op tr' r u' :
      history ops tr u → runs (run_op op u) tr' (r, u') →
      history (ops ++ [op]) (tr ++ tr') u'.
End Userspace.

Ltac dev_events :=
  repeat match goal with
  | H : runs (Vis _ _) _ _ |- _ => destruct H as (? & ? & -> & H)
  | H : runs (Ret _) _ _ |- _ => destruct H as [-> H]
  | H : ∃ _, _ |- _ => destruct H as (? & ? & -> & H)
  | H : _ = [] ∧ _ |- _ => destruct H as [-> H]
  | H : runs (match ?x with Ok _ => _ | Err _ => _ end) _ _ |- _ => destruct x
  | H : runs (bind (match ?x with Ok _ => _ | Err _ => _ end) _) _ _ |- _ => destruct x
  | H : runs (if ?x then _ else _) _ _ |- _ => destruct x
  | x : unit |- _ => destruct x
  end.

Lemma make_tidy windows tunName name mtu tr r u' :
  runs (make windows tunName name mtu stopped) tr (r, u') →
  (tidy u' (open_after (MkOpened 0 0 0) tr)) ∧
  match r with
  | Ok osName => u' = MkUserspace true true osName
  | Err _ => u' = stopped
  end.
Proof.
  unfold make, uapiListen, tidy. intros H. destruct windows; cbn in H.
  all: dev_events; cbn in *; dev_events; cbn in *; dev_events; cbn in *;
    dev_events; cbn in *; dev_events; cbn in *; dev_events; simplify_eq; cbn; done.
Qed.

Lemma open_after_app o tr1 tr2 : open_after o (tr1 ++ tr2) = open_after (open_after o tr1) tr2.
Proof. apply foldl_app. Qed.

(** What an operation leaves, and what it returned. *)
Definition outcome (op : devOp) (r : result bytes) (u' : userspaceDevice) : Prop :=
  match op, r with
  | OpCreate _ _, Ok osName => u' = MkUserspace true true osName
  | OpCreate _ _, Err _ | OpDelete _, _ => u' = stopped
  end.

Lemma tidy_cases u o :
  tidy u o → (u = stopped ∧ o = MkOpened 0 0 0) ∨ (∃ n, u = MkUserspace true true n ∧ o = MkOpened 0 1 1).
Proof.
  destruct u as [[] ua n]; cbn; intros (-> & Hu & Hn); cbn in *; subst; [right; eauto|left].
  by rewrite Hn.
Qed.

Lemma op_tidy windows tunName op u o tr r u' :
  tidy u o → runs (run_op windows tunName op u) tr (r, u') →
  tidy u' (open_after o tr) ∧ outcome op r u'.
Proof.
  intros [[-> ->]|(n & -> & ->)]%tidy_cases Hr; destruct op as [name mtu|name]; cbn [run_op] in Hr.
  - apply make_tidy in Hr as [? Ho]. split; [done|]. by destruct r.
  - cbn in Hr. by destruct Hr as [-> [= <- <-]].
  - unfold Create in Hr. cbn [u_dev] in Hr.
    destruct Hr as (gone & tr1 & -> & Hr). destruct gone; [|by destruct Hr as [-> [= <- <-]]].
    destruct Hr as ([] & tr2 & -> & [] & tr3 & -> & Hr). apply make_tidy in Hr as [? Ho].
    split; [done|]. by destruct r.
  - destruct Hr as ([] & tr1 & -> & [] & tr2 & -> & ok & tr3 & -> & [-> [= <- <-]]). split; [done|]. by destruct ok.
Qed.

(** C36: whatever calls of [Create] and [Delete] there were, whatever failed in
    them and whether or not the device stopped by itself in between: nothing
    is left open, of tun interfaces, devices and listening control sockets
    (the file a socket is opened on apart), but the one device and its control socket, and these exactly
    if the agent knows a device; [Create] then gave its name, and after a
    failed [Create] or any [Delete] there is none. *)
Theorem userspace_no_leaks windows tunName ops tr u op tr' r u' :
  history windows tunName ops tr u → runs (run_op windows tunName op u) tr' (r, u') →
  open_after (MkOpened 0 0 0) (tr ++ tr') = MkOpened 0 (one (u_dev u')) (one (u_dev u')) ∧
  outcome op r u'.
Proof.
  intros Hh Hr. assert (Ht : tidy u (open_after (MkOpened 0 0 0) tr)).
  { clear Hr. induction Hh as [|ops tr u op1 tr1 r1 u1 Hh IH H1]; [done|].
    rewrite open_after_app. by eapply op_tidy. }
  destruct (op_tidy _ _ _ _ _ _ _ _ Ht Hr) as [(Ho & Hu & _) Hout].
  rewrite open_after_app, Ho, Hu. done.
Qed.

(** ** The control socket *)

(** [serveUAPI]: the connections handed to the device, each in a goroutine of
    its own, for the answers of [Accept] so far; and whether it has returned. *)
Fixpoint serveUAPI {conn} (accepts : list (result conn)) : list conn * bool :=
  match accepts with
  | [] => ([], false)
  | Err _ :: _ => ([], true)
  | Ok c :: accepts => let '(handled, ended) := serveUAPI accepts in (c :: handled, ended)
  end.

(** Closing the socket ends the goroutine: it has then handed over exactly the
    connections accepted before, in their order; until then it goes on. *)
Theorem serveUAPI_spec {conn} (accepted : list conn) :
  serveUAPI (map Ok accepted) = (accepted, false) ∧
  ∀ e later, serveUAPI (map Ok accepted ++ Err e :: later) = (accepted, true).
Proof.
  split; [|intros e later]; induction accepted as [|c accepted IH]; cbn; [done| |done|]; by rewrite IH.
Qed.

(** The socket listens on the file that was opened for it. *)
Lemma uapiListen_unix_runs name tr ln :
  runs (uapiListen_unix name) tr (Ok ln) →
  ∃ f, tr = [Ev (UAPIOpen name) (Ok f); Ev (UAPIListen name f) (Ok ln)].
Proof.
  intros ([f|e] & tr1 & -> & H); [|by destruct H as [_ [=]]]. destruct H as (x & tr2 & -> & -> & ->). by exists f.
Qed.

(** A device whose control socket cannot be opened is closed again. *)
Definition failed_create : list (happened devE) :=
  [Ev (CreateTUN (str "utun") 1420) (Ok ()); Ev TunName (Ok (str "utun4")); Ev NewDevice ();
   Ev (UAPIOpen (str "wgcloth")) (Ok 5); Ev (UAPIListen (str "wgcloth") 5) (Err "not a socket"); Ev CloseDevice ()].

Lemma userspace_no_leaks_witness :
  runs (run_op false (λ _, str "utun") (OpCreate (str "wgcloth") 1420) stopped) failed_create
    (Err "opening the wireguard control socket", stopped) ∧
  open_after (MkOpened 0 0 0) failed_create = MkOpened 0 0 0.
Proof.
  assert (Hr : runs (run_op false (λ _, str "utun") (OpCreate (str "wgcloth") 1420) stopped) failed_create
    (Err "opening the wireguard control socket", stopped)).
  { do 6 (eexists _, _; split; [reflexivity|]). split; reflexivity. }
  split; [exact Hr|].
  exact (proj1 (userspace_no_leaks false (λ _, str "utun") [] [] stopped _ failed_create _ stopped
    (history_start _ _) Hr)).
Defined.
