(* ===== verification/Darwin.v ===== *)
(** * Darwin: routes of the macOS network stack (internal/wg/link_darwin.go)

    What the source builds for the routing socket and reads out of the
    system's table: netmasks, route messages, and the routes of the agent's own
    making among all those of the system. The numbers of the system's interface
    are a class; the calls themselves are in Ioctl. *)

From S2P Require Import Prelude Netip Overlay Bind Wg.

(** Constants of [golang.org/x/sys/unix]. *)
Class Bsd := {
  RTM_VERSION : Z;
  RTAX_DST : nat;
  RTAX_GATEWAY : nat;
  RTAX_NETMASK : nat;
  RTAX_MAX : nat;
  RTM_ADD : Z;
  RTM_DELETE : Z;
  RTF_UP : Z;
  RTF_STATIC : Z;
  RTF_HOST : Z;
}.

(** Of the system's headers: the slots of a route message are distinct, and
    the flags are bits of their own. *)
Class BsdLaws `{!Bsd} : Prop := {
  rtax_distinct : RTAX_DST ≠ RTAX_GATEWAY ∧ RTAX_DST ≠ RTAX_NETMASK ∧ RTAX_GATEWAY ≠ RTAX_NETMASK;
  rtax_max : (RTAX_DST < RTAX_MAX ∧ RTAX_GATEWAY < RTAX_MAX ∧ RTAX_NETMASK < RTAX_MAX)%nat;
  rtf_static : Z.land (Z.lor RTF_UP RTF_STATIC) RTF_STATIC ≠ 0;
  rtf_host : Z.land (Z.lor RTF_UP RTF_STATIC) RTF_HOST = 0;
}.

(** ** Masks and messages *)

(** [copy(m[:], b)] into a zero array of [n] bytes. *)
Definition copy_to (n : nat) (b : bytes) : bytes := take n (b ++ replicate n Byte.x00).

(** [netip.AddrFrom4] and [AddrFrom16] *)
Definition AddrFrom4 (b : bytes) : Addr := A4 (be_value b).
Definition AddrFrom16 (b : bytes) : Addr := A6 (be_value b) [].

(** [Addr.As4], of an IPv4 address; of one mapped into IPv6, its last bytes. *)
Definition As4 (a : Addr) : bytes := drop (length (AsSlice a) - 4) (AsSlice a).
(** [Addr.As16] *)
Definition As16 (a : Addr) : bytes :=
  match a with
  | AZero => replicate 16 Byte.x00
  | A4 v => replicate 10 Byte.x00 ++ [Byte.xff; Byte.xff] ++ be_bytes 4 v
  | A6 v _ => be_bytes 16 v
  end.

Definition mask4 (p : Prefix) : Addr := AddrFrom4 (copy_to 4 (CIDRMask (Bits p) 32)).
Definition mask6 (p : Prefix) : Addr := AddrFrom16 (copy_to 16 (CIDRMask (Bits p) 128)).

(** [golang.org/x/net/route]: addresses and messages. *)
Inductive routeAddr :=
  | Inet4Addr (ip : bytes)
  | Inet6Addr (ip : bytes)
  | LinkAddr (index : Z)
  | OtherAddr.

Record RouteMessage := MkRouteMessage {
  rm_Version : Z;
  rm_Type : Z;
  rm_Flags : Z;
  rm_Index : Z;
  rm_ID : Z;
  rm_Seq : Z;
  rm_Addrs : list (option routeAddr);
}.

Inductive message := RouteMsg (m : RouteMessage) | OtherMsg.

Section Messages.
Context {bsd : Bsd}.

(** [pid] is [os.Getpid()], [seq] the sequence number [routeSeq] came to. *)
Definition routeMessage (pid seq typ index : Z) (dst : Prefix) : RouteMessage :=
  let addrs := replicate RTAX_MAX None in
  let addrs :=
    if Is4 (pfx_Addr dst) then
      <[RTAX_NETMASK := Some (Inet4Addr (As4 (mask4 dst)))]>
        (<[RTAX_DST := Some (Inet4Addr (As4 (pfx_Addr dst)))]> addrs)
    else
      <[RTAX_NETMASK := Some (Inet6Addr (As16 (mask6 dst)))]>
        (<[RTAX_DST := Some (Inet6Addr (As16 (pfx_Addr dst)))]> addrs) in
  let addrs := <[RTAX_GATEWAY := Some (LinkAddr index)]> addrs in
  MkRouteMessage RTM_VERSION typ (Z.lor RTF_UP RTF_STATIC) index pid seq addrs.

Definition destination (m : RouteMessage) : option Prefix :=
  match mjoin (rm_Addrs m !! RTAX_DST) with
  | None => None
  | Some dst =>
      let mask := mjoin (rm_Addrs m !! RTAX_NETMASK) in
      let host := negb (Z.land (rm_Flags m) RTF_HOST =? 0) in
      match dst with
      | Inet4Addr ip =>
          let bits :=
            match mask with
            | Some (Inet4Addr nm) => if negb host then (Mask_Size nm).1 else 32
            | _ => 32
            end in
          Some (PrefixFrom (AddrFrom4 ip) bits)
      | Inet6Addr ip =>
          let bits :=
            match mask with
            | Some (Inet6Addr nm) => if negb host then (Mask_Size nm).1 else 128
            | _ => 128
            end in
          Some (PrefixFrom (AddrFrom16 ip) bits)
      | _ => None
      end
  end.

(** One message's part of [staticRoutes]. *)
Definition static_route (index : Z) (m : message) : list Prefix :=
  match m with
  | OtherMsg => []
  | RouteMsg rm =>
      if negb (rm_Index rm =? index) || (Z.land (rm_Flags rm) RTF_STATIC =? 0) then []
      else
        match destination rm with
        | Some dst =>
            if negb (IsMulticast (pfx_Addr dst)) && negb (IsLinkLocalUnicast (pfx_Addr dst)) then [dst] else []
        | None => []
        end
  end.

Definition staticRoutes (msgs : list message) (index : Z) : list Prefix := msgs ≫= static_route index.
End Messages.

(** ** Messages read back *)

Section Props.
Context {bsd : Bsd} {laws : BsdLaws}.

Lemma length_CIDRMask ones bits :
  (bits = 32 ∨ bits = 128) → 0 ≤ ones ≤ bits → length (CIDRMask ones bits) = Z.to_nat (bits / 8).
Proof.
  intros Hb Ho. assert (Hl : ∀ l n, length (cidr_bytes l n) = l).
  { induction l as [|l IH]; intros n; cbn; [done|]. by repeat case_match; cbn; rewrite IH. }
  unfold CIDRMask. rewrite (proj2 (Z.ltb_ge ones 0)), (proj2 (Z.ltb_ge bits ones)) by lia.
  destruct Hb as [-> | ->]; apply Hl.
Qed.

Lemma copy_CIDRMask ones bits :
  (bits = 32 ∨ bits = 128) → 0 ≤ ones ≤ bits →
  copy_to (Z.to_nat (bits / 8)) (CIDRMask ones bits) = CIDRMask ones bits.
Proof.
  intros Hb Ho. unfold copy_to. rewrite take_app_le.
  - apply take_ge. rewrite length_CIDRMask by done. lia.
  - rewrite length_CIDRMask by done. lia.
Qed.

Lemma As4_AddrFrom4 b : length b = 4%nat → As4 (AddrFrom4 b) = b.
Proof.
  intros Hl. unfold As4, AddrFrom4. cbn [AsSlice]. rewrite length_be_bytes, Nat.sub_diag, drop_0.
  rewrite <-Hl. apply be_bytes_value.
Qed.

Lemma As16_AddrFrom16 b : length b = 16%nat → As16 (AddrFrom16 b) = b.
Proof. intros Hl. cbn [As16 AddrFrom16]. rewrite <-Hl. apply be_bytes_value. Qed.

Lemma length_As4 a : Is4 a = true → length (As4 a) = 4%nat.
Proof. destruct a; [done| |done]. intros _. unfold As4. cbn [AsSlice]. by rewrite length_drop, length_be_bytes. Qed.

Lemma length_As16 a : length (As16 a) = 16%nat.
Proof. destruct a; cbn [As16]; rewrite ?length_app, ?length_be_bytes, ?length_replicate; done. Qed.

(** The masks, as the bytes of addresses. *)
Lemma As4_mask4 p : 0 ≤ Bits p ≤ 32 → As4 (mask4 p) = CIDRMask (Bits p) 32.
Proof.
  intros Hb. pose proof (copy_CIDRMask (Bits p) 32 (or_introl eq_refl) Hb) as Hc. change (Z.to_nat (32 / 8)) with 4%nat in Hc.
  unfold mask4. rewrite Hc. apply As4_AddrFrom4. rewrite length_CIDRMask by auto. done.
Qed.

Lemma As16_mask6 p : 0 ≤ Bits p ≤ 128 → As16 (mask6 p) = CIDRMask (Bits p) 128.
Proof.
  intros Hb. pose proof (copy_CIDRMask (Bits p) 128 (or_intror eq_refl) Hb) as Hc. change (Z.to_nat (128 / 8)) with 16%nat in Hc.
  unfold mask6. rewrite Hc. apply As16_AddrFrom16. rewrite length_CIDRMask by auto. done.
Qed.

(** The slots of a message the source built. *)
Lemma routeMessage_slots pid seq typ index dst :
  rm_Addrs (routeMessage pid seq typ index dst) !! RTAX_DST =
    Some (Some (if Is4 (pfx_Addr dst) then Inet4Addr (As4 (pfx_Addr dst)) else Inet6Addr (As16 (pfx_Addr dst)))) ∧
  rm_Addrs (routeMessage pid seq typ index dst) !! RTAX_NETMASK =
    Some (Some (if Is4 (pfx_Addr dst) then Inet4Addr (As4 (mask4 dst)) else Inet6Addr (As16 (mask6 dst)))).
Proof.
  destruct rtax_distinct as (H1 & H2 & H3), rtax_max as (H4 & H5 & H6). unfold routeMessage. cbn [rm_Addrs].
  destruct (Is4 (pfx_Addr dst)).
  all: rewrite (list_lookup_insert_ne _ RTAX_GATEWAY RTAX_DST), (list_lookup_insert_ne _ RTAX_GATEWAY RTAX_NETMASK) by congruence.
  all: rewrite (list_lookup_insert_ne _ RTAX_NETMASK RTAX_DST) by congruence.
  all: by rewrite !list_lookup_insert_eq by (rewrite ?length_insert, length_replicate; lia).
Qed.

(** A message keeps its destination: what the source reads out of the route
    it asked for is the network it asked for. *)
Lemma destination_routeMessage pid seq typ index dst :
  good_prefix dst → destination (routeMessage pid seq typ index dst) = Some dst.
Proof.
  intros Hg. destruct (routeMessage_slots pid seq typ index dst) as [Hd Hm]. unfold destination. rewrite Hd, Hm. cbn [mjoin option_join].
  replace (rm_Flags (routeMessage pid seq typ index dst)) with (Z.lor RTF_UP RTF_STATIC) by done. rewrite rtf_host. cbn [negb Z.eqb].
  pose proof Hg as [(Hwf & _ & _) _].
  destruct (good_prefix_cases dst Hg) as [(v & E & Hv & Hb)|(v & E & Hv & Hb)].
  - assert (Is4 (pfx_Addr dst) = true) as -> by (by rewrite E). rewrite As4_mask4 by exact Hb. rewrite Size_CIDRMask by (auto || lia).
    destruct dst as [a b]; cbn [Bits] in *. injection E as ->. cbn [pfx_Addr]. unfold As4, AddrFrom4. cbn [AsSlice fst].
    rewrite length_be_bytes, Nat.sub_diag, drop_0, be_value_bytes, Z.mod_small by (cbn in *; lia).
    unfold PrefixFrom. cbn. by rewrite (proj2 (Z.leb_le _ _)), (proj2 (Z.leb_le _ _)) by lia.
  - assert (Is4 (pfx_Addr dst) = false) as -> by (by rewrite E). rewrite As16_mask6 by exact Hb. rewrite Size_CIDRMask by (auto || lia).
    destruct dst as [a b]; cbn [Bits] in *. injection E as ->. cbn [pfx_Addr]. unfold AddrFrom16. cbn [As16 fst].
    rewrite be_value_bytes, Z.mod_small by (cbn in *; lia).
    unfold PrefixFrom. cbn. by rewrite (proj2 (Z.leb_le _ _)), (proj2 (Z.leb_le _ _)) by lia.
Qed.

(** Not one of the agent's: of another interface, or not static. *)
Definition foreign (index : Z) (m : message) : Prop :=
  match m with
  | OtherMsg => True
  | RouteMsg rm => rm_Index rm ≠ index ∨ Z.land (rm_Flags rm) RTF_STATIC = 0
  end.

(** Networks whose routes are listed. *)
Definition ordinary (p : Prefix) : bool :=
  negb (IsMulticast (pfx_Addr p)) && negb (IsLinkLocalUnicast (pfx_Addr p)).

(** A routing table: routes of the agent's through interface [index], whatever
    process and number are on them, and whatever else the system has. *)
Definition dumped (index : Z) (e : (Z * Z * Prefix) + message) : message :=
  match e with inl (pid, seq, dst) => RouteMsg (routeMessage pid seq RTM_ADD index dst) | inr m => m end.

(** The routes listed for an interface are exactly those the agent added
    there, in the table's order, whatever routes the system has of its own; of
    link-local and multicast networks alone they are not listed, so that they
    stay when no peer advertises them any more. *)
Theorem staticRoutes_own index (table : list ((Z * Z * Prefix) + message)) :
  (∀ pid seq dst, inl (pid, seq, dst) ∈ table → good_prefix dst) → (∀ m, inr m ∈ table → foreign index m) →
  staticRoutes (map (dumped index) table) index =
    table ≫= (λ e, match e with inl (_, dst) => if ordinary dst then [dst] else [] | inr _ => [] end).
Proof.
  induction table as [|e table IH]; intros Hg Hf; [done|]. cbn [map]. unfold staticRoutes in *. cbn [mbind list_bind].
  rewrite IH by (intros; (eapply Hg || apply Hf); by right). f_equal. destruct e as [[[pid seq] dst]|m]; cbn [dumped static_route].
  - rewrite destination_routeMessage by (apply (Hg pid seq); left).
    replace (rm_Index (routeMessage pid seq RTM_ADD index dst)) with index by done.
    replace (rm_Flags (routeMessage pid seq RTM_ADD index dst)) with (Z.lor RTF_UP RTF_STATIC) by done.
    rewrite Z.eqb_refl, (proj2 (Z.eqb_neq _ _) rtf_static). done.
  - assert (Hm : foreign index m) by (apply Hf; left). destruct m as [rm|]; [|done]. cbn in *.
    destruct Hm as [Hm|Hm].
    + by rewrite (proj2 (Z.eqb_neq _ _) Hm).
    + by rewrite (proj2 (Z.eqb_eq _ _) Hm), orb_true_r.
Qed.
End Props.

(** The numbers of macOS. *)
Module MacOS.
#[export] Instance bsd : Bsd := {
  RTM_VERSION := 5; RTAX_DST := 0; RTAX_GATEWAY := 1; RTAX_NETMASK := 2; RTAX_MAX := 8;
  RTM_ADD := 1; RTM_DELETE := 2; RTF_UP := 1; RTF_STATIC := 0x800; RTF_HOST := 4;
}.
#[export] Instance laws : BsdLaws.
Proof. split; cbn; [done|lia|done|done]. Qed.
End MacOS.

#[local] Existing Instance MacOS.bsd.
#[local] Existing Instance MacOS.laws.

Lemma staticRoutes_own_witness :
  staticRoutes [RouteMsg (routeMessage 0 0 RTM_ADD 7 lan); OtherMsg; RouteMsg (routeMessage 9 1 RTM_ADD 3 lan)] 7 = [lan].
Proof.
  apply (staticRoutes_own 7 [inl (0, 0, lan); inr OtherMsg; inr (RouteMsg (routeMessage 9 1 RTM_ADD 3 lan))]).
  - intros pid seq dst H. assert (dst = lan) as -> by set_solver. exact lan_good.
  - intros m H. assert (m = OtherMsg ∨ m = RouteMsg (routeMessage 9 1 RTM_ADD 3 lan)) as [-> | ->] by set_solver;
      [exact I|left; discriminate].
Defined.
