(* ===== verification/Ioctl.v ===== *)
(** * Ioctl: the macOS linker and its system calls (internal/wg/link_darwin.go)

    Addresses, MTU and flags go over socket ioctls, routes over the routing
    socket. The structures the kernel reads are laid out byte by byte, as the
    compiler lays out the source's; sockets are opened and closed by the same
    program that uses them. Shown: each request has the size its number
    encodes, no socket is left open and none is used once closed, and what the
    kernel reads in a request is what the linker was asked for. *)

From S2P Require Import Prelude Netip Overlay Bind Wg Prog Darwin.

(** Constants of [golang.org/x/sys/unix]. *)
Class Sockets := {
  IFNAMSIZ : nat;
  IFF_UP : Z;
  AF_UNSPEC : Z;
  AF_INET : Z;
  AF_INET6 : Z;
  AF_ROUTE : Z;
  SOCK_DGRAM : Z;
  SOCK_RAW : Z;
  SizeofSockaddrInet4 : Z;
  SizeofSockaddrInet6 : Z;
  SIOCAIFADDR : Z;
  SIOCGIFFLAGS : Z;
  SIOCSIFFLAGS : Z;
}.

(** [IOCPARM_LEN] of sys/ioccom.h: the size of the argument, in the number. *)
Definition ioc_len (req : Z) : Z := Z.land (Z.shiftr req 16) 0x1fff.

(** Of the system's headers: how long a name is, and the requests' arguments. *)
Class SocketsLaws `{!Sockets} : Prop := {
  ifnamsiz : IFNAMSIZ = 16%nat;
  aifaddr_len : ioc_len SIOCAIFADDR = 64;
  gifflags_len : ioc_len SIOCGIFFLAGS = 32;
  sifflags_len : ioc_len SIOCSIFFLAGS = 32;
  flags_differ : SIOCGIFFLAGS ≠ SIOCSIFFLAGS;
}.

Definition siocAIFADDRIn6 : Z := 0x8080691a.
Definition nd6InfiniteLifetime : Z := 0xffffffff.

(** ** Structures in memory

    The systems Go runs on macOS on are little-endian, and every field below
    is at a multiple of its size, so that the compiler adds no padding. *)

Definition le_bytes (n : nat) (z : Z) : bytes := rev (be_bytes n z).
Definition le_value (b : bytes) : Z := be_value (rev b).
Definition zeros (n : nat) : bytes := replicate n Byte.x00.

(** A signed integer of [w] bits. *)
Definition signed (w n : Z) : Z := (n + 2 ^ (w - 1)) `mod` 2 ^ w - 2 ^ (w - 1).
Definition int16 : Z → Z := signed 16.
Definition int32 : Z → Z := signed 32.

(** [unix.RawSockaddrInet4] and [RawSockaddrInet6] *)
Record RawSockaddrInet4 := MkSockaddr4 { sa4_Len : Z; sa4_Family : Z; sa4_Port : Z; sa4_Addr : bytes; sa4_Zero : bytes }.
Record RawSockaddrInet6 := MkSockaddr6 {
  sa6_Len : Z; sa6_Family : Z; sa6_Port : Z; sa6_Flowinfo : Z; sa6_Addr : bytes; sa6_Scope_id : Z
}.

Definition zeroSockaddr6 : RawSockaddrInet6 := MkSockaddr6 0 0 0 0 (zeros 16) 0.

Definition raw4 (s : RawSockaddrInet4) : bytes :=
  le_bytes 1 (sa4_Len s) ++ le_bytes 1 (sa4_Family s) ++ le_bytes 2 (sa4_Port s) ++ sa4_Addr s ++ sa4_Zero s.
Definition raw6 (s : RawSockaddrInet6) : bytes :=
  le_bytes 1 (sa6_Len s) ++ le_bytes 1 (sa6_Family s) ++ le_bytes 2 (sa6_Port s) ++ le_bytes 4 (sa6_Flowinfo s) ++
  sa6_Addr s ++ le_bytes 4 (sa6_Scope_id s).

Record ifreq := MkIfreq { ifr_Name : bytes; ifr_Flags : Z; ifr_rest : bytes }.

Definition raw_ifreq (r : ifreq) : bytes := ifr_Name r ++ le_bytes 2 (ifr_Flags r) ++ ifr_rest r.
(** The structure as the kernel left it. *)
Definition read_ifreq (b : bytes) : ifreq :=
  MkIfreq (take 16 b) (int16 (le_value (take 2 (drop 16 b)))) (drop 18 b).

Record ifAliasReq := MkIfAliasReq {
  ifra_Name : bytes;
  ifra_Addr : RawSockaddrInet4;
  ifra_BroadAddr : RawSockaddrInet4;
  ifra_Mask : RawSockaddrInet4;
}.
Definition raw_ifAliasReq (r : ifAliasReq) : bytes :=
  ifra_Name r ++ raw4 (ifra_Addr r) ++ raw4 (ifra_BroadAddr r) ++ raw4 (ifra_Mask r).

Record in6AliasReq := MkIn6AliasReq {
  ifra6_Name : bytes;
  ifra6_Addr : RawSockaddrInet6;
  ifra6_DstAddr : RawSockaddrInet6;
  ifra6_Mask : RawSockaddrInet6;
  ifra6_Flags : Z;
  ifra6_Expire : Z;
  ifra6_Preferred : Z;
  ifra6_Vltime : Z;
  ifra6_Pltime : Z;
}.
Definition raw_in6AliasReq (r : in6AliasReq) : bytes :=
  ifra6_Name r ++ raw6 (ifra6_Addr r) ++ raw6 (ifra6_DstAddr r) ++ raw6 (ifra6_Mask r) ++ le_bytes 4 (ifra6_Flags r) ++
  le_bytes 8 (ifra6_Expire r) ++ le_bytes 8 (ifra6_Preferred r) ++ le_bytes 4 (ifra6_Vltime r) ++ le_bytes 4 (ifra6_Pltime r).

(** ** The calls *)

(** Errors the linker tells apart; [EOTHER] is any other. *)
Inductive errno := EEXIST | ESRCH | EOTHER.
Notation answer A := (A + errno)%type (only parsing).

Inductive bsdE : Type → Type :=
  | InterfaceByName (iface : bytes) : bsdE (result Z)                  (* its index *)
  | InterfaceAddrs (index : Z) : bsdE (result (list (option IPNet)))   (* None: another net.Addr *)
  | FetchRIB : bsdE (result bytes)
  | Getpid : bsdE Z
  | NextSeq : bsdE Z                                                   (* routeSeq.Add(1) *)
  | Socket (family typ proto : Z) : bsdE (answer Z)
  | Ioctl (fd req : Z) (arg : bytes) : bsdE (answer bytes)             (* the argument afterwards *)
  | IoctlSetIfreqMTU (fd : Z) (name : bytes) (mtu : Z) : bsdE (answer unit)
  | WriteFd (fd : Z) (b : bytes) : bsdE (answer unit)
  | CloseFd (fd : Z) : bsdE unit.

Definition error_text (e : errno) : string :=
  match e with EEXIST => "file exists" | ESRCH => "no such process" | EOTHER => "system error" end.
Definition failed {A} (r : answer A) : result unit :=
  match r with inl _ => Ok () | inr e => Err (error_text e) end.

Section Linker.
Context {bsd : Bsd} {sockets : Sockets}.
(** [RouteMessage.Marshal] and [route.ParseRIB] of [golang.org/x/net/route] *)
Context (Marshal : RouteMessage → option bytes) (ParseRIB : bytes → result (list message)).
Local Open Scope prog_scope.

Definition ifName (iface : bytes) : result bytes :=
  if (IFNAMSIZ <=? length iface)%nat then Err "interface name is too long"
  else Ok (copy_to IFNAMSIZ iface).

Definition sockaddr4 (addr : Addr) : RawSockaddrInet4 :=
  MkSockaddr4 SizeofSockaddrInet4 AF_INET 0 (As4 addr) (zeros 8).
Definition sockaddr6 (addr : Addr) : RawSockaddrInet6 :=
  MkSockaddr6 SizeofSockaddrInet6 AF_INET6 0 0 (As16 addr) 0.

(** [fd, err := unix.Socket(...)] with [defer unix.Close(fd)] around the rest
    of the function. *)
Definition with_socket {A} (family typ proto : Z) (body : Z → prog bsdE (answer A)) : prog bsdE (answer A) :=
  let* s := trigger (Socket family typ proto) in
  match s with
  | inr e => Ret (inr e)
  | inl fd =>
      let* r := body fd in
      let* _ := trigger (CloseFd fd) in
      Ret r
  end.

Definition ioctl (family req : Z) (arg : bytes) : prog bsdE (answer bytes) :=
  with_socket family SOCK_DGRAM 0 (λ fd, trigger (Ioctl fd req arg)).

Definition bsd_SetAddr (iface : bytes) (addr : Prefix) : prog bsdE (result unit) :=
  match ifName iface with
  | Err e => Ret (Err e)
  | Ok name =>
      let a := pfx_Addr addr in
      if Is4 a then
        let req := MkIfAliasReq name (sockaddr4 a) (sockaddr4 a) (sockaddr4 (mask4 addr)) in
        let* r := ioctl AF_INET SIOCAIFADDR (raw_ifAliasReq req) in
        Ret (failed r)
      else
        let req := MkIn6AliasReq name (sockaddr6 a) zeroSockaddr6 (sockaddr6 (mask6 addr)) 0 0 0
                     nd6InfiniteLifetime nd6InfiniteLifetime in
        let* r := ioctl AF_INET6 siocAIFADDRIn6 (raw_in6AliasReq req) in
        Ret (failed r)
  end.

Definition bsd_SetMTU (iface : bytes) (mtu : Z) : prog bsdE (result unit) :=
  match ifName iface with
  | Err e => Ret (Err e)
  | Ok name =>
      let* r := with_socket AF_INET SOCK_DGRAM 0 (λ fd, trigger (IoctlSetIfreqMTU fd name (int32 mtu))) in
      Ret (failed r)
  end.

Definition bsd_Up (iface : bytes) : prog bsdE (result unit) :=
  match ifName iface with
  | Err e => Ret (Err e)
  | Ok name =>
      let* r := ioctl AF_INET SIOCGIFFLAGS (raw_ifreq (MkIfreq name 0 (zeros 14))) in
      match r with
      | inr e => Ret (Err (error_text e))
      | inl b =>
          let req := read_ifreq b in
          if negb (Z.land (ifr_Flags req) IFF_UP =? 0) then Ret (Ok ())
          else
            let req := MkIfreq (ifr_Name req) (int16 (Z.lor (ifr_Flags req) IFF_UP)) (ifr_rest req) in
            let* r := ioctl AF_INET SIOCSIFFLAGS (raw_ifreq req) in
            Ret (failed r)
      end
  end.

(** The loop of [Addrs]. *)
Definition ipnet_prefix (a : option IPNet) : list Prefix :=
  match a with
  | None => []
  | Some n => let '(p, ok) := prefixFromIPNet (Some n) in if (ok : bool) then [p] else []
  end.
Definition ipnet_prefixes (addrs : list (option IPNet)) : list Prefix := addrs ≫= ipnet_prefix.

Definition bsd_Addrs (iface : bytes) : prog bsdE (result (list Prefix)) :=
  let*? index := trigger (InterfaceByName iface) in
  let*? addrs := trigger (InterfaceAddrs index) in
  Ret (Ok (ipnet_prefixes addrs)).

Definition bsd_Routes (iface : bytes) : prog bsdE (result (list Prefix)) :=
  let*? index := trigger (InterfaceByName iface) in
  let*? rib := trigger FetchRIB in
  match ParseRIB rib with
  | Err e => Ret (Err e)
  | Ok msgs => Ret (Ok (staticRoutes msgs index))
  end.

Definition sendRoute (m : RouteMessage) : prog bsdE (answer unit) :=
  match Marshal m with
  | None => Ret (inr EOTHER)
  | Some b => with_socket AF_ROUTE SOCK_RAW AF_UNSPEC (λ fd, trigger (WriteFd fd b))
  end.

(** [routeMessage] with the process's number and the next of the sequence,
    sent. *)
Definition send_change (typ index : Z) (dst : Prefix) : prog bsdE (answer unit) :=
  let* pid := trigger Getpid in
  let* seq := trigger NextSeq in
  sendRoute (routeMessage pid seq typ index dst).

Definition bsd_AddRoute (iface : bytes) (dst : Prefix) : prog bsdE (result unit) :=
  let*? index := trigger (InterfaceByName iface) in
  let* r := send_change RTM_ADD index dst in
  Ret (match r with inr EEXIST => Ok () | _ => failed r end).

Definition bsd_DelRoute (iface : bytes) (dst : Prefix) : prog bsdE (result unit) :=
  let*? index := trigger (InterfaceByName iface) in
  let* r := send_change RTM_DELETE index dst in
  Ret (match r with inr ESRCH => Ok () | _ => failed r end).

(** The operations of the linker, the ones that only look included. *)
Inductive bsdOp :=
  | OpSetAddr (addr : Prefix) | OpSetMTU (mtu : Z) | OpUp | OpAddrs | OpRoutes
  | OpAddRoute (dst : Prefix) | OpDelRoute (dst : Prefix).

(** An operation without what it lists. *)
Definition without_list {A} (p : prog bsdE (result A)) : prog bsdE (result unit) :=
  let*? _ := p in Ret (Ok ()).
Definition run_bsd (iface : bytes) (op : bsdOp) : prog bsdE (result unit) :=
  match op with
  | OpSetAddr addr => bsd_SetAddr iface addr
  | OpSetMTU mtu => bsd_SetMTU iface mtu
  | OpUp => bsd_Up iface
  | OpAddrs => without_list (bsd_Addrs iface)
  | OpRoutes => without_list (bsd_Routes iface)
  | OpAddRoute dst => bsd_AddRoute iface dst
  | OpDelRoute dst => bsd_DelRoute iface dst
  end.
End Linker.

(** ** What a run asked of the system *)

(** Sockets open after an event, each used only while it is; [None] once one
    was used or closed that was not. *)
Definition held_step (l : option (list Z)) (e : happened bsdE) : option (list Z) :=
  let on_open fd := l ≫= λ l, if decide (fd ∈ l) then Some l else None in
  match e with
  | Ev (Socket _ _ _) (inl fd) => (λ l, fd :: l) <$> l
  | Ev (Ioctl fd _ _) _ => on_open fd
  | Ev (IoctlSetIfreqMTU fd _ _) _ => on_open fd
  | Ev (WriteFd fd _) _ => on_open fd
  | Ev (CloseFd fd) _ => filter (λ x, x ≠ fd) <$> on_open fd
  | _ => l
  end.
Definition held : list (happened bsdE) → option (list Z) := foldl held_step (Some []).

(** The requests, each with its argument and what it was answered. *)
Definition request_of (e : happened bsdE) : list (Z * bytes * answer bytes) :=
  match e with Ev (Ioctl _ req arg) x => [(req, arg, x)] | _ => [] end.
Definition requests (tr : list (happened bsdE)) : list (Z * bytes * answer bytes) := tr ≫= request_of.

Definition written_of (e : happened bsdE) : list bytes := match e with Ev (WriteFd _ b) _ => [b] | _ => [] end.
Definition written (tr : list (happened bsdE)) : list bytes := tr ≫= written_of.

(** A request's argument has the size its number encodes. *)
Definition fits (q : Z * bytes * answer bytes) : Prop := Z.of_nat (length q.1.2) = ioc_len q.1.1.

(** The kernel writes its answer over the argument. *)
Definition in_place (q : Z * bytes * answer bytes) : Prop :=
  match q.2 with inl b => length b = length q.1.2 | inr _ => True end.

(** What the kernel reads in a request for an address, at the offsets of
    sys/net/if.h and netinet6/in6_var.h: the name up to its end, the address,
    the other end of a point-to-point interface and the length of the mask. *)
Fixpoint name_of (b : bytes) : bytes :=
  match b with
  | [] => []
  | c :: b => if decide (c = Byte.x00) then [] else c :: name_of b
  end.
Definition field (off n : nat) (b : bytes) : bytes := take n (drop off b).

Definition read_alias4 (b : bytes) : bytes * Addr * Addr * Z :=
  (name_of (field 0 16 b), AddrFrom4 (field 20 4 b), AddrFrom4 (field 36 4 b), (Mask_Size (field 52 4 b)).1).
Definition read_alias6 (b : bytes) : bytes * Addr * Z * (Z * Z) :=
  (name_of (field 0 16 b), AddrFrom16 (field 24 16 b), (Mask_Size (field 80 16 b)).1,
   (le_value (field 120 4 b), le_value (field 124 4 b))).

(** ** Sizes *)

Lemma length_le_bytes n z : length (le_bytes n z) = n.
Proof. unfold le_bytes. by rewrite length_rev, length_be_bytes. Qed.

Lemma le_value_bytes n z : le_value (le_bytes n z) = z `mod` 256 ^ Z.of_nat n.
Proof. unfold le_value, le_bytes. by rewrite rev_involutive, be_value_bytes. Qed.

Lemma length_copy_to n b : length (copy_to n b) = n.
Proof. unfold copy_to. rewrite length_take, length_app, length_replicate. lia. Qed.

(** Structures whose parts have their sizes. *)
Create HintDb layout.
#[export] Hint Rewrite @length_app @length_le_bytes @length_replicate length_copy_to length_As16 : layout.
Ltac sizes := autorewrite with layout; simpl.

Section Layouts.
Context {sockets : Sockets}.

Lemma length_raw4 a : Is4 a = true → length (raw4 (sockaddr4 a)) = 16%nat.
Proof. intros Ha. unfold raw4, sockaddr4, zeros. cbn [sa4_Len sa4_Family sa4_Port sa4_Addr sa4_Zero]. sizes. by rewrite length_As4. Qed.

Lemma length_raw6 a : length (raw6 (sockaddr6 a)) = 28%nat.
Proof. unfold raw6, sockaddr6. cbn [sa6_Len sa6_Family sa6_Port sa6_Flowinfo sa6_Addr sa6_Scope_id]. by sizes. Qed.
End Layouts.

(** ** Runs *)

Section Runs.
Context {bsd : Bsd} {sockets : Sockets} {bsd_laws : BsdLaws} {laws : SocketsLaws}.
Context (Marshal : RouteMessage → option bytes) (ParseRIB : bytes → result (list message)).

(** The two ways a part with a socket goes, where it makes one call with it. *)
Lemma runs_with_socket {A} family typ proto (call : Z → bsdE (answer A)) tr r :
  runs (with_socket family typ proto (λ fd, trigger (call fd))) tr r →
  (∃ e, tr = [Ev (Socket family typ proto) (inr e)] ∧ r = inr e) ∨
  (∃ fd, tr = [Ev (Socket family typ proto) (inl fd); Ev (call fd) r; Ev (CloseFd fd) ()]).
Proof.
  unfold with_socket. intros (x & tr1 & -> & H). destruct x as [fd|e].
  - right. exists fd. destruct H as (y & tr2 & -> & [] & tr3 & -> & -> & ->). done.
  - left. exists e. by destruct H as [-> <-].
Qed.

Lemma held_call fd family typ proto (e : happened bsdE) :
  (∀ l, held_step (Some l) e = if decide (fd ∈ l) then Some l else None) →
  held [Ev (Socket family typ proto) (inl fd); e; Ev (CloseFd fd) ()] = Some [].
Proof.
  intros He. unfold held. cbn [foldl held_step fmap option_fmap option_map]. rewrite He.
  rewrite decide_True by by left. cbn [held_step mbind option_bind]. rewrite decide_True by by left.
  cbn [fmap option_fmap option_map]. by rewrite filter_cons_False by naive_solver.
Qed.

(** Nothing left open, and the requests are of the sizes they claim. *)
Definition orderly (tr : list (happened bsdE)) : Prop := held tr = Some [] ∧ Forall fits (requests tr).

Lemma orderly_app tr1 tr2 : orderly tr1 → orderly tr2 → orderly (tr1 ++ tr2).
Proof.
  intros [H1 F1] [H2 F2]. split.
  - unfold held in *. by rewrite foldl_app, H1.
  - unfold requests in *. rewrite bind_app. by apply Forall_app_2.
Qed.

(** An event that is no request and touches no socket. *)
Definition plain (e : happened bsdE) : Prop := held_step (Some []) e = Some [] ∧ request_of e = [].

Lemma orderly_cons e tr : plain e → orderly tr → orderly (e :: tr).
Proof.
  intros [He Hq] Ht. apply (orderly_app [e]); [|done]. split; [done|]. unfold requests. cbn. rewrite Hq. constructor.
Qed.

Lemma orderly_nil : orderly [].
Proof. split; [done|constructor]. Qed.

Lemma runs_ioctl family req arg tr r :
  runs (ioctl family req arg) tr r →
  (requests tr = [] ∧ (∃ e, r = inr e) ∨ requests tr = [(req, arg, r)]) ∧
  (Z.of_nat (length arg) = ioc_len req → orderly tr).
Proof.
  intros [(e & -> & ->)|(fd & ->)]%(runs_with_socket family SOCK_DGRAM 0 (λ fd, Ioctl fd req arg)).
  - split; [left; eauto|]. intros _. apply orderly_cons; [done|apply orderly_nil].
  - split; [by right|]. intros Hl. split; [by apply held_call|]. by repeat constructor.
Qed.

Lemma runs_sendRoute m tr r :
  runs (sendRoute Marshal m) tr r →
  orderly tr ∧ (written tr = [] ∧ (∃ e, r = inr e) ∨ (∃ b, Marshal m = Some b ∧ written tr = [b])).
Proof.
  unfold sendRoute. intros H. destruct (Marshal m) as [b|]; [|destruct H as [-> <-]; split; [apply orderly_nil|left; eauto]].
  apply (runs_with_socket _ _ _ (λ fd, WriteFd fd b)) in H as [(e & -> & ->)|(fd & ->)].
  - split; [by apply orderly_cons; [|apply orderly_nil]|left; eauto].
  - split; [split; [by apply held_call|constructor]|eauto].
Qed.

Lemma ifName_spec iface :
  ifName iface = if (length iface <? 16)%nat then Ok (iface ++ zeros (16 - length iface)) else Err "interface name is too long".
Proof.
  unfold ifName. rewrite ifnamsiz. destruct (Nat.leb_spec 16 (length iface)), (Nat.ltb_spec (length iface) 16); try lia; [done|].
  unfold copy_to. rewrite take_app_ge by lia. by rewrite take_replicate, Nat.min_l by lia.
Qed.

Lemma length_ifName iface name : ifName iface = Ok name → length name = 16%nat.
Proof. unfold ifName. case_match; [done|]. intros [= <-]. by rewrite length_copy_to, ifnamsiz. Qed.

Lemma length_alias4 name a p :
  length name = 16%nat → Is4 a = true →
  length (raw_ifAliasReq (MkIfAliasReq name (sockaddr4 a) (sockaddr4 a) (sockaddr4 (mask4 p)))) = 64%nat.
Proof.
  intros Hn Ha. unfold raw_ifAliasReq. cbn [ifra_Name ifra_Addr ifra_BroadAddr ifra_Mask].
  rewrite !length_app, !length_raw4 by done. by rewrite Hn.
Qed.

Lemma length_alias6 name a m :
  length name = 16%nat →
  length (raw_in6AliasReq (MkIn6AliasReq name (sockaddr6 a) zeroSockaddr6 (sockaddr6 m) 0 0 0
    nd6InfiniteLifetime nd6InfiniteLifetime)) = 128%nat.
Proof.
  intros Hn. unfold raw_in6AliasReq. cbn [ifra6_Name ifra6_Addr ifra6_DstAddr ifra6_Mask ifra6_Flags ifra6_Expire ifra6_Preferred ifra6_Vltime ifra6_Pltime].
  rewrite !length_app, !length_raw6, !length_le_bytes, Hn. done.
Qed.

Lemma length_raw_ifreq r : length (ifr_Name r) = 16%nat → length (ifr_rest r) = 14%nat → length (raw_ifreq r) = 32%nat.
Proof. intros Hn Hr. unfold raw_ifreq. by rewrite !length_app, length_le_bytes, Hn, Hr. Qed.

(** ** The operations *)

(** [SetAddr] makes one request at the most. *)
Lemma runs_SetAddr iface addr tr r :
  runs (bsd_SetAddr iface addr) tr r →
  orderly tr ∧
  (r = Ok () → ∃ name req arg x, ifName iface = Ok name ∧ requests tr = [(req, arg, x)] ∧
    if Is4 (pfx_Addr addr) then
      req = SIOCAIFADDR ∧ arg = raw_ifAliasReq (MkIfAliasReq name (sockaddr4 (pfx_Addr addr))
        (sockaddr4 (pfx_Addr addr)) (sockaddr4 (mask4 addr)))
    else
      req = siocAIFADDRIn6 ∧ arg = raw_in6AliasReq (MkIn6AliasReq name (sockaddr6 (pfx_Addr addr)) zeroSockaddr6
        (sockaddr6 (mask6 addr)) 0 0 0 nd6InfiniteLifetime nd6InfiniteLifetime)).
Proof.
  unfold bsd_SetAddr. destruct (ifName iface) as [name|] eqn:En; [|by intros [-> <-]; split; [apply orderly_nil|]].
  pose proof (length_ifName _ _ En) as Hn.
  destruct (Is4 (pfx_Addr addr)) eqn:E4; intros (tr1 & x & tr2 & -> & H & [-> <-])%runs_bind; rewrite app_nil_r.
  all: apply runs_ioctl in H as [Hq Ho]; split.
  1: apply Ho; by rewrite length_alias4, aifaddr_len.
  2: apply Ho; by rewrite length_alias6.
  all: intros Hr; destruct Hq as [[_ [e ->]]|Hq]; [done|]; by eexists name, _, _, x.
Qed.

Lemma runs_Up iface tr r :
  Forall in_place (requests tr) → runs (bsd_Up iface) tr r →
  orderly tr ∧
  (r = Ok () → ∃ name b, ifName iface = Ok name ∧
    let first := (SIOCGIFFLAGS, raw_ifreq (MkIfreq name 0 (zeros 14)), inl b) in
    let flags := ifr_Flags (read_ifreq b) in
    if negb (Z.land flags IFF_UP =? 0) then requests tr = [first]
    else ∃ x, requests tr = [first; (SIOCSIFFLAGS,
      raw_ifreq (MkIfreq (ifr_Name (read_ifreq b)) (int16 (Z.lor flags IFF_UP)) (ifr_rest (read_ifreq b))), x)]).
Proof.
  intros Hp. unfold bsd_Up. destruct (ifName iface) as [name|] eqn:En; [|by intros [-> <-]; split; [apply orderly_nil|]].
  pose proof (length_ifName _ _ En) as Hn. set (first := raw_ifreq (MkIfreq name 0 (zeros 14))).
  assert (Hf : length first = 32%nat) by by apply length_raw_ifreq.
  intros (tr1 & x & tr2 & -> & [Hq Ho]%runs_ioctl & H)%runs_bind. rewrite Hf, gifflags_len in Ho. specialize (Ho eq_refl).
  unfold requests in *. rewrite bind_app in *.
  destruct x as [b|e]; [|destruct H as [-> <-]; rewrite app_nil_r; done].
  destruct Hq as [[_ [e He]]|Hq]; [done|]. rewrite Hq in *. apply Forall_app in Hp as [Hb Hp].
  apply Forall_inv in Hb. assert (Hlb : length b = 32%nat) by (rewrite <-Hf; exact Hb).
  destruct (negb (Z.land (ifr_Flags (read_ifreq b)) IFF_UP =? 0)) eqn:Eup.
  - destruct H as [-> <-]. rewrite !app_nil_r. split; [done|]. intros _. exists name, b. split; [done|]. cbv zeta. by rewrite Eup.
  - apply runs_bind in H as (tr3 & y & tr4 & -> & [Hq2 Ho2]%runs_ioctl & [-> <-]). rewrite app_nil_r in *. split.
    + apply orderly_app; [done|]. apply Ho2. rewrite sifflags_len.
      rewrite length_raw_ifreq; [done| |]; cbn [ifr_Name ifr_rest read_ifreq]; rewrite ?length_take, ?length_drop; lia.
    + intros Hr. exists name, b. split; [done|]. cbv zeta. rewrite Eup.
      destruct Hq2 as [[_ [e ->]]|Hq2]; [done|]. exists y. unfold requests in Hq2. by rewrite Hq2.
Qed.

(** Sending a change of a route, and what is written for it. *)
Lemma runs_send_change typ index dst tr r :
  runs (send_change Marshal typ index dst) tr r →
  orderly tr ∧
  (written tr = [] ∧ (∃ e, r = inr e) ∨
   (∃ pid seq b, Marshal (routeMessage pid seq typ index dst) = Some b ∧ written tr = [b])).
Proof.
  unfold send_change. intros (pid & tr1 & -> & seq & tr2 & -> & [Ho Hw]%runs_sendRoute).
  split; [by do 2 (apply orderly_cons; [done|])|].
  destruct Hw as [Hw|(b & Hb & Hw)]; [by left|]. right. by exists pid, seq, b.
Qed.

(** Whatever the linker is asked to do and whatever the system answers, each
    request has an argument of the size its number encodes, every socket opened
    is closed, and none is used otherwise than while it is open. *)
Theorem bsd_orderly iface op tr r :
  Forall in_place (requests tr) → runs (run_bsd Marshal ParseRIB iface op) tr r →
  Forall fits (requests tr) ∧ held tr = Some [].
Proof.
  intros Hp H. enough (orderly tr) by (unfold orderly in *; naive_solver).
  destruct op; cbn [run_bsd] in H.
  - by apply runs_SetAddr in H as [Ho _].
  - unfold bsd_SetMTU in H. destruct (ifName iface) as [name|]; [|destruct H as [-> _]; apply orderly_nil].
    apply runs_bind in H as (tr1 & x & tr2 & -> & H & [-> <-]). rewrite app_nil_r.
    apply (runs_with_socket _ _ _ (λ fd, IoctlSetIfreqMTU fd name (int32 mtu))) in H as [(e & -> & ->)|(fd & ->)].
    + by apply orderly_cons; [|apply orderly_nil].
    + split; [by apply held_call|constructor].
  - by apply runs_Up in H as [Ho _].
  - unfold without_list, bsd_Addrs in H. run_events H; repeat (apply orderly_cons; [done|]); apply orderly_nil.
  - unfold without_list, bsd_Routes in H. run_events H; try (destruct (ParseRIB _); run_events H);
      repeat (apply orderly_cons; [done|]); apply orderly_nil.
  - apply runs_event in H as (x & tr1 & -> & H). destruct x as [index|]; [|destruct H as [-> _]; by apply orderly_cons, orderly_nil].
    apply orderly_cons; [done|]. apply runs_bind in H as (tr2 & y & tr3 & -> & [Ho _]%runs_send_change & [-> _]). by rewrite app_nil_r.
  - apply runs_event in H as (x & tr1 & -> & H). destruct x as [index|]; [|destruct H as [-> _]; by apply orderly_cons, orderly_nil].
    apply orderly_cons; [done|]. apply runs_bind in H as (tr2 & y & tr3 & -> & [Ho _]%runs_send_change & [-> _]). by rewrite app_nil_r.
Qed.

(** ** What the kernel reads *)

Lemma field_skip a b off n : (length a ≤ off)%nat → field off n (a ++ b) = field (off - length a) n b.
Proof. intros H. unfold field. by rewrite drop_app_ge. Qed.

Lemma field_here a b n : length a = n → field 0 n (a ++ b) = a.
Proof. intros <-. unfold field. by rewrite drop_0, take_app_length. Qed.

Lemma field_all a n : length a = n → field 0 n a = a.
Proof. intros H. rewrite <-(app_nil_r a) at 1. by apply field_here. Qed.

(** Past the fields before, the field is there. *)
Ltac reach_field :=
  repeat first
    [ rewrite field_here by (rewrite ?length_le_bytes, ?length_As16, ?length_As4 by done; done)
    | rewrite field_all by (rewrite ?length_le_bytes; done)
    | rewrite field_skip by (rewrite ?length_le_bytes, ?length_As16, ?length_replicate, ?length_As4 by done; lia);
      rewrite ?length_le_bytes, ?length_As16, ?length_replicate, ?length_As4 by done; cbn [Nat.sub] ].

Lemma name_of_padded iface n : Byte.x00 ∉ iface → name_of (iface ++ zeros n) = iface.
Proof.
  induction iface as [|c iface IH]; intros Hn; cbn [app name_of].
  - by destruct n.
  - apply not_elem_of_cons in Hn as [Hc Hn]. rewrite decide_False by congruence. by rewrite IH.
Qed.

Lemma ifName_read iface name : Byte.x00 ∉ iface → ifName iface = Ok name → name_of name = iface.
Proof. rewrite ifName_spec. intros Hn. case_match; [|done]. intros [= <-]. by apply name_of_padded. Qed.

Lemma read_alias4_request name a p :
  length name = 16%nat → Is4 a = true → 0 ≤ Bits p ≤ 32 →
  read_alias4 (raw_ifAliasReq (MkIfAliasReq name (sockaddr4 a) (sockaddr4 a) (sockaddr4 (mask4 p)))) =
    (name_of name, AddrFrom4 (As4 a), AddrFrom4 (As4 a), Bits p).
Proof.
  intros Hn Ha Hp. unfold read_alias4, raw_ifAliasReq, raw4, sockaddr4.
  cbn [ifra_Name ifra_Addr ifra_BroadAddr ifra_Mask sa4_Len sa4_Family sa4_Port sa4_Addr sa4_Zero]. rewrite <-!app_assoc.
  rewrite field_here by done. rewrite !(field_skip name) by lia. rewrite Hn.
  assert (Hm : length (As4 (mask4 p)) = 4%nat) by done.
  cbn [Nat.sub]. reach_field. unfold zeros. reach_field. rewrite As4_mask4 by done. by rewrite Size_CIDRMask by auto.
Qed.

Lemma read_alias6_request name a p :
  length name = 16%nat → 0 ≤ Bits p ≤ 128 →
  read_alias6 (raw_in6AliasReq (MkIn6AliasReq name (sockaddr6 a) zeroSockaddr6 (sockaddr6 (mask6 p)) 0 0 0
    nd6InfiniteLifetime nd6InfiniteLifetime)) =
    (name_of name, AddrFrom16 (As16 a), Bits p, (nd6InfiniteLifetime, nd6InfiniteLifetime)).
Proof.
  intros Hn Hp. unfold read_alias6, raw_in6AliasReq, raw6, sockaddr6, zeroSockaddr6.
  cbn [ifra6_Name ifra6_Addr ifra6_DstAddr ifra6_Mask ifra6_Flags ifra6_Expire ifra6_Preferred ifra6_Vltime ifra6_Pltime
    sa6_Len sa6_Family sa6_Port sa6_Flowinfo sa6_Addr sa6_Scope_id]. rewrite <-!app_assoc.
  rewrite field_here by done. rewrite !(field_skip name) by lia. rewrite Hn. cbn [Nat.sub].
  unfold zeros. reach_field. rewrite As16_mask6 by done. rewrite Size_CIDRMask by auto. by rewrite !le_value_bytes.
Qed.

(** An address that is set is set on the interface named, with its network,
    for ever: the kernel is asked once, and reads just that. An IPv4 address is
    its own peer. *)
Theorem SetAddr_told iface addr tr :
  good_prefix addr → Byte.x00 ∉ iface → runs (bsd_SetAddr iface addr) tr (Ok ()) →
  ∃ req arg x, requests tr = [(req, arg, x)] ∧
    if Is4 (pfx_Addr addr) then
      req = SIOCAIFADDR ∧ read_alias4 arg = (iface, pfx_Addr addr, pfx_Addr addr, Bits addr)
    else
      req = siocAIFADDRIn6 ∧ read_alias6 arg = (iface, pfx_Addr addr, Bits addr, (nd6InfiniteLifetime, nd6InfiniteLifetime)).
Proof.
  intros Hg Hi [_ H]%runs_SetAddr. destruct (H eq_refl) as (name & req & arg & x & En & Hq & Ha).
  pose proof (length_ifName _ _ En) as Hn. apply ifName_read in En; [|done]. exists req, arg, x. split; [done|].
  destruct (good_prefix_cases addr Hg) as [(v & E & Hv & Hb)|(v & E & Hv & Hb)].
  - assert (Ea : pfx_Addr addr = A4 v) by (by rewrite E). rewrite Ea in *. cbn [Is4] in *.
    destruct Ha as [-> ->]. split; [done|]. rewrite read_alias4_request, En by done.
    unfold AddrFrom4, As4. cbn [AsSlice]. rewrite length_be_bytes, Nat.sub_diag, drop_0, be_value_bytes, Z.mod_small by (cbn; lia). done.
  - assert (Ea : pfx_Addr addr = A6 v []) by (by rewrite E). rewrite Ea in *. cbn [Is4] in *.
    destruct Ha as [-> ->]. split; [done|]. rewrite read_alias6_request, En by done.
    unfold AddrFrom16, As16. rewrite be_value_bytes, Z.mod_small by (cbn; lia). done.
Qed.

Lemma signed_mod w n : 0 < w → signed w n `mod` 2 ^ w = n `mod` 2 ^ w.
Proof.
  intros Hw. unfold signed. rewrite Zminus_mod_idemp_l. f_equal. lia.
Qed.

(** The bits of a number kept in [w]: the conversion to a signed one keeps them. *)
Lemma testbit_signed w n i : 0 ≤ i < w → Z.testbit (signed w n) i = Z.testbit n i.
Proof.
  intros Hi. rewrite <-(Z.mod_pow2_bits_low (signed w n) w), <-(Z.mod_pow2_bits_low n w) by lia.
  by rewrite signed_mod by lia.
Qed.

(** An interface that is brought up has its flags read, and, unless it is up
    already, written back as the kernel gave them with the one flag raised:
    all else in the request is as it was read. *)
Theorem Up_raises iface tr :
  Byte.x00 ∉ iface → Forall in_place (requests tr) → runs (bsd_Up iface) tr (Ok ()) →
  ∃ asked b, name_of (field 0 16 asked) = iface ∧
    let up f := negb (Z.land (int16 (le_value (field 16 2 f))) IFF_UP =? 0) in
    if up b then requests tr = [(SIOCGIFFLAGS, asked, inl b)]
    else ∃ raised x, requests tr = [(SIOCGIFFLAGS, asked, inl b); (SIOCSIFFLAGS, raised, x)] ∧
      field 0 16 raised = field 0 16 b ∧ field 18 14 raised = field 18 14 b ∧
      ∀ i, 0 ≤ i < 16 →
        Z.testbit (le_value (field 16 2 raised)) i =
          Z.testbit (le_value (field 16 2 b)) i || Z.testbit IFF_UP i.
Proof.
  intros Hi Hp H. pose proof (runs_Up iface tr _ Hp H) as [_ Hr]. destruct (Hr eq_refl) as (name & b & En & Hq).
  pose proof (length_ifName _ _ En) as Hn. apply ifName_read in En; [|done]. cbv zeta in Hq.
  eexists _, b. split; [|cbv zeta; unfold field at 1; change (ifr_Flags (read_ifreq b)) with (int16 (le_value (take 2 (drop 16 b)))) in Hq;
    destruct (negb _) eqn:Eu; [exact Hq|]].
  - unfold raw_ifreq. cbn [ifr_Name]. by rewrite field_here.
  - destruct Hq as [x Hq]. eexists _, x. split; [exact Hq|].
    assert (Hb : length b = 32%nat).
    { rewrite Hq in Hp. apply Forall_inv in Hp. etransitivity; [exact Hp|]. by apply length_raw_ifreq. }
    unfold raw_ifreq. cbn [ifr_Name ifr_Flags ifr_rest read_ifreq].
    assert (Ht : length (take 16 b) = 16%nat) by (rewrite length_take; lia).
    rewrite field_here by done. rewrite !(field_skip (take 16 b)) by lia. rewrite Ht. cbn [Nat.sub].
    rewrite field_here by apply length_le_bytes. rewrite field_skip by (by rewrite length_le_bytes). rewrite length_le_bytes. cbn [Nat.sub].
    split_and!.
    + done.
    + rewrite field_all by (rewrite length_drop; lia). unfold field. rewrite take_ge; [done|]. rewrite length_drop. lia.
    + intros i Hi'. rewrite le_value_bytes. change (256 ^ Z.of_nat 2) with (2 ^ 16).
      rewrite Z.mod_pow2_bits_low by lia. unfold int16 at 1. rewrite testbit_signed, Z.lor_spec by lia. f_equal.
      unfold int16. by rewrite testbit_signed by lia.
Qed.

(** A route that is added is asked for once, in a message that reads back as
    the static route to that network through the interface named. *)
Theorem AddRoute_written iface dst tr :
  good_prefix dst → runs (bsd_AddRoute Marshal iface dst) tr (Ok ()) →
  ∃ index rest, tr = Ev (InterfaceByName iface) (Ok index) :: rest ∧
    (written tr = [] ∨ ∃ m b, Marshal m = Some b ∧ written tr = [b] ∧ rm_Type m = RTM_ADD ∧
      staticRoutes [RouteMsg m] index = if ordinary dst then [dst] else []).
Proof.
  intros Hg H. apply runs_event in H as (x & tr1 & -> & H). destruct x as [index|]; [|by destruct H as [_ [=]]].
  exists index, tr1. split; [done|]. apply runs_bind in H as (tr2 & y & tr3 & -> & [_ Hw]%runs_send_change & [-> Hr]).
  rewrite app_nil_r. unfold written in *. cbn [mbind list_bind written_of app].
  destruct Hw as [[Hw _]|(pid & seq & b & Hm & Hw)]; [by left|]. right.
  exists (routeMessage pid seq RTM_ADD index dst), b. split_and!; [done|done|done|].
  pose proof (staticRoutes_own index [inl (pid, seq, dst)]) as Hs. cbn [map dumped] in Hs. rewrite Hs.
  - cbn [mbind list_bind]. by rewrite app_nil_r.
  - intros p q d Hd%list_elem_of_singleton. by injection Hd as -> -> ->.
  - by intros m Hm'%list_elem_of_singleton.
Qed.
End Runs.

(** ** The numbers of macOS *)

Module Sys.
#[export] Instance sockets : Sockets := {
  IFNAMSIZ := 16; IFF_UP := 1; AF_UNSPEC := 0; AF_INET := 2; AF_INET6 := 30; AF_ROUTE := 17;
  SOCK_DGRAM := 2; SOCK_RAW := 3; SizeofSockaddrInet4 := 16; SizeofSockaddrInet6 := 28;
  SIOCAIFADDR := 0x8040691a; SIOCGIFFLAGS := 0xc0206911; SIOCSIFFLAGS := 0x80206910;
}.
#[export] Instance sockets_laws : SocketsLaws.
Proof. by split. Qed.
End Sys.

#[local] Existing Instance MacOS.bsd.
#[local] Existing Instance MacOS.laws.
#[local] Existing Instance Sys.sockets.
#[local] Existing Instance Sys.sockets_laws.

(** The flags of an interface that is down, and the request that raises it. *)
Definition down_flags : bytes := copy_to 16 (str "utun3") ++ le_bytes 2 0x8050 ++ zeros 14.
Definition up_flags : bytes := copy_to 16 (str "utun3") ++ le_bytes 2 0x8051 ++ zeros 14.
Definition up_run : list (happened bsdE) :=
  [Ev (Socket AF_INET SOCK_DGRAM 0) (inl 5); Ev (Ioctl 5 SIOCGIFFLAGS (copy_to 32 (str "utun3"))) (inl down_flags); Ev (CloseFd 5) ();
   Ev (Socket AF_INET SOCK_DGRAM 0) (inl 5); Ev (Ioctl 5 SIOCSIFFLAGS up_flags) (inl up_flags); Ev (CloseFd 5) ()].

Lemma up_runs Marshal ParseRIB : runs (run_bsd Marshal ParseRIB (str "utun3") OpUp) up_run (Ok ()).
Proof. unfold run_bsd, up_run, bsd_Up. cbn [ifName]. repeat (apply runs_step || (eexists _, _; split; [reflexivity|])). by split. Qed.

Lemma bsd_orderly_witness : Forall fits (requests up_run) ∧ held up_run = Some [].
Proof.
  apply (bsd_orderly (λ _, None) (λ _, Err "none") (str "utun3") OpUp up_run (Ok ())); [|apply up_runs].
  by repeat constructor.
Defined.
