(* ===== verification/MacLink.v ===== *)
(** * MacLink: what setting up the interface achieves on macOS (internal/wg/link_darwin.go, platform_darwin.go)

    The programs of Ioctl run by a system, a class with the behaviour of the
    interface table and the routing table as its laws: routes are known by
    their network, those bound to an interface (scoped) apart. The linker keeps
    the contract Wg asks of a network stack, so that what a set-up achieves is
    shown of the routing table. *)

From S2P Require Import Prelude Netip Overlay Identity State Bind Wg Prog Darwin Ioctl.

(** The system: what it answers to each call, and what becomes of it. *)
Class MacKernel := {
  mac_os : Type;
  serve : ∀ X, bsdE X → mac_os → X * mac_os;
  mac_Configure : mac_os → bytes → wgConfig → result unit * mac_os;   (* wgctrl's ConfigureDevice *)
  scoped : RouteMessage → bool;                                       (* RTF_IFSCOPE *)
}.
Arguments serve {_ X}.

(** A program run by the system. *)
Fixpoint exec `{!MacKernel} {A} (p : prog bsdE A) (o : mac_os) : A * mac_os :=
  match p with
  | Ret a => (a, o)
  | Vis e k => let '(x, o) := serve e o in exec (k x) o
  end.

(** Networks as the table has them. *)
Definition keyed (p : Prefix) : Prop := good_prefix p ∧ Masked p = p.

(** The route to a network that a request without a scope is about. *)
Definition main_route `{!MacKernel, !Bsd} (p : Prefix) (m : message) : Prop :=
  match m with RouteMsg rm => destination rm = Some p ∧ scoped rm = false | OtherMsg => False end.
#[export] Instance main_route_dec `{!MacKernel, !Bsd} p m : Decision (main_route p m).
Proof. destruct m; cbn; apply _. Defined.

Section Laws.
Context {bsd : Bsd} {sockets : Sockets}.
Context (Marshal : RouteMessage → option bytes) (ParseRIB : bytes → result (list message)).

(** A call that may change the routing table: besides what is written to a
    socket, what is asked of an interface, since the system adds routes of its
    own for an interface's addresses, and may remove them. *)
Definition may_change_table {X} (e : bsdE X) : bool :=
  match e with WriteFd _ _ | Ioctl _ _ _ | IoctlSetIfreqMTU _ _ _ => true | _ => false end.

(** What the system does. Calls that only ask leave the table alone; what an
    ioctl makes of it is left open. A route is added unless the table has one to
    its network, and deleted with that network; the networks of the static
    routes have their host bits clear. *)
Class MacLaws `{!MacKernel} := {
  mac_table : mac_os → list message;
  mac_index : mac_os → bytes → result Z;
  mac_config : mac_os → bytes → option wgConfig;
  serve_index o i : serve (InterfaceByName i) o = (mac_index o i, o);
  keeps_index X (e : bsdE X) o i : mac_index (serve e o).2 i = mac_index o i;
  keeps_config X (e : bsdE X) o d : mac_config (serve e o).2 d = mac_config o d;
  keeps_table X (e : bsdE X) o : may_change_table e = false → mac_table (serve e o).2 = mac_table o;
  mac_Configure_ok o i c o' : mac_Configure o i c = (Ok (), o') → mac_config o' i = Some c;
  Table_read o rib o' msgs : serve FetchRIB o = (Ok rib, o') → ParseRIB rib = Ok msgs → msgs = mac_table o;
  table_keyed o m i p : m ∈ mac_table o → static_route i m = [p] → keyed p;
  Socket_error o f t p e : (serve (Socket f t p) o).1 = inr e → e = EOTHER;
  Write_added o fd b pid seq i p o' :
    Marshal (routeMessage pid seq RTM_ADD i p) = Some b → routable p → serve (WriteFd fd b) o = (inl (), o') →
    ∃ rm, rm_Index rm = i ∧ Z.land (rm_Flags rm) RTF_STATIC ≠ 0 ∧ destination rm = Some p ∧ scoped rm = false ∧
      ∀ m, m ∈ mac_table o' ↔ m ∈ mac_table o ∨ m = RouteMsg rm;
  Write_exists o fd b pid seq i p o' :
    Marshal (routeMessage pid seq RTM_ADD i p) = Some b → routable p → serve (WriteFd fd b) o = (inr EEXIST, o') →
    (∃ m, m ∈ mac_table o ∧ main_route p m) ∧ mac_table o' = mac_table o;
  Write_deleted o fd b pid seq i p o' :
    Marshal (routeMessage pid seq RTM_DELETE i p) = Some b → keyed p → serve (WriteFd fd b) o = (inl (), o') →
    ∀ m, m ∈ mac_table o' ↔ m ∈ mac_table o ∧ ¬ main_route p m;
  Write_missing o fd b pid seq i p o' :
    Marshal (routeMessage pid seq RTM_DELETE i p) = Some b → keyed p → serve (WriteFd fd b) o = (inr ESRCH, o') →
    (∀ m, m ∈ mac_table o → ¬ main_route p m) ∧ mac_table o' = mac_table o;
}.

(** The network stack of macOS, with any device. *)
Definition macos_with {kernel : MacKernel} (create : mac_os → bytes → Z → result bytes * mac_os)
    (delete : mac_os → bytes → result unit * mac_os) : Network := {|
  os := mac_os;
  dev_Create := create;
  dev_Delete := delete;
  ConfigureDevice := mac_Configure;
  link_SetAddr o iface addr := exec (bsd_SetAddr iface addr) o;
  link_SetMTU o iface mtu := exec (bsd_SetMTU iface mtu) o;
  link_Up o iface := exec (bsd_Up iface) o;
  link_Routes o iface := exec (bsd_Routes ParseRIB iface) o;
  link_AddRoute o iface dst := exec (bsd_AddRoute Marshal iface dst) o;
  link_DelRoute o iface dst := exec (bsd_DelRoute Marshal iface dst) o;
|}.

(** ** The linker keeps its contract *)

Context {kernel : MacKernel} {laws : MacLaws} {bsd_laws : BsdLaws}.

Lemma exec_index {A} (p : prog bsdE A) o i : mac_index (exec p o).2 i = mac_index o i.
Proof.
  revert o. induction p as [a|X e k IH]; intros o; [done|]. cbn [exec].
  pose proof (keeps_index X e o i) as H. destruct (serve e o) as [x o1]. by rewrite IH.
Qed.

Lemma exec_config {A} (p : prog bsdE A) o d : mac_config (exec p o).2 d = mac_config o d.
Proof.
  revert o. induction p as [a|X e k IH]; intros o; [done|]. cbn [exec].
  pose proof (keeps_config X e o d) as H. destruct (serve e o) as [x o1]. by rewrite IH.
Qed.

Lemma exec_bind {A B} (p : prog bsdE A) (f : A → prog bsdE B) o :
  exec (bind p f) o = let '(a, o1) := exec p o in exec (f a) o1.
Proof.
  revert o. induction p as [a|X e k IH]; intros o; [done|]. cbn [bind exec]. destruct (serve e o) as [x o1]. apply IH.
Qed.

(** What sending a change comes to: an error before anything is written, or
    the answer to what was. *)
Lemma exec_send_change typ i p o r o' :
  exec (send_change Marshal typ i p) o = (r, o') →
  (r = inr EOTHER ∧ mac_table o' = mac_table o) ∨
  (∃ pid seq b fd o1 o2, Marshal (routeMessage pid seq typ i p) = Some b ∧ serve (WriteFd fd b) o1 = (r, o2) ∧
    mac_table o1 = mac_table o ∧ mac_table o' = mac_table o2).
Proof.
  unfold send_change. cbn [bind trigger exec].
  pose proof (keeps_table _ Getpid o eq_refl) as H1. destruct (serve Getpid o) as [pid o1]. cbn [exec bind snd] in *.
  pose proof (keeps_table _ NextSeq o1 eq_refl) as H2. destruct (serve NextSeq o1) as [seq o2]. cbn [snd] in *.
  unfold sendRoute. destruct (Marshal (routeMessage pid seq typ i p)) as [b|] eqn:Em.
  - unfold with_socket. cbn [bind trigger exec].
    pose proof (keeps_table _ (Socket AF_ROUTE SOCK_RAW AF_UNSPEC) o2 eq_refl) as H3.
    pose proof (Socket_error o2 AF_ROUTE SOCK_RAW AF_UNSPEC) as He.
    destruct (serve (Socket AF_ROUTE SOCK_RAW AF_UNSPEC) o2) as [[fd|e] o3]; cbn [fst snd exec bind] in *.
    + destruct (serve (WriteFd fd b) o3) as [x o4] eqn:Ew. cbn [exec bind].
      pose proof (keeps_table _ (CloseFd fd) o4 eq_refl) as H4. destruct (serve (CloseFd fd) o4) as [[] o5].
      intros [= <- <-]. right. exists pid, seq, b, fd, o3, o4. cbn [snd] in H4. by rewrite H3, H2, H1, H4.
    + intros [= <- <-]. left. rewrite (He e eq_refl). by rewrite H3, H2, H1.
  - intros [= <- <-]. left. by rewrite H2, H1.
Qed.

(** ** The routes listed *)

Lemma elem_of_staticRoutes table i p :
  p ∈ staticRoutes table i ↔ ∃ m, m ∈ table ∧ static_route i m = [p].
Proof.
  unfold staticRoutes. rewrite list_elem_of_bind. split; intros (m & H1 & H2); exists m.
  - split; [done|]. destruct m as [rm|]; cbn in *; [|by apply elem_of_nil in H1].
    repeat (case_match; try by apply elem_of_nil in H1). apply list_elem_of_singleton in H1. by subst.
  - rewrite H2. by split; [left|].
Qed.

(** A message that is listed. *)
Lemma static_route_Some i rm p :
  static_route i (RouteMsg rm) = [p] ↔
  rm_Index rm = i ∧ Z.land (rm_Flags rm) RTF_STATIC ≠ 0 ∧ destination rm = Some p ∧ ordinary p = true.
Proof.
  cbn. unfold ordinary. destruct (Z.eqb_spec (rm_Index rm) i), (Z.eqb_spec (Z.land (rm_Flags rm) RTF_STATIC) 0); cbn; [naive_solver| |naive_solver..].
  destruct (destination rm) as [d|]; [|naive_solver].
  destruct (negb (IsMulticast (pfx_Addr d)) && negb (IsLinkLocalUnicast (pfx_Addr d))) eqn:E; naive_solver congruence.
Qed.

Definition mac_routes (o : mac_os) (name : bytes) : gset Prefix :=
  match mac_index o name with Err _ => ∅ | Ok i => list_to_set (staticRoutes (mac_table o) i) end.

(** The table has a route to the network that is not one of the agent's
    making through the interface; or it is of the networks never listed. *)
Definition mac_foreign (o : mac_os) (name : bytes) (p : Prefix) : Prop :=
  ordinary p = false ∨
  ∃ i m, mac_index o name = Ok i ∧ m ∈ mac_table o ∧ main_route p m ∧ static_route i m = [].

(** There is a route through the interface that only a request with its scope
    would delete. *)
Definition mac_stuck (o : mac_os) (name : bytes) (p : Prefix) : Prop :=
  ∃ i m, mac_index o name = Ok i ∧ m ∈ mac_table o ∧ static_route i m = [p] ∧ ¬ main_route p m.

Lemma mac_AddRoute_ok o name p o' :
  routable p → exec (bsd_AddRoute Marshal name p) o = (Ok (), o') →
  (mac_routes o' name = {[p]} ∪ mac_routes o name ∨ mac_foreign o name p ∧ mac_routes o' name = mac_routes o name) ∧
  ∀ q, mac_foreign o name q → mac_foreign o' name q.
Proof.
  intros Hp H. pose proof (exec_index (bsd_AddRoute Marshal name p) o name) as Hi. rewrite H in Hi. cbn [snd] in Hi.
  unfold bsd_AddRoute in H. cbn [bind trigger exec] in H. rewrite serve_index in H.
  unfold mac_routes, mac_foreign. rewrite Hi. destruct (mac_index o name) as [i|] eqn:Ei; [|done].
  cbn [bind exec] in H. rewrite exec_bind in H. destruct (exec (send_change Marshal RTM_ADD i p) o) as [r o1] eqn:E.
  cbn [exec] in H. injection H as Hr <-. apply exec_send_change in E as [[-> _]|(pid & seq & b & fd & o2 & o3 & Hm & Hw & H2 & H3)]; [done|].
  destruct r as [[]|[]]; try done.
  - destruct (Write_added _ _ _ _ _ _ _ _ Hm Hp Hw) as (rm & Hidx & Hst & Hd & Hs & Ht). rewrite H2, <-H3 in Ht. split.
    + destruct (ordinary p) eqn:Eo.
      * left. apply set_eq. intros q. rewrite elem_of_union, elem_of_singleton, !elem_of_list_to_set, !elem_of_staticRoutes.
        setoid_rewrite Ht. split.
        -- intros (m & [Hin| ->] & Hq); [right; by exists m|]. apply static_route_Some in Hq as (_ & _ & Hq & _). left. congruence.
        -- intros [->|(m & Hin & Hq)]; [|exists m; auto]. exists (RouteMsg rm). split; [by right|]. by apply static_route_Some.
      * right. split; [by left|]. apply set_eq. intros q. rewrite !elem_of_list_to_set, !elem_of_staticRoutes. setoid_rewrite Ht.
        split; [|naive_solver]. intros (m & [Hin| ->] & Hq); [by exists m|]. apply static_route_Some in Hq as (_ & _ & Hq & Hq').
        congruence.
    + intros q [Hq|(j & m & Hj & Hin & Hq)]; [by left|]. right. exists j, m. split_and!; [done|apply Ht; by left|apply Hq..].
  - destruct (Write_exists _ _ _ _ _ _ _ _ Hm Hp Hw) as [(m & Hin & Hmain) Ht]. rewrite H2 in Hin. rewrite H3, Ht, H2. split; [|done].
    destruct m as [rm|]; [|done]. destruct (static_route i (RouteMsg rm)) as [|q l] eqn:Es.
    + right. split; [|done]. right. by exists i, (RouteMsg rm).
    + assert (l = []) as -> by (cbn in Es; repeat (case_match; try done); by injection Es).
      apply static_route_Some in Es as Es'. destruct Es' as (_ & _ & Hd & _). destruct Hmain as [Hd' _].
      assert (q = p) as -> by congruence.
      left. assert (p ∈ staticRoutes (mac_table o) i) by (apply elem_of_staticRoutes; by exists (RouteMsg rm)). set_solver.
Qed.

(** What a listed route says of its message. *)
Lemma listed_main i m p q : static_route i m = [q] → main_route p m → p = q.
Proof. destruct m as [rm|]; [|done]. intros (_ & _ & Hd & _)%static_route_Some [Hd' _]. congruence. Qed.

Lemma mac_DelRoute_ok o name p o' :
  keyed p → exec (bsd_DelRoute Marshal name p) o = (Ok (), o') →
  (mac_routes o' name = mac_routes o name ∖ {[p]} ∨ mac_stuck o name p ∧ mac_routes o' name = mac_routes o name) ∧
  (∀ q, q ≠ p → mac_foreign o name q → mac_foreign o' name q).
Proof.
  intros Hp H. pose proof (exec_index (bsd_DelRoute Marshal name p) o name) as Hi. rewrite H in Hi. cbn [snd] in Hi.
  unfold bsd_DelRoute in H. cbn [bind trigger exec] in H. rewrite serve_index in H.
  unfold mac_routes, mac_foreign, mac_stuck. rewrite Hi. destruct (mac_index o name) as [i|] eqn:Ei; [|done].
  cbn [bind exec] in H. rewrite exec_bind in H. destruct (exec (send_change Marshal RTM_DELETE i p) o) as [r o1] eqn:E.
  cbn [exec] in H. injection H as Hr <-. apply exec_send_change in E as [[-> _]|(pid & seq & b & fd & o2 & o3 & Hm & Hw & H2 & H3)]; [done|].
  assert (Ht : ∀ m, m ∈ mac_table o1 ↔ m ∈ mac_table o ∧ ¬ main_route p m).
  { rewrite H3, <-H2. destruct r as [[]|[]]; try done; [by apply (Write_deleted _ _ _ _ _ _ _ _ Hm Hp Hw)|].
    destruct (Write_missing _ _ _ _ _ _ _ _ Hm Hp Hw) as [Hn ->]. naive_solver. }
  split.
  - destruct (decide (p ∈ staticRoutes (mac_table o1) i)) as [Hin|Hin].
    + right. apply elem_of_staticRoutes in Hin as (m & [Hin Hmain]%Ht & Hs). split; [by exists i, m|].
      apply set_eq. intros q. rewrite !elem_of_list_to_set, !elem_of_staticRoutes. setoid_rewrite Ht. split; [naive_solver|].
      intros (m' & Hin' & Hs'). destruct (decide (q = p)) as [->|Hq]; [by exists m|].
      exists m'. split_and!; [done| |done]. intros Hm'. by apply Hq, eq_sym, (listed_main i m').
    + left. apply set_eq. intros q. rewrite elem_of_difference, elem_of_singleton, !elem_of_list_to_set. split.
      * intros Hq. split; [|by intros ->]. rewrite elem_of_staticRoutes in Hq |- *. setoid_rewrite Ht in Hq. naive_solver.
      * intros [Hq Hne]. rewrite elem_of_staticRoutes in Hq |- *. destruct Hq as (m & Hm' & Hs). exists m. split; [|done].
        apply Ht. split; [done|]. intros Hmain. by apply Hne, eq_sym, (listed_main i m).
  - intros q Hq [Hf|(j & m & Hj & Hin' & Hmain & Hs)]; [by left|]. right. exists j, m. split_and!; [done| |done..].
    apply Ht. split; [done|]. destruct m as [rm|]; [|done]. destruct Hmain as [Hd _]. intros [Hd' _]. congruence.
Qed.

(** Deleting a route leaves the scoped ones. *)
Lemma mac_DelRoute_stuck o name p o' q :
  exec (bsd_DelRoute Marshal name p) o = (Ok (), o') → keyed p → mac_stuck o name q → mac_stuck o' name q.
Proof.
  intros H Hp (i & m & Hi & Hin & Hs & Hmain). pose proof (exec_index (bsd_DelRoute Marshal name p) o name) as Hi'. rewrite H in Hi'.
  exists i, m. split_and!; [by rewrite <-Hi, <-Hi'| |done..].
  unfold bsd_DelRoute in H. cbn [bind trigger exec] in H. rewrite serve_index, Hi in H. cbn [bind exec] in H.
  rewrite exec_bind in H. destruct (exec (send_change Marshal RTM_DELETE i p) o) as [r o1] eqn:E. injection H as Hr <-.
  apply exec_send_change in E as [[-> _]|(pid & seq & b & fd & o2 & o3 & Hm & Hw & H2 & H3)]; [done|].
  rewrite H3. destruct r as [[]|[]]; try done.
  - apply (Write_deleted _ _ _ _ _ _ _ _ Hm Hp Hw). rewrite H2. split; [done|]. intros Hp'.
    assert (p = q) as -> by by apply (listed_main i m). done.
  - destruct (Write_missing _ _ _ _ _ _ _ _ Hm Hp Hw) as [_ ->]. by rewrite H2.
Qed.

Lemma mac_Routes_ok o name l o' :
  exec (bsd_Routes ParseRIB name) o = (Ok l, o') →
  mac_table o' = mac_table o ∧ ∃ i, mac_index o name = Ok i ∧ l = staticRoutes (mac_table o) i.
Proof.
  intros H. unfold bsd_Routes in H. cbn [bind trigger exec] in H. rewrite serve_index in H. destruct (mac_index o name) as [i|] eqn:Ei; [|done].
  cbn [bind exec] in H. pose proof (keeps_table _ FetchRIB o eq_refl) as Hk.
  destruct (serve FetchRIB o) as [[rib|e] o1] eqn:Ef; cbn [bind exec snd] in *; [|done].
  destruct (ParseRIB rib) as [msgs|] eqn:Ep; [|done]. injection H as <- <-. split; [done|]. exists i. split; [done|].
  by rewrite (Table_read _ _ _ _ Ef Ep).
Qed.

(** The contract of Wg, with any device. *)
Definition macos_laws create delete : @NetworkLaws (macos_with create delete).
Proof.
  unshelve eapply (@Build_NetworkLaws (macos_with create delete) mac_routes mac_config mac_foreign mac_stuck keyed).
  - intros o i c o'. apply mac_Configure_ok.
  - intros o i l o' H. change (exec (bsd_Routes ParseRIB i) o = (Ok l, o')) in H.
    pose proof (exec_index (bsd_Routes ParseRIB i) o i) as Hi. rewrite H in Hi.
    apply mac_Routes_ok in H as (Ht & j & Hj & ->). unfold mac_routes. cbn [snd] in Hi. rewrite Hi, Hj, Ht.
    split; [|done]. intros p. by rewrite elem_of_list_to_set.
  - intros o i l o' p H Hp. apply mac_Routes_ok in H as (_ & j & _ & ->). apply elem_of_staticRoutes in Hp as (m & Hin & Hs). by apply (table_keyed o m j).
  - intros o i p o' Hp H. by apply (mac_AddRoute_ok _ _ _ _ Hp H).
  - intros o i p o' Hp H. by apply (mac_DelRoute_ok _ _ _ _ Hp H).
  - intros o i p o' q Hp H. by apply (mac_AddRoute_ok _ _ _ _ Hp H).
  - intros o i p o' q Hp H. by apply (mac_DelRoute_ok _ _ _ _ Hp H).
  - intros o i p o' q Hp H. by apply (mac_DelRoute_stuck _ _ _ _ _ H).
  - intros o i l o' q H. change (exec (bsd_Routes ParseRIB i) o = (Ok l, o')) in H.
    pose proof (exec_index (bsd_Routes ParseRIB i) o i) as Hi. rewrite H in Hi. cbn [snd] in Hi.
    apply mac_Routes_ok in H as (Ht & _). unfold mac_foreign. by rewrite Hi, Ht.
  - intros. apply exec_config.
  - intros. apply exec_config.
  - intros. apply exec_config.
  - intros. apply exec_config.
  - intros. apply exec_config.
  - intros. apply exec_config.
Defined.

(** C13: on macOS, when [SetUpInterface] succeeds for nodes whose networks are
    well formed, with their host bits clear and not 4-in-6, the device has
    exactly the nodes as peers; every network of a node that is ordinary,
    neither multicast nor link-local, has a route, through the interface or one
    that was there and is not of the agent's making; and the static routes to
    ordinary networks through the interface lead to the networks of the nodes,
    to this node's own address, or are bound to the interface. *)
Theorem macos_SetUpInterface {types : WgTypes} create delete s (o o' : mac_os) nodes s' i :
  nodes_routable nodes → mac_index o' (osName s') = Ok i →
  @SetUpInterface types (macos_with create delete) s o nodes = (Ok (), s', o') →
  (∃ peers, nodesToPeerConfigs s nodes = Ok peers ∧
    mac_config o' (iface s) = Some (MkWgConfig (privKey s) (s_port s) true peers)) ∧
  (∀ p, p ∈ nodes ≫= peerPrefixes → ordinary p = true →
    p ∈ staticRoutes (mac_table o') i ∨ ∃ m, m ∈ mac_table o' ∧ main_route p m ∧ static_route i m = []) ∧
  (∀ p, p ∈ staticRoutes (mac_table o') i →
    p ∈ nodes ≫= peerPrefixes ∨ p = hostPrefix (overlayAddr s) ∨
    ∃ m, m ∈ mac_table o' ∧ static_route i m = [p] ∧ ¬ main_route p m).
Proof.
  intros Hn Hi Hs. destruct (@SetUpInterface_exact _ _ (macos_laws create delete) _ _ _ _ _ Hn Hs) as (H1 & H2 & H3).
  split; [done|]. cbn in H2, H3. unfold mac_routes, mac_foreign, mac_stuck in H2, H3. rewrite Hi in H2, H3.
  setoid_rewrite elem_of_list_to_set in H2. setoid_rewrite elem_of_list_to_set in H3. split.
  - intros p [Hp|[Hp|(j & m & [= <-] & Hp)]]%H2 Ho; [by left|congruence|right; by exists m].
  - intros p [?|[?|(j & m & [= <-] & Hp)]]%H3; [auto|auto|]. right; right. by exists m.
Qed.
End Laws.

(** ** A system to compute with *)

#[local] Existing Instance MacOS.bsd.
#[local] Existing Instance MacOS.laws.
#[local] Existing Instance Sys.sockets.

Module ToyMac.
(** The routes there can be, by number: an encoding of the messages about
    them. The last of these is not of the agent's making. *)
Definition peer_host : Prefix := hostPrefix (A4 0x0A000002).
Definition own : list (Z * Prefix) := [(7, stale); (7, lan); (7, peer_host); (9, lan)].
Definition route_no (e : Z * Prefix) : message := RouteMsg (routeMessage 0 0 RTM_ADD e.1 e.2).
Definition bound_route (p : Prefix) : message :=
  RouteMsg (MkRouteMessage RTM_VERSION RTM_ADD (Z.lor (Z.lor RTF_UP RTF_STATIC) 0x1000000) 7 0 0
    (rm_Addrs (routeMessage 0 0 RTM_ADD 7 p))).
(** The system's own route for the address of an interface. *)
Definition address_route : message :=
  RouteMsg (MkRouteMessage RTM_VERSION RTM_ADD (Z.lor RTF_UP RTF_HOST) 7 0 0
    (rm_Addrs (routeMessage 0 0 RTM_ADD 7 (hostPrefix (overlayAddr demo_state))))).
Definition known : list message := map route_no own ++ [bound_route stale; address_route].

#[global] Arguments known : simpl never.
#[global] Arguments own : simpl never.

Definition nth_of (b : byte) : nat := Z.to_nat (Z_of_byte b).
#[global] Arguments nth_of : simpl never.
Definition table_of (rib : bytes) : list message := rib ≫= λ b, option_list (known !! nth_of b).

Definition Marshal (rm : RouteMessage) : option bytes :=
  match destination rm with
  | Some p =>
      match list_find (λ e, e = (rm_Index rm, p)) own with
      | Some (k, _) => Some [byte_of_Z (rm_Type rm); byte_of_Z (Z.of_nat k)]
      | None => None
      end
  | None => None
  end.
Definition ParseRIB (rib : bytes) : result (list message) := Ok (table_of rib).

Record system := MkSystem { t_names : list (bytes * Z); t_rib : bytes; t_configs : gmap bytes wgConfig }.
Definition with_rib (o : system) (rib : bytes) : system := MkSystem (t_names o) rib (t_configs o).
Definition index_of (o : system) (n : bytes) : result Z :=
  match list_find (λ f, f.1 = n) (t_names o) with Some (_, f) => Ok f.2 | None => Err "no such interface" end.
Definition t_scoped (rm : RouteMessage) : bool := negb (Z.land (rm_Flags rm) 0x1000000 =? 0).

(** Whether a message is the route to a network. *)
Definition is_main (p : Prefix) (m : message) : bool :=
  match m with RouteMsg rm => bool_decide (destination rm = Some p) && negb (t_scoped rm) | OtherMsg => false end.

Definition kernel_write (o : system) (b : bytes) : answer unit * system :=
  match b with
  | [t; k] =>
      match own !! nth_of k with
      | None => (inr EOTHER, o)
      | Some (_, p) =>
          let there := existsb (is_main p) (table_of (t_rib o)) in
          if Z_of_byte t =? RTM_ADD then
            if there then (inr EEXIST, o) else (inl (), with_rib o (t_rib o ++ [k]))
          else if Z_of_byte t =? RTM_DELETE then
            if there then
              (inl (), with_rib o (List.filter (λ b, negb (existsb (is_main p) (option_list (known !! nth_of b)))) (t_rib o)))
            else (inr ESRCH, o)
          else (inr EOTHER, o)
      end
  | _ => (inr EOTHER, o)
  end.

Definition t_serve {X} (e : bsdE X) (o : system) : X * system :=
  match e in bsdE X return X * system with
  | InterfaceByName i => (index_of o i, o)
  | InterfaceAddrs _ => (Ok [], o)
  | FetchRIB => (Ok (t_rib o), o)
  | Getpid => (100, o)
  | NextSeq => (1, o)
  | Socket _ _ _ => (inl 3, o)
  | Ioctl _ req arg => (inl arg, if req =? SIOCAIFADDR then with_rib o (t_rib o ++ [Byte.x05]) else o)
  | IoctlSetIfreqMTU _ _ _ => (inl (), o)
  | WriteFd _ b => kernel_write o b
  | CloseFd _ => ((), o)
  end.

#[export] Instance kernel : MacKernel := {
  mac_os := system;
  serve := @t_serve;
  mac_Configure o n c := (Ok (), MkSystem (t_names o) (t_rib o) (<[n := c]> (t_configs o)));
  scoped := t_scoped;
}.

Lemma is_main_spec p m : is_main p m = true ↔ main_route p m.
Proof.
  destruct m as [rm|]; cbn; [|done]. rewrite andb_true_iff, bool_decide_eq_true, negb_true_iff. done.
Qed.

Lemma existsb_main p l : existsb (is_main p) l = true ↔ ∃ m, m ∈ l ∧ main_route p m.
Proof. rewrite existsb_exists. setoid_rewrite is_main_spec. by setoid_rewrite list_elem_of_In. Qed.

(** The number of a message, and the message of the number. *)
Lemma Marshal_no pid seq typ i p b :
  (typ = RTM_ADD ∨ typ = RTM_DELETE) → good_prefix p → Marshal (routeMessage pid seq typ i p) = Some b →
  ∃ k, b = [byte_of_Z typ; k] ∧ own !! nth_of k = Some (i, p) ∧ known !! nth_of k = Some (route_no (i, p)).
Proof.
  intros Ht Hp. unfold Marshal. rewrite destination_routeMessage by done.
  destruct (list_find _ own) as [[k e]|] eqn:E; [|done]. intros [= <-].
  apply list_find_Some in E as (Hk & -> & _). exists (byte_of_Z (Z.of_nat k)).
  assert (Hlt : (k < 4)%nat) by by apply lookup_lt_Some in Hk.
  assert (nth_of (byte_of_Z (Z.of_nat k)) = k) as ->.
  { unfold nth_of. rewrite Z_of_byte_of_Z, Z.mod_small by lia. lia. }
  split_and!; [done|done|]. unfold known. apply lookup_app_l_Some. rewrite list_lookup_fmap, Hk. done.
Qed.

Lemma table_app r1 r2 : table_of (r1 ++ r2) = table_of r1 ++ table_of r2.
Proof. apply bind_app. Qed.

Lemma elem_of_table rib m : m ∈ table_of rib ↔ ∃ b, b ∈ rib ∧ known !! nth_of b = Some m.
Proof.
  assert (Ho : ∀ mx : option message, m ∈ option_list mx ↔ mx = Some m).
  { intros [x|]; cbn; [rewrite list_elem_of_singleton; naive_solver|]. split; [by intros ?%elem_of_nil|done]. }
  unfold table_of. rewrite list_elem_of_bind. setoid_rewrite Ho. naive_solver.
Qed.

Lemma known_keyed m i p : m ∈ known → static_route i m = [p] → keyed p.
Proof.
  destruct m as [rm|]; [|done]. intros Hin (_ & Hst & Hd & _)%static_route_Some. revert Hin Hst Hd.
  assert (Hg : Forall keyed [stale; lan; peer_host]).
  { repeat constructor; cbn; (lia || (right; split; [done|lia]) || done). }
  assert (Hk : forallb (λ m, match m with
    | RouteMsg rm =>
        (Z.land (rm_Flags rm) RTF_STATIC =? 0) ||
        match destination rm with Some p => bool_decide (p ∈ [stale; lan; peer_host]) | None => true end
    | OtherMsg => true end) known = true) by (vm_compute; reflexivity).
  intros Hin Hst Hd. rewrite forallb_forall in Hk. apply list_elem_of_In, Hk in Hin. cbn beta in Hin. rewrite Hd in Hin.
  apply Z.eqb_neq in Hst. rewrite Hst in Hin. cbn [orb] in Hin. rewrite Forall_forall in Hg. by apply Hg, (bool_decide_eq_true_1 (p ∈ _)).
Qed.

#[export] Instance mac_laws : MacLaws Marshal ParseRIB.
Proof.
  unshelve eapply (Build_MacLaws Marshal ParseRIB kernel
    (λ o : system, table_of (t_rib o)) index_of (λ (o : system) n, t_configs o !! n)); cbn.
  - done.
  - intros X e o i. destruct e; try done; cbn; unfold kernel_write; repeat case_match; done.
  - intros X e o i. destruct e; try done; cbn; unfold kernel_write; repeat case_match; done.
  - intros X e o. by destruct e.
  - intros o i c o' [= <-]. cbn. by rewrite lookup_insert_eq.
  - intros o rib o' msgs [= <- _] [= <-]. done.
  - intros o m i p (b & _ & Hb)%elem_of_table Hd. by apply (known_keyed m i); [eapply list_elem_of_lookup_2|].
  - done.
  - intros o fd b pid seq i p o' Hm [Hp _] Hw.
    apply Marshal_no in Hm as (k & -> & Hk & Hn); [|by left|done]. unfold kernel_write in Hw. rewrite Hk in Hw. cbn in Hw.
    destruct (existsb _ _); [done|]. injection Hw as <-. exists (routeMessage 0 0 RTM_ADD i p).
    split_and!; [done|done|by apply destination_routeMessage|done|]. intros m. cbn [t_rib with_rib]. rewrite table_app, elem_of_app, (elem_of_table [k]). setoid_rewrite list_elem_of_singleton.
    unfold route_no in Hn. cbn [fst snd] in Hn. naive_solver.
  - intros o fd b pid seq i p o' Hm [Hp _] Hw.
    apply Marshal_no in Hm as (k & -> & Hk & Hn); [|by left|done]. unfold kernel_write in Hw. rewrite Hk in Hw. cbn in Hw.
    destruct (existsb _ _) eqn:Ex; [|done]. injection Hw as <-. split; [|done]. by apply existsb_main.
  - intros o fd b pid seq i p o' Hm [Hp _] Hw.
    apply Marshal_no in Hm as (k & -> & Hk & Hn); [|by right|done]. unfold kernel_write in Hw. rewrite Hk in Hw. cbn in Hw.
    destruct (existsb _ _); [|done]. injection Hw as <-. cbn. intros m. rewrite !elem_of_table. split.
    + intros (c & Hc & Hm). apply list_elem_of_In, filter_In in Hc as [Hc Hf]. rewrite Hm in Hf. cbn in Hf.
      rewrite orb_false_r in Hf. split; [exists c; split; [by apply list_elem_of_In|done]|].
      rewrite <-is_main_spec. by destruct (is_main p m).
    + intros [(c & Hc & Hm) Hn']. exists c. split; [|done]. apply list_elem_of_In, filter_In. split; [by apply list_elem_of_In|].
      rewrite Hm. cbn. rewrite orb_false_r. rewrite <-is_main_spec in Hn'. by destruct (is_main p m).
  - intros o fd b pid seq i p o' Hm [Hp _] Hw.
    apply Marshal_no in Hm as (k & -> & Hk & Hn); [|by right|done]. unfold kernel_write in Hw. rewrite Hk in Hw. cbn in Hw.
    destruct (existsb (is_main p) (table_of (t_rib o))) eqn:Ex; [done|]. injection Hw as <-. split; [|done].
    intros m Hm Hmain. assert (Ht : existsb (is_main p) (table_of (t_rib o)) = true) by (apply existsb_main; eauto). congruence.
Defined.
End ToyMac.

#[local] Existing Instance ToyMac.kernel.
#[local] Existing Instance ToyMac.mac_laws.
#[local] Existing Instance ToyNet.types.

(** A stale route, and the same network bound to the interface by hand. *)
Definition demo_system : ToyMac.system := ToyMac.MkSystem [(str "utun4", 7)] [Byte.x00; Byte.x04] ∅.
Definition demo_macos : Network := macos_with ToyMac.Marshal ToyMac.ParseRIB (λ o _ _, (Ok (str "utun4"), o)) (λ o _, (Ok (), o)).
Definition macos_up (o : ToyMac.system) : result unit * State * ToyMac.system :=
  @SetUpInterface _ demo_macos demo_state o [demo_peer].

Example macos_up_ok : (macos_up demo_system).1.1 = Ok ().
Proof. vm_compute. reflexivity. Qed.

(** The stale route is gone and the peer's are there; the bound one stays, and
    so does the one the system added for the address. *)
Example macos_up_routes : ToyMac.t_rib (macos_up demo_system).2 = [Byte.x04; Byte.x05; Byte.x02; Byte.x01].
Proof. vm_compute. reflexivity. Qed.

(** A network that is routed through another interface stays there, and the
    set-up succeeds. *)
Example macos_elsewhere :
  (macos_up (ToyMac.with_rib demo_system [Byte.x03])).1.1 = Ok () ∧
  ToyMac.t_rib (macos_up (ToyMac.with_rib demo_system [Byte.x03])).2 = [Byte.x03; Byte.x05; Byte.x02].
Proof. split; vm_compute; reflexivity. Qed.

Lemma macos_SetUpInterface_witness :
  (macos_up demo_system).1.1 = Ok () ∧
  ∀ p, p ∈ [demo_peer] ≫= peerPrefixes → ordinary p = true →
    p ∈ staticRoutes (mac_table ToyMac.Marshal ToyMac.ParseRIB (macos_up demo_system).2) 7 ∨
    ∃ m, m ∈ mac_table ToyMac.Marshal ToyMac.ParseRIB (macos_up demo_system).2 ∧ main_route p m ∧ static_route 7 m = [].
Proof.
  split; [exact macos_up_ok|].
  destruct (macos_SetUpInterface ToyMac.Marshal ToyMac.ParseRIB (kernel := ToyMac.kernel) (types := ToyNet.types)
    (λ o _ _, (Ok (str "utun4"), o)) (λ o _, (Ok (), o)) demo_state demo_system (macos_up demo_system).2 [demo_peer]
    (macos_up demo_system).1.2 7 demo_peers_routable) as (_ & H & _).
  - vm_compute. reflexivity.
  - fold demo_macos. fold (macos_up demo_system). rewrite <- macos_up_ok. by destruct (macos_up demo_system) as [[r s] o].
  - exact H.
Defined.
