(* ===== verification/Members.v ===== *)
(** * Members: snapshots for subscribers (internal/cluster/cluster.go)

    [Members] hands out channels; [watch] turns change signals into snapshots
    and sends each to every channel; [forwardEvents] turns memberlist's events
    into signals; [Leave] stops both and closes the channels. They run
    concurrently: the model is a step relation over what they share, with
    one step per channel operation or locked region, and a panic (a send on a
    closed channel, a second close) is a state of its own.

    Not every change of the record set is followed by a signal: [admit] and
    [RevokeSelf] change it and do not call [signalChanged]. *)

From S2P Require Import Prelude Netip State.

#[local] Open Scope nat_scope.

Section Members.
(** What a snapshot is made of, memberlist's members and the record set, and
    the snapshot of it; Cluster has the latter in full. *)
Context {View : Type} (snapshot : View → list Node).

(** A one-slot channel; [last] is what was sent on it last. *)
Record chan := MkChan {
  buf : option (list Node);
  closed : bool;
  last : option (list Node);
}.

Inductive watchPC :=
  | WSelect
  | WSnapshot
  | WSave (peers : list Node)                          (* boot.Peers, saveState *)
  | WLock (peers : list Node)                          (* subMu.Lock *)
  | WDrain (peers : list Node) (todo : list nat)       (* the select in the loop *)
  | WSend (peers : list Node) (ch : nat) (todo : list nat)
  | WExited.

Inductive forwardPC := FSelect | FSignal | FExited.

(** Inside [leaveOnce.Do]. *)
Inductive leavePC :=
  | LNone                                              (* not called *)
  | LPersist | LMemberlist | LDone | LWait | LLock
  | LClose (todo : list nat)
  | LEnd.

Inductive holder := ByWatch | ByLeave.

Record mstate := MkM {
  m_view : View;
  m_events : nat;             (* events of other nodes in the channel, or about to be *)
  m_signals : nat;            (* record changes whose signalChanged is to come *)
  m_changed : bool;           (* the one slot of changed *)
  m_done : bool;
  m_left : bool;
  m_mu : option holder;       (* who holds subMu *)
  m_subs : list nat;
  m_chans : list chan;        (* every channel made, by number *)
  m_watch : watchPC;
  m_forward : forwardPC;
  m_leave : leavePC;
  m_panic : bool;
  m_unsignalled : bool;       (* the set changed, without a signal, since watch last began a snapshot *)
}.

Definition set_watch (m : mstate) (pc : watchPC) : mstate :=
  MkM (m_view m) (m_events m) (m_signals m) (m_changed m) (m_done m) (m_left m) (m_mu m)
    (m_subs m) (m_chans m) pc (m_forward m) (m_leave m) (m_panic m) (m_unsignalled m).
Definition set_forward (m : mstate) (events : nat) (pc : forwardPC) : mstate :=
  MkM (m_view m) events (m_signals m) (m_changed m) (m_done m) (m_left m) (m_mu m)
    (m_subs m) (m_chans m) (m_watch m) pc (m_leave m) (m_panic m) (m_unsignalled m).
Definition set_leave (m : mstate) (pc : leavePC) : mstate :=
  MkM (m_view m) (m_events m) (m_signals m) (m_changed m) (m_done m) (m_left m) (m_mu m)
    (m_subs m) (m_chans m) (m_watch m) (m_forward m) pc (m_panic m) (m_unsignalled m).
Definition set_view (m : mstate) (v : View) (events signals : nat) : mstate :=
  MkM v events signals (m_changed m) (m_done m) (m_left m) (m_mu m)
    (m_subs m) (m_chans m) (m_watch m) (m_forward m) (m_leave m) (m_panic m) (m_unsignalled m).
Definition set_changed (m : mstate) (b : bool) : mstate :=
  MkM (m_view m) (m_events m) (m_signals m) b (m_done m) (m_left m) (m_mu m)
    (m_subs m) (m_chans m) (m_watch m) (m_forward m) (m_leave m) (m_panic m) (m_unsignalled m).
Definition set_done (m : mstate) : mstate :=
  MkM (m_view m) (m_events m) (m_signals m) (m_changed m) true (m_left m) (m_mu m)
    (m_subs m) (m_chans m) (m_watch m) (m_forward m) (m_leave m) (m_panic m) (m_unsignalled m).
Definition set_mu (m : mstate) (h : option holder) : mstate :=
  MkM (m_view m) (m_events m) (m_signals m) (m_changed m) (m_done m) (m_left m) h
    (m_subs m) (m_chans m) (m_watch m) (m_forward m) (m_leave m) (m_panic m) (m_unsignalled m).
Definition set_subs (m : mstate) (subs : list nat) (chans : list chan) (left : bool) : mstate :=
  MkM (m_view m) (m_events m) (m_signals m) (m_changed m) (m_done m) left (m_mu m)
    subs chans (m_watch m) (m_forward m) (m_leave m) (m_panic m) (m_unsignalled m).
Definition set_chan (m : mstate) (ch : nat) (c : chan) : mstate :=
  set_subs m (m_subs m) (<[ch := c]> (m_chans m)) (m_left m).
Definition panics (m : mstate) : mstate :=
  MkM (m_view m) (m_events m) (m_signals m) (m_changed m) (m_done m) (m_left m) (m_mu m)
    (m_subs m) (m_chans m) (m_watch m) (m_forward m) (m_leave m) true (m_unsignalled m).

Definition set_unsignalled (m : mstate) (v : View) (b : bool) : mstate :=
  MkM v (m_events m) (m_signals m) (m_changed m) (m_done m) (m_left m) (m_mu m)
    (m_subs m) (m_chans m) (m_watch m) (m_forward m) (m_leave m) (m_panic m) b.

(** [signalChanged]: a signal already pending is enough. *)
Definition signal (m : mstate) : mstate := set_changed m true.

(** [Members], under [subMu]: the number of the channel it returns. *)
Definition Members_ (m : mstate) : nat * mstate :=
  let ch := length (m_chans m) in
  if m_left m then (ch, set_subs m (m_subs m) (m_chans m ++ [MkChan None true None]) (m_left m))
  else
    let m := set_subs m (m_subs m ++ [ch]) (m_chans m ++ [MkChan None false None]) (m_left m) in
    (ch, signal m).

(** [watch] has a change to hear of yet. *)
Definition pending (m : mstate) : Prop :=
  m_changed m = true ∨ 0 < m_events m ∨ 0 < m_signals m ∨ m_forward m = FSignal.

(** The membership has changed, or is changing, since [watch] began. *)
Definition stale (m : mstate) : Prop := pending m ∨ m_unsignalled m = true.

Inductive watchStep : mstate → mstate → Prop :=
  | watch_done m :
      m_watch m = WSelect → m_done m = true → watchStep m (set_watch m WExited)
  | watch_changed m :
      m_watch m = WSelect → m_changed m = true →
      watchStep m (set_watch (set_unsignalled (set_changed m false) (m_view m) false) WSnapshot)
  (* the snapshot may be torn by a change made while it is taken *)
  | watch_snapshot m peers :
      m_watch m = WSnapshot → peers = snapshot (m_view m) ∨ stale m →
      watchStep m (set_watch m (WSave peers))
  | watch_save m peers :
      m_watch m = WSave peers → watchStep m (set_watch m (WLock peers))
  | watch_lock m peers :
      m_watch m = WLock peers → m_mu m = None →
      watchStep m (set_watch (set_mu m (Some ByWatch)) (WDrain peers (m_subs m)))
  | watch_drain m peers ch todo c :
      m_watch m = WDrain peers (ch :: todo) → m_chans m !! ch = Some c →
      watchStep m (set_watch (set_chan m ch (MkChan None (closed c) (last c))) (WSend peers ch todo))
  | watch_send m peers ch todo c :
      m_watch m = WSend peers ch todo → m_chans m !! ch = Some c → closed c = false → buf c = None →
      watchStep m (set_watch (set_chan m ch (MkChan (Some peers) false (Some peers))) (WDrain peers todo))
  | watch_send_closed m peers ch todo c :
      m_watch m = WSend peers ch todo → m_chans m !! ch = Some c → closed c = true →
      watchStep m (panics m)
  | watch_unlock m peers :
      m_watch m = WDrain peers [] →
      watchStep m (set_watch (set_mu m None) WSelect).

Inductive forwardStep : mstate → mstate → Prop :=
  | forward_done m :
      m_forward m = FSelect → m_done m = true → forwardStep m (set_forward m (m_events m) FExited)
  | forward_event m :
      m_forward m = FSelect → 0 < m_events m → forwardStep m (set_forward m (m_events m - 1) FSignal)
  | forward_signal m :
      m_forward m = FSignal → forwardStep m (set_forward (signal m) (m_events m) FSelect).

Inductive leaveStep : mstate → mstate → Prop :=
  | leave_call m :
      m_leave m = LNone → leaveStep m (set_leave m LPersist)
  | leave_persist m :
      m_leave m = LPersist → leaveStep m (set_leave m LMemberlist)
  | leave_memberlist m :
      m_leave m = LMemberlist → leaveStep m (set_leave m LDone)
  | leave_done m :
      m_leave m = LDone → leaveStep m (set_leave (set_done m) LWait)
  | leave_wait m :                                   (* routines.Wait *)
      m_leave m = LWait → m_watch m = WExited → m_forward m = FExited →
      leaveStep m (set_leave m LLock)
  | leave_lock m :
      m_leave m = LLock → m_mu m = None →
      leaveStep m (set_leave (set_mu m (Some ByLeave)) (LClose (m_subs m)))
  | leave_close m ch todo c :
      m_leave m = LClose (ch :: todo) → m_chans m !! ch = Some c → closed c = false →
      leaveStep m (set_leave (set_chan m ch (MkChan (buf c) true (last c))) (LClose todo))
  | leave_close_closed m ch todo c :
      m_leave m = LClose (ch :: todo) → m_chans m !! ch = Some c → closed c = true →
      leaveStep m (panics m)
  | leave_unlock m :
      m_leave m = LClose [] →
      leaveStep m (set_leave (set_mu (set_subs m [] (m_chans m) true) None) LEnd).

Inductive mstep : mstate → mstate → Prop :=
  | mstep_watch m m' : watchStep m m' → mstep m m'
  | mstep_forward m m' : forwardStep m m' → mstep m m'
  | mstep_leave m m' : leaveStep m m' → mstep m m'
  | mstep_members m :                                (* a new subscriber *)
      m_mu m = None → mstep m (Members_ m).2
  | mstep_receive m ch c peers :                     (* a subscriber reads *)
      m_chans m !! ch = Some c → buf c = Some peers →
      mstep m (set_chan m ch (MkChan None (closed c) (last c)))
  | mstep_node m v :                                 (* another node joins, leaves or updates *)
      mstep m (set_view m v (m_events m + 1) (m_signals m))
  | mstep_record m v :           (* NotifyMsg, MergeRemoteState or Revoke changes the set *)
      mstep m (set_view m v (m_events m) (m_signals m + 1))
  | mstep_signal m :                                 (* and signals it *)
      0 < m_signals m → mstep m (signal (set_view m (m_view m) (m_events m) (m_signals m - 1)))
  | mstep_unsignalled m v :      (* admit or RevokeSelf changes the set, and does not signal *)
      mstep m (set_unsignalled m v true).

(** [New] starts [forwardEvents] and [watch]. *)
Definition minit (v : View) : mstate :=
  MkM v 0 0 false false false None [] [] WSelect FSelect LNone false false.

Definition mreachable (v : View) (m : mstate) : Prop := rtc mstep (minit v) m.
End Members.
