(* ===== verification/MembersProps.v ===== *)
(** * MembersProps: what subscribers of the membership can rely on

    Nothing is ever sent on a closed channel or closed twice, [watch] never
    blocks on a subscriber, every subscriber ends up with the snapshot of the
    current membership, and Leave closes every channel. *)

From S2P Require Import Prelude Netip State Members.

#[local] Open Scope nat_scope.

Section Props.
Context {View : Type} (snapshot : View → list Node).
Implicit Types (m : @mstate View).

(** The channels that are still open, in the order they will be closed. *)
Definition open_chans m : list nat :=
  match m_leave m with LClose todo => todo | LEnd => [] | _ => m_subs m end.

Definition leaving m : Prop :=
  match m_leave m with LLock | LClose _ | LEnd => True | _ => False end.

(** ** Who is where *)

Record placed m : Prop := {
  pl_panic : m_panic m = false;
  pl_left : m_left m = true ↔ m_leave m = LEnd;
  pl_exited : leaving m → m_watch m = WExited ∧ m_forward m = FExited;
  pl_watch : m_mu m = Some ByWatch ↔
    match m_watch m with WDrain _ _ | WSend _ _ _ => True | _ => False end;
  pl_leave : m_mu m = Some ByLeave ↔ match m_leave m with LClose _ => True | _ => False end;
}.

(** ** The channels *)

(** What [watch] still has to do is a tail of the channels. *)
Definition watch_todo m : list nat :=
  match m_watch m with WDrain _ todo => todo | WSend _ ch todo => ch :: todo | _ => [] end.

Record wired m : Prop := {
  wi_nodup : NoDup (m_subs m);
  wi_subs ch : ch ∈ m_subs m → ch < length (m_chans m);
  wi_open ch c : m_chans m !! ch = Some c → (closed c = false ↔ ch ∈ open_chans m);
  wi_close : open_chans m ⊆ m_subs m ∧ NoDup (open_chans m);
  wi_todo : watch_todo m ⊆ m_subs m ∧ NoDup (watch_todo m);
  wi_send peers ch todo c : m_watch m = WSend peers ch todo → m_chans m !! ch = Some c → buf c = None;
  wi_last ch c peers : m_chans m !! ch = Some c → buf c = Some peers → last c = Some peers;
}.

(** ** The latest snapshot *)

Definition sent m (ch : nat) (peers : list Node) : Prop :=
  ∃ c, m_chans m !! ch = Some c ∧ last c = Some peers.

(** The snapshot of the membership now, unless the set changed without a signal. *)
Definition fresh m (peers : list Node) : Prop :=
  m_unsignalled m = false → peers = snapshot (m_view m).

Definition current m : Prop :=
  ¬ pending m →
  match m_watch m with
  | WSelect => ∃ peers, fresh m peers ∧ ∀ ch, ch ∈ m_subs m → sent m ch peers
  | WSave peers | WLock peers => fresh m peers
  | WDrain peers _ | WSend peers _ _ =>
      fresh m peers ∧ ∀ ch, ch ∈ m_subs m → ch ∉ watch_todo m → sent m ch peers
  | WSnapshot | WExited => True
  end.

Lemma placed_init v : placed (minit v).
Proof. split; cbn; try done; naive_solver. Qed.
Lemma wired_init v : wired (minit v).
Proof. split; cbn; try done; try (split; [done|]); try apply NoDup_nil_2; by intros ? ?%elem_of_nil. Qed.
Lemma current_init v : current (minit v).
Proof. intros _. cbn. exists (snapshot v). split; [done|]. by intros ch ?%elem_of_nil. Qed.

(** A channel changed in place. *)
Lemma set_chan_lookup m ch c ch' :
  ch < length (m_chans m) →
  m_chans (set_chan m ch c) !! ch' = if decide (ch' = ch) then Some c else m_chans m !! ch'.
Proof.
  intros H. cbn. case_decide as E; [subst; by apply list_lookup_insert_eq|by apply list_lookup_insert_ne].
Qed.

Lemma open_watch m : placed m → m_watch m ≠ WExited → open_chans m = m_subs m.
Proof.
  intros [_ _ He _ _] Hw. unfold open_chans, leaving in *.
  destruct (m_leave m); try done; destruct He as [? _]; done.
Qed.

Lemma placed_step m m' : mstep snapshot m m' → placed m → wired m → placed m'.
Proof.
  intros Hs Hp Hw. pose proof Hp as [Hpan Hleft Hex Hmw Hml].
  destruct Hs as [m m' Hs|m m' Hs|m m' Hs| | | | | |].
  - assert (Hno : m_watch m ≠ WExited → ¬ leaving m).
    { intros Hne Hl. by destruct (Hex Hl). }
    destruct Hs as [m E Hd|m E Hc|m peers E Hc|m peers E|m peers E Hmu|m peers ch todo c E Hc|m peers ch todo c E Hc Ho Hb|m peers ch todo c E Hc Ho|m peers E];
      rewrite E in *; unfold leaving in *;
      try (split; cbn; rewrite ?Hmu in *; try done; try (intros; exfalso; by apply Hno); intuition congruence).
    exfalso. assert (Hin : ch ∈ open_chans m).
    { rewrite open_watch by (done || congruence). apply (wi_todo _ Hw). unfold watch_todo. rewrite E. left. }
    apply (wi_open _ Hw ch c Hc) in Hin. congruence.
  - destruct Hs as [m E Hd|m E He|m E]; unfold leaving in *;
      (split; cbn; try done; intros Hl; destruct (Hex Hl); congruence).
  - assert (Hex' : leaving m → m_mu m ≠ Some ByWatch).
    { intros Hl Hmu. apply Hmw in Hmu. destruct (Hex Hl) as [E _]. by rewrite E in Hmu. }
    destruct Hs as [m E|m E|m E|m E|m E Ew Ef|m E Hmu|m ch todo c E Hc Ho|m ch todo c E Hc Ho|m E];
      unfold leaving in *; rewrite E in *;
      try (split; cbn; rewrite ?Hmu in *; try done; intuition congruence).
    exfalso. assert (Hin : ch ∈ open_chans m) by (unfold open_chans; rewrite E; left).
    apply (wi_open _ Hw ch c Hc) in Hin. congruence.
  - unfold Members_. destruct (m_left m) eqn:El; (split; cbn; rewrite ?El; done).
  - by split.
  - by split.
  - by split.
  - by split.
  - by split.
Qed.

(** A step that leaves the channels alone keeps them wired, if what is still
    to be done only shrinks. *)
Lemma wired_same m m' :
  m_subs m' = m_subs m → m_chans m' = m_chans m → open_chans m' = open_chans m →
  watch_todo m' ⊆ m_subs m ∧ NoDup (watch_todo m') →
  (∀ peers ch todo, m_watch m' = WSend peers ch todo → m_watch m = WSend peers ch todo) →
  wired m → wired m'.
Proof.
  intros Hs Hc Ho Ht Hsend [H1 H2 H3 H4 H5 H6 H7].
  split; rewrite ?Hs, ?Hc, ?Ho; auto. intros peers ch todo c E. eapply H6; eauto.
Qed.

(** One channel changes; its closed flag and place in the order may, too. *)
Lemma wired_chan m m' ch c0 c1 :
  m_subs m' = m_subs m → m_chans m !! ch = Some c0 → m_chans m' = <[ch := c1]> (m_chans m) →
  (∀ ch', ch' ≠ ch → ch' ∈ open_chans m' ↔ ch' ∈ open_chans m) →
  (closed c1 = false ↔ ch ∈ open_chans m') →
  open_chans m' ⊆ m_subs m ∧ NoDup (open_chans m') →
  watch_todo m' ⊆ m_subs m ∧ NoDup (watch_todo m') →
  (∀ peers ch' todo, m_watch m' = WSend peers ch' todo →
    ch' = ch ∧ buf c1 = None ∨ m_watch m = WSend peers ch' todo ∧ (ch' = ch → buf c1 = None)) →
  (∀ peers, buf c1 = Some peers → last c1 = Some peers) →
  wired m → wired m'.
Proof.
  intros Hs Hc0 Hc Ho Hcl Hsub Ht Hsend Hlast [H1 H2 H3 H4 H5 H6 H7].
  assert (Hlen : ch < length (m_chans m)) by by eapply lookup_lt_Some.
  assert (Hl : ∀ ch' c, m_chans m' !! ch' = Some c → ch' = ch ∧ c = c1 ∨ ch' ≠ ch ∧ m_chans m !! ch' = Some c).
  { intros ch' c. rewrite Hc. destruct (decide (ch' = ch)) as [->|Hne].
    - rewrite list_lookup_insert_eq by done. intros [= <-]. by left.
    - rewrite list_lookup_insert_ne by done. by right. }
  split; rewrite ?Hs; auto.
  - rewrite Hc, length_insert. exact H2.
  - intros ch' c [[-> ->]|[Hne Hch]]%Hl; [done|]. rewrite Ho by done. by apply H3.
  - intros peers ch' todo c Ew [[-> ->]|[Hne Hch]]%Hl.
    + destruct (Hsend _ _ _ Ew) as [[_ ?]|[_ ?]]; auto.
    + destruct (Hsend _ _ _ Ew) as [[-> _]|[Ew' _]]; [done|]. by eapply H6.
  - intros ch' c peers [[-> ->]|[Hne Hch]]%Hl; [apply Hlast|by eapply H7].
Qed.

Lemma wired_step m m' : mstep snapshot m m' → placed m → wired m → wired m'.
Proof.
  intros Hs Hp Hw. pose proof Hw as [H1 H2 H3 H4 H5 H6 H7].
  destruct Hs as [m m' Hs|m m' Hs|m m' Hs|m Hmu|m ch c peers Hc Hb|m v|m v|m Hsig|m v].
  - destruct Hs as [m E Hd|m E Hc|m peers E Hc|m peers E|m peers E Hmu|m peers ch todo c E Hc|m peers ch todo c E Hc Ho Hb|m peers ch todo c E Hc Ho|m peers E];
      try (apply (wired_same m); cbn; unfold watch_todo; cbn; try done; split; [set_solver|apply NoDup_nil_2]).
    + apply (wired_same m); cbn; try done.
    + unfold watch_todo in H5. rewrite E in H5.
      apply (wired_chan m _ ch c (MkChan None (closed c) (last c))); unfold watch_todo; cbn; try done.
      * exact (H3 ch c Hc).
      * intros peers' ch' todo' [= <- <- <-]. by left.
    + unfold watch_todo in H5. rewrite E in H5. destruct H5 as [H5 H5'].
      assert (Hopen : open_chans (set_watch (set_chan m ch (MkChan (Some peers) false (Some peers))) (WDrain peers todo)) = open_chans m) by done.
      apply (wired_chan m _ ch c (MkChan (Some peers) false (Some peers))); rewrite ?Hopen; unfold watch_todo; cbn; try done.
      * rewrite <- (H3 ch c Hc). by rewrite Ho.
      * split; [set_solver|by apply NoDup_cons in H5' as [_ ?]].
    + by apply (wired_same m).
  - destruct Hs as [m E Hd|m E He|m E]; by apply (wired_same m).
  - destruct Hs as [m E|m E|m E|m E|m E Ew Ef|m E Hmu|m ch todo c E Hc Ho|m ch todo c E Hc Ho|m E];
      try (apply (wired_same m); unfold open_chans; cbn; rewrite ?E; done).
    + assert (Hopen : open_chans m = ch :: todo) by (unfold open_chans; by rewrite E).
      rewrite Hopen in *. destruct H4 as [H4 H4']. apply NoDup_cons in H4' as [Hnot H4'].
      apply (wired_chan m _ ch c (MkChan (buf c) true (last c))); rewrite ?Hopen; unfold open_chans; cbn; try done.
      * intros ch' Hne. set_solver.
      * split; [set_solver|done].
      * intros peers' ch' todo' Ew. right. split; [exact Ew|]. intros ->. by eapply H6.
      * intros peers' Hbuf. by eapply H7.
    + assert (Hopen : open_chans m = []) by (unfold open_chans; by rewrite E).
      assert (Hexit : m_watch m = WExited) by (apply (pl_exited _ Hp); unfold leaving; by rewrite E).
      rewrite Hopen in *. split; unfold watch_todo, open_chans; cbn; rewrite ?Hexit; auto using NoDup_nil_2.
      * by intros ch ?%elem_of_nil.
      * done.
  - unfold Members_. destruct (m_left m) eqn:El.
    + apply (pl_left _ Hp) in El as E. assert (Hopen : open_chans m = []) by (unfold open_chans; by rewrite E).
      assert (Hexit : m_watch m = WExited) by (apply (pl_exited _ Hp); unfold leaving; by rewrite E).
      rewrite Hopen in *.
      split; unfold watch_todo, open_chans; cbn; rewrite ?E, ?Hexit; auto using NoDup_nil_2.
      * intros ch Hch. rewrite length_app. cbn. specialize (H2 ch Hch). lia.
      * intros ch c Hch. apply lookup_snoc_Some in Hch as [[_ Hch]|[_ <-]]; [by apply H3|].
        split; [done|by intros ?%elem_of_nil].
      * done.
      * intros ch c peers Hch. apply lookup_snoc_Some in Hch as [[_ Hch]|[_ <-]]; [by eapply H7|done].
    + assert (Hleft : m_leave m ≠ LEnd) by (intros E; apply (pl_left _ Hp) in E; congruence).
      assert (Hlock : ∀ todo, m_leave m ≠ LClose todo).
      { intros todo E. pose proof (pl_leave _ Hp) as Hl. rewrite E in Hl. rewrite (proj2 Hl I) in Hmu. done. }
      assert (Hopen : open_chans m = m_subs m) by (unfold open_chans; by destruct (m_leave m); try done; edestruct Hlock).
      set (n := length (m_chans m)).
      set (m' := signal (set_subs m (m_subs m ++ [n]) (m_chans m ++ [MkChan None false None]) false)).
      assert (Hopen' : open_chans m' = m_subs m ++ [n]).
      { unfold open_chans. cbn. by destruct (m_leave m); try done; edestruct Hlock. }
      assert (Hfresh : n ∉ m_subs m) by (intros Hn%H2; unfold n in Hn; lia).
      assert (Hnd : NoDup (m_subs m ++ [n])).
      { apply NoDup_app. split_and!; [done| |apply NoDup_singleton].
        intros x Hx ->%list_elem_of_singleton. done. }
      change (wired m'). split; rewrite ?Hopen'; cbn.
      * exact Hnd.
      * intros ch. rewrite length_app, elem_of_app, list_elem_of_singleton. cbn.
        intros [Hch%H2| ->]; [lia|unfold n; lia].
      * intros ch c Hch. rewrite elem_of_app, list_elem_of_singleton.
        apply lookup_snoc_Some in Hch as [[Hlt Hch]|[-> <-]].
        -- rewrite (H3 ch c Hch), Hopen. split; [by left|]. intros [?| ->]; [done|]. unfold n in Hlt. lia.
        -- split; [by right|done].
      * split; [done|exact Hnd].
      * destruct H5 as [H5 H5']. split; [|exact H5']. unfold watch_todo in *. cbn in *. set_solver.
      * intros peers ch todo c Ew Hch. apply lookup_snoc_Some in Hch as [[_ Hch]|[_ <-]]; [by eapply H6|done].
      * intros ch c peers Hch. apply lookup_snoc_Some in Hch as [[_ Hch]|[_ <-]]; [by eapply H7|done].
  - apply (wired_chan m _ ch c (MkChan None (closed c) (last c))); cbn; try done.
    + exact (H3 ch c Hc).
    + intros. by right.
  - by apply (wired_same m).
  - by apply (wired_same m).
  - by apply (wired_same m).
  - by apply (wired_same m).
Qed.

Lemma sent_chan m m' ch c0 c1 ch' peers :
  m_chans m !! ch = Some c0 → m_chans m' = <[ch := c1]> (m_chans m) → last c1 = last c0 →
  sent m ch' peers → sent m' ch' peers.
Proof.
  intros Hc0 Hc Hl (c & Hch & Hlast). unfold sent. rewrite Hc.
  assert (ch < length (m_chans m)) by by eapply lookup_lt_Some.
  destruct (decide (ch' = ch)) as [->|Hne].
  - exists c1. rewrite list_lookup_insert_eq by done. split; [done|congruence].
  - exists c. by rewrite list_lookup_insert_ne.
Qed.

(** A step that leaves the watch loop where it is, and what was sent. *)
Lemma current_same m m' :
  (pending m → pending m') → (∀ peers, fresh m peers → fresh m' peers) →
  m_watch m' = m_watch m → m_subs m' = m_subs m →
  (∀ ch peers, sent m ch peers → sent m' ch peers) → current m → current m'.
Proof.
  intros Hst Hv Hw Hs Hsent Hc Hn. assert (Hn' : ¬ pending m) by auto. specialize (Hc Hn').
  rewrite Hw, Hs. unfold watch_todo in *. rewrite Hw. destruct (m_watch m); auto; naive_solver.
Qed.

(** A step after which [watch] has a change to hear of. *)
Lemma current_pending m : pending m → current m.
Proof. by intros Hp Hn. Qed.

Lemma current_watch m m' : watchStep snapshot m m' → current m → current m'.
Proof.
  intros Hs Hcur.
  destruct Hs as [m E Hd|m E Hc|m peers E Hc|m peers E|m peers E Hmu|m peers ch todo c E Hc|m peers ch todo c E Hc Ho Hb|m peers ch todo c E Hc Ho|m peers E];
    intros Hn; unfold current, watch_todo in Hcur; rewrite E in Hcur; unfold watch_todo; cbn; try done.
  - intros Hq. cbn in Hq. destruct Hc as [Hc|[Hc|Hc]]; [done|by destruct Hn|congruence].
  - by apply Hcur.
  - split; [by apply Hcur|]. done.
  - destruct (Hcur Hn) as [Hf Hs]. split; [exact Hf|]. intros ch' Hin Hout.
    by eapply (sent_chan m); [done|done| |apply Hs].
  - destruct (Hcur Hn) as [Hf Hs]. split; [exact Hf|]. intros ch' Hin Hout.
    assert (Hlt : ch < length (m_chans m)) by by eapply lookup_lt_Some.
    destruct (decide (ch' = ch)) as [->|Hne].
    + eexists. cbn. rewrite list_lookup_insert_eq by done. by split.
    + destruct (Hs ch' Hin) as (c' & Hc' & Hl'); [by rewrite not_elem_of_cons|].
      exists c'. cbn. by rewrite list_lookup_insert_ne.
  - destruct (Hcur Hn) as [Hf Hs]. rewrite E. by split.
  - destruct (Hcur Hn) as [Hf Hs]. exists peers. split; [exact Hf|]. intros ch Hin.
    destruct (Hs ch Hin ltac:(by intros ?%elem_of_nil)) as (c & ? & ?). by exists c.
Qed.

Lemma current_step m m' : mstep snapshot m m' → placed m → wired m → current m → current m'.
Proof.
  intros Hs Hp Hw Hcur.
  destruct Hs as [m m' Hs|m m' Hs|m m' Hs|m Hmu|m ch c peers Hc Hb|m v|m v|m Hsig|m v].
  - by eapply current_watch.
  - destruct Hs as [m E Hd|m E He|m E].
    + revert Hcur. apply current_same; try done. unfold pending. cbn. rewrite E. naive_solver.
    + apply current_pending. unfold pending. cbn. auto.
    + apply current_pending. unfold pending. cbn. auto.
  - destruct Hs as [m E|m E|m E|m E|m E Ew Ef|m E Hmu|m ch todo c E Hc Ho|m ch todo c E Hc Ho|m E];
      try (revert Hcur; by apply current_same).
    + revert Hcur. apply current_same; try done. intros ch' peers. by eapply (sent_chan m).
    + assert (Hexit : m_watch m = WExited) by (apply (pl_exited _ Hp); unfold leaving; by rewrite E).
      intros _. cbn. by rewrite Hexit.
  - unfold Members_. destruct (m_left m) eqn:El.
    + revert Hcur. apply current_same; try done. intros ch peers (c & Hch & Hl). exists c. cbn.
      split; [|done]. by apply lookup_app_l_Some.
    + apply current_pending. unfold pending. cbn. auto.
  - revert Hcur. apply current_same; try done. intros ch' peers'. by eapply (sent_chan m).
  - apply current_pending. unfold pending. cbn. right; left. lia.
  - apply current_pending. unfold pending. cbn. right; right; left. lia.
  - apply current_pending. unfold pending. cbn. auto.
  - revert Hcur. apply current_same; try done.
Qed.

Lemma mreachable_inv v m : mreachable snapshot v m → placed m ∧ wired m ∧ current m.
Proof.
  intros Hr. assert (Hinit : placed (minit v) ∧ wired (minit v) ∧ current (minit v)).
  { split_and!; [apply placed_init|apply wired_init|apply current_init]. }
  revert Hinit. induction Hr as [|m1 m2 m3 Hs _ IH]; [done|].
  intros (Hp & Hw & Hc). apply IH.
  split_and!; [by eapply placed_step|by eapply wired_step|by eapply current_step].
Qed.

(** C8: whatever subscribers, members and Leave do and however they interleave,
    nothing is sent on a closed channel and no channel closed twice, and when
    [watch] is about to send, the channel is open and its slot is free, so it
    waits for no subscriber. *)
Theorem members_safe v m :
  mreachable snapshot v m →
  m_panic m = false ∧
  ∀ peers ch todo c, m_watch m = WSend peers ch todo → m_chans m !! ch = Some c →
    closed c = false ∧ buf c = None.
Proof.
  intros (Hp & Hw & _)%mreachable_inv. split; [apply Hp|]. intros peers ch todo c E Hc. split.
  - apply (wi_open _ Hw ch c Hc). rewrite (open_watch m Hp) by congruence.
    apply (wi_todo _ Hw). unfold watch_todo. rewrite E. left.
  - by eapply (wi_send _ Hw).
Qed.

(** C26: when [watch] has come to rest, with no signal, event or change that is
    to be signalled left to take in, every subscriber's channel is open and has
    been sent the same snapshot last, which is still to be read or was read
    last; and that is the snapshot of the current membership, unless an
    admission or a revocation of this node itself, the two changes that are not
    signalled, has changed the record set since [watch] began it. *)
Theorem members_latest v m :
  mreachable snapshot v m → ¬ pending m → m_watch m = WSelect →
  ∃ peers,
    (∀ ch, ch ∈ m_subs m → ∃ c, m_chans m !! ch = Some c ∧ closed c = false ∧
       last c = Some peers ∧ (buf c = None ∨ buf c = Some peers)) ∧
    (m_unsignalled m = false → peers = snapshot (m_view m)).
Proof.
  intros (Hp & Hw & Hc)%mreachable_inv Hn E. specialize (Hc Hn). rewrite E in Hc.
  destruct Hc as (peers & Hf & Hs). exists peers. split; [|exact Hf].
  intros ch Hin. destruct (Hs ch Hin) as (c & Hch & Hl). exists c. split_and!; [done| |done|].
  - apply (wi_open _ Hw ch c Hch). rewrite (open_watch m Hp); [done|congruence].
  - destruct (buf c) as [peers'|] eqn:Eb; [|by left]. right.
    pose proof (wi_last _ Hw ch c peers' Hch Eb). congruence.
Qed.

(** After Leave has returned every channel [Members] ever returned is closed,
    and so is one asked for then. *)
Theorem leave_closes v m :
  mreachable snapshot v m → m_leave m = LEnd →
  (∀ ch c, m_chans m !! ch = Some c → closed c = true) ∧
  m_chans (Members_ m).2 !! (Members_ m).1 = Some (MkChan None true None).
Proof.
  intros (Hp & Hw & _)%mreachable_inv E. split.
  - intros ch c Hc. destruct (closed c) eqn:Ec; [done|]. apply (wi_open _ Hw ch c Hc) in Ec.
    unfold open_chans in Ec. rewrite E in Ec. by apply elem_of_nil in Ec.
  - unfold Members_. rewrite (proj2 (pl_left _ Hp) E). cbn.
    by rewrite lookup_app_r, Nat.sub_diag by lia.
Qed.
End Props.

(** ** Examples: one subscriber, one snapshot, and a leave *)

Definition seen (v : list Node) : list Node := v.

Definition demo_sent : @mstate (list Node) :=
  MkM [] 0 0 false false false None [0] [MkChan (Some []) false (Some [])] WSelect FSelect LNone false false.
Definition demo_sending : @mstate (list Node) :=
  MkM [] 0 0 false false false (Some ByWatch) [0] [MkChan None false None] (WSend [] 0 []) FSelect LNone false false.
Definition demo_left : @mstate (list Node) :=
  MkM [] 0 0 false true true None [] [MkChan (Some []) true (Some [])] WExited FExited LEnd false false.

Lemma demo_sending_reachable : mreachable seen [] demo_sending.
Proof.
  eapply rtc_l; [by apply mstep_members|].
  eapply rtc_l; [apply mstep_watch; by apply watch_changed|].
  eapply rtc_l; [apply mstep_watch; apply (watch_snapshot _ _ []); [done|by left]|].
  eapply rtc_l; [apply mstep_watch; by apply watch_save|].
  eapply rtc_l; [apply mstep_watch; by apply watch_lock|].
  eapply rtc_l; [apply mstep_watch; by apply watch_drain|]. apply rtc_refl.
Qed.

Lemma demo_sent_reachable : mreachable seen [] demo_sent.
Proof.
  unfold mreachable. transitivity demo_sending; [apply demo_sending_reachable|].
  eapply rtc_l; [apply mstep_watch; by eapply watch_send|].
  eapply rtc_l; [apply mstep_watch; by eapply watch_unlock|]. apply rtc_refl.
Qed.

Lemma demo_left_reachable : mreachable seen [] demo_left.
Proof.
  unfold mreachable. transitivity demo_sent; [apply demo_sent_reachable|].
  eapply rtc_l; [apply mstep_leave; by apply leave_call|].
  eapply rtc_l; [apply mstep_leave; by apply leave_persist|].
  eapply rtc_l; [apply mstep_leave; by apply leave_memberlist|].
  eapply rtc_l; [apply mstep_leave; by apply leave_done|].
  eapply rtc_l; [apply mstep_watch; by apply watch_done|].
  eapply rtc_l; [apply mstep_forward; by apply forward_done|].
  eapply rtc_l; [apply mstep_leave; by apply leave_wait|].
  eapply rtc_l; [apply mstep_leave; by apply leave_lock|].
  eapply rtc_l; [apply mstep_leave; by apply leave_close|].
  eapply rtc_l; [apply mstep_leave; by apply leave_unlock|]. apply rtc_refl.
Qed.

Lemma members_safe_witness : m_watch demo_sending = WSend [] 0 [] ∧ m_panic demo_sending = false.
Proof. split; [done|]. exact (proj1 (members_safe seen [] demo_sending demo_sending_reachable)). Defined.

Lemma demo_sent_rests : ¬ pending demo_sent.
Proof. unfold pending. cbn. intros [?|[?|[?|?]]]; (done || lia). Qed.

Lemma members_latest_witness :
  ∃ c, m_chans demo_sent !! 0 = Some c ∧ last c = Some (seen (m_view demo_sent)).
Proof.
  destruct (members_latest seen [] demo_sent demo_sent_reachable demo_sent_rests eq_refl) as (peers & Hs & Hf).
  destruct (Hs 0) as (c & H1 & _ & H2 & _); [left|]. exists c. split; [done|]. by rewrite H2, Hf.
Defined.

(** An admission by this node, or its revocation of itself, that alters what a
    snapshot is leaves the subscribers with the old one until something else
    is signalled. *)
Example unsignalled_change (n : Node) :
  ∃ m, mreachable seen [] m ∧ ¬ pending m ∧ m_watch m = WSelect ∧
    (∃ c, m_chans m !! 0 = Some c ∧ last c = Some []) ∧ seen (m_view m) = [n].
Proof.
  exists (set_unsignalled demo_sent [n] true). split_and!.
  - eapply rtc_r; [apply demo_sent_reachable|apply mstep_unsignalled].
  - exact demo_sent_rests.
  - done.
  - by eexists.
  - done.
Qed.

Lemma leave_closes_witness :
  ∀ ch c, m_chans demo_left !! ch = Some c → closed c = true.
Proof. exact (proj1 (leave_closes seen [] demo_left demo_left_reachable eq_refl)). Defined.
