(* ===== verification/Agent.v ===== *)
(** * Agent: the daemon (internal/cli/agent.go, agent_loop.go, settings.go)

    The checks on the settings, the choice of the overlay network, how a node
    becomes a member before it joins, and the loop that applies membership
    snapshots to WireGuard and the hosts file. Calls into the cluster, the
    interface and the hosts file are events of a program. *)

From S2P Require Import Prelude Netip Overlay Identity Records State GoNet GoStrings Prog Enrol Hosts.

(** ** Settings *)

Record settings := MkSettings {
  s_Join : list bytes;
  s_BindAddr : Addr;
  s_ClusterPort : Z;
  s_WireguardPort : Z;
  s_OverlayNet : Prefix;
  s_AllowedIPs : list Prefix;
  s_Interface : bytes;
  s_MTU : Z;
  s_PersistentKeepalive : Z;      (* a time.Duration: nanoseconds *)
  s_NoEtcHosts : bool;
  s_Userspace : bool;
  s_ControlSocket : bytes;
}.

Definition Second : Z := 1000000000.

Definition DefaultOverlayNet : Prefix := MkPrefix (A4 0x0A000000) 8.   (* 10.0.0.0/8 *)

Definition set_OverlayNet (s : settings) (p : Prefix) : settings :=
  MkSettings (s_Join s) (s_BindAddr s) (s_ClusterPort s) (s_WireguardPort s) p (s_AllowedIPs s)
    (s_Interface s) (s_MTU s) (s_PersistentKeepalive s) (s_NoEtcHosts s) (s_Userspace s) (s_ControlSocket s).

Fixpoint no_overlap (overlayNet : Prefix) (allowedIPs : list Prefix) : result unit :=
  match allowedIPs with
  | [] => Ok ()
  | p :: ps =>
      if Overlaps p overlayNet then Err "--allowed-ips overlaps the overlay network"
      else no_overlap overlayNet ps
  end.

Definition checkOverlayNet (overlayNet : Prefix) (allowedIPs : list Prefix) : result unit :=
  if MaxHost overlayNet <? 2 then Err "overlay network has no room for two nodes"
  else no_overlap overlayNet allowedIPs.

Definition settings_check (s : settings) : result unit :=
  match
    if Prefix_IsValid (s_OverlayNet s) then checkOverlayNet (Masked (s_OverlayNet s)) (s_AllowedIPs s)
    else Ok ()
  with
  | Err e => Err e
  | Ok _ =>
      if (s_MTU s <? 576) || (65535 <? s_MTU s) then Err "unsupported MTU"
      else
        let ka := s_PersistentKeepalive s in
        if negb (ka =? 0) && ((ka <? Second) || (65535 * Second <? ka) || negb (Z.rem ka Second =? 0)) then
          Err "unsupported persistent keepalive"
        else Ok ()
  end.

Definition Validate (s : settings) (JoinKey : bytes) : result unit :=
  if negb (bool_decide (JoinKey = [])) && bool_decide (s_Join s = []) then
    Err "--join-key needs --join to say which member to enrol with"
  else settings_check s.

(** [settleOverlayNet]: what it returns and what it leaves in [a.OverlayNet]. *)
Definition settleOverlayNet (s : settings) (clusterNet : Prefix) : result unit * settings :=
  let net :=
    if negb (Prefix_IsValid (s_OverlayNet s)) && Prefix_IsValid clusterNet then clusterNet
    else if negb (Prefix_IsValid (s_OverlayNet s)) then DefaultOverlayNet
    else Masked (s_OverlayNet s) in
  let s := set_OverlayNet s net in
  (checkOverlayNet (s_OverlayNet s) (s_AllowedIPs s), s).

Definition masked (prefixes : list Prefix) : list Prefix := map Masked prefixes.

(** ** Becoming a member *)

Definition enrolAddrs (s : settings) : list bytes :=
  map (λ host, if is_ok (SplitHostPort host) then host else JoinHostPort host (Itoa (s_ClusterPort s)))
    (s_Join s).

(** [cluster.withPort], and the addresses [Cluster.Join] tries. *)
Definition withPort (addrs : list bytes) (port : Z) : list bytes :=
  map (λ a, if is_ok (SplitHostPort a) then a else JoinHostPort (TrimBrackets a) (Itoa port)) addrs.
Definition Join_addrs (boot : Bootstrap) (port : Z) (addrs : list bytes) : list bytes :=
  withPort (if decide (addrs = []) then map GossipAddr (b_Peers boot) else addrs) port.

(** [AgentCmd.enrol]: each address in turn. [attempt] is [cluster.Enrol],
    which talks to the member at that address. *)
Fixpoint enrol_with (attempt : bytes → result (Welcome * PublicKey)) (addrs : list bytes)
    (lastErr : result (option Welcome)) : result (option Welcome) :=
  match addrs with
  | [] => lastErr
  | addr :: addrs =>
      match attempt addr with
      | Ok (w, _) => Ok (Some w)
      | Err e => enrol_with attempt addrs (Err e)
      end
  end.
(** With no address at all there is neither a welcome nor an error. *)
Definition agent_enrol (s : settings) (attempt : bytes → result (Welcome * PublicKey)) : result (option Welcome) :=
  enrol_with attempt (enrolAddrs s) (Ok None).

(** [bootstrap]: the addresses to join, and the membership it leaves. The
    answer is missing where the source dereferences a nil welcome. *)
Definition bootstrap `{!Ed25519} (s : settings) (JoinKey : bytes) (boot : Bootstrap) (hostname : bytes)
    (now : Z) (attempt : bytes → result (Welcome * PublicKey)) : option (result (list bytes) * Bootstrap) :=
  if Enrolled boot then Some (Ok (s_Join s), boot)
  else if negb (bool_decide (JoinKey = [])) then
    match agent_enrol s attempt with
    | Err e => Some (Err e, boot)
    | Ok None => None
    | Ok (Some w) => Some (Ok [w_GossipAddr w], boot_Enrol boot (w_Root w) (w_Records w) (w_OverlayNet w))
    end
  else if Prefix_IsValid (s_OverlayNet s) then Some (Ok (s_Join s), InitRoot boot hostname now)
  else Some (Ok [], boot).

(** ** Applying a snapshot *)

(** The routes of one node, and which node each network is routed by. *)
Fixpoint keep_routes (overlayNet : Prefix) (name : bytes) (routedBy : gmap Prefix bytes)
    (ps : list Prefix) : list Prefix * gmap Prefix bytes :=
  match ps with
  | [] => ([], routedBy)
  | p :: ps =>
      if Overlaps p overlayNet then keep_routes overlayNet name routedBy ps
      else match routedBy !! p with
           | Some _ => keep_routes overlayNet name routedBy ps
           | None =>
               let '(routes, routedBy) := keep_routes overlayNet name (<[p := name]> routedBy) ps in
               (p :: routes, routedBy)
           end
  end.

Definition with_routes (n : Node) (routes : list Prefix) : Node :=
  let m := n_Meta n in
  MkNode (n_Name n) (n_Addr n) (n_Port n)
    (MkMeta (m_OverlayAddr m) (m_PubKey m) routes (m_Identity m) (m_Signature m)).

Fixpoint resolve (overlayNet : Prefix) (routedBy : gmap Prefix bytes) (peers : list Node) : list Node :=
  match peers with
  | [] => []
  | n :: peers =>
      let '(routes, routedBy) := keep_routes overlayNet (n_Name n) routedBy (m_AllowedIPs (n_Meta n)) in
      with_routes n routes :: resolve overlayNet routedBy peers
  end.

(** [slices.SortFunc] by name; names are unique in a snapshot, so there is one
    sorted order. *)
Definition name_le (x y : Node) : Prop := bytes_ltb (n_Name y) (n_Name x) = false.
#[export] Instance name_le_dec x y : Decision (name_le x y).
Proof. unfold name_le. apply _. Defined.

Definition resolved (s : settings) (peers : list Node) : list Node :=
  resolve (s_OverlayNet s) ∅ (merge_sort name_le peers).

Definition hostEntries (peers : list Node) : entries :=
  list_to_map (reverse (map (λ n, (Addr_String (m_OverlayAddr (n_Meta n)), [n_Name n])) peers)).

(** ** The loop *)

Inductive agentE : Type → Type :=
  | SetUp (peers : list Node) : agentE bool             (* wgstate.SetUpInterface *)
  | Down : agentE bool                                  (* wgstate.DownInterface *)
  | WriteHosts (m : entries) : agentE bool              (* hosts.WriteEntries *)
  | Ready (peers : nat) : agentE bool                   (* to the service manager *)
  | Status (peers : nat) : agentE bool
  | Stopping : agentE bool
  | Leave : agentE unit.                                (* cl.Leave *)

(** What the loop waits for. *)
Inductive input :=
  | Peers (peers : list Node)
  | ChannelClosed
  | CtxDone.

Section Loop.
Local Open Scope prog_scope.
Variable s : settings.

Definition apply_ (peers : list Node) : prog agentE nat :=
  let peers := resolved s peers in
  let* ok := trigger (SetUp peers) in
  let* _ := if (ok : bool) then Ret true else trigger Down in
  let* _ := if s_NoEtcHosts s then Ret true else trigger (WriteHosts (hostEntries peers)) in
  Ret (length peers).

(** No answer when the inputs run out: the loop goes on waiting. *)
Fixpoint loop (first : bool) (inputs : list input) : prog agentE (option (result unit)) :=
  match inputs with
  | [] => Ret None
  | Peers peers :: inputs =>
      let* n := apply_ peers in
      let* _ := if first then trigger (Ready n) else trigger (Status n) in
      loop false inputs
  | ChannelClosed :: _ => Ret (Some (Err "cluster membership channel closed"))
  | CtxDone :: _ =>
      let* _ := trigger Stopping in
      let* _ := trigger Leave in
      let* _ := if s_NoEtcHosts s then Ret true else trigger (WriteHosts ∅) in
      let* ok := trigger Down in
      Ret (Some (if (ok : bool) then Ok () else Err "downing interface"))
  end.
End Loop.
