(* ===== verification/AgentProps.v ===== *)
(** * AgentProps: what the agent guarantees

    Every network is routed by one node and none inside the overlay; the
    overlay network settled on is one nodes fit in; a member never enrols
    again; and what the loop tears down when it is told to stop. *)

From S2P Require Import Prelude Netip Overlay Identity Records TrustSet State GoNet GoStrings Prog Enrol Hosts Agent Demo.

(** ** Routes *)

Definition routes_of_node (n : Node) : list Prefix := m_AllowedIPs (n_Meta n).

Lemma keep_routes_spec net name rb ps routes rb' :
  keep_routes net name rb ps = (routes, rb') →
  NoDup routes ∧
  (∀ p, p ∈ routes → Overlaps p net = false ∧ p ∈ ps ∧ rb !! p = None) ∧
  (∀ p, is_Some (rb' !! p) ↔ is_Some (rb !! p) ∨ p ∈ routes) ∧
  (∀ p, p ∈ ps → Overlaps p net = false → is_Some (rb' !! p)).
Proof.
  revert rb routes rb'. induction ps as [|p ps IH]; intros rb routes rb'; cbn.
  { intros [= <- <-]. split_and!; [constructor|by intros ? ?%elem_of_nil| |by intros ? ?%elem_of_nil].
    intros p. split; [by left|]. by intros [?|?%elem_of_nil]. }
  destruct (Overlaps p net) eqn:Eo.
  { intros (H1 & H2 & H3 & H4)%IH. split_and!; [done| |done|].
    - intros q Hq. destruct (H2 q Hq) as (? & ? & ?). split_and!; [done|by right|done].
    - intros q [->|Hq]%elem_of_cons Ho; [congruence|by apply H4]. }
  destruct (rb !! p) as [by_|] eqn:Er.
  { intros (H1 & H2 & H3 & H4)%IH. split_and!; [done| |done|].
    - intros q Hq. destruct (H2 q Hq) as (? & ? & ?). split_and!; [done|by right|done].
    - intros q [->|Hq]%elem_of_cons Ho; [apply H3; left; by eexists|by apply H4]. }
  destruct (keep_routes net name (<[p:=name]> rb) ps) as [routes0 rb0] eqn:Ek. intros [= <- <-].
  apply IH in Ek as (H1 & H2 & H3 & H4).
  assert (Hnot : p ∉ routes0).
  { intros Hp. destruct (H2 p Hp) as (_ & _ & Hn). by rewrite lookup_insert_eq in Hn. }
  split_and!.
  - by constructor.
  - intros q [->|Hq]%elem_of_cons; [split_and!; [done|left|done]|].
    destruct (H2 q Hq) as (? & ? & Hn). split_and!; [done|by right|].
    by apply lookup_insert_None in Hn as [? _].
  - intros q. rewrite H3, elem_of_cons. destruct (decide (q = p)) as [->|Hne].
    + rewrite lookup_insert_eq, Er. split; [auto|left; by eexists].
    + rewrite lookup_insert_ne by done. naive_solver.
  - intros q [->|Hq]%elem_of_cons Ho; [|by apply H4].
    apply H3. left. rewrite lookup_insert_eq. by eexists.
Qed.

Lemma resolve_spec net rb peers :
  let R := resolve net rb peers in
  NoDup (R ≫= routes_of_node) ∧
  (∀ p, p ∈ R ≫= routes_of_node → Overlaps p net = false ∧ rb !! p = None) ∧
  (∀ i n', R !! i = Some n' → ∃ n, peers !! i = Some n ∧
    n' = with_routes n (routes_of_node n') ∧ routes_of_node n' ⊆ routes_of_node n).
Proof.
  revert rb. induction peers as [|n peers IH]; intros rb R; unfold R; cbn.
  { split_and!; [constructor|by intros ? ?%elem_of_nil|done]. }
  destruct (keep_routes net (n_Name n) rb (m_AllowedIPs (n_Meta n))) as [routes rb'] eqn:Ek.
  apply keep_routes_spec in Ek as (H1 & H2 & H3 & H4).
  destruct (IH rb') as (G1 & G2 & G3). cbn [mbind list_bind].
  change (routes_of_node (with_routes n routes)) with routes.
  split_and!.
  - apply NoDup_app. split_and!; [done| |done]. intros p Hp Hq.
    destruct (G2 p Hq) as [_ Hn]. apply eq_None_not_Some in Hn. apply Hn, H3. by right.
  - intros p [Hp|Hp]%elem_of_app; [by destruct (H2 p Hp) as (? & _ & ?)|].
    destruct (G2 p Hp) as [? Hn]. split; [done|].
    destruct (rb !! p) as [x|] eqn:E; [|done]. exfalso. apply eq_None_not_Some in Hn. apply Hn, H3.
    left. by rewrite E.
  - intros [|i] n'; cbn; [|apply G3]. intros [= <-]. exists n. split_and!; [done|done|].
    intros p Hp. by apply H2.
Qed.

Lemma resolve_first net rb peers n p :
  StronglySorted name_le peers → (∀ x, name_le x x) →
  n ∈ peers → p ∈ routes_of_node n → Overlaps p net = false → rb !! p = None →
  ∃ n', n' ∈ resolve net rb peers ∧ p ∈ routes_of_node n' ∧ name_le n' n.
Proof.
  intros Hs Hrefl. revert rb. induction Hs as [|m peers Hs IH Hm]; intros rb Hn Hp Ho Hr; cbn.
  { by apply elem_of_nil in Hn. }
  destruct (keep_routes net (n_Name m) rb (m_AllowedIPs (n_Meta m))) as [routes rb'] eqn:Ek.
  apply keep_routes_spec in Ek as (H1 & H2 & H3 & H4).
  assert (Hle : name_le m n).
  { apply elem_of_cons in Hn as [->|Hn]; [apply Hrefl|]. rewrite Forall_forall in Hm. by apply Hm. }
  destruct (decide (p ∈ routes)) as [Hin|Hout].
  { exists (with_routes m routes). split_and!; [left|done|exact Hle]. }
  assert (Hr' : rb' !! p = None).
  { apply eq_None_not_Some. intros [Hx|Hx]%H3; [|done]. by apply eq_None_not_Some in Hr. }
  apply elem_of_cons in Hn as [->|Hn].
  { exfalso. apply eq_None_not_Some in Hr'. by apply Hr', H4. }
  destruct (IH rb' Hn Hp Ho Hr') as (n' & ? & ? & ?). exists n'. split_and!; [by right|done|done].
Qed.

Lemma name_le_refl x : name_le x x.
Proof. apply bytes_ltb_irrefl. Qed.
#[export] Instance name_le_total : Total name_le.
Proof.
  intros x y. unfold name_le. destruct (bytes_ltb (n_Name y) (n_Name x)) eqn:E; [right|by left].
  by apply bytes_ltb_asym.
Qed.
#[export] Instance name_le_trans : Transitive name_le.
Proof.
  intros x y z. unfold name_le. intros H1 H2. destruct (bytes_ltb (n_Name z) (n_Name x)) eqn:E; [|done].
  destruct (decide (n_Name y = n_Name z)) as [Hyz|Hyz]; [congruence|].
  apply bytes_ltb_total in Hyz as [H|H]; [|congruence].
  by rewrite (bytes_ltb_trans _ _ _ H E) in H1.
Qed.

(** C29: what one snapshot is applied as: the same nodes in the order of their
    names, no network routed twice, none inside the overlay network, and every
    other network advertised is routed, by the first node by name that
    advertises it. *)
Theorem apply_routes s peers :
  let R := resolved s peers in
  (∃ sorted, sorted ≡ₚ peers ∧ Sorted name_le sorted ∧
    Forall2 (λ n n', n' = with_routes n (routes_of_node n') ∧ routes_of_node n' ⊆ routes_of_node n) sorted R) ∧
  NoDup (R ≫= routes_of_node) ∧
  (∀ p, p ∈ R ≫= routes_of_node → Overlaps p (s_OverlayNet s) = false) ∧
  (∀ n p, n ∈ peers → p ∈ routes_of_node n → Overlaps p (s_OverlayNet s) = false →
    ∃ n', n' ∈ R ∧ p ∈ routes_of_node n' ∧ name_le n' n).
Proof.
  intros R. unfold R, resolved. destruct (resolve_spec (s_OverlayNet s) ∅ (merge_sort name_le peers)) as (H1 & H2 & H3).
  split_and!; [|done|by intros p Hp; apply H2|].
  - exists (merge_sort name_le peers). split_and!; [apply merge_sort_Permutation|apply Sorted_merge_sort, _|].
    apply Forall2_same_length_lookup. split.
    + generalize (merge_sort name_le peers) (∅ : gmap Prefix bytes). clear. intros l.
      induction l as [|n l IH]; intros rb; [done|]. cbn.
      destruct (keep_routes _ _ rb _) as [routes rb']. cbn. by rewrite <- IH.
    + intros i n n' Hn Hn'. destruct (H3 i n' Hn') as (m & Hm & ?). naive_solver.
  - intros n p Hn Hp Ho. apply resolve_first; [|apply name_le_refl| |done|done|done].
    + apply Sorted_StronglySorted, Sorted_merge_sort, _. apply _.
    + by rewrite merge_sort_Permutation.
Qed.

(** ** The overlay network *)

Lemma no_overlap_spec net ps : no_overlap net ps = Ok () ↔ Forall (λ p, Overlaps p net = false) ps.
Proof.
  induction ps as [|p ps IH]; cbn; [split; [constructor|done]|].
  rewrite Forall_cons, <- IH. destruct (Overlaps p net); naive_solver.
Qed.

Lemma checkOverlayNet_spec net ps :
  checkOverlayNet net ps = Ok () ↔ 2 ≤ MaxHost net ∧ Forall (λ p, Overlaps p net = false) ps.
Proof.
  unfold checkOverlayNet. destruct (MaxHost net <? 2) eqn:E.
  - apply Z.ltb_lt in E. split; [done|lia].
  - apply Z.ltb_ge in E. rewrite no_overlap_spec. naive_solver.
Qed.

(** The network settled on is the one given here with its host bits cleared,
    else the cluster's, else the default; a node goes on with it exactly when
    it has room for two nodes and overlaps none of the node's own networks. *)
Theorem settleOverlayNet_spec s clusterNet r s' :
  settleOverlayNet s clusterNet = (r, s') →
  s_OverlayNet s' =
    (if Prefix_IsValid (s_OverlayNet s) then Masked (s_OverlayNet s)
     else if Prefix_IsValid clusterNet then clusterNet else DefaultOverlayNet) ∧
  s' = set_OverlayNet s (s_OverlayNet s') ∧
  (r = Ok () ↔ 2 ≤ MaxHost (s_OverlayNet s') ∧
    Forall (λ p, Overlaps p (s_OverlayNet s') = false) (s_AllowedIPs s)).
Proof.
  unfold settleOverlayNet. intros [= <- <-]. cbn. split_and!.
  - by destruct (Prefix_IsValid (s_OverlayNet s)), (Prefix_IsValid clusterNet).
  - done.
  - apply checkOverlayNet_spec.
Qed.

(** ** Ports *)

Lemma withPort_ok_entry a port :
  good_host (TrimBrackets a) → good_port (Itoa port) →
  let a' := if is_ok (SplitHostPort a) then a else JoinHostPort (TrimBrackets a) (Itoa port) in
  SplitHostPort a' = (if is_ok (SplitHostPort a) then SplitHostPort a else Ok (TrimBrackets a, Itoa port)).
Proof. intros Hh Hp. cbn. destruct (is_ok (SplitHostPort a)); [done|]. by apply split_join. Qed.

(** Every address the cluster is joined at has a port: its own, or the
    cluster port with the brackets of an IPv6 address put right. Adding ports
    again changes nothing. *)
Theorem withPort_spec (addrs : list bytes) (port : Z) :
  good_port (Itoa port) → Forall (λ a, good_host (TrimBrackets a)) addrs →
  Forall2 (λ a a', SplitHostPort a' =
    (if is_ok (SplitHostPort a) then SplitHostPort a else Ok (TrimBrackets a, Itoa port)))
    addrs (withPort addrs port) ∧
  withPort (withPort addrs port) port = withPort addrs port.
Proof.
  intros Hp Hh. induction Hh as [|a addrs Ha Hh [IH1 IH2]]; [done|].
  pose proof (withPort_ok_entry a port Ha Hp) as Ea. cbn zeta in Ea. split.
  - constructor; done.
  - unfold withPort in *. cbn [map]. rewrite IH2. f_equal. rewrite Ea.
    by destruct (is_ok (SplitHostPort a)) eqn:E; [rewrite E|].
Qed.

Lemma withPort_spec_witness :
  withPort [str "[::1]"; str "fd00::1"; str "member"; str "10.0.0.1:99"] 7946 =
    [str "[::1]:7946"; str "[fd00::1]:7946"; str "member:7946"; str "10.0.0.1:99"] ∧
  withPort (withPort [str "[::1]"; str "member"] 7946) 7946 = withPort [str "[::1]"; str "member"] 7946.
Proof.
  split; [vm_compute; reflexivity|].
  apply (withPort_spec [str "[::1]"; str "member"] 7946).
  - split_and!; apply (bool_decide_unpack _); vm_compute; done.
  - repeat constructor; apply (bool_decide_unpack _); vm_compute; done.
Defined.

(** The addresses to enrol with are completed without taking the brackets off
    first, so one in brackets and without a port does not parse afterwards. *)
Example enrolAddrs_brackets :
  let s := MkSettings [str "[fd00::1]"; str "fd00::1"] AZero 7946 0 zeroPrefix [] [] 0 0 false false [] in
  enrolAddrs s = [str "[[fd00::1]]:7946"; str "[fd00::1]:7946"] ∧
  map (is_ok ∘ SplitHostPort) (enrolAddrs s) = [false; true].
Proof. vm_compute. done. Qed.

(** ** Becoming a member *)

(** Every address was tried in vain. *)
Definition all_fail (attempt : bytes → result (Welcome * PublicKey)) (addrs : list bytes) : Prop :=
  Forall (λ a, is_ok (attempt a) = false) addrs.

Lemma enrol_with_spec attempt addrs last :
  (∃ pre addr post w m, addrs = pre ++ addr :: post ∧ all_fail attempt pre ∧
    attempt addr = Ok (w, m) ∧ enrol_with attempt addrs last = Ok (Some w)) ∨
  (all_fail attempt addrs ∧
    (addrs = [] ∧ enrol_with attempt addrs last = last ∨
     ∃ e, enrol_with attempt addrs last = Err e)).
Proof.
  revert last. induction addrs as [|a addrs IH]; intros last; cbn.
  { right. split; [constructor|by left]. }
  destruct (attempt a) as [[w m]|e] eqn:E.
  { left. exists [], a, addrs, w, m. split_and!; [done|constructor|done|done]. }
  assert (Ha : is_ok (attempt a) = false) by by rewrite E.
  destruct (IH (Err e)) as [(pre & addr & post & w & m & -> & Hp & Hw & Hr)|[Hall Hr]].
  - left. exists (a :: pre), addr, post, w, m. split_and!; [done|by constructor|done|done].
  - right. split; [by constructor|]. right. destruct Hr as [[-> Hr]|Hr]; [|done]. by exists e.
Qed.

(** How a node becomes a member before it joins. A member stays what it is,
    whatever is configured; with a join key the node is enrolled by the first
    of the given members that admits it, and by nobody else's welcome; with
    only an overlay network it becomes the root of a new cluster; with neither
    it stays outside. Settings that pass validation never make it crash. *)
Theorem bootstrap_spec `{!Ed25519} s JoinKey boot hostname now attempt :
  Validate s JoinKey = Ok () →
  ∃ r boot', bootstrap s JoinKey boot hostname now attempt = Some (r, boot') ∧
    b_Identity boot' = b_Identity boot ∧
    if Enrolled boot then boot' = boot ∧ r = Ok (s_Join s)
    else if bool_decide (JoinKey = []) then
      if Prefix_IsValid (s_OverlayNet s) then boot' = InitRoot boot hostname now ∧ r = Ok (s_Join s)
      else boot' = boot ∧ r = Ok []
    else
      (∃ pre addr post w m, enrolAddrs s = pre ++ addr :: post ∧ all_fail attempt pre ∧
        attempt addr = Ok (w, m) ∧ r = Ok [w_GossipAddr w] ∧
        boot' = boot_Enrol boot (w_Root w) (w_Records w) (w_OverlayNet w)) ∨
      (all_fail attempt (enrolAddrs s) ∧ boot' = boot ∧ is_ok r = false).
Proof.
  intros Hv. unfold bootstrap. destruct (Enrolled boot) eqn:Ee; [by eexists _, _|].
  unfold Validate in Hv. case_bool_decide as Hk; cbn [negb] in *.
  { destruct (Prefix_IsValid (s_OverlayNet s)); by eexists _, _. }
  case_bool_decide as Hj; cbn [andb] in Hv; [done|].
  unfold agent_enrol. destruct (enrol_with_spec attempt (enrolAddrs s) (Ok None))
    as [(pre & addr & post & w & m & Ha & Hp & Hw & ->)|[Hall [[He _]|[e ->]]]].
  - eexists _, _. split_and!; [done|done|]. left. eauto 12.
  - unfold enrolAddrs in He. apply map_eq_nil in He. done.
  - eexists _, _. split_and!; [done|done|]. by right.
Qed.

(** ** The loop *)

(** What the service manager was told: ready, or a later count. *)
Definition report_of (e : happened agentE) : list bool :=
  match e with Ev (Ready _) _ => [true] | Ev (Status _) _ => [false] | _ => [] end.
Definition leaves (e : happened agentE) : bool :=
  match e with Ev Leave _ => true | _ => false end.

Lemma apply_runs s peers tr n :
  runs (apply_ s peers) tr n →
  tr ≫= report_of = [] ∧ forallb (negb ∘ leaves) tr = true ∧ n = length (resolved s peers).
Proof.
  unfold apply_. intros Hr. apply runs_bind in Hr as (tr1 & ok & tr2 & -> & (x & tr' & -> & -> & ->) & Hr).
  apply runs_bind in Hr as (tr3 & ok3 & tr4 & -> & H3 & Hr).
  apply runs_bind in Hr as (tr5 & ok5 & tr6 & -> & H5 & [-> <-]).
  assert (G3 : tr3 ≫= report_of = [] ∧ forallb (negb ∘ leaves) tr3 = true).
  { destruct ok; [by destruct H3 as [-> _]|]. by destruct H3 as (y & tr0 & -> & -> & _). }
  assert (G5 : tr5 ≫= report_of = [] ∧ forallb (negb ∘ leaves) tr5 = true).
  { destruct (s_NoEtcHosts s); [by destruct H5 as [-> _]|]. by destruct H5 as (y & tr0 & -> & -> & _). }
  destruct G3 as [G3 G3'], G5 as [G5 G5']. rewrite app_nil_r. cbn.
  rewrite bind_app, G3, G5, forallb_app, G3', G5'. done.
Qed.

Lemma loop_runs s first (snapshots : list (list Node)) rest tr r :
  runs (loop s first (map Peers snapshots ++ CtxDone :: rest)) tr r →
  ∃ before told clear down,
    tr = before ++ Ev Stopping told :: Ev Leave () :: clear ++ [Ev Down down] ∧
    (if s_NoEtcHosts s then clear = [] else ∃ ok, clear = [Ev (WriteHosts ∅) ok]) ∧
    r = Some (if down then Ok () else Err "downing interface") ∧
    before ≫= report_of = (match snapshots with
                          | [] => []
                          | _ :: l => first :: map (λ _, false) l
                          end) ∧
    forallb (negb ∘ leaves) before = true.
Proof.
  revert first tr. induction snapshots as [|peers snapshots IH]; intros first tr Hr; cbn [map app loop] in Hr.
  - apply runs_bind in Hr as (tr1 & told & tr2 & -> & (x & t & -> & -> & ->) & Hr).
    apply runs_bind in Hr as (tr3 & [] & tr4 & -> & (y & t & -> & -> & ->) & Hr).
    apply runs_bind in Hr as (clear & z & tr6 & -> & Hc & Hr).
    apply runs_bind in Hr as (tr7 & down & tr8 & -> & (d & t & -> & -> & ->) & [-> <-]).
    exists [], told, clear, down. split_and!; [done| |done|done|done].
    destruct (s_NoEtcHosts s); [by destruct Hc as [-> _]|]. destruct Hc as (ok & t & -> & -> & _). by exists ok.
  - apply runs_bind in Hr as (tr1 & n & tr2 & -> & Ha & Hr).
    apply runs_bind in Hr as (tr3 & b & tr4 & -> & Hrep & Hr).
    apply apply_runs in Ha as (H1 & H1' & _).
    destruct (IH false tr4 Hr) as (before & told & clear & down & -> & Hc & Hd & Hb & Hl).
    exists (tr1 ++ tr3 ++ before), told, clear, down. rewrite <- !app_assoc. split_and!; [done|done|done| |].
    + rewrite !bind_app, H1, Hb.
      assert (tr3 ≫= report_of = [first]) as ->.
      { by destruct first, Hrep as (x & t & -> & -> & _). }
      cbn. by destruct snapshots.
    + rewrite !forallb_app, H1', Hl.
      assert (forallb (negb ∘ leaves) tr3 = true) as ->; [|done].
      by destruct first, Hrep as (x & t & -> & -> & _).
Qed.

(** Told to stop after any number of snapshots, the loop has reported the
    service ready exactly once, with the first of them, and has not left the
    cluster before; it then leaves, clears its hosts entries and takes the
    interface down, in this order, and its result is that of the last step. *)
Theorem loop_stops s (snapshots : list (list Node)) rest tr r :
  runs (loop s true (map Peers snapshots ++ CtxDone :: rest)) tr r →
  ∃ before told clear down,
    tr = before ++ Ev Stopping told :: Ev Leave () :: clear ++ [Ev Down down] ∧
    (if s_NoEtcHosts s then clear = [] else ∃ ok, clear = [Ev (WriteHosts ∅) ok]) ∧
    r = Some (if down then Ok () else Err "downing interface") ∧
    before ≫= report_of = (match snapshots with
                          | [] => []
                          | _ :: l => true :: map (λ _, false) l
                          end) ∧
    forallb (negb ∘ leaves) before = true.
Proof. apply loop_runs. Qed.

(** ** Examples *)

Definition plain_settings : settings :=
  MkSettings [str "member"] AZero 7946 51820 (MkPrefix (A4 0x0A010203) 16) [MkPrefix (A4 0xC0A80000) 16]
    (str "wgcloth") 1420 (25 * Second) true false [].

Lemma settleOverlayNet_spec_witness :
  s_OverlayNet (settleOverlayNet plain_settings zeroPrefix).2 = MkPrefix (A4 0x0A010000) 16 ∧
  (settleOverlayNet plain_settings zeroPrefix).1 = Ok ().
Proof.
  destruct (settleOverlayNet_spec plain_settings zeroPrefix (settleOverlayNet plain_settings zeroPrefix).1
    (settleOverlayNet plain_settings zeroPrefix).2) as (H1 & _ & H3); [by destruct (settleOverlayNet _ _)|].
  split; [exact H1|]. apply H3. split; [vm_compute; discriminate|]. repeat constructor; vm_compute; reflexivity.
Defined.

(** One snapshot applied, then a stop. *)
Definition stop_trace : list (happened agentE) :=
  [Ev (SetUp []) true; Ev (Ready 0) true; Ev Stopping true; Ev Leave (); Ev Down true].

Lemma loop_stops_witness :
  runs (loop plain_settings true [Peers []; CtxDone]) stop_trace (Some (Ok ())) ∧
  ∃ before, before ≫= report_of = [true].
Proof.
  assert (H : runs (loop plain_settings true [Peers []; CtxDone]) stop_trace (Some (Ok ()))).
  { do 5 (eexists _, _; split; [reflexivity|]). done. }
  split; [exact H|].
  destruct (loop_stops plain_settings [[]] [] stop_trace (Some (Ok ())) H) as (before & _ & _ & _ & _ & _ & _ & Hb & _).
  exists before. exact Hb.
Defined.

#[local] Existing Instance Toy.toy.

(** [bob] is not a member yet; [ann] admits him. *)
Definition bob_boot : Bootstrap := MkBootstrap bob zeroKey zeroPrefix (MkRecords [] []) [].
Definition ann_welcome : Welcome :=
  MkWelcome (key ann) (MkRecords [adm_ann; adm_bob] []) adm_bob (str "10.9.9.9:7946") zeroPrefix [].
Definition ann_admits (addr : bytes) : result (Welcome * PublicKey) :=
  if decide (addr = str "member:7946") then Ok (ann_welcome, key ann) else Err "nobody there".

Lemma bootstrap_spec_witness :
  Validate plain_settings (str "token") = Ok () ∧
  ∃ r boot', bootstrap plain_settings (str "token") bob_boot (str "bob") 200 ann_admits = Some (r, boot') ∧
    b_Identity boot' = bob.
Proof.
  assert (Hv : Validate plain_settings (str "token") = Ok ()) by (vm_compute; reflexivity).
  split; [exact Hv|].
  destruct (bootstrap_spec plain_settings (str "token") bob_boot (str "bob") 200 ann_admits Hv)
    as (r & boot' & H1 & H2 & _).
  exists r, boot'. split; [exact H1|exact H2].
Defined.
