(* ===== verification/AgentRun.v ===== *)
(** * AgentRun: the daemon from start to exit (internal/cli/agent.go)

    [AgentCmd.Run] composes the parts: the state is loaded, the node becomes a
    member or idles, its overlay network and address are settled, WireGuard
    and the cluster are started, the control socket is opened, the node joins,
    and the loop runs until it is told to stop. What the parts answer is in the
    events of the program; what is computed from the answers is here. *)

From S2P Require Import Prelude Netip Overlay Identity Records State GoNet GoStrings Prog Enrol Bind Wg.
From S2P Require Import Demo Hosts Agent AgentProps.

Inductive runE : Type → Type :=
  | Hostname : runE (result bytes)
  | LoadState : runE (result Bootstrap)                      (* cluster.Load *)
  | IdleReady : runE bool                                    (* n.Ready("waiting to be configured") *)
  | WaitCtx : runE unit
  | Addresses : runE (list netAddr)                          (* of the host's interfaces *)
  | NewWireguard (cfg : Config) : runE (result bytes)        (* wg.New; the public key's text *)
  | NewCluster (net : Prefix) (advertise : Addr) (local : Node) (boot : Bootstrap) : runE (result unit)
  | ListenControl : runE (result unit)
  | JoinUntil (addrs : list bytes) : runE bool               (* joined, or ctx done first *)
  | InAgent {X : Type} (e : agentE X) : runE X
  | Requested : runE bool                                    (* leave.requested *)
  | ForgetState : runE (result unit)                         (* cluster.Forget *)
  | CloseDone : runE unit                                    (* close(leave.done) *)
  | CloseControl : runE unit.                                (* ctl.Close *)

Definition lift {A} (p : prog agentE A) : prog runE A := translate (@InAgent) p.

(** [errors.Join] *)
Definition join_errors (r1 r2 : result unit) : result unit :=
  match r1 with Err e => Err e | Ok _ => r2 end.

Section Run.
Context `{!Ed25519}.
Local Open Scope prog_scope.
Variables (s : settings) (JoinKey : bytes).

Definition idle : prog runE (option (result unit)) :=
  let* _ := trigger IdleReady in
  let* _ := trigger WaitCtx in
  let* _ := trigger (InAgent Stopping) in
  Ret (Some (Ok ())).

(** [AgentCmd.forget] *)
Definition forget_ : prog runE (result unit) :=
  let* requested := trigger Requested in
  if (requested : bool) then trigger ForgetState else Ret (Ok ()).

(** What peers learn about this node. *)
Definition localNode (s : settings) (hostname : bytes) (addr : Addr) (key : bytes) : Node :=
  MkNode hostname AZero 0 (MkMeta addr key (masked (s_AllowedIPs s)) zeroKey []).

(** From [control.Listen] on: joining and the loop, then the deferred calls.
    No answer while the loop goes on. *)
Definition serve_agent (s : settings) (joinAddrs : list bytes) (inputs : list input)
    : prog runE (option (result unit)) :=
  let* joined := trigger (JoinUntil joinAddrs) in
  let* res :=
    if negb (joined : bool) then
      let* _ := trigger (InAgent Leave) in
      let* r := forget_ in
      Ret (Some r)
    else
      let* loopErr := lift (loop s true inputs) in
      match loopErr with
      | None => Ret None
      | Some loopErr => let* r := forget_ in Ret (Some (join_errors loopErr r))
      end in
  match res with
  | None => Ret None
  | Some res =>
      let* _ := trigger CloseDone in
      let* _ := trigger CloseControl in
      Ret (Some res)
  end.

(** From [cluster.New] on. *)
Definition start_agent (s : settings) (hostname : bytes) (boot : Bootstrap) (joinAddrs : list bytes)
    (advertise overlayAddr : Addr) (key : bytes) (inputs : list input) : prog runE (option (result unit)) :=
  let* cl := trigger (NewCluster (s_OverlayNet s) advertise (localNode s hostname overlayAddr key) boot) in
  match cl with
  | Err e => Ret (Some (Err e))
  | Ok _ =>
      let* ctl := trigger ListenControl in
      match ctl with
      | Err e =>
          let* _ := trigger (InAgent Leave) in
          Ret (Some (Err e))
      | Ok _ => serve_agent s joinAddrs inputs
      end
  end.

Definition wg_config (s : settings) (overlayAddr : Addr) : Config :=
  MkConfig (s_Interface s) (s_WireguardPort s) overlayAddr (s_MTU s) (s_PersistentKeepalive s) (s_Userspace s).

(** [Run], for a node that is a member by now. *)
Definition run_member (hostname : bytes) (boot : Bootstrap) (joinAddrs : list bytes) (inputs : list input)
    : prog runE (option (result unit)) :=
  let* addrs := trigger Addresses in
  match advertiseAddr (s_BindAddr s) addrs with
  | Err e => Ret (Some (Err e))
  | Ok advertise =>
      match settleOverlayNet s (b_OverlayNet boot) with
      | (Err e, _) => Ret (Some (Err e))
      | (Ok _, s) =>
          match Host boot with
          | Err e => Ret (Some (Err e))
          | Ok host =>
              match Addr_of (s_OverlayNet s) host with
              | None => Ret (Some (Err "this node's overlay slot does not fit"))
              | Some overlayAddr =>
                  let* wg := trigger (NewWireguard (wg_config s overlayAddr)) in
                  match wg with
                  | Err e => Ret (Some (Err e))
                  | Ok key => start_agent s hostname boot joinAddrs advertise overlayAddr key inputs
                  end
              end
          end
      end
  end.

(** [AgentCmd.Run]. [now] and [attempt] are for the bootstrap: the clock, and
    what enrolling with each member gives. *)
Definition Run (now : Z) (attempt : bytes → result (Welcome * PublicKey)) (inputs : list input)
    : prog runE (option (result unit)) :=
  let* hostname := trigger Hostname in
  match hostname with
  | Err e => Ret (Some (Err e))
  | Ok hostname =>
      let* boot := trigger LoadState in
      match boot with
      | Err e => Ret (Some (Err e))
      | Ok boot =>
          match bootstrap s JoinKey boot hostname now attempt with
          | None => Ret None
          | Some (Err e, _) => Ret (Some (Err e))
          | Some (Ok joinAddrs, boot) =>
              if negb (Enrolled boot) then idle
              else run_member hostname boot joinAddrs inputs
          end
      end
  end.
End Run.

(** ** The shape of a run *)

(** The calls that make or remove something outside the process. [wg.New]
    makes the interface when the kernel provides it (Platform). *)
Inductive mark :=
  | MWireguard (ok : bool) | MNew (ok : bool) | MListen (ok : bool)
  | MUp | MDown (ok : bool) | MLeave | MForget | MDone | MClose.

Definition agent_mark {X} (e : agentE X) : X → list mark :=
  match e in agentE X return X → list mark with
  | SetUp _ => λ _, [MUp]
  | Down => λ ok, [MDown ok]
  | Leave => λ _, [MLeave]
  | _ => λ _, []
  end.
Definition mark_of (e : happened runE) : list mark :=
  match e with
  | Ev (NewWireguard _) r => [MWireguard (is_ok r)]
  | Ev (NewCluster _ _ _ _) r => [MNew (is_ok r)]
  | Ev ListenControl r => [MListen (is_ok r)]
  | Ev (InAgent e) x => agent_mark e x
  | Ev ForgetState _ => [MForget]
  | Ev CloseDone _ => [MDone]
  | Ev CloseControl _ => [MClose]
  | _ => []
  end.
Definition marks (tr : list (happened runE)) : list mark := tr ≫= mark_of.

Lemma marks_app tr1 tr2 : marks (tr1 ++ tr2) = marks tr1 ++ marks tr2.
Proof. apply bind_app. Qed.
Lemma marks_cons e tr : marks (e :: tr) = mark_of e ++ marks tr.
Proof. done. Qed.

Lemma runs_trigger {E X} (e : E X) tr (x : X) : runs (trigger e) tr x → tr = [Ev e x].
Proof. by intros (y & tr' & -> & -> & ->). Qed.

Definition inside : happened agentE → happened runE := seen_as (@InAgent).

Lemma runs_lift {A} (p : prog agentE A) tr (r : A) :
  runs (lift p) tr r → ∃ tr0, runs p tr0 r ∧ tr = map inside tr0.
Proof. by intros H%runs_translate. Qed.

(** Inputs that end the loop in the regular way. *)
Lemma regular_inputs s first inputs tr r :
  ChannelClosed ∉ inputs → runs (loop s first inputs) tr (Some r) →
  ∃ snapshots rest, inputs = map Peers snapshots ++ CtxDone :: rest.
Proof.
  revert first tr. induction inputs as [|[peers| |] inputs IH]; intros first tr Hno Hr.
  - by destruct Hr.
  - cbn [loop] in Hr. apply runs_bind in Hr as (tr1 & n & tr2 & -> & _ & Hr).
    apply runs_bind in Hr as (tr3 & b & tr4 & -> & _ & Hr).
    destruct (IH false tr4) as (snapshots & rest & ->); [set_solver|done|].
    by exists (peers :: snapshots), rest.
  - set_solver.
  - by exists [], inputs.
Qed.

(** What is done to the interface, in between. *)
Definition interface_only (work : list mark) : Prop := Forall (λ m, m = MUp ∨ ∃ ok, m = MDown ok) work.

Lemma inside_marks tr :
  forallb (negb ∘ leaves) tr = true → interface_only (marks (map inside tr)).
Proof.
  induction tr as [|[X e x] tr IH]; intros H; [constructor|].
  cbn in H. apply andb_prop in H as [He Hl]. cbn [map inside]. rewrite marks_cons.
  apply Forall_app_2; [|by apply IH].
  destruct e; cbn in *; first [done|apply Forall_singleton; eauto|constructor].
Qed.

Lemma loop_marks s inputs tr r :
  ChannelClosed ∉ inputs → runs (lift (loop s true inputs)) tr (Some r) →
  ∃ work down, interface_only work ∧ marks tr = work ++ [MLeave; MDown down] ∧ is_ok r = down.
Proof.
  intros Hno (tr0 & Hr & ->)%runs_lift.
  destruct (regular_inputs s true inputs tr0 r Hno Hr) as (snapshots & rest & ->).
  apply loop_runs in Hr as (before & told & clear & down & -> & Hc & [= ->] & _ & Hl).
  exists (marks (map inside before)), down. split; [by apply inside_marks|]. split; [|by destruct down].
  rewrite map_app, marks_app. f_equal. rewrite !map_cons, map_app, !marks_cons, marks_app.
  destruct (s_NoEtcHosts s); [by subst|]. by destruct Hc as [ok ->].
Qed.

(** What [forget] did, as the trace says. *)
Definition forgets (tr : list (happened runE)) (forget : list mark) : Prop :=
  (forget = [] ∧ Ev Requested false ∈ tr) ∨ (forget = [MForget] ∧ Ev Requested true ∈ tr).

Lemma forget_marks tr r : runs forget_ tr r → forgets tr (marks tr).
Proof.
  intros (b & tr' & -> & Hr)%runs_event. destruct b; cbn in Hr.
  - apply runs_trigger in Hr as ->. right. split; [done|]. left.
  - destruct Hr as [-> _]. left. split; [done|]. left.
Qed.

Lemma forgets_within tr1 tr tr2 forget : forgets tr forget → forgets (tr1 ++ tr ++ tr2) forget.
Proof. unfold forgets. set_solver. Qed.

(** Whether the agent joined, and went into its loop, or was stopped before. *)
Definition joining (tr : list (happened runE)) (joined : bool) : Prop :=
  ∃ addrs, Ev (JoinUntil addrs) joined ∈ tr.

(** [serve_agent]: what its marks are. Stopped while it joins, it does not take
    the interface down. *)
Lemma serve_agent_marks s joinAddrs inputs tr r :
  ChannelClosed ∉ inputs → runs (serve_agent s joinAddrs inputs) tr (Some r) →
  ∃ forget, forgets tr forget ∧
    (joining tr false ∧ marks tr = [MLeave] ++ forget ++ [MDone; MClose] ∨
     joining tr true ∧ ∃ work down, interface_only work ∧ (r = Ok () → down = true) ∧
       marks tr = work ++ [MLeave; MDown down] ++ forget ++ [MDone; MClose]).
Proof.
  intros Hno Hr. unfold serve_agent in Hr.
  apply runs_event in Hr as (joined & tr1 & -> & Hr).
  apply runs_bind in Hr as (tr2 & res & tr3 & -> & Hr & Hend).
  destruct res as [res|]; [|by destruct Hend].
  apply runs_event in Hend as ([] & tr4 & -> & Hend).
  apply runs_event in Hend as ([] & tr5 & -> & [-> [= ->]]).
  rewrite marks_cons, marks_app. cbn [mark_of app].
  destruct joined; cbn [negb] in Hr.
  - apply runs_bind in Hr as (tr6 & l & tr7 & -> & Hl & Hr). destruct l as [l|]; [|by destruct Hr].
    apply runs_bind in Hr as (tr8 & f & tr9 & -> & Hf & [-> [= Hres]]). rewrite app_nil_r.
    apply loop_marks in Hl as (work & down & Hw & E & Hdown); [|done]. apply forget_marks in Hf.
    exists (marks tr8). split.
    + change (?e :: ?l) with ([e] ++ l). rewrite <- !app_assoc, app_assoc. by apply forgets_within.
    + right. split; [eexists; left|]. exists work, down. split; [done|]. split; [intros ->; destruct l; cbn in *; by subst|].
      by rewrite marks_app, E, <- !app_assoc.
  - apply runs_event in Hr as ([] & tr6 & -> & Hr).
    apply runs_bind in Hr as (tr8 & f & tr9 & -> & Hf & [-> _]). rewrite app_nil_r.
    apply forget_marks in Hf. exists (marks tr8). split.
    + apply (forgets_within [_; _]), Hf.
    + left. split; [eexists; left|]. by rewrite marks_cons, <- app_assoc.
Qed.

(** C16: what a run of the agent does to the system, however it ends: WireGuard
    is set up first, then the cluster, then the control socket; a cluster that
    was started has been left, exactly once; the state is forgotten only after
    that, and only if a leave was requested; and the control socket, once open,
    is closed last. A run that got into its loop takes the interface down after
    it has left, and does not report success if that fails. No other exit takes
    it down: if WireGuard, the cluster or the control socket cannot be started,
    or the run is stopped while it joins, an interface that [wg.New] has made
    stays. (The membership channel is closed by the leave only.) *)
Theorem Run_shape {ed : Ed25519} s JoinKey now attempt inputs tr r :
  ChannelClosed ∉ inputs → runs (Run s JoinKey now attempt inputs) tr (Some r) →
  marks tr = [] ∨ marks tr = [MWireguard false] ∨ marks tr = [MWireguard true; MNew false] ∨
  marks tr = [MWireguard true; MNew true; MListen false; MLeave] ∨
  ∃ forget, forgets tr forget ∧
    (joining tr false ∧
       marks tr = [MWireguard true; MNew true; MListen true; MLeave] ++ forget ++ [MDone; MClose] ∨
     joining tr true ∧ ∃ work down, interface_only work ∧ (r = Ok () → down = true) ∧
       marks tr = [MWireguard true; MNew true; MListen true] ++ work ++ [MLeave; MDown down] ++
         forget ++ [MDone; MClose]).
Proof.
  intros Hno Hr. unfold Run in Hr.
  apply runs_event in Hr as ([hostname|] & tr1 & -> & Hr); [|left; by destruct Hr as [-> _]].
  apply runs_event in Hr as ([boot|] & tr2 & -> & Hr); [|left; by destruct Hr as [-> _]].
  destruct (bootstrap _ _ _ _ _ _) as [[[joinAddrs|e] boot']|]; [|left; by destruct Hr as [-> _]|by destruct Hr].
  destruct (Enrolled boot'); cbn [negb] in Hr.
  2: { unfold idle in Hr. apply runs_event in Hr as (? & ? & -> & Hr).
       apply runs_event in Hr as ([] & ? & -> & Hr). apply runs_event in Hr as (? & ? & -> & [-> _]). by left. }
  unfold run_member in Hr. apply runs_event in Hr as (addrs & tr3 & -> & Hr).
  destruct (advertiseAddr _ _) as [adv|]; [|left; by destruct Hr as [-> _]].
  destruct (settleOverlayNet _ _) as [[[]|] s']; [|left; by destruct Hr as [-> _]].
  destruct (Host boot') as [host|]; [|left; by destruct Hr as [-> _]].
  destruct (Addr_of _ _) as [addr|]; [|left; by destruct Hr as [-> _]].
  apply runs_event in Hr as ([wgkey|] & tr4 & -> & Hr); [|right; left; by destruct Hr as [-> _]].
  unfold start_agent in Hr.
  apply runs_event in Hr as ([[]|] & tr5 & -> & Hr); [|right; right; left; by destruct Hr as [-> _]].
  apply runs_event in Hr as ([[]|] & tr6 & -> & Hr).
  - do 4 right. apply serve_agent_marks in Hr as (forget & Hf & Hm); [|done].
    exists forget. split.
    + pose proof (forgets_within [Ev Hostname (Ok hostname); Ev LoadState (Ok boot); Ev Addresses addrs;
        Ev (NewWireguard (wg_config s' addr)) (Ok wgkey);
        Ev (NewCluster (s_OverlayNet s') adv (localNode s' hostname addr wgkey) boot') (Ok ());
        Ev ListenControl (Ok ())] tr6 [] forget Hf) as Hf'. by rewrite app_nil_r in Hf'.
    + rewrite !marks_cons. cbn [mark_of is_ok app].
      assert (Hj : ∀ b, joining tr6 b → joining (Ev Hostname (Ok hostname) :: Ev LoadState (Ok boot) :: Ev Addresses addrs ::
        Ev (NewWireguard (wg_config s' addr)) (Ok wgkey) ::
        Ev (NewCluster (s_OverlayNet s') adv (localNode s' hostname addr wgkey) boot') (Ok ()) ::
        Ev ListenControl (Ok ()) :: tr6) b) by (intros b [addrs' Hin]; exists addrs'; do 6 right; exact Hin).
      destruct Hm as [[? ->]|[? (work & down & ? & ? & ->)]]; [left; auto|right; split; [auto|by exists work, down]].
  - do 3 right. left. by apply runs_event in Hr as ([] & ? & -> & [-> _]).
Qed.

(** What [cluster.New] is called with. *)
Definition starts_with (e : happened runE) : list (Prefix * Addr * Node * Bootstrap) :=
  match e with Ev (NewCluster net adv local boot) _ => [(net, adv, local, boot)] | _ => [] end.

Lemma lift_starts {A} (p : prog agentE A) tr r : runs (lift p) tr r → tr ≫= starts_with = [].
Proof.
  intros (tr0 & _ & ->)%runs_lift. induction tr0 as [|[X e x] tr0 IH]; [done|]. exact IH.
Qed.

Lemma forget_starts tr r : runs forget_ tr r → tr ≫= starts_with = [].
Proof.
  intros (b & tr' & -> & Hr)%runs_event. destruct b; cbn in Hr; [by apply runs_trigger in Hr as ->|by destruct Hr as [-> _]].
Qed.

Lemma serve_agent_starts s joinAddrs inputs tr r :
  runs (serve_agent s joinAddrs inputs) tr (Some r) → tr ≫= starts_with = [].
Proof.
  intros Hr. unfold serve_agent in Hr.
  apply runs_event in Hr as (joined & tr1 & -> & Hr).
  apply runs_bind in Hr as (tr2 & res & tr3 & -> & Hr & Hend).
  destruct res as [res|]; [|by destruct Hend].
  apply runs_event in Hend as ([] & tr4 & -> & Hend).
  apply runs_event in Hend as ([] & tr5 & -> & [-> _]).
  change (?e :: ?l) with ([e] ++ l). rewrite !bind_app. cbn [starts_with mbind list_bind app]. rewrite app_nil_r.
  destruct joined; cbn [negb] in Hr.
  - apply runs_bind in Hr as (tr6 & l & tr7 & -> & Hl & Hr). destruct l as [l|]; [|by destruct Hr].
    apply runs_bind in Hr as (tr8 & f & tr9 & -> & Hf & [-> _]).
    by rewrite !bind_app, (lift_starts _ _ _ Hl), (forget_starts _ _ Hf).
  - apply runs_event in Hr as ([] & tr6 & -> & Hr).
    apply runs_bind in Hr as (tr8 & f & tr9 & -> & Hf & [-> _]).
    change (?e :: ?l) with ([e] ++ l). by rewrite !bind_app, (forget_starts _ _ Hf).
Qed.

Ltac never_starts :=
  match goal with
  | Hr : runs (Ret _) _ _, Hin : _ ∈ _ |- _ => destruct Hr as [-> _]; cbn in Hin; by apply elem_of_nil in Hin
  end.

(** What the cluster is started with: an overlay network with room for two
    nodes and clear of the networks this node advertises, the address of the
    node's own slot in it, and the networks as routes are written. *)
Theorem Run_starts_sound {ed : Ed25519} s JoinKey now attempt inputs tr r net advertise local boot :
  runs (Run s JoinKey now attempt inputs) tr (Some r) →
  (net, advertise, local, boot) ∈ tr ≫= starts_with →
  Enrolled boot = true ∧ 2 ≤ MaxHost net ∧
  Forall (λ p, Overlaps p net = false) (s_AllowedIPs s) ∧
  m_AllowedIPs (n_Meta local) = masked (s_AllowedIPs s) ∧
  ∃ host, Host boot = Ok host ∧ Addr_of net host = Some (m_OverlayAddr (n_Meta local)).
Proof.
  intros Hr Hin. unfold Run in Hr.
  apply runs_event in Hr as ([hostname|] & tr1 & -> & Hr); [|never_starts].
  apply runs_event in Hr as ([boot0|] & tr2 & -> & Hr); [|never_starts].
  destruct (bootstrap _ _ _ _ _ _) as [[[joinAddrs|e] boot']|]; [|never_starts|by destruct Hr].
  destruct (Enrolled boot') eqn:Een; cbn [negb] in Hr.
  2: { unfold idle in Hr. apply runs_event in Hr as (? & ? & -> & Hr).
       apply runs_event in Hr as ([] & ? & -> & Hr). apply runs_event in Hr as (? & ? & -> & Hr). never_starts. }
  unfold run_member in Hr. apply runs_event in Hr as (addrs & tr3 & -> & Hr).
  destruct (advertiseAddr _ _) as [adv|]; [|never_starts].
  destruct (settleOverlayNet s _) as [[[]|] s'] eqn:Es; [|never_starts].
  destruct (Host boot') as [host|] eqn:Eh; [|never_starts].
  destruct (Addr_of _ _) as [addr|] eqn:Ea; [|never_starts].
  apply runs_event in Hr as ([wgkey|] & tr4 & -> & Hr); [|never_starts].
  assert (Hs : s_AllowedIPs s' = s_AllowedIPs s ∧ checkOverlayNet (s_OverlayNet s') (s_AllowedIPs s') = Ok ())
    by (unfold settleOverlayNet in Es; by injection Es as H1 <-).
  destruct Hs as [Hs Hcheck].
  assert (Heq : (net, advertise, local, boot) =
    (s_OverlayNet s', adv, localNode s' hostname addr wgkey, boot')).
  { unfold start_agent in Hr. apply runs_event in Hr as (cl & tr5 & -> & Hr).
    assert (Htail : tr5 ≫= starts_with = []).
    2: { assert (Hin' : (net, advertise, local, boot) ∈
           (s_OverlayNet s', adv, localNode s' hostname addr wgkey, boot') :: (tr5 ≫= starts_with)) by exact Hin.
         rewrite Htail in Hin'. by apply list_elem_of_singleton. }
    destruct cl as [[]|]; [|by destruct Hr as [-> _]].
    apply runs_event in Hr as ([[]|] & tr6 & -> & Hr); [exact (serve_agent_starts _ _ _ _ _ Hr)|].
    by apply runs_event in Hr as ([] & ? & -> & [-> _]). }
  injection Heq as -> -> -> ->. rewrite Hs in Hcheck.
  apply checkOverlayNet_spec in Hcheck as [Hroom Hclear].
  split_and!; [done|done|done|cbn; by rewrite Hs|by exists host].
Qed.

(** ** Example: [bob] starts a cluster of its own, and then leaves it *)

#[local] Existing Instance Toy.toy.

Abbreviation bob_runs := (Run plain_settings [] 200 ann_admits [CtxDone]).

Lemma bob_run :
  ∃ tr, runs bob_runs tr (Some (Ok ())) ∧
    (tr ≫= starts_with).*1.*2 = [localNode plain_settings (str "bob") (A4 0x0A010001) (str "wgkey")] ∧
    marks tr = [MWireguard true; MNew true; MListen true; MLeave; MDown true; MForget; MDone; MClose].
Proof.
  eexists. split.
  - exists (Ok (str "bob")). eexists. split; [reflexivity|].
    exists (Ok bob_boot). eexists. split; [reflexivity|].
    exists []. eexists. split; [reflexivity|].
    exists (Ok (str "wgkey")). eexists. split; [reflexivity|].
    exists (Ok ()). eexists. split; [reflexivity|].
    exists (Ok ()). eexists. split; [reflexivity|].
    exists true. eexists. split; [reflexivity|].
    exists true. eexists. split; [reflexivity|].
    exists (). eexists. split; [reflexivity|].
    exists true. eexists. split; [reflexivity|].
    exists true. eexists. split; [reflexivity|].
    exists (Ok ()). eexists. split; [reflexivity|].
    exists (). eexists. split; [reflexivity|].
    exists (). eexists. split; [reflexivity|].
    split; reflexivity.
  - split; vm_compute; reflexivity.
Qed.

(** A leave that comes while the agent still joins is carried out without the
    interface being taken down, and without an error. *)
Example leave_while_joining :
  ∃ tr, runs bob_runs tr (Some (Ok ())) ∧
    marks tr = [MWireguard true; MNew true; MListen true; MLeave; MForget; MDone; MClose].
Proof.
  eexists. split.
  - exists (Ok (str "bob")). eexists. split; [reflexivity|].
    exists (Ok bob_boot). eexists. split; [reflexivity|].
    exists []. eexists. split; [reflexivity|].
    exists (Ok (str "wgkey")). eexists. split; [reflexivity|].
    exists (Ok ()). eexists. split; [reflexivity|].
    exists (Ok ()). eexists. split; [reflexivity|].
    exists false. eexists. split; [reflexivity|].
    exists (). eexists. split; [reflexivity|].
    exists true. eexists. split; [reflexivity|].
    exists (Ok ()). eexists. split; [reflexivity|].
    exists (). eexists. split; [reflexivity|].
    exists (). eexists. split; [reflexivity|].
    split; reflexivity.
  - vm_compute. reflexivity.
Qed.

Lemma Run_shape_witness :
  ∃ tr forget, runs bob_runs tr (Some (Ok ())) ∧ forgets tr forget ∧ marks tr ≠ [].
Proof.
  destruct bob_run as (tr & Hr & _ & Hm).
  destruct (Run_shape plain_settings [] 200 ann_admits [CtxDone] tr (Ok ())) as [E|[E|[E|[E|H]]]];
    [set_solver|exact Hr|rewrite Hm in E; discriminate..|].
  destruct H as (forget & Hf & _). exists tr, forget. split_and!; [exact Hr|exact Hf|].
  rewrite Hm. discriminate.
Defined.

Lemma Run_starts_sound_witness :
  ∃ tr net adv local boot, runs bob_runs tr (Some (Ok ())) ∧
    (net, adv, local, boot) ∈ tr ≫= starts_with ∧ 2 ≤ MaxHost net.
Proof.
  destruct bob_run as (tr & Hr & Hl & _).
  destruct (tr ≫= starts_with) as [|[[[net adv] local] boot] l] eqn:E; [discriminate|].
  assert (Hin : (net, adv, local, boot) ∈ tr ≫= starts_with) by (rewrite E; left).
  exists tr, net, adv, local, boot. split; [exact Hr|]. rewrite E in *. split; [exact Hin|].
  rewrite <- E in Hin.
  destruct (Run_starts_sound plain_settings [] 200 ann_admits [CtxDone] tr (Ok ()) net adv local boot Hr Hin)
    as (_ & H & _). exact H.
Defined.
