(* ===== verification/ConfigFile.v ===== *)
(** * ConfigFile: the configuration file (internal/cli/config.go, configcmd.go)

    The file is keyed by interface name; a command acts under one section, the
    one its command line names or the only one there is. Here: which section
    that is, what a flag resolves to, which files are refused, and what the
    [config] command prints and writes. YAML is a class; kong, which asks for
    the flags, is the caller. *)

From S2P Require Import Prelude Netip Overlay Identity State GoNet GoTime GoStrings Prog Enrol Hosts Agent.

(** [gopkg.in/yaml.v3]: decoded values, of which the source looks at mappings. *)
Class Yaml := {
  any : Type;
  mapping : any → option (gmap bytes any);         (* v.(map[string]any) *)
  yaml_Decode : bytes → result (option (gmap bytes any));  (* None: io.EOF *)
}.

Definition configCmdName : bytes := str "config".

(** [commandLineOnly] and [notSettings]. *)
Definition commandLineOnly : list bytes := [str "join-key"; str "config"].
Definition notSettings : list bytes := [str "help"; str "version"; str "init"].

Section Config.
Context {yaml : Yaml}.

(** A section, and the whole file. *)
Abbreviation values := (gmap bytes any).
Abbreviation sections := (gmap bytes values).

(** [parseSections]'s loop over the file, in the order Go happens to take. *)
Fixpoint parse_entries (order : list (bytes * any)) (acc : sections) : result sections :=
  match order with
  | [] => Ok acc
  | (name, v) :: order =>
      match mapping v with
      | None => Err "config: %q is not an interface section"
      | Some section =>
          if decide (is_Some (section !! str "interface")) then
            Err "config: interface cannot be set: the section name is the interface"
          else parse_entries order (<[name := section]> acc)
      end
  end.

Definition parseSections (content : bytes) (iterate : gmap bytes any → list (bytes * any)) : result sections :=
  match yaml_Decode content with
  | Err _ => Err "parsing config"
  | Ok None => Ok ∅
  | Ok (Some file) => parse_entries (iterate file) ∅
  end.

(** [interfaceArg] *)
Fixpoint interfaceArg (args : list bytes) : bytes :=
  match args with
  | [] => []
  | arg :: args =>
      let flag := str "--interface=" in
      if decide (take (length flag) arg = flag) then drop (length flag) arg
      else
        match args with
        | next :: _ => if decide (arg = str "--interface") then next else interfaceArg args
        | [] => interfaceArg args
        end
  end.

Definition selectSection (file : sections) (iface : bytes) : bytes * values * bool :=
  if negb (bool_decide (iface = [])) then (iface, default ∅ (file !! iface), false)
  else
    match map_to_list file with
    | [] => ([], ∅, false)
    | [(name, section)] => (name, section, false)
    | _ => ([], ∅, true)
    end.

Record configResolver := MkResolver {
  cr_sections : sections;
  cr_iface : bytes;
  cr_values : values;
  cr_ambiguous : bool;
}.

(** [configLoader] *)
Definition configLoader (iface : bytes) (content : bytes) (iterate : gmap bytes any → list (bytes * any))
    : result configResolver :=
  match parseSections content iterate with
  | Err e => Err e
  | Ok file =>
      let '(name, section, ambiguous) := selectSection file iface in
      Ok (MkResolver file name section ambiguous)
  end.

(** What a flag resolves to: the interface's name, or a value of the file. *)
Inductive resolvedValue := InterfaceName (name : bytes) | FileValue (v : any).

(** [Resolve]; [dumps] is [dumpsEverySection]. *)
Definition dumpsEverySection (selected : option bytes) : bool := bool_decide (selected = Some configCmdName).

Definition Resolve (c : configResolver) (selected : option bytes) (flag : bytes)
    : result (option resolvedValue) :=
  if decide (flag = str "interface") then
    if cr_ambiguous c && negb (dumpsEverySection selected) then
      Err "the config file has sections for %s; say which one this command acts on"
    else if decide (cr_iface c = []) then Ok None
    else Ok (Some (InterfaceName (cr_iface c)))
  else
    match cr_values c !! flag with
    | None => Ok None
    | Some v =>
        if decide (flag ∈ commandLineOnly) then Err "config: %q cannot be set in the config file"
        else Ok (Some (FileValue v))
    end.

(** [Validate]: every key of every section, the sections by name, the keys in
    any order. *)
Fixpoint check_keys (known : list bytes) (keys bad : list bytes) : result (list bytes) :=
  match keys with
  | [] => Ok bad
  | key :: keys =>
      if decide (key ∈ commandLineOnly) then Err "config: %q cannot be set in the config file"
      else if negb (bool_decide (key ∈ known)) || bool_decide (key ∈ notSettings) then
        check_keys known keys (bad ++ [key])
      else check_keys known keys bad
  end.

Fixpoint check_sections (known : list bytes) (l : list (list bytes)) (bad : list bytes) : result (list bytes) :=
  match l with
  | [] => Ok bad
  | keys :: l =>
      match check_keys known keys bad with
      | Err e => Err e
      | Ok bad => check_sections known l bad
      end
  end.

Definition resolver_Validate (c : configResolver) (known : list bytes)
    (order : sections → list (list bytes)) : result unit :=
  match check_sections known (order (cr_sections c)) [] with
  | Err e => Err e
  | Ok bad => if negb (bool_decide (bad = [])) then Err "config: unknown setting(s) %s" else Ok ()
  end.
End Config.

(** ** The [config] command *)

(** A section as it is written; what is empty is left out. *)
Record section := MkSection {
  se_Join : list bytes;
  se_BindAddr : bytes;
  se_ClusterPort : Z;
  se_WireguardPort : Z;
  se_OverlayNet : bytes;
  se_AllowedIPs : list bytes;
  se_MTU : Z;
  se_PersistentKeepalive : bytes;
  se_NoEtcHosts : bool;
  se_Userspace : bool;
  se_ControlSocket : bytes;
  se_LogLevel : bytes;
}.

Definition emptySection : section := MkSection [] [] 0 0 [] [] 0 [] false false [] [].

(** [defaultSettings], from the tags of [settings]. *)
Definition DefaultInterface : bytes := str "wgcloth".
Definition DefaultLogLevel : bytes := str "warn".
Definition defaultSettings : settings :=
  MkSettings [] (A4 0) 7946 51820 zeroPrefix [] DefaultInterface 1420 0 false false [].

(** [Prefix.String] *)
Definition Prefix_String (p : Prefix) : bytes :=
  if Prefix_IsValid p then Addr_String (pfx_Addr p) ++ str "/" ++ Itoa (Bits p) else str "invalid Prefix".

Section Command.

Definition sectionFor (c : settings) (logLevel : bytes) : section :=
  let def := defaultSettings in
  MkSection (s_Join c)
    (if decide (s_BindAddr c = s_BindAddr def) then [] else Addr_String (s_BindAddr c))
    (if decide (s_ClusterPort c = s_ClusterPort def) then 0 else s_ClusterPort c)
    (if decide (s_WireguardPort c = s_WireguardPort def) then 0 else s_WireguardPort c)
    (if Prefix_IsValid (s_OverlayNet c) then Prefix_String (Masked (s_OverlayNet c)) else [])
    (map Prefix_String (s_AllowedIPs c))
    (if decide (s_MTU c = s_MTU def) then 0 else s_MTU c)
    (if decide (s_PersistentKeepalive c = s_PersistentKeepalive def) then []
     else Duration_String (s_PersistentKeepalive c))
    (s_NoEtcHosts c) (s_Userspace c) (s_ControlSocket c)
    (if decide (logLevel = DefaultLogLevel) then [] else logLevel).

(** [givenHere] *)
#[export] Instance section_eq_dec : EqDecision section.
Proof. solve_decision. Defined.
Definition givenHere (c : settings) (logLevel : bytes) : bool :=
  negb (bool_decide (sectionFor c logLevel = emptySection)).

(** A section with the overlay network the cluster told, where it has none. *)
Definition fill_overlay (s : section) (known : option Prefix) : section :=
  match se_OverlayNet s, known with
  | [], Some net =>
      MkSection (se_Join s) (se_BindAddr s) (se_ClusterPort s) (se_WireguardPort s) (Prefix_String net)
        (se_AllowedIPs s) (se_MTU s) (se_PersistentKeepalive s) (se_NoEtcHosts s) (se_Userspace s)
        (se_ControlSocket s) (se_LogLevel s)
  | _, _ => s
  end.

(** [render], to its call of [encode]. *)
Definition render (c : settings) (logLevel : bytes) (known : option Prefix) : bytes * section :=
  (s_Interface c, fill_overlay (sectionFor c logLevel) known).

(** [dump]: the sections printed. [read] is [readSections], [typed] types its
    sections and [known] is [KnownOverlayNet] of each interface. *)
Definition renderAll {V} (file : gmap bytes V) (typed : V → result section) (known : bytes → option Prefix)
    : result (gmap bytes section) :=
  map_fold (λ name v acc,
    match acc with
    | Err e => Err e
    | Ok out =>
        match typed v with
        | Err _ => Err "reading the section"
        | Ok s => Ok (<[name := fill_overlay s (known name)]> out)
        end
    end) (Ok ∅) file.

Definition dump {V} (c : settings) (logLevel ifaceArg : bytes) (read : result (gmap bytes V))
    (typed : V → result section) (known : bytes → option Prefix) : result (gmap bytes section) :=
  let one := let '(name, s) := render c logLevel (known (s_Interface c)) in Ok {[name := s]} in
  if negb (bool_decide (ifaceArg = [])) then one
  else
    match read with
    | Err e => Err e
    | Ok file =>
        if (size file <=? 1)%nat then one
        else if givenHere c logLevel then Err "the settings given here belong to one interface"
        else renderAll file typed known
    end.
End Command.

(** [appendSection]: what is written after [existing]. *)
Definition appendSection (existing rendered : bytes) : bytes :=
  let lead :=
    match last existing with
    | None => []
    | Some c => if decide (c ≠ nl) then [nl; nl] else [nl]
    end in
  lead ++ rendered.

(** [write]: the new contents of the file. [existing] is what reading it gave,
    and [taken] whether that has a section for the interface. *)
Definition write (existing : result (option bytes)) (taken : bytes → result bool) (rendered : bytes)
    : result bytes :=
  match existing with
  | Err e => Err e
  | Ok content =>
      let existing := default [] content in
      match taken existing with
      | Err e => Err e
      | Ok true => Err "already has a section"
      | Ok false => Ok (existing ++ appendSection existing rendered)
      end
  end.

(** ** Which settings apply *)

Section Props.
Context {yaml : Yaml}.

Lemma selectSection_spec (file : gmap bytes (gmap bytes any)) iface name vs ambiguous :
  selectSection file iface = (name, vs, ambiguous) →
  (iface ≠ [] → name = iface ∧ ambiguous = false ∧ vs = default ∅ (file !! iface)) ∧
  (iface = [] →
    (file = ∅ ∧ name = [] ∧ vs = ∅ ∧ ambiguous = false) ∨
    (file = {[name := vs]} ∧ ambiguous = false) ∨
    ((1 < size file)%nat ∧ name = [] ∧ vs = ∅ ∧ ambiguous = true)).
Proof.
  unfold selectSection. intros H. split.
  - intros Hne. rewrite bool_decide_eq_false_2 in H by done. cbn in H. by injection H as <- <- <-.
  - intros ->. cbn in H. pose proof (length_map_to_list file) as Hsz.
    pose proof (list_to_map_to_list file) as Hf.
    destruct (map_to_list file) as [|[n s] [|p l]]; injection H as <- <- <-; cbn in Hf, Hsz.
    + left. by split_and!.
    + right. left. by rewrite insert_empty in Hf.
    + right. right. split_and!; [|done..]. lia.
Qed.

(** C39: every setting a command takes from the file is one of the section of the
    interface it acts on, which is the one named on the command line or the
    only one there is; a value that must not be in the file is never taken.
    (A section whose name is empty gives its values but no name.) *)
Theorem Resolve_own_section args content iterate c selected flag v :
  configLoader (interfaceArg args) content iterate = Ok c →
  Resolve c selected flag = Ok (Some v) →
  match v with
  | InterfaceName name => flag = str "interface" ∧ name = cr_iface c
  | FileValue v =>
      flag ∉ commandLineOnly ∧
      ∃ s, cr_sections c !! cr_iface c = Some s ∧ s !! flag = Some v ∧
        (if decide (interfaceArg args = []) then cr_sections c = {[cr_iface c := s]}
         else cr_iface c = interfaceArg args) ∧
        (cr_iface c ≠ [] → Resolve c selected (str "interface") = Ok (Some (InterfaceName (cr_iface c))))
  end.
Proof.
  unfold configLoader. destruct (parseSections content iterate) as [file|]; [|done].
  destruct (selectSection file (interfaceArg args)) as [[name vs] amb] eqn:E. intros [= <-].
  apply selectSection_spec in E as [Hnamed Hsingle]. unfold Resolve. cbn [cr_ambiguous cr_iface cr_values cr_sections].
  destruct (decide (flag = str "interface")) as [->|Hf].
  { destruct (amb && _); [done|]. case_decide; [done|]. by intros [= <-]. }
  destruct (vs !! flag) as [w|] eqn:Ew; [|done]. case_decide as Hc; [done|]. intros [= <-].
  split; [done|]. rewrite decide_True by done.
  assert (Hs : file !! name = Some vs ∧ amb = false ∧
    (if decide (interfaceArg args = []) then file = {[name := vs]} else name = interfaceArg args)).
  { case_decide as Hi.
    - destruct (Hsingle Hi) as [(_ & _ & -> & _)|[[-> ->]|(_ & _ & -> & _)]]; [done| |done].
      by rewrite lookup_singleton_eq.
    - destruct (Hnamed Hi) as (-> & -> & ->). split_and!; [|done|done].
      destruct (file !! interfaceArg args) eqn:El; [done|]. cbn in Ew. by rewrite lookup_empty in Ew. }
  destruct Hs as (Hs & -> & Hd). exists vs. split_and!; [done|done|done|].
  intros Hne. by rewrite decide_False.
Qed.

(** Several sections and nothing to choose between them: every command but
    [config] is refused, and [config] resolves nothing from the file. *)
Theorem Resolve_ambiguous args content iterate c selected flag :
  configLoader (interfaceArg args) content iterate = Ok c →
  interfaceArg args = [] → (1 < size (cr_sections c))%nat →
  is_ok (Resolve c selected (str "interface")) = bool_decide (selected = Some configCmdName) ∧
  (flag ≠ str "interface" → Resolve c selected flag = Ok None).
Proof.
  unfold configLoader. destruct (parseSections content iterate) as [file|]; [|done].
  destruct (selectSection file (interfaceArg args)) as [[name vs] amb] eqn:E. intros [= <-] Hi Hsz.
  apply selectSection_spec in E as [_ Hsingle]. cbn in Hsz.
  destruct (Hsingle Hi) as [(-> & _)|[[-> _]|(_ & -> & -> & ->)]].
  - rewrite map_size_empty in Hsz. lia.
  - rewrite map_size_singleton in Hsz. lia.
  - unfold Resolve. cbn. rewrite decide_True by done. unfold dumpsEverySection. split.
    + repeat case_bool_decide; cbn; try case_decide; done.
    + intros Hf. by rewrite decide_False, lookup_empty.
Qed.

(** [check_keys] on all keys: what must hold of each. *)
Definition key_ok (known : list bytes) (key : bytes) : Prop :=
  key ∈ known ∧ key ∉ notSettings ∧ key ∉ commandLineOnly.

Lemma check_keys_spec known keys bad :
  check_keys known keys bad = Ok [] ↔ bad = [] ∧ Forall (key_ok known) keys.
Proof.
  revert bad. induction keys as [|key keys IH]; intros bad; cbn.
  - split; [by intros [= ->]|by intros [-> _]].
  - rewrite Forall_cons. unfold key_ok at 1. case_decide as Hc; [split; [done|tauto]|].
    destruct (bool_decide_reflect (key ∈ known)) as [Hk|Hk];
      destruct (bool_decide_reflect (key ∈ notSettings)) as [Hn|Hn]; cbn; rewrite IH; try tauto.
    all: split; [intros [E _]; by destruct bad|tauto].
Qed.

Lemma check_sections_spec known l bad :
  check_sections known l bad = Ok [] ↔ bad = [] ∧ Forall (Forall (key_ok known)) l.
Proof.
  revert bad. induction l as [|keys l IH]; intros bad; cbn.
  - split; [by intros [= ->]|by intros [-> _]].
  - rewrite Forall_cons. destruct (check_keys known keys bad) as [bad'|e] eqn:E.
    + rewrite IH. split.
      * intros [-> Hl]. apply check_keys_spec in E. tauto.
      * intros (-> & Hk & Hl). assert (E' : check_keys known keys [] = Ok []) by by apply check_keys_spec.
        rewrite E' in E. by injection E as <-.
    + split; [done|]. intros (-> & Hk & Hl).
      assert (E' : check_keys known keys [] = Ok []) by by apply check_keys_spec. by rewrite E' in E.
Qed.

(** A file is accepted exactly if every key of every section, also of those
    not selected, is the name of a flag that is a setting and may be written
    down; in what order Go visits the sections and keys does not matter. *)
Theorem resolver_Validate_spec c known order :
  (∀ key, (∃ keys, keys ∈ order (cr_sections c) ∧ key ∈ keys) ↔
    ∃ name s, cr_sections c !! name = Some s ∧ is_Some (s !! key)) →
  resolver_Validate c known order = Ok () ↔
    ∀ name s key, cr_sections c !! name = Some s → is_Some (s !! key) → key_ok known key.
Proof.
  intros Ho. unfold resolver_Validate.
  assert (Hall : check_sections known (order (cr_sections c)) [] = Ok [] ↔
    ∀ name s key, cr_sections c !! name = Some s → is_Some (s !! key) → key_ok known key).
  { rewrite check_sections_spec. split.
    - intros [_ Hf] name s key Hs Hk. rewrite Forall_forall in Hf.
      destruct (proj2 (Ho key)) as (keys & Hin & Hkey); [eauto|].
      specialize (Hf _ Hin). rewrite Forall_forall in Hf. auto.
    - intros H. split; [done|]. apply Forall_forall. intros keys Hin. apply Forall_forall. intros key Hkey.
      destruct (proj1 (Ho key)) as (name & s & ? & ?); eauto. }
  rewrite <- Hall. destruct (check_sections _ _ _) as [bad|e]; [|done].
  destruct (bool_decide_reflect (bad = [])) as [->|Hne]; cbn; [done|]. split; [done|]. by intros [= ->].
Qed.
End Props.

(** ** Writing settings down *)

Lemma digits_fuel_ne fuel b n acc : (0 < fuel)%nat ∨ acc ≠ [] → digits_fuel fuel b n acc ≠ [].
Proof.
  revert n acc. induction fuel as [|fuel IH]; intros n acc [H|H]; cbn [digits_fuel]; try lia; try done;
    case_match; try done; apply IH; by right.
Qed.
Lemma FormatUint_ne b n : FormatUint b n ≠ [].
Proof. apply digits_fuel_ne. left. lia. Qed.

Lemma app_ne_l {A} (l1 l2 : list A) : l1 ≠ [] → l1 ++ l2 ≠ [].
Proof. by destruct l1. Qed.
Lemma app_ne_r {A} (l1 l2 : list A) : l2 ≠ [] → l1 ++ l2 ≠ [].
Proof. by destruct l1, l2. Qed.
#[local] Hint Resolve FormatUint_ne app_ne_l app_ne_r : nonempty.

Lemma groups6_ne f v run i : (i < 8)%nat → groups6 (S f) v run i ≠ [].
Proof.
  intros Hi. cbn [groups6]. rewrite (proj2 (Nat.leb_gt 8 i)) by lia.
  destruct run as [[s e]|]; [destruct (Nat.eqb i s)|]; auto with nonempty.
Qed.

Lemma Addr_String_ne a : Addr_String a ≠ [].
Proof.
  destruct a as [|v|v z]; cbn [Addr_String]; [done| |].
  - unfold string4, octet. auto with nonempty.
  - apply app_ne_l. destruct (Is4In6 _); [auto with nonempty|]. apply groups6_ne. lia.
Qed.

Lemma Prefix_String_ne p : Prefix_String p ≠ [].
Proof. unfold Prefix_String. destruct (Prefix_IsValid p); [apply app_ne_l, Addr_String_ne|done]. Qed.

(** The settings of the defaults, as far as a section holds them: the interface
    is the section's name. A port given as 0 counts as not given. *)
Record at_defaults (c : settings) (logLevel : bytes) : Prop := {
  ad_Join : s_Join c = [];
  ad_BindAddr : s_BindAddr c = s_BindAddr defaultSettings;
  ad_ClusterPort : s_ClusterPort c = s_ClusterPort defaultSettings ∨ s_ClusterPort c = 0;
  ad_WireguardPort : s_WireguardPort c = s_WireguardPort defaultSettings ∨ s_WireguardPort c = 0;
  ad_OverlayNet : Prefix_IsValid (s_OverlayNet c) = false;
  ad_AllowedIPs : s_AllowedIPs c = [];
  ad_MTU : s_MTU c = s_MTU defaultSettings;
  ad_PersistentKeepalive : s_PersistentKeepalive c = 0;
  ad_flags : s_NoEtcHosts c = false ∧ s_Userspace c = false ∧ s_ControlSocket c = [];
  ad_LogLevel : logLevel = DefaultLogLevel ∨ logLevel = [];
}.

Lemma blank_if {A} `{EqDecision A} (x d : A) (b : bytes) :
  b ≠ [] → (if decide (x = d) then [] else b) = [] ↔ x = d.
Proof. intros Hb. case_decide; tauto. Qed.

(** [config] without [--interface], where the file has several sections,
    refuses the settings given on its command line exactly if one differs from
    its default; a port given as 0 is not noticed, though it differs. *)
Theorem givenHere_spec c logLevel :
  settings_check c = Ok () →
  givenHere c logLevel = false ↔ at_defaults c logLevel.
Proof.
  intros Hc. assert (576 ≤ s_MTU c ∧ 0 ≤ s_PersistentKeepalive c ≤ 65535 * Second) as [Hmtu Hka].
  { unfold settings_check, Second in *. destruct (if Prefix_IsValid _ then _ else _) as [[]|]; [|done].
    destruct (Z.ltb_spec (s_MTU c) 576); [done|]. destruct (65535 <? s_MTU c); [done|]. cbn in Hc.
    destruct (Z.eqb_spec (s_PersistentKeepalive c) 0); cbn in Hc; [lia|].
    destruct (Z.ltb_spec (s_PersistentKeepalive c) 1000000000); [done|]. cbn in Hc.
    destruct (Z.ltb_spec (65535 * 1000000000) (s_PersistentKeepalive c)); [done|]. lia. }
  unfold givenHere. rewrite negb_false_iff, bool_decide_eq_true. unfold sectionFor, emptySection.
  split.
  - intros [= H1 H2 H3 H4 H5 H6 H7 H8 H9 H10 H11 H12].
    rewrite blank_if in H2 by apply Addr_String_ne. rewrite blank_if in H8 by (apply Duration_String_ne; unfold Second in *; lia).
    split; auto.
    + by destruct (decide (s_ClusterPort c = 7946)); [left|right].
    + by destruct (decide (s_WireguardPort c = 51820)); [left|right].
    + destruct (Prefix_IsValid (s_OverlayNet c)); [by apply Prefix_String_ne in H5|done].
    + by apply map_eq_nil in H6.
    + destruct (decide (s_MTU c = 1420)); [done|lia].
    + by destruct (decide (logLevel = DefaultLogLevel)); [left|right].
  - intros [-> -> Hp Hw -> -> -> -> (-> & -> & ->) Hl]. cbn. f_equal.
    + case_decide; [done|]. by destruct Hp.
    + case_decide; [done|]. by destruct Hw.
    + case_decide; [done|]. by destruct Hl.
Qed.

(** What [config --init] writes is added to the file: what it held stays as it
    is, a blank line separates the two, and a section that exists is never
    written again. *)
Theorem write_appends content taken rendered new :
  write (Ok content) taken rendered = Ok new →
  let old := default [] content in
  taken old = Ok false ∧
  ∃ lead, new = old ++ lead ++ rendered ∧
    (old = [] → lead = []) ∧ (old ≠ [] → ∃ body, old ++ lead = body ++ [nl; nl]).
Proof.
  unfold write. set (old := default [] content). destruct (taken old) as [[]|]; [done| |done].
  intros [= <-]. split; [done|]. unfold appendSection.
  destruct old as [|c old'] eqn:Eo using rev_ind; [exists []; by rewrite ?app_nil_l|].
  clear IHold'. rewrite last_snoc. case_decide as Hn.
  - exists [nl; nl]. split_and!; [done| |].
    + intros H. by apply app_eq_nil in H as [_ H].
    + intros _. by exists (old' ++ [c]).
  - assert (c = nl) as -> by (destruct (decide (c = nl)); [done|]; by destruct Hn).
    exists [nl]. split_and!; [done| |].
    + intros H. by apply app_eq_nil in H as [_ H].
    + intros _. exists old'. by rewrite <- app_assoc.
Qed.

(** ** Examples *)

(** A YAML whose files are in memory: one text, two sections. *)
Module ToyYaml.
Inductive node := Scalar (b : bytes) | Mapping (l : gmap bytes bytes).
#[export] Instance yaml : Yaml := {
  any := node;
  mapping v :=
    match v with Mapping l => Some (Scalar <$> l) | Scalar _ => None end;
  yaml_Decode b := Ok (Some (list_to_map
    [(str "wg0", Mapping {[str "mtu" := str "1300"]}); (str "wg1", Mapping {[str "mtu" := str "1400"]})]));
}.
End ToyYaml.

#[local] Existing Instance ToyYaml.yaml.

Definition two_sections : gmap bytes (gmap bytes any) :=
  {[str "wg0" := {[str "mtu" := ToyYaml.Scalar (str "1300")]};
    str "wg1" := {[str "mtu" := ToyYaml.Scalar (str "1400")]}]}.
Definition wg1_resolver : configResolver :=
  MkResolver two_sections (str "wg1") {[str "mtu" := ToyYaml.Scalar (str "1400")]} false.

(** The arguments' value of a flag, if it is one of the file. *)
Definition file_value (args : list bytes) (flag : bytes) : option any :=
  match configLoader (interfaceArg args) [] map_to_list with
  | Ok c => match Resolve c None flag with Ok (Some (FileValue v)) => Some v | _ => None end
  | Err _ => None
  end.

Lemma Resolve_own_section_witness :
  ∃ c v s, configLoader (str "wg1") [] map_to_list = Ok c ∧ cr_sections c !! str "wg1" = Some s ∧
    s !! str "mtu" = Some v.
Proof.
  set (args := [str "status"; str "--interface=wg1"]).
  assert (Ha : interfaceArg args = str "wg1") by (vm_compute; reflexivity).
  assert (E : (if file_value args (str "mtu") then true else false) = true) by (vm_compute; reflexivity).
  unfold file_value in E. destruct (configLoader (interfaceArg args) [] map_to_list) as [c|] eqn:El; [|discriminate E].
  destruct (Resolve c None (str "mtu")) as [[[name|w]|]|] eqn:Er; try discriminate E.
  destruct (Resolve_own_section args [] map_to_list c None (str "mtu") (FileValue w) El Er)
    as (_ & s & H1 & H2 & H3 & _).
  rewrite decide_False in H3 by (rewrite Ha; apply (bool_decide_unpack (str "wg1" ≠ [])); exact I). rewrite Ha in *.
  rewrite H3 in H1. exists c, w, s. split; [exact El|]. split; [exact H1|exact H2].
Defined.

Lemma Resolve_ambiguous_witness :
  ∃ c, configLoader (interfaceArg [str "status"]) [] map_to_list = Ok c ∧
    is_ok (Resolve c (Some (str "status")) (str "interface")) = false.
Proof.
  assert (E : (match configLoader (interfaceArg [str "status"]) [] map_to_list with
    Ok c => (1 <? size (cr_sections c))%nat | Err _ => false end) = true) by (vm_compute; reflexivity).
  destruct (configLoader (interfaceArg [str "status"]) [] map_to_list) as [c|] eqn:El; [|discriminate E].
  exists c. split; [reflexivity|]. apply Nat.ltb_lt in E.
  destruct (Resolve_ambiguous [str "status"] [] map_to_list c (Some (str "status")) (str "mtu") El) as [H _];
    [vm_compute; reflexivity|exact E|].
  rewrite H. vm_compute. reflexivity.
Defined.

Definition section_keys (file : gmap bytes (gmap bytes any)) : list (list bytes) :=
  map (λ ns, (map_to_list ns.2).*1) (map_to_list file).

Lemma section_keys_all file key :
  (∃ keys, keys ∈ section_keys file ∧ key ∈ keys) ↔ ∃ name s, file !! name = Some s ∧ is_Some (s !! key).
Proof.
  unfold section_keys. split.
  - intros (keys & ([name s] & -> & Hin)%list_elem_of_fmap & ([k v] & -> & Hk)%list_elem_of_fmap).
    exists name, s. split; [by apply elem_of_map_to_list|]. exists v. by apply elem_of_map_to_list.
  - intros (name & s & Hs & v & Hv). exists (map_to_list s).*1. split.
    + apply list_elem_of_fmap. exists (name, s). split; [done|]. by apply elem_of_map_to_list.
    + apply list_elem_of_fmap. exists (key, v). split; [done|]. by apply elem_of_map_to_list.
Qed.

Lemma resolver_Validate_spec_witness :
  resolver_Validate wg1_resolver [str "mtu"] section_keys = Ok () ∧
  key_ok [str "mtu"] (str "mtu").
Proof.
  assert (Hv : resolver_Validate wg1_resolver [str "mtu"] section_keys = Ok ()) by (vm_compute; reflexivity).
  split; [exact Hv|].
  apply (proj1 (resolver_Validate_spec wg1_resolver [str "mtu"] section_keys (section_keys_all two_sections)) Hv
    (str "wg1") {[str "mtu" := ToyYaml.Scalar (str "1400")]}).
  - cbn [cr_sections wg1_resolver]. unfold two_sections. rewrite lookup_insert_ne by discriminate.
    apply lookup_singleton_eq.
  - rewrite lookup_singleton_eq. eexists. reflexivity.
Defined.

(** [config --cluster-port 0] prints nothing of it. *)
Definition free_port : settings :=
  MkSettings [] (A4 0) 0 51820 zeroPrefix [] DefaultInterface 1420 0 false false [].

Lemma givenHere_spec_witness :
  givenHere free_port DefaultLogLevel = false ∧ s_ClusterPort free_port ≠ s_ClusterPort defaultSettings.
Proof.
  split; [|done]. apply (givenHere_spec free_port DefaultLogLevel); [vm_compute; reflexivity|].
  split; vm_compute; auto.
Defined.

Lemma write_appends_witness :
  ∃ new, write (Ok (Some (str "# shipped"))) (λ _, Ok false) (str "wg0:") = Ok new ∧
    ∃ lead, new = str "# shipped" ++ lead ++ str "wg0:".
Proof.
  destruct (write (Ok (Some (str "# shipped"))) (λ _, Ok false) (str "wg0:")) as [new|e] eqn:E; [|discriminate].
  exists new. split; [reflexivity|].
  destruct (write_appends (Some (str "# shipped")) (λ _, Ok false) (str "wg0:") new E) as (_ & lead & H & _).
  exists lead. exact H.
Defined.
