(* ===== verification/ConfigRun.v ===== *)
(** * ConfigRun: the config command as a program (internal/cli/configcmd.go)

    Printing the settings, or adding them to the config file as a section:
    what is read, what is written, and that the file keeps what it held,
    wherever the command stops. *)

From S2P Require Import Prelude Netip Overlay Identity State GoNet GoTime GoStrings Prog Enrol Hosts Agent ConfigFile.

(** The typing of a section as the file holds it, by way of its YAML, and the
    encoding of sections. *)
Class YamlSections `{!Yaml} := {
  sectionOf : gmap bytes any → result section;
  encode : gmap bytes section → result bytes;
}.

Inductive configE : Type → Type :=
  | ReadConfig : configE read_file
  | MkdirConfig : configE (result unit)
  | OpenAppend : configE (result unit)         (* created if it is missing *)
  | Append (b : bytes) : configE nat           (* how much was written; all, or an error *)
  | CloseConfig : configE (result unit)
  | PrintOut (b : bytes) : configE (result unit)
  | PrintErr (b : bytes) : configE unit.

Section Run.
Context {yaml : Yaml} {ys : YamlSections}.
(** The flags; the overlay networks the state files know; the order in which
    Go walks a file's sections. *)
Variables (c : settings) (Init : bool) (logLevel ifaceArg path : bytes).
Variables (known : bytes → option Prefix) (iterate : gmap bytes any → list (bytes * any)).
Local Open Scope prog_scope.

Definition readSections (file : read_file) : result (gmap bytes (gmap bytes any)) :=
  match file with
  | NotExist => Ok ∅
  | Unreadable => Err "reading the config file"
  | Contents b => parseSections b iterate
  end.

Definition existing (file : read_file) : bytes := match file with Contents b => b | _ => [] end.

Definition wrote_note : bytes := str "wrote the " ++ s_Interface c ++ str " section to " ++ path ++ [nl].

(** [ConfigCmd.write] *)
Definition write_config (rendered : bytes) : prog configE (result unit) :=
  let* file := trigger ReadConfig in
  match file with
  | Unreadable => Ret (Err "reading the config file")
  | NotExist | Contents _ =>
      match parseSections (existing file) iterate with
      | Err e => Ret (Err e)
      | Ok sections =>
          if decide (is_Some (sections !! s_Interface c)) then Ret (Err "already has a section")
          else
            let*? _ := trigger MkdirConfig in
            let*? _ := trigger OpenAppend in
            let b := appendSection (existing file) rendered in
            let* n := trigger (Append b) in
            if decide (n < length b)%nat then
              let* _ := trigger CloseConfig in
              Ret (Err "writing the config file")
            else
              let* _ := trigger (PrintErr wrote_note) in
              let* err := trigger CloseConfig in
              let* _ := trigger CloseConfig in
              Ret err
      end
  end.

(** [encode] of [render]. *)
Definition render_bytes : result bytes :=
  let '(name, s) := render c logLevel (known (s_Interface c)) in encode {[name := s]}.

Definition ConfigCmd_Run : prog configE (result unit) :=
  if Init then
    match render_bytes with
    | Err e => Ret (Err e)
    | Ok rendered => write_config rendered
    end
  else
    let* file := if decide (ifaceArg = []) then trigger ReadConfig else Ret NotExist in
    match dump c logLevel ifaceArg (readSections file) sectionOf known with
    | Err e => Ret (Err e)
    | Ok out =>
        match encode out with
        | Err _ => Ret (Err "rendering the settings")
        | Ok rendered => trigger (PrintOut rendered)
        end
    end.

(** ** The file *)

(** What the file holds after an event, and what was read of it. *)
Definition file_after_event (content : bytes) (h : happened configE) : bytes :=
  match h with
  | Ev e x => match e in configE X return X → bytes with
              | Append b => λ n, content ++ take n b
              | _ => λ _, content
              end x
  end.
Definition file_then (content : bytes) (tr : list (happened configE)) : bytes := foldl file_after_event content tr.
(** The command reads what is there: nobody else changes the file meanwhile. *)
Definition reads_file (content : bytes) (h : happened configE) : Prop :=
  match h with
  | Ev e x => match e in configE X return X → Prop with
              | ReadConfig => λ file, existing file = content
              | _ => λ _, True
              end x
  end.

Lemma write_config_reaches content rendered tr :
  reaches (write_config rendered) tr → Forall (reads_file content) tr →
  file_then content tr = content ∨ ∃ k, file_then content tr = content ++ take k (appendSection content rendered).
Proof.
  intros H Hr. unfold write_config in H. cbn [bind trigger reaches] in H.
  destruct H as [->|(file & tr1 & -> & H)]; [by left|]. apply Forall_cons in Hr as [Hf Hr]. cbn in Hf.
  assert (file = Unreadable ∨ reaches (match parseSections content iterate with
      | Err e => Ret (Err e)
      | Ok sections =>
          if decide (is_Some (sections !! s_Interface c)) then Ret (Err "already has a section")
          else let*? _ := trigger MkdirConfig in
            let*? _ := trigger OpenAppend in
            let* n := trigger (Append (appendSection content rendered)) in
            if decide (n < length (appendSection content rendered))%nat then
              let* _ := trigger CloseConfig in Ret (Err "writing the config file")
            else
              let* _ := trigger (PrintErr wrote_note) in
              let* err := trigger CloseConfig in
              let* _ := trigger CloseConfig in Ret err
      end) tr1) as [->|H'].
  { rewrite <-Hf. destruct file; [by right|by left|by right]. }
  { rewrite H. by left. }
  clear H Hf. rename H' into H.
  destruct (parseSections content iterate) as [sections|e]; [|rewrite H; by left].
  case_decide; [rewrite H; by left|]. cbn [bind trigger reaches] in H.
  destruct H as [->|([[]|] & tr2 & -> & H)]; [by left| |rewrite H; by left]. cbn [bind trigger reaches] in H.
  destruct H as [->|([[]|] & tr3 & -> & H)]; [by left| |rewrite H; by left]. cbn [bind trigger reaches] in H.
  destruct H as [->|(n & tr4 & -> & H)]; [by left|]. right. exists n. cbn.
  case_decide; cbn [bind trigger reaches] in H.
  - destruct H as [->|(? & ? & -> & ->)]; done.
  - destruct H as [->|([] & ? & -> & [->|(? & ? & -> & [->|(? & ? & -> & ->)])])]; done.
Qed.

(** Whatever fails, and wherever it stops, the command keeps what the file
    held: it adds nothing unless [--init] was given, and then at most the new
    section, after a blank line. *)
Theorem config_keeps_file content tr :
  reaches ConfigCmd_Run tr → Forall (reads_file content) tr →
  file_then content tr = content ∨
  Init = true ∧ ∃ rendered k, render_bytes = Ok rendered ∧
    file_then content tr = content ++ take k (appendSection content rendered).
Proof.
  intros H Hr. unfold ConfigCmd_Run in H. destruct Init.
  - destruct render_bytes as [rendered|e]; [|rewrite H; by left].
    destruct (write_config_reaches content rendered tr H Hr) as [E|[k E]]; [by left|right]. split; [done|]. by exists rendered, k.
  - left. apply reaches_bind in H as [H|(tr1 & file & tr2 & -> & H1 & H)].
    + case_decide; [|by rewrite H]. destruct H as [->|(? & ? & -> & ->)]; done.
    + assert (tr1 = [] ∨ ∃ f, tr1 = [Ev ReadConfig f]) as E1.
      { case_decide; [right|left; by destruct H1 as [-> _]]. destruct H1 as (f & ? & -> & -> & _). by exists f. }
      assert (tr2 = [] ∨ ∃ b r, tr2 = [Ev (PrintOut b) r]) as E2.
      { destruct (dump _ _ _ _ _ _) as [out|e]; [|by left]. destruct (encode out) as [b|e]; [|by left].
        destruct H as [->|(r & t & -> & Ht)]; [by left|right]. cbn in Ht. subst t. by exists b, r. }
      destruct E1 as [->|[f ->]], E2 as [->|(b & r & ->)]; done.
Qed.

(** [--init] succeeds only with the whole section in the file, which had none
    for this interface. *)
Theorem config_init_writes content tr :
  Init = true → runs ConfigCmd_Run tr (Ok ()) → Forall (reads_file content) tr →
  ∃ rendered sections, render_bytes = Ok rendered ∧ parseSections content iterate = Ok sections ∧
    sections !! s_Interface c = None ∧ file_then content tr = content ++ appendSection content rendered.
Proof.
  intros Hi H Hr. unfold ConfigCmd_Run in H. rewrite Hi in H. destruct render_bytes as [rendered|e]; [|by destruct H as [_ [=]]].
  unfold write_config in H. apply runs_event in H as (file & tr1 & -> & H). apply Forall_cons in Hr as [Hf Hr]. cbn in Hf.
  assert (Hp : ∃ sections, parseSections content iterate = Ok sections ∧ sections !! s_Interface c = None ∧
    ∃ n, (length (appendSection content rendered) ≤ n)%nat ∧ ∃ tr2,
      tr1 = Ev MkdirConfig (Ok ()) :: Ev OpenAppend (Ok ()) :: Ev (Append (appendSection content rendered)) n :: tr2 ∧
      file_then content tr1 = content ++ take n (appendSection content rendered)).
  { destruct file; [|by destruct H as [_ [=]]|]; rewrite Hf in H.
    all: destruct (parseSections content iterate) as [sections|e]; [|by destruct H as [_ [=]]]; exists sections; split; [done|].
    all: case_decide as Hs; [by destruct H|]; apply eq_None_not_Some in Hs; split; [done|].
    all: apply runs_event in H as ([[]|] & tr2 & -> & H); [|by destruct H as [_ [=]]].
    all: apply runs_event in H as ([[]|] & tr3 & -> & H); [|by destruct H as [_ [=]]].
    all: apply runs_event in H as (n & tr4 & -> & H); case_decide; [by destruct H as (? & ? & -> & -> & ?)|].
    all: exists n; split; [lia|]; exists tr4; split; [done|]; run_events H; done. }
  destruct Hp as (sections & H1 & H2 & n & Hn & tr2 & _ & E).
  exists rendered, sections. split_and!; [done..|].
  change (file_then content (Ev ReadConfig file :: tr1)) with (file_then content tr1). by rewrite E, take_ge.
Qed.
End Run.
