(* ===== verification/Status.v ===== *)
(** * Status: what [cheesecloth status] reports (internal/wg/status.go, internal/cli/status.go, status_render.go)

    The report on an interface, and the rows printed of it: peers by name with
    what the saved state knows of them. Shown: a peer the agent configured is
    reported with the networks it was configured with, the sizes printed have
    a unit. *)

From S2P Require Import Prelude Netip Overlay Identity State GoNet GoTime GoStrings Prog Enrol Bind Wg Hosts Agent ConfigFile.

(** ** The report *)

(** [wgtypes.Peer] and [wgtypes.Device], as far as they are read. The zero
    time is no handshake. *)
Record Peer := MkPeer {
  p_PublicKey : wgKey;
  p_Endpoint : option UDPAddr;
  p_Keepalive : Z;
  p_LastHandshake : option Z;
  p_ReceiveBytes : Z;
  p_TransmitBytes : Z;
  p_AllowedIPs : list IPNet;
}.
Record Device := MkDevice {
  d_Name : bytes;
  d_PublicKey : wgKey;
  d_ListenPort : Z;
  d_Peers : list Peer;
}.

Record PeerReport := MkPeerReport {
  pr_PublicKey : bytes;
  pr_Endpoint : bytes;
  pr_AllowedIPs : list Prefix;
  pr_LastHandshake : option Z;
  pr_ReceiveBytes : Z;
  pr_TransmitBytes : Z;
  pr_PersistentKeepalive : Z;
}.
Record Report := MkReport {
  r_Interface : bytes;
  r_PublicKey : bytes;
  r_ListenPort : Z;
  r_Addrs : list Prefix;
  r_Peers : list PeerReport;
}.

(** [net.IP.String] of an address of either length, and [net.UDPAddr.String]. *)
Definition IP_String (ip : bytes) : bytes :=
  match AddrFromSlice ip with Some a => Addr_String (Unmap a) | None => [] end.
Definition UDPAddr_String (a : UDPAddr) : bytes :=
  JoinHostPort (IP_String (udp_IP a) ++ with_zone (udp_Zone a)) (Itoa (udp_Port a)).

Section Report.
(** [wgtypes.Key.String] *)
Context (Key_String : wgKey → bytes).

Definition known_prefix (n : IPNet) : list Prefix :=
  let '(p, ok) := prefixFromIPNet (Some n) in if (ok : bool) then [p] else [].

Definition peerReport (p : Peer) : PeerReport :=
  MkPeerReport (Key_String (p_PublicKey p))
    (match p_Endpoint p with Some e => UDPAddr_String e | None => [] end)
    (p_AllowedIPs p ≫= known_prefix)
    (p_LastHandshake p) (p_ReceiveBytes p) (p_TransmitBytes p) (p_Keepalive p).

(** [status], given what the client and the linker answer. *)
Definition status (device : result Device) (addrs : result (list Prefix)) : result Report :=
  match device with
  | Err _ => Err "getting wireguard device"
  | Ok dev =>
      match addrs with
      | Err _ => Err "listing addresses"
      | Ok addrs =>
          Ok (MkReport (d_Name dev) (Key_String (d_PublicKey dev)) (d_ListenPort dev)
            (filter (λ p, IsLinkLocalUnicast (pfx_Addr p) = false) addrs)
            (map peerReport (d_Peers dev)))
      end
  end.
End Report.

(** ** The rows *)

Record peerInfo := MkPeerInfo {
  pi_Name : bytes;
  pi_Identity : option PublicKey;
  pi_Overlay : Addr;
}.
Definition noInfo : peerInfo := MkPeerInfo [] None AZero.

(** [StatusCmd.Run]: the known nodes by WireGuard key. *)
Definition peerNames (nodes : list Node) : gmap bytes peerInfo :=
  list_to_map (reverse (map (λ n,
    (m_PubKey (n_Meta n), MkPeerInfo (n_Name n) (Some (m_Identity (n_Meta n))) (m_OverlayAddr (n_Meta n)))) nodes)).

Definition peerName (p : PeerReport) (names : gmap bytes peerInfo) : bytes :=
  let short := if (12 <? length (pr_PublicKey p))%nat then take 12 (pr_PublicKey p) ++ str "..." else pr_PublicKey p in
  match names !! pr_PublicKey p with
  | Some info => if decide (pi_Name info = []) then short else pi_Name info
  | None => short
  end.

(** [humanBytes]: the unit chosen, by its divisor and its letter's place. *)
Fixpoint unit_loop (fuel : nat) (n div exp : Z) : Z * Z :=
  match fuel with
  | O => (div, exp)
  | S fuel => if (1024 <=? n / div) && (exp <? 4) then unit_loop fuel n (div * 1024) (exp + 1) else (div, exp)
  end.
Definition humanUnit (n : Z) : Z * Z := unit_loop 4 n 1024 0.

(** The routes of a row: the allowed networks but the peer's own address. *)
Definition row_routes (p : PeerReport) (info : peerInfo) : list Prefix :=
  if Addr_IsValid (pi_Overlay info) then
    filter (λ x, ¬ (IsSingleIP x = true ∧ pfx_Addr x = pi_Overlay info)) (pr_AllowedIPs p)
  else pr_AllowedIPs p.

Definition humanBytes (n : Z) : bytes :=
  if n <? 1024 then Itoa n ++ str " B"
  else
    let '(div, exp) := humanUnit n in
    one_decimal n div ++ str " " ++ take 1 (drop (Z.to_nat exp) (str "KMGTP")) ++ str "iB".

(** Nanoseconds; [Time.Sub] and [Truncate(time.Second)]. *)
Definition handshakeAge (t : option Z) (now : Z) : bytes :=
  match t with
  | None => str "never"
  | Some t =>
      let d := (now - t) `max` (- 2 ^ 63) `min` (2 ^ 63 - 1) in
      Duration_String (d - Z.rem d Second) ++ str " ago"
  end.

(** A row of the table, before it is aligned. *)
Definition row (names : gmap bytes peerInfo) (now : Z) (p : PeerReport) : list bytes :=
  let info := default noInfo (names !! pr_PublicKey p) in
  let endpoint := if decide (pr_Endpoint p = []) then str "-" else pr_Endpoint p in
  let identity := match pi_Identity info with Some k => PublicKey_Short k | None => str "-" end in
  let overlay := if Addr_IsValid (pi_Overlay info) then Addr_String (pi_Overlay info) else str "-" in
  let rs := row_routes p info in
  let routes := if decide (rs = []) then str "-" else Join_strings (map Prefix_String rs) (str ",") in
  [peerName p names; identity; overlay; endpoint; handshakeAge (pr_LastHandshake p) now;
   humanBytes (pr_ReceiveBytes p); humanBytes (pr_TransmitBytes p); routes].

(** [renderStatus]: the rows, by name. ([slices.SortFunc] may put rows of the
    same name in either order.) *)
Definition row_le (names : gmap bytes peerInfo) (x y : PeerReport) : Prop :=
  bytes_ltb (peerName y names) (peerName x names) = false.
#[export] Instance row_le_dec names x y : Decision (row_le names x y).
Proof. unfold row_le. apply _. Defined.
Definition renderStatus (r : Report) (names : gmap bytes peerInfo) (now : Z) : list (list bytes) :=
  map (row names now) (merge_sort (row_le names) (r_Peers r)).

(** ** What is shown *)

(** The unit of a size: between 1 and 1024 of it, up to pebibytes; no letter is
    missing, and the divisor stays an [int64]. *)
Theorem humanUnit_spec n div exp :
  1024 ≤ n < 2 ^ 63 → humanUnit n = (div, exp) →
  0 ≤ exp ≤ 4 ∧ div = 1024 ^ (exp + 1) ∧ div ≤ n ∧ (n < 1024 * div ∨ exp = 4) ∧ div < 2 ^ 63.
Proof.
  intros Hn Hu.
  assert (H : ∀ fuel d e div exp, Z.of_nat fuel = 4 - e → 0 ≤ e → d = 1024 ^ (e + 1) → d ≤ n →
    unit_loop fuel n d e = (div, exp) →
    0 ≤ exp ≤ 4 ∧ div = 1024 ^ (exp + 1) ∧ div ≤ n ∧ (n < 1024 * div ∨ exp = 4)).
  { clear Hu div exp. induction fuel as [|fuel IH]; intros d e div exp Hf He Hd Hle Hu; cbn [unit_loop] in Hu.
    - injection Hu as <- <-. split_and!; lia.
    - rewrite (proj2 (Z.ltb_lt e 4)), andb_true_r in Hu by lia.
      assert (Hpos : 0 < d) by (rewrite Hd; apply Z.pow_pos_nonneg; lia).
      destruct (Z.leb_spec 1024 (n / d)) as [Hdiv|Hdiv].
      + apply IH in Hu; [done|lia|lia| |].
        * rewrite Hd. replace (e + 1 + 1) with (Z.succ (e + 1)) by lia. rewrite Z.pow_succ_r by lia. lia.
        * pose proof (Z.mul_div_le n d Hpos). nia.
      + injection Hu as <- <-. split_and!; [lia|lia|done|done|]. left.
        pose proof (Z.mul_succ_div_gt n d Hpos). nia. }
  destruct (H 4%nat 1024 0 div exp) as (H1 & H2 & H3 & H4); [lia|lia|done|lia|exact Hu|].
  split_and!; [lia|lia|done|done|done|lia].
Qed.

(** Networks that read back as they were configured. *)
Definition shown (p : Prefix) : Prop := good_prefix p ∧ Is4In6 (pfx_Addr p) = false.

Lemma known_prefixes ps : Forall shown ps → map prefixToIPNet ps ≫= known_prefix = ps.
Proof.
  induction 1 as [|p ps [Hg H4] _ IH]; [done|]. cbn [map mbind list_bind]. unfold known_prefix at 1.
  rewrite prefix_back by done. cbn [app]. by rewrite IH.
Qed.

Lemma hostPrefix_plain a :
  Addr_IsValid a = true → hasZone a = false → hostPrefix a = MkPrefix a (BitLen a).
Proof. by destruct a as [|v|v [|c z]]. Qed.

Lemma single_is_host p a :
  Addr_IsValid a = true → hasZone a = false →
  IsSingleIP p = true ∧ pfx_Addr p = a ↔ p = hostPrefix a.
Proof.
  intros Hv Hz. rewrite hostPrefix_plain by done. split.
  - intros [[_ Hb%Z.eqb_eq]%andb_prop <-]. destruct p as [a b]. cbn in *. by subst.
  - intros ->. split; [|done]. unfold IsSingleIP. cbn [Bits pfx_Addr]. rewrite Z.eqb_refl, andb_true_r.
    by destruct a.
Qed.

Lemma hostPrefix_shown a :
  addr_wf a → Addr_IsValid a = true → hasZone a = false → Is4In6 a = false → shown (hostPrefix a).
Proof.
  intros Hw Hv Hz H4. rewrite hostPrefix_plain by done. split; [|done].
  destruct a as [|v|v z]; [done|..]; (split; [|done]); split_and!; cbn; try done; right; cbn; lia.
Qed.

(** C38: what the agent configures a peer with is what the status shows of it: the
    networks read back are the peer's address and its networks as configured,
    and the routes of its row are its networks, less its own address where it
    advertises that too. *)
Theorem status_shows_routes `{!WgTypes} (Key_String : wgKey → bytes) s node cfg p info :
  peerConfig s node = Ok cfg → p_AllowedIPs p = pc_AllowedIPs cfg →
  pi_Overlay info = m_OverlayAddr (n_Meta node) →
  addr_wf (pi_Overlay info) → Addr_IsValid (pi_Overlay info) = true → hasZone (pi_Overlay info) = false →
  Is4In6 (pi_Overlay info) = false → Forall shown (m_AllowedIPs (n_Meta node)) →
  pr_AllowedIPs (peerReport Key_String p) = peerPrefixes node ∧
  row_routes (peerReport Key_String p) info =
    filter (λ x, x ≠ hostPrefix (pi_Overlay info)) (m_AllowedIPs (n_Meta node)).
Proof.
  intros Hc Hp Ho Hw Hv Hz H4 Hs.
  assert (Hall : pr_AllowedIPs (peerReport Key_String p) = peerPrefixes node).
  { cbn. rewrite Hp. unfold peerConfig in Hc. destruct (wg_ParseKey _); [|done]. injection Hc as <-. cbn [pc_AllowedIPs].
    apply (known_prefixes (peerPrefixes node)). constructor; [|done]. rewrite <- Ho. by apply hostPrefix_shown. }
  split; [done|]. unfold row_routes. rewrite Hv, Hall. unfold peerPrefixes. rewrite <- Ho.
  rewrite filter_cons_False.
  - apply list_filter_iff. intros x. by rewrite single_is_host.
  - intros Hno. apply Hno. by apply single_is_host.
Qed.

(** ** Examples *)

Lemma humanUnit_spec_witness :
  humanUnit (3 * 1024 ^ 3) = (1024 ^ 3, 2) ∧ 1024 ^ 3 < 2 ^ 63.
Proof.
  assert (Hu : humanUnit (3 * 1024 ^ 3) = (1024 ^ 3, 2)) by (vm_compute; reflexivity).
  split; [exact Hu|].
  destruct (humanUnit_spec (3 * 1024 ^ 3) (1024 ^ 3) 2) as (_ & _ & _ & _ & H); [lia|exact Hu|exact H].
Defined.

#[local] Existing Instance ToyNet.types.

Lemma status_shows_routes_witness :
  ∃ p, pr_AllowedIPs (peerReport id p) = peerPrefixes demo_peer.
Proof.
  destruct (peerConfig demo_state demo_peer) as [cfg|e] eqn:E; [|vm_compute in E; discriminate E].
  set (p := MkPeer (pc_PublicKey cfg) None 0 None 0 0 (pc_AllowedIPs cfg)).
  exists p.
  refine (proj1 (status_shows_routes id demo_state demo_peer cfg p
    (MkPeerInfo [] None (m_OverlayAddr (n_Meta demo_peer))) E eq_refl eq_refl _ _ _ _ _)).
  - vm_compute. split; [discriminate|reflexivity].
  - reflexivity.
  - reflexivity.
  - reflexivity.
  - repeat constructor; apply lan_good.
Defined.
