(* ===== verification/Transport.v ===== *)
(** * Transport: gossip over QUIC (internal/cluster/transport.go)

    The connection table, the dials in flight, the goroutines the transport
    runs and its shutdown. QUIC and X.509 are classes: connections are handles
    of the library, known by what the source asks them (their remote address,
    peer certificates and protocol) and by whether they are still live.

    Code that runs under [t.mu] is one function here. Goroutines are values,
    and a step relation says what each does next, so that the theorems of
    TransportProps hold for every interleaving; [adopt], which takes the lock
    more than once, is there as a whole and one locked region at a time. *)

From S2P Require Import Prelude Identity Records TrustSet Validity.

(** ** The libraries *)

Inductive certKey :=
  | CertEd25519 (pub : bytes)         (* c.PublicKey.(ed25519.PublicKey) *)
  | CertOther.                        (* a key of another kind *)

(** [crypto/x509]: the public key of a certificate. *)
Class X509 := {
  ParseCertificate : bytes → result certKey;
}.

(** [quic-go]: the connections of one endpoint. *)
Class Quic := {
  conn : Type;
  conn_eq_dec :: EqDecision conn;
  RemoteAddr : conn → bytes;                (* conn.RemoteAddr().String() *)
  PeerCertificates : conn → list bytes;     (* raw, leaf first *)
  NegotiatedProtocol : conn → bytes;
  qstate : Type;
  live : qstate → conn → bool;              (* conn.Context().Err() == nil *)
  CloseWithError : qstate → conn → Z → String.string → qstate;
  quic_Close : qstate → qstate;             (* quic.Transport.Close *)
}.

(** Documented behaviour: closing a connection cancels its context and no
    other connection's; closing the transport closes them all. *)
Class QuicLaws `{!Quic} : Prop := {
  close_dead q c code r : live (CloseWithError q c code r) c = false;
  close_other q c code r d : d ≠ c → live (CloseWithError q c code r) d = live q d;
  quic_Close_dead q c : live (quic_Close q) c = false;
}.

(** ** Constants *)

Definition alpnGossip : bytes := str "cheesecloth-gossip/1".
Definition alpnEnrol : bytes := str "cheesecloth-enrol/1".
Definition identityLen : nat := 32.
Definition maxEnrolments : nat := 8.

(** ** Identities behind connections *)

Section Certificates.
Context `{!X509}.

Definition certIdentity (rawCerts : list bytes) : result PublicKey :=
  match rawCerts with
  | [] => Err "peer presented no certificate"
  | raw :: _ =>
      match ParseCertificate raw with
      | Err e => Err e
      | Ok (CertEd25519 pub) =>
          match decide (length pub = identityLen) with
          | left H => Ok (mk_key pub H)
          | right _ => Err "peer certificate is not an Ed25519 identity"
          end
      | Ok CertOther => Err "peer certificate is not an Ed25519 identity"
      end
  end.

Definition connIdentity `{!Quic} (c : conn) : result PublicKey :=
  match PeerCertificates c with
  | [] => Err "peer presented no certificate"
  | raw :: _ => certIdentity [raw]
  end.

(** The identity behind an established connection; zero if unknown. *)
Definition peerOf `{!Quic} (c : conn) : PublicKey :=
  match connIdentity c with Ok peer => peer | Err _ => zeroKey end.
End Certificates.

(** [verify], the [VerifyPeerCertificate] of gossip connections. *)
Definition verify `{!Ed25519, !X509} (set : TrustSet) (rawCerts : list bytes)
    : result unit * TrustSet :=
  match certIdentity rawCerts with
  | Err e => (Err e, set)
  | Ok peer =>
      let '(v, set) := Valid set peer in
      if negb v then (Err "peer %s is not a member", set) else (Ok (), set)
  end.

(** [VerifyPeerCertificate] of enrolment connections. *)
Definition verifyEnrol `{!X509} (rawCerts : list bytes) : result unit :=
  match certIdentity rawCerts with Err e => Err e | Ok _ => Ok () end.

(** [GetConfigForClient]: which of the two configurations answers a client. *)
Inductive serverConfig := enrolServer | gossipServer.

Fixpoint GetConfigForClient (SupportedProtos : list bytes) : serverConfig :=
  match SupportedProtos with
  | [] => gossipServer
  | proto :: protos =>
      if decide (proto = alpnEnrol) then enrolServer else GetConfigForClient protos
  end.

(** ** The tie-break *)

Definition preferredDialer (a b : PublicKey) : PublicKey := if key_ltb b a then b else a.

Definition keepNew (cur client preferred : PublicKey) : bool :=
  bool_decide (cur ≠ preferred) || bool_decide (client = preferred).

(** ** The transport *)

Section Transport.
Context `{!Ed25519, !X509, !Quic}.

Record peerConn := MkPeerConn {
  pc_conn : conn;
  pc_client : PublicKey;
}.

#[export] Instance peerConn_eq_dec : EqDecision peerConn.
Proof. solve_decision. Defined.

(** A [dialCall] is a number; its [done] channel is closed once it has a result. *)
Abbreviation dialCall := nat.

Record quicTransport := MkTransport {
  t_id : Identity;
  t_quic : qstate;
  t_ln : bool;                             (* the listener is open *)
  t_enrol : bool;                          (* enrolment is offered *)
  t_enrolSem : nat;                        (* slots of enrolSem taken *)
  t_done : bool;                           (* done is closed *)
  t_wg : nat;
  t_once : bool;
  t_conns : gmap bytes peerConn;
  t_dialing : gmap bytes dialCall;
  t_calls : list (option (result conn));   (* every dialCall made, by number *)
}.

(** Where a goroutine in [adopt] is, between two locked regions. *)
Inductive adopting :=
  | AServe (c : conn) (peer : PublicKey)                     (* registered; before serve's track *)
  | AForget (c : conn)                                       (* not tracked; before serve's forget *)
  | AEnrol (c : conn) (peer : PublicKey)                     (* has a slot; before adoptEnrol's track *)
  | AGiveBack (c : conn).                                    (* not tracked; before giving the slot back *)

(** Where a goroutine in [connect] is. *)
Inductive connectPC :=
  | CLookup (addr : bytes)                                   (* at the start *)
  | CTable (addr : bytes)                                    (* nothing found *)
  | CWait (call : dialCall)                                  (* another one dials *)
  | CDial (addr : bytes) (call : dialCall)                   (* in dial *)
  | CAdopt (addr : bytes) (call : dialCall) (a : adopting)   (* in dial's adopt *)
  | CDialled (addr : bytes) (call : dialCall) (r : result conn)  (* before the delete *)
  | CClose (call : dialCall) (r : result conn)               (* before close(call.done) *)
  | CReturn (r : result conn).

(** Who called [connect]: [dialAsync], in a goroutine the transport counts, or
    [DialAddressTimeout], in one of memberlist's. *)
Inductive caller := Async | ForStream.

Inductive shutdownPC :=
  | SListener | SSnapshot | SConns (cs : list conn) | SDone | SQuic | SWait.

Inductive goroutine :=
  | GAccept                                                  (* accept *)
  | GAdopt (a : adopting)                                    (* its adopt *)
  | GDatagrams (c : conn) (addr : bytes) (peer : PublicKey)  (* serve, the first *)
  | GStreams (c : conn) (peer : PublicKey)                   (* serve, the second *)
  | GEnrol (c : conn) (peer : PublicKey)                     (* serveEnrol *)
  | GConnect (k : caller) (pc : connectPC)                   (* connect *)
  | GWrite (addr : bytes)                                    (* WriteToAddress *)
  | GWriting (addr : bytes)                                  (* its lookup *)
  | GSend (addr : bytes) (c : conn)                          (* its SendDatagram *)
  | GAsync (addr : bytes)                                    (* dialAsync *)
  | GTrack (addr : bytes)                                    (* its call of track *)
  | GDial (addr : bytes)                                     (* DialAddressTimeout *)
  | GDialing (addr : bytes)                                  (* its lookup *)
  | GOpen (addr : bytes) (c : conn)                          (* its OpenStreamSync *)
  | GShutdown (pc : shutdownPC).

Definition set_quic (t : quicTransport) (q : qstate) : quicTransport :=
  MkTransport (t_id t) q (t_ln t) (t_enrol t) (t_enrolSem t) (t_done t) (t_wg t) (t_once t)
    (t_conns t) (t_dialing t) (t_calls t).
Definition set_conns (t : quicTransport) (m : gmap bytes peerConn) : quicTransport :=
  MkTransport (t_id t) (t_quic t) (t_ln t) (t_enrol t) (t_enrolSem t) (t_done t) (t_wg t) (t_once t)
    m (t_dialing t) (t_calls t).
Definition set_sem (t : quicTransport) (n : nat) : quicTransport :=
  MkTransport (t_id t) (t_quic t) (t_ln t) (t_enrol t) n (t_done t) (t_wg t) (t_once t)
    (t_conns t) (t_dialing t) (t_calls t).
Definition set_wg (t : quicTransport) (n : nat) : quicTransport :=
  MkTransport (t_id t) (t_quic t) (t_ln t) (t_enrol t) (t_enrolSem t) (t_done t) n (t_once t)
    (t_conns t) (t_dialing t) (t_calls t).
Definition set_dialing (t : quicTransport) (m : gmap bytes dialCall)
    (l : list (option (result conn))) : quicTransport :=
  MkTransport (t_id t) (t_quic t) (t_ln t) (t_enrol t) (t_enrolSem t) (t_done t) (t_wg t) (t_once t)
    (t_conns t) m l.
Definition set_flags (t : quicTransport) (ln done once : bool) : quicTransport :=
  MkTransport (t_id t) (t_quic t) ln (t_enrol t) (t_enrolSem t) done (t_wg t) once
    (t_conns t) (t_dialing t) (t_calls t).

Definition closeConn (t : quicTransport) (c : conn) (code : Z) (r : String.string) : quicTransport :=
  set_quic t (CloseWithError (t_quic t) c code r).
Definition isLive (t : quicTransport) (c : conn) : bool := live (t_quic t) c.

(** What [newQUICTransport] returns, and [start]. *)
Definition newQUICTransport (id : Identity) (handler : bool) (q : qstate) : quicTransport :=
  MkTransport id q true handler 0 false 0 false ∅ ∅ [].
Definition start (t : quicTransport) : list goroutine * quicTransport :=
  ([GAccept], set_wg t (t_wg t + 1)).

Definition track (t : quicTransport) (n : nat) : bool * quicTransport :=
  if t_done t then (false, t) else (true, set_wg t (t_wg t + n)).

Definition register (t : quicTransport) (c : conn) (peer client : PublicKey)
    : conn * quicTransport :=
  let addr := RemoteAddr c in
  let record t := (c, set_conns t (<[addr := MkPeerConn c client]> (t_conns t))) in
  match t_conns t !! addr with
  | Some cur =>
      if isLive t (pc_conn cur) then
        if negb (keepNew (pc_client cur) client (preferredDialer (Public (t_id t)) peer)) then
          (pc_conn cur, closeConn t c 0 "duplicate connection")
        else record (closeConn t (pc_conn cur) 0 "superseded")
      else record t
  | None => record t
  end.

(** [forget]: [t.conns[addr].conn] is nil when there is none. *)
Definition forgetConn (t : quicTransport) (addr : bytes) (c : conn) : quicTransport :=
  let t :=
    if decide (pc_conn <$> t_conns t !! addr = Some c) then set_conns t (delete addr (t_conns t))
    else t in
  closeConn t c 0 "connection dropped".

Definition lookupConn (t : quicTransport) (addr : bytes) : option conn :=
  match t_conns t !! addr with
  | Some cur => if isLive t (pc_conn cur) then Some (pc_conn cur) else None
  | None => None
  end.

(** [serve]: the goroutines it starts. *)
Definition serve (t : quicTransport) (c : conn) (peer : PublicKey)
    : list goroutine * quicTransport :=
  let addr := RemoteAddr c in
  let '(ok, t) := track t 2 in
  if negb ok then ([], forgetConn t addr c)
  else ([GDatagrams c addr peer; GStreams c peer], t).

Definition adoptEnrol (t : quicTransport) (c : conn) (peer : PublicKey)
    : list goroutine * quicTransport :=
  if negb (t_enrol t) then ([], closeConn t c 1 "enrolment not offered")
  else if (maxEnrolments <=? t_enrolSem t)%nat then ([], closeConn t c 1 "busy")
  else
    let t := set_sem t (t_enrolSem t + 1) in
    let '(ok, t) := track t 1 in
    if negb ok then ([], closeConn (set_sem t (t_enrolSem t - 1)) c 0 "shutdown")
    else ([GEnrol c peer], t).

Definition adopt (t : quicTransport) (c : conn) (accepted : bool)
    : option conn * list goroutine * quicTransport :=
  match connIdentity c with
  | Err e => (None, [], closeConn t c 1 e)
  | Ok peer =>
      if decide (NegotiatedProtocol c = alpnEnrol) then
        let '(gs, t) := adoptEnrol t c peer in (None, gs, t)
      else
        let client := if accepted then peer else Public (t_id t) in
        let '(kept, t) := register t c peer client in
        if decide (kept ≠ c) then (Some kept, [], t)
        else let '(gs, t) := serve t c peer in (Some c, gs, t)
  end.

(** [adopt] up to its first locked region or channel operation, and then one
    more at a time: what it returns, or what it goes on with. *)
Definition adopt_first (t : quicTransport) (c : conn) (accepted : bool)
    : (option conn + adopting) * quicTransport :=
  match connIdentity c with
  | Err e => (inl None, closeConn t c 1 e)
  | Ok peer =>
      if decide (NegotiatedProtocol c = alpnEnrol) then
        if negb (t_enrol t) then (inl None, closeConn t c 1 "enrolment not offered")
        else if (maxEnrolments <=? t_enrolSem t)%nat then (inl None, closeConn t c 1 "busy")
        else (inr (AEnrol c peer), set_sem t (t_enrolSem t + 1))
      else
        let client := if accepted then peer else Public (t_id t) in
        let '(kept, t) := register t c peer client in
        if decide (kept ≠ c) then (inl (Some kept), t) else (inr (AServe c peer), t)
  end.

Definition adopt_next (t : quicTransport) (a : adopting)
    : (option conn + adopting) * list goroutine * quicTransport :=
  match a with
  | AServe c peer =>
      let '(ok, t) := track t 2 in
      if negb ok then (inr (AForget c), [], t)
      else (inl (Some c), [GDatagrams c (RemoteAddr c) peer; GStreams c peer], t)
  | AForget c => (inl (Some c), [], forgetConn t (RemoteAddr c) c)
  | AEnrol c peer =>
      let '(ok, t) := track t 1 in
      if negb ok then (inr (AGiveBack c), [], t) else (inl None, [GEnrol c peer], t)
  | AGiveBack c => (inl None, [], closeConn (set_sem t (t_enrolSem t - 1)) c 0 "shutdown")
  end.

(** The rest of it, nothing coming in between: it goes on at most twice. *)
Definition adopt_rest (t : quicTransport) (a : adopting) : option conn * list goroutine * quicTransport :=
  let '(r, gs, t) := adopt_next t a in
  match r with
  | inl kept => (kept, gs, t)
  | inr a =>
      let '(r, gs', t) := adopt_next t a in
      (match r with inl kept => kept | inr _ => None end, gs ++ gs', t)
  end.

(** What [dial] makes of [adopt]'s connection. *)
Definition usable (kept : option conn) : result conn :=
  match kept with Some k => Ok k | None => Err "gossip to %s: connection not usable" end.

(** What [qt.Dial] may answer: the protocol of a connection is one the dialling
    side offered, and it offers gossip alone (transport.go:487, and [client_alpn]
    in Tls). *)
Definition dialled (answer : result conn) : Prop :=
  match answer with Ok c => NegotiatedProtocol c = alpnGossip | Err _ => True end.

(** [dial], once [qt.Dial] has answered. *)
Definition dial (t : quicTransport) (answer : result conn) : (result conn + adopting) * quicTransport :=
  match answer with
  | Err e => (inl (Err e), t)
  | Ok c =>
      let '(r, t) := adopt_first t c false in
      (match r with inl kept => inl (usable kept) | inr a => inr a end, t)
  end.

(** ** What goroutines do next

    [gstep (t, set) g (t', set') gs]: one step of goroutine [g], which goes on
    as the first of [gs] and starts the others, or ends. *)

Abbreviation shared := (quicTransport * TrustSet)%type.

Definition wgDone (t : quicTransport) : quicTransport := set_wg t (t_wg t - 1).
Definition release (t : quicTransport) : quicTransport := set_sem t (t_enrolSem t - 1).

(** [connect], one locked region or channel operation at a time. *)
Inductive connectStep : quicTransport → connectPC → quicTransport → connectPC → list goroutine → Prop :=
  | connect_hit t addr c :
      lookupConn t addr = Some c →
      connectStep t (CLookup addr) t (CReturn (Ok c)) []
  | connect_miss t addr :
      lookupConn t addr = None →
      connectStep t (CLookup addr) t (CTable addr) []
  | connect_busy t addr call :
      t_dialing t !! addr = Some call →
      connectStep t (CTable addr) t (CWait call) []
  | connect_call t addr :
      t_dialing t !! addr = None →
      let call := length (t_calls t) in
      connectStep t (CTable addr)
        (set_dialing t (<[addr := call]> (t_dialing t)) (t_calls t ++ [None]))
        (CDial addr call) []
  | connect_waited t call r :
      t_calls t !! call = Some (Some r) →
      connectStep t (CWait call) t (CReturn r) []
  | connect_gaveup t call e :                     (* ctx.Done() *)
      connectStep t (CWait call) t (CReturn (Err e)) []
  | connect_dialled t addr call answer r t' :
      dialled answer → dial t answer = (inl r, t') →
      connectStep t (CDial addr call) t' (CDialled addr call r) []
  | connect_adopt t addr call answer a t' :
      dialled answer → dial t answer = (inr a, t') →
      connectStep t (CDial addr call) t' (CAdopt addr call a) []
  | connect_adopted t addr call a kept gs t' :
      adopt_next t a = (inl kept, gs, t') →
      connectStep t (CAdopt addr call a) t' (CDialled addr call (usable kept)) gs
  | connect_adopting t addr call a a' gs t' :
      adopt_next t a = (inr a', gs, t') →
      connectStep t (CAdopt addr call a) t' (CAdopt addr call a') gs
  | connect_delete t addr call r :
      connectStep t (CDialled addr call r)
        (set_dialing t (delete addr (t_dialing t)) (t_calls t)) (CClose call r) []
  | connect_close t call r :
      connectStep t (CClose call r)
        (set_dialing t (t_dialing t) (<[call := Some r]> (t_calls t))) (CReturn r) [].

(** [Shutdown], inside [t.once.Do]. *)
Inductive shutdownStep : quicTransport → shutdownPC → quicTransport → option shutdownPC → Prop :=
  | shutdown_listener t :
      shutdownStep t SListener (set_flags t false (t_done t) (t_once t)) (Some SSnapshot)
  | shutdown_snapshot t cs :
      cs ≡ₚ (pc_conn ∘ snd) <$> map_to_list (t_conns t) →
      shutdownStep t SSnapshot t (Some (SConns cs))
  | shutdown_conn t c cs :
      shutdownStep t (SConns (c :: cs)) (closeConn t c 0 "shutdown") (Some (SConns cs))
  | shutdown_conns t :
      shutdownStep t (SConns []) t (Some SDone)
  | shutdown_done t :
      shutdownStep t SDone (set_flags t (t_ln t) true (t_once t)) (Some SQuic)
  | shutdown_quic t :
      shutdownStep t SQuic (set_quic t (quic_Close (t_quic t))) (Some SWait)
  | shutdown_wait t :
      t_wg t = 0%nat →
      shutdownStep t SWait t None.

(** [accept] *)
Inductive acceptStep : quicTransport → goroutine → quicTransport → list goroutine → Prop :=
  | accept_conn t c r t' :
      t_ln t = true → adopt_first t c true = (r, t') →
      acceptStep t GAccept t' [match r with inl _ => GAccept | inr a => GAdopt a end]
  | accept_adopt t a r gs t' :
      adopt_next t a = (r, gs, t') →
      acceptStep t (GAdopt a) t' ((match r with inl _ => GAccept | inr a => GAdopt a end) :: gs)
  | accept_closed t :
      acceptStep t GAccept (wgDone t) [].

(** [serve]'s goroutine for datagrams, which become packets. *)
Inductive datagramStep (c : conn) (addr : bytes) (peer : PublicKey) : shared → shared → list goroutine → Prop :=
  | datagram_lost t set :                         (* ReceiveDatagram fails *)
      datagramStep c addr peer (t, set) (wgDone (forgetConn t addr c), set) []
  | datagram_outsider t set set' :
      Valid set peer = (false, set') →
      datagramStep c addr peer (t, set)
        (wgDone (forgetConn (closeConn t c 1 "not a member") addr c), set') []
  | datagram_packet t set set' :                  (* t.packets <- packet *)
      Valid set peer = (true, set') →
      datagramStep c addr peer (t, set) (t, set') [GDatagrams c addr peer]
  | datagram_done t set set' :
      Valid set peer = (true, set') → t_done t = true →
      datagramStep c addr peer (t, set) (wgDone (forgetConn t addr c), set') [].

(** [serve]'s goroutine for streams, which are handed on. *)
Inductive streamStep (c : conn) (peer : PublicKey) : shared → shared → list goroutine → Prop :=
  | stream_lost t set :                           (* AcceptStream fails *)
      streamStep c peer (t, set) (wgDone t, set) []
  | stream_outsider t set set' :
      Valid set peer = (false, set') →
      streamStep c peer (t, set) (wgDone (closeConn t c 1 "not a member"), set') []
  | stream_conn t set set' :                      (* t.streams <- conn *)
      Valid set peer = (true, set') →
      streamStep c peer (t, set) (t, set') [GStreams c peer]
  | stream_done t set set' :
      Valid set peer = (true, set') → t_done t = true →
      streamStep c peer (t, set) (wgDone (closeConn t c 0 "shutdown"), set') [].

(** [serveEnrol], after the handler ran or no stream came in time: the
    deferred calls. *)
Definition serveEnrol (t : quicTransport) (c : conn) : quicTransport :=
  wgDone (release (closeConn t c 0 "done")).

(** [WriteToAddress], to the call of [dialAsync]. *)
Inductive writeStep : quicTransport → goroutine → quicTransport → list goroutine → Prop :=
  | write_done t addr :
      t_done t = true → writeStep t (GWrite addr) t []
  | write_running t addr :
      t_done t = false → writeStep t (GWrite addr) t [GWriting addr]
  | write_dial t addr :
      lookupConn t addr = None → writeStep t (GWriting addr) t [GAsync addr]
  | write_send t addr c :
      lookupConn t addr = Some c → writeStep t (GWriting addr) t [GSend addr c]
  | send_ok t addr c :                            (* sent, or too large *)
      writeStep t (GSend addr c) t []
  | send_lost t addr c :
      writeStep t (GSend addr c) (forgetConn t addr c) [].

(** [dialAsync]; the goroutine it starts is in [connect]. *)
Inductive asyncStep : quicTransport → goroutine → quicTransport → list goroutine → Prop :=
  | async_busy t addr call :
      t_dialing t !! addr = Some call → asyncStep t (GAsync addr) t []
  | async_free t addr :
      t_dialing t !! addr = None → asyncStep t (GAsync addr) t [GTrack addr]
  | async_track t addr ok t' :
      track t 1 = (ok, t') →
      asyncStep t (GTrack addr) t' (if ok then [GConnect Async (CLookup addr)] else [])
  | async_end t r :
      asyncStep t (GConnect Async (CReturn r)) (wgDone t) [].

(** [DialAddressTimeout] *)
Inductive dialStep : quicTransport → goroutine → quicTransport → list goroutine → Prop :=
  | dial_done t addr :
      t_done t = true → dialStep t (GDial addr) t []
  | dial_running t addr :
      t_done t = false → dialStep t (GDial addr) t [GDialing addr]
  | dial_open t addr c :
      lookupConn t addr = Some c → dialStep t (GDialing addr) t [GOpen addr c]
  | dial_connect t addr :
      lookupConn t addr = None → dialStep t (GDialing addr) t [GConnect ForStream (CLookup addr)]
  | open_ok t addr c :
      dialStep t (GOpen addr c) t []
  | open_failed t addr c :
      dialStep t (GOpen addr c) (forgetConn t addr c) [GConnect ForStream (CLookup addr)]
  | dial_end t r :                                (* a stream on it, or an error *)
      dialStep t (GConnect ForStream (CReturn r)) t [].

Inductive gstep : shared → goroutine → shared → list goroutine → Prop :=
  | g_accept t set g t' gs :
      acceptStep t g t' gs → gstep (t, set) g (t', set) gs
  | g_datagram sh c addr peer sh' gs :
      datagramStep c addr peer sh sh' gs → gstep sh (GDatagrams c addr peer) sh' gs
  | g_stream sh c peer sh' gs :
      streamStep c peer sh sh' gs → gstep sh (GStreams c peer) sh' gs
  | g_enrol t set c peer :
      gstep (t, set) (GEnrol c peer) (serveEnrol t c, set) []
  | g_connect t set k pc t' pc' gs :
      connectStep t pc t' pc' gs → gstep (t, set) (GConnect k pc) (t', set) (GConnect k pc' :: gs)
  | g_write t set g t' gs :
      writeStep t g t' gs → gstep (t, set) g (t', set) gs
  | g_async t set g t' gs :
      asyncStep t g t' gs → gstep (t, set) g (t', set) gs
  | g_dial t set g t' gs :
      dialStep t g t' gs → gstep (t, set) g (t', set) gs
  | g_shutdown t set pc t' pc' :
      shutdownStep t pc t' pc' →
      gstep (t, set) (GShutdown pc) (t', set) (GShutdown <$> option_list pc').

(** ** The transport as a whole *)

Record world := MkWorld {
  w_t : quicTransport;
  w_set : TrustSet;
  w_gs : list goroutine;
  w_shut : bool;             (* Shutdown has returned *)
}.

Definition is_shutdown (g : goroutine) : bool :=
  match g with GShutdown _ => true | _ => false end.

(** Connections end by themselves or by the peer's doing; none comes back. *)
Definition only_dies (q q' : qstate) : Prop := ∀ c, live q' c = true → live q c = true.

Inductive step : world → world → Prop :=
  | step_run t set l g r t' set' gs shut :
      gstep (t, set) g (t', set') gs →
      step (MkWorld t set (l ++ g :: r) shut)
        (MkWorld t' set' (l ++ gs ++ r) (shut || (is_shutdown g && bool_decide (gs = []))))
  | step_write t set gs addr shut :               (* memberlist calls *)
      step (MkWorld t set gs shut) (MkWorld t set (GWrite addr :: gs) shut)
  | step_dial t set gs addr shut :
      step (MkWorld t set gs shut) (MkWorld t set (GDial addr :: gs) shut)
  | step_shutdown t set gs shut :
      t_once t = false →
      step (MkWorld t set gs shut)
        (MkWorld (set_flags t (t_ln t) (t_done t) true) set (GShutdown SListener :: gs) shut)
  | step_quic t set gs q shut :
      only_dies (t_quic t) q →
      step (MkWorld t set gs shut) (MkWorld (set_quic t q) set gs shut)
  | step_set t set gs set' shut :                 (* records arrive *)
      step (MkWorld t set gs shut) (MkWorld t set' gs shut).

Definition initial (id : Identity) (handler : bool) (q : qstate) (set : TrustSet) : world :=
  let '(gs, t) := start (newQUICTransport id handler q) in MkWorld t set gs false.

Definition steps : world → world → Prop := rtc step.
Definition reachable (id : Identity) (handler : bool) (q : qstate) (set : TrustSet) (w : world) : Prop :=
  steps (initial id handler q set) w.
End Transport.
