(* ===== verification/TransportProps.v ===== *)
(** * TransportProps: what the gossip transport guarantees

    For every interleaving of the transport's goroutines: goroutines are
    counted and all gone once Shutdown returns, enrolments are bounded, dials
    to one address are one at a time with nobody left waiting for nothing, and
    two nodes that dial each other at once settle on the same connection. *)

From S2P Require Import Prelude Identity Records TrustSet Validity Transport.

#[local] Open Scope nat_scope.

(** ** Counting goroutines *)

Section Counting.
Context {ed : Ed25519} {x509 : X509} {quic : Quic}.
Implicit Types (g : goroutine) (gs l r : list goroutine).

Definition count (p : goroutine → bool) gs : nat := length (filter (λ g, p g = true) gs).

Lemma count_nil p : count p [] = 0%nat.
Proof. done. Qed.
Lemma count_cons p g gs : count p (g :: gs) = (if p g then 1 else 0) + count p gs.
Proof. unfold count. rewrite filter_cons. case_decide as H; destruct (p g); simpl; congruence. Qed.
Lemma count_app p l r : count p (l ++ r) = (count p l + count p r)%nat.
Proof. unfold count. by rewrite filter_app, length_app. Qed.

Lemma count_pos p gs : (0 < count p gs)%nat ↔ ∃ g, g ∈ gs ∧ p g = true.
Proof.
  unfold count. split.
  - intros Hpos. destruct (filter _ gs) as [|g l] eqn:E; [simpl in Hpos; lia|].
    exists g. apply and_comm, (list_elem_of_filter (λ g, p g = true)). rewrite E. left.
  - intros (g & Hg & Hp). assert (Hf : g ∈ filter (λ g, p g = true) gs)
      by by apply list_elem_of_filter.
    destruct (filter _ gs); [by apply elem_of_nil in Hf|simpl; lia].
Qed.
Lemma count_none p gs : Forall (λ g, p g = false) gs → count p gs = 0.
Proof.
  induction 1 as [|g gs Hg Hgs IH]; [done|]. rewrite count_cons, Hg, IH. done.
Qed.
End Counting.

#[local] Arguments count : simpl never.
#[local] Arguments forgetConn : simpl never.
#[local] Arguments adopt_first : simpl never.
#[local] Arguments adopt_next : simpl never.
#[local] Arguments track : simpl never.

Section Invariants.
Context {ed : Ed25519} {x509 : X509} {quic : Quic}.
Implicit Types (t : quicTransport) (g : goroutine) (gs : list goroutine).

(** Taken one locked region at a time, with nothing in between, [adopt] is
    [adopt]. *)
Lemma adopt_regions t c accepted :
  adopt t c accepted =
    let '(r, t) := adopt_first t c accepted in
    match r with inl kept => (kept, [], t) | inr a => adopt_rest t a end.
Proof.
  unfold adopt, adopt_first, adopt_rest, adoptEnrol, serve. destruct (connIdentity c) as [peer|e]; [|done]. case_decide.
  - destruct (negb (t_enrol t)); [done|]. destruct (maxEnrolments <=? t_enrolSem t)%nat; [done|]. unfold adopt_next.
    by destruct (track (set_sem t (t_enrolSem t + 1)) 1) as [[] t1].
  - destruct (register t c peer _) as [kept t1]. case_decide; [done|]. unfold adopt_next.
    by destruct (track t1 2) as [[] t2].
Qed.

(** The goroutines [t.wg] counts, the holders of an enrolment slot, and the
    owners of a dial. *)
Definition holds_slot (a : adopting) : bool :=
  match a with AEnrol _ _ | AGiveBack _ => true | _ => false end.
Definition tracked g : bool :=
  match g with
  | GAccept | GAdopt _ | GDatagrams _ _ _ | GStreams _ _ | GEnrol _ _ | GConnect Async _ => true
  | _ => false
  end.
Definition enrolling g : bool :=
  match g with
  | GEnrol _ _ => true
  | GAdopt a | GConnect _ (CAdopt _ _ a) => holds_slot a
  | _ => false
  end.
(** Between entering its call in the table and deleting it. *)
Definition dialling (addr : bytes) (call : nat) g : bool :=
  match g with
  | GConnect _ (CDial a n) | GConnect _ (CAdopt a n _) | GConnect _ (CDialled a n _) =>
      bool_decide (a = addr ∧ n = call)
  | _ => false
  end.
(** Between making the call and closing its channel. *)
Definition owning (call : nat) g : bool :=
  match g with
  | GConnect _ (CDial _ n) | GConnect _ (CAdopt _ n _) | GConnect _ (CDialled _ n _) | GConnect _ (CClose n _) =>
      bool_decide (n = call)
  | _ => false
  end.
Definition waiting (call : nat) g : bool :=
  match g with GConnect _ (CWait n) => bool_decide (n = call) | _ => false end.
(** A Shutdown that has closed done. *)
Definition late g : bool :=
  match g with GShutdown SQuic | GShutdown SWait => true | _ => false end.

(** What the table operations leave alone. *)
Definition frame t t' : Prop :=
  t_id t' = t_id t ∧ t_done t' = t_done t ∧ t_once t' = t_once t ∧
  t_dialing t' = t_dialing t ∧ t_calls t' = t_calls t.

Lemma frame_refl t : frame t t.
Proof. done. Qed.
Lemma frame_trans t1 t2 t3 : frame t1 t2 → frame t2 t3 → frame t1 t3.
Proof. unfold frame. intros (?&?&?&?&?) (?&?&?&?&?). split_and!; congruence. Qed.

Lemma register_frame t c peer client k t' :
  register t c peer client = (k, t') →
  frame t t' ∧ t_wg t' = t_wg t ∧ t_enrolSem t' = t_enrolSem t.
Proof. unfold register. intros. repeat case_match; by simplify_eq/=. Qed.

Lemma forgetConn_frame t addr c :
  frame t (forgetConn t addr c) ∧ t_wg (forgetConn t addr c) = t_wg t ∧
  t_enrolSem (forgetConn t addr c) = t_enrolSem t.
Proof. unfold forgetConn. by case_decide. Qed.

(** What a batch of goroutines just started may be. *)
Definition spawned t gs : Prop :=
  (t_done t = true → gs = []) ∧
  Forall (λ g, tracked g = true ∧ is_shutdown g = false ∧
    (∀ a n, dialling a n g = false) ∧ (∀ n, owning n g = false) ∧ (∀ n, waiting n g = false)) gs.

Definition one (b : bool) : nat := if b then 1 else 0.

(** The slot held by one that goes on with [adopt]. *)
Definition slot {A} (r : A + adopting) : nat := match r with inl _ => 0 | inr a => one (holds_slot a) end.

Lemma adopt_first_spec t c accepted r t' :
  adopt_first t c accepted = (r, t') →
  frame t t' ∧ t_wg t' = t_wg t ∧ t_enrolSem t' = t_enrolSem t + slot r ∧
  (t_enrolSem t ≤ maxEnrolments → t_enrolSem t' ≤ maxEnrolments).
Proof.
  unfold adopt_first. destruct (connIdentity c) as [peer|e]; [|intros; simplify_eq; cbn; split_and!; try done; auto; lia].
  case_decide.
  - destruct (t_enrol t); cbn [negb]; [|intros; simplify_eq; cbn; split_and!; try done; auto; lia].
    destruct (Nat.leb_spec maxEnrolments (t_enrolSem t)); intros; simplify_eq; cbn -[maxEnrolments]; split_and!; try done; auto; lia.
  - destruct (register t c peer _) as [kept t1] eqn:E. apply register_frame in E as (Hf & Hw & Hs).
    case_decide; intros; simplify_eq; cbn -[maxEnrolments]; split_and!; try done; auto; lia.
Qed.

Lemma dial_spec t answer r t' :
  dial t answer = (r, t') →
  frame t t' ∧ t_wg t' = t_wg t ∧ t_enrolSem t' = t_enrolSem t + slot r ∧
  (t_enrolSem t ≤ maxEnrolments → t_enrolSem t' ≤ maxEnrolments).
Proof.
  unfold dial. destruct answer as [c|e]; [|intros; simplify_eq; cbn; split_and!; try done; auto; lia].
  destruct (adopt_first t c false) as [r0 t0] eqn:E. apply adopt_first_spec in E.
  intros [= <- <-]. by destruct r0.
Qed.

Lemma adopt_next_spec t a r gs t' :
  adopt_next t a = (r, gs, t') → (holds_slot a = true → 1 ≤ t_enrolSem t) →
  frame t t' ∧ spawned t gs ∧
  t_wg t' = t_wg t + count tracked gs ∧
  t_enrolSem t' + one (holds_slot a) = t_enrolSem t + slot r + count enrolling gs ∧
  t_enrolSem t' ≤ t_enrolSem t.
Proof.
  intros Ha Hh. unfold spawned.
  destruct a as [c peer|c|c peer|c]; unfold adopt_next, track in Ha; try specialize (Hh eq_refl).
  - destruct (t_done t) eqn:Hd; cbn in Ha; simplify_eq; rewrite ?count_cons, ?count_nil; cbn;
      split_and!; try done; try lia; by repeat constructor.
  - simplify_eq. destruct (forgetConn_frame t (RemoteAddr c) c) as (? & -> & ->).
    rewrite !count_nil. cbn. split_and!; try done; auto; lia.
  - destruct (t_done t) eqn:Hd; cbn in Ha; simplify_eq; rewrite ?count_cons, ?count_nil; cbn;
      split_and!; try done; try lia; by repeat constructor.
  - simplify_eq. rewrite !count_nil. cbn. split_and!; try done; auto; lia.
Qed.

Lemma spawned_none t gs :
  spawned t gs →
  (∀ a n, count (dialling a n) gs = 0) ∧ (∀ n, count (owning n) gs = 0) ∧
  (∀ n, count (waiting n) gs = 0) ∧ count is_shutdown gs = 0 ∧ count late gs = 0 ∧
  (t_done t = true → count tracked gs = 0).
Proof.
  intros [Hd Hgs]. split_and!; try (intros; apply count_none; eapply Forall_impl; [exact Hgs|];
    intros g (_ & Hs & ? & ? & ?); auto; by destruct g).
  intros ->%Hd. done.
Qed.

(** Every step keeps the books. *)
Lemma connectStep_starts t pc t' pc' gs k :
  connectStep t pc t' pc' gs → (enrolling (GConnect k pc) = true → 1 ≤ t_enrolSem t) →
  t_wg t' + one (tracked (GConnect k pc)) = t_wg t + count tracked (GConnect k pc' :: gs) ∧
  t_enrolSem t' + one (enrolling (GConnect k pc)) = t_enrolSem t + count enrolling (GConnect k pc' :: gs) ∧
  (t_enrolSem t ≤ maxEnrolments → t_enrolSem t' ≤ maxEnrolments) ∧
  t_done t' = t_done t ∧ t_once t' = t_once t ∧ spawned t gs.
Proof.
  intros Hc Hh. assert (Hnone : spawned t []) by (by split).
  destruct Hc as [| | | | | |t addr call answer r t' _ Hd|t addr call answer a t' _ Hd
    |t addr call a kept gs t' Ha|t addr call a a' gs t' Ha| |]; rewrite !count_cons, ?count_nil;
    try (destruct k; cbn -[maxEnrolments]; split_and!; try done; auto; lia).
  1,2: apply dial_spec in Hd as ((_&?&?&_) & ? & ? & ?);
    destruct k; cbn -[maxEnrolments] in *; unfold one in *; split_and!; try done; auto; lia.
  all: apply adopt_next_spec in Ha as ((_&?&?&_) & ? & ? & ? & ?); [|exact Hh];
    destruct k; cbn -[maxEnrolments] in *; unfold one in *; split_and!; try done; auto; lia.
Qed.

(** One case for each way a goroutine can go on; [accept]'s, [connect]'s and
    [Shutdown]'s steps stay whole. *)
Ltac gstep_cases Hg :=
  inversion Hg; clear Hg; subst;
  repeat match goal with
  | H : datagramStep _ _ _ _ _ _ |- _ => inversion H; clear H; subst
  | H : streamStep _ _ _ _ _ |- _ => inversion H; clear H; subst
  | H : writeStep _ _ _ _ |- _ => inversion H; clear H; subst
  | H : asyncStep _ _ _ _ |- _ => inversion H; clear H; subst
  | H : dialStep _ _ _ _ |- _ => inversion H; clear H; subst
  end;
  try unfold serveEnrol;
  try match goal with
  | H : acceptStep _ _ _ _ |- _ => rename H into Hacc
  | H : connectStep _ _ _ _ _ |- _ => rename H into Hc
  | H : track _ _ = _ |- _ => rename H into Ht
  | H : shutdownStep _ _ _ _ |- _ => rename H into Hp
  end.

(** [accept]'s steps. *)
Lemma acceptStep_starts t g t' gs :
  acceptStep t g t' gs → (tracked g = true → 1 ≤ t_wg t) → (enrolling g = true → 1 ≤ t_enrolSem t) →
  t_wg t' + 1 = t_wg t + count tracked gs ∧
  t_enrolSem t' + one (enrolling g) = t_enrolSem t + count enrolling gs ∧
  (t_enrolSem t ≤ maxEnrolments → t_enrolSem t' ≤ maxEnrolments) ∧
  frame t t' ∧ tracked g = true ∧ is_shutdown g = false ∧
  (t_done t = true → count tracked gs ≤ 1) ∧
  Forall (λ g, is_shutdown g = false ∧
    (∀ a n, dialling a n g = false) ∧ (∀ n, owning n g = false) ∧ (∀ n, waiting n g = false)) gs.
Proof.
  intros [t0 c r t1 Hl Ha|t0 a r gs0 t1 Ha|t0] Hw Hs.
  - apply adopt_first_spec in Ha as (Hf & ? & ? & ?). rewrite !count_cons, !count_nil.
    destruct r as [k|a]; cbn -[maxEnrolments] in *; unfold one in *; split_and!; try done; try lia; by repeat constructor.
  - apply adopt_next_spec in Ha as (Hf & [Hd Hsp] & ? & ? & ?); [|exact Hs]. rewrite !count_cons.
    assert (Hg : Forall (λ g, is_shutdown g = false ∧ (∀ a n, dialling a n g = false) ∧
      (∀ n, owning n g = false) ∧ (∀ n, waiting n g = false)) gs0) by (eapply Forall_impl; [exact Hsp|]; naive_solver).
    assert (t_done t0 = true → count tracked gs0 = 0) by (by intros ->%Hd).
    destruct r as [k|a']; cbn -[maxEnrolments] in *; unfold one in *; split_and!; try done; try lia; by constructor.
  - rewrite !count_nil. cbn -[maxEnrolments] in *. specialize (Hw eq_refl). split_and!; try done; lia.
Qed.

Lemma gstep_books t set g t' set' gs :
  gstep (t, set) g (t', set') gs →
  (tracked g = true → 1 ≤ t_wg t) → (enrolling g = true → 1 ≤ t_enrolSem t) →
  t_wg t' + one (tracked g) = t_wg t + count tracked gs ∧
  t_enrolSem t' + one (enrolling g) = t_enrolSem t + count enrolling gs ∧
  (t_enrolSem t ≤ maxEnrolments → t_enrolSem t' ≤ maxEnrolments).
Proof.
  intros Hg; gstep_cases Hg; intros Hw Hs.
  all: try (rewrite ?count_cons, ?count_nil; cbn -[maxEnrolments]; cbn in Hw, Hs;
    repeat match goal with |- context [forgetConn ?t ?a ?c] =>
      destruct (forgetConn_frame t a c) as (_ & -> & ->) end;
    try (specialize (Hw eq_refl)); try (specialize (Hs eq_refl)); cbn -[maxEnrolments];
    split_and!; lia).
  - destruct (acceptStep_starts _ _ _ _ Hacc Hw Hs) as (? & ? & ? & _ & -> & _). cbn [one]. auto.
  - apply (connectStep_starts _ _ _ _ _ k) in Hc as (Hw' & Hs' & Hm & _); auto.
  - unfold track in Ht. destruct (t_done t); simplify_eq; rewrite ?count_cons, ?count_nil; cbn -[maxEnrolments]; lia.
  - inversion Hp; subst; cbn -[maxEnrolments]; rewrite ?count_cons, ?count_nil; cbn -[maxEnrolments]; lia.
Qed.

(** Once done is closed it stays so, and no counted goroutine starts. *)
Lemma gstep_flags t set g t' set' gs :
  gstep (t, set) g (t', set') gs →
  (tracked g = true → 1 ≤ t_wg t) → (enrolling g = true → 1 ≤ t_enrolSem t) →
  (t_done t = true → t_done t' = true ∧ count tracked gs ≤ one (tracked g)) ∧
  t_once t' = t_once t ∧
  count is_shutdown gs ≤ one (is_shutdown g) ∧
  (0 < count late gs → t_done t = true ∨ late g = true ∨ t_done t' = true).
Proof.
  intros Hg; gstep_cases Hg; intros Hw Hs.
  all: try (cbn -[maxEnrolments]; repeat match goal with |- context [forgetConn ?t ?a ?c] =>
      destruct (forgetConn_frame t a c) as ((_ & -> & -> & _) & _) end;
    rewrite ?count_cons, ?count_nil; cbn -[maxEnrolments]; split_and!; auto; lia).
  - destruct (acceptStep_starts _ _ _ _ Hacc Hw Hs) as (_ & _ & _ & (_ & -> & -> & _) & -> & -> & Ht & Hgs).
    rewrite (count_none is_shutdown) by (eapply Forall_impl; [exact Hgs|]; naive_solver).
    rewrite (count_none late) by (eapply Forall_impl; [exact Hgs|]; intros []; cbn; naive_solver).
    cbn [one]. split_and!; auto; lia.
  - apply (connectStep_starts _ _ _ _ _ k) in Hc as (_ & _ & _ & Hd & Ho & [Hgs Hsp]); [|done].
    rewrite !count_cons. cbn [is_shutdown late one].
    rewrite (count_none is_shutdown) by (eapply Forall_impl; [exact Hsp|]; naive_solver).
    rewrite (count_none late) by (eapply Forall_impl; [exact Hsp|]; intros []; cbn; naive_solver).
    split_and!; auto; try lia. intros Hdone. rewrite Hgs by done. rewrite count_nil.
    destruct k; cbn; split; auto; congruence.
  - unfold track in Ht. destruct (t_done t) eqn:Hd; simplify_eq; rewrite ?count_cons, ?count_nil; cbn -[maxEnrolments];
      split_and!; auto; lia || congruence.
  - inversion Hp; subst; cbn -[maxEnrolments]; rewrite ?count_cons, ?count_nil; cbn -[maxEnrolments];
      split_and!; auto; lia.
Qed.

(** ** The dials in flight *)

Definition in_table t (addr : bytes) (call : nat) : bool :=
  bool_decide (t_dialing t !! addr = Some call).
Definition unfinished t (call : nat) : bool :=
  match t_calls t !! call with Some None => true | _ => false end.

(** The table names exactly the calls somebody is dialling, and a call without
    a result has exactly one owner. *)
Record dials t gs : Prop := {
  dials_table : ∀ a n, count (dialling a n) gs = one (in_table t a n);
  dials_calls : ∀ n, count (owning n) gs = one (unfinished t n);
  dials_waits : ∀ n, 0 < count (waiting n) gs → n < length (t_calls t);
}.

Lemma dialling_owning a n g : one (dialling a n g) ≤ one (owning n g).
Proof.
  destruct g; try (cbn; lia). destruct pc; cbn; try lia;
    repeat case_bool_decide; cbn; try lia; naive_solver.
Qed.

Lemma in_table_unfinished t gs a n : dials t gs → t_dialing t !! a = Some n → t_calls t !! n = Some None.
Proof.
  intros Hd Ha. pose proof (dials_table _ _ Hd a n) as Ht. pose proof (dials_calls _ _ Hd n) as Hc.
  assert (Hle : count (dialling a n) gs ≤ count (owning n) gs).
  { clear. induction gs as [|g gs IH]; [done|]. rewrite !count_cons.
    pose proof (dialling_owning a n g). unfold one in *. lia. }
  unfold in_table in Ht. rewrite bool_decide_eq_true_2 in Ht by done.
  unfold unfinished in Hc. repeat case_match; cbn in *; (done || lia).
Qed.

(** The books of a step, and of one that touches neither table nor calls. *)
Lemma dials_change t t' l g r gs :
  (∀ a n, count (dialling a n) gs + one (in_table t a n) = one (dialling a n g) + one (in_table t' a n)) →
  (∀ n, count (owning n) gs + one (unfinished t n) = one (owning n g) + one (unfinished t' n)) →
  length (t_calls t) ≤ length (t_calls t') →
  (∀ n, 0 < count (waiting n) gs → waiting n g = true ∨ n < length (t_calls t)) →
  dials t (l ++ g :: r) → dials t' (l ++ gs ++ r).
Proof.
  intros Hd Ho Hlen Hw [H1 H2 H3]. split.
  - intros a n. specialize (Hd a n). specialize (H1 a n).
    rewrite !count_app, ?count_cons in *. unfold one in *. lia.
  - intros n. specialize (Ho n). specialize (H2 n).
    rewrite !count_app, ?count_cons in *. unfold one in *. lia.
  - intros n Hn. specialize (Hw n). specialize (H3 n). rewrite !count_app, ?count_cons in *.
    destruct (waiting n g); [lia|].
    destruct (decide (0 < count (waiting n) gs)) as [[|]%Hw|]; [done|lia|lia].
Qed.

Lemma dials_frame t t' l g r gs :
  t_dialing t' = t_dialing t → t_calls t' = t_calls t →
  (∀ a n, count (dialling a n) gs = one (dialling a n g)) →
  (∀ n, count (owning n) gs = one (owning n g)) →
  (∀ n, 0 < count (waiting n) gs → waiting n g = true ∨ n < length (t_calls t)) →
  dials t (l ++ g :: r) → dials t' (l ++ gs ++ r).
Proof.
  intros Ht Hc Hd Ho Hw Hds. eapply dials_change; [| | | |exact Hds];
    unfold in_table, unfinished; rewrite ?Ht, ?Hc; auto.
Qed.

Lemma dials_owner t l g r n :
  dials t (l ++ g :: r) → owning n g = true → t_calls t !! n = Some None.
Proof.
  intros Hd Hg. pose proof (dials_calls _ _ Hd n) as Hc. rewrite count_app, count_cons, Hg in Hc.
  unfold unfinished in Hc. repeat case_match; cbn in Hc; (done || lia).
Qed.

Lemma dials_dialler t l g r a n :
  dials t (l ++ g :: r) → dialling a n g = true → t_dialing t !! a = Some n.
Proof.
  intros Hd Hg. pose proof (dials_table _ _ Hd a n) as Ht. rewrite count_app, count_cons, Hg in Ht.
  unfold in_table in Ht. case_bool_decide; [done|]. cbn in Ht. lia.
Qed.

Lemma connectStep_dials t pc t' pc' gs k l r :
  connectStep t pc t' pc' gs → (enrolling (GConnect k pc) = true → 1 ≤ t_enrolSem t) →
  dials t (l ++ GConnect k pc :: r) → dials t' (l ++ (GConnect k pc' :: gs) ++ r).
Proof.
  intros Hstep Hh Hd. destruct Hstep as [t addr c Hl|t addr Hl|t addr call Ht|t addr Ht call|t call r0 Hc|t call e
    |t addr call answer r0 t' _ Hdial|t addr call answer a0 t' _ Hdial|t addr call a0 kept gs t' Ha|t addr call a0 a1 gs t' Ha
    |t addr call r0|t call r0].
  - eapply (dials_frame t); [..|exact Hd]; auto; intros; rewrite count_cons, count_nil in *; cbn in *; unfold one in *; lia.
  - eapply (dials_frame t); [..|exact Hd]; auto; intros; rewrite count_cons, count_nil in *; cbn in *; unfold one in *; lia.
  - eapply (dials_frame t); [..|exact Hd]; auto; intros; rewrite count_cons, count_nil in *; cbn in *; try lia.
    right. case_bool_decide; [subst|lia].
    by eapply lookup_lt_Some, in_table_unfinished.
  - eapply (dials_change t); [| | | |exact Hd]; cbn.
    + intros a n. rewrite count_cons, count_nil. unfold in_table. cbn.
      destruct (decide (a = addr)) as [->|Hne].
      * rewrite Ht, lookup_insert_eq. repeat case_bool_decide; naive_solver.
      * rewrite lookup_insert_ne by done. repeat case_bool_decide; naive_solver.
    + intros n. rewrite count_cons, count_nil. unfold unfinished. cbn. case_bool_decide as Hn.
      * subst. rewrite lookup_ge_None_2, list_lookup_middle by lia. done.
      * destruct (decide (n < length (t_calls t))) as [Hlt|Hge].
        -- by rewrite lookup_app_l.
        -- rewrite !lookup_ge_None_2; [done|rewrite length_app; cbn; lia|lia].
    + rewrite length_app. lia.
    + intros n. rewrite count_cons, count_nil. cbn. unfold one. lia.
  - eapply (dials_frame t); [..|exact Hd]; auto; intros; rewrite count_cons, count_nil in *; cbn in *; unfold one in *; lia.
  - eapply (dials_frame t); [..|exact Hd]; auto; intros; rewrite count_cons, count_nil in *; cbn in *; unfold one in *; lia.
  - apply dial_spec in Hdial as ((_ & _ & _ & Hd' & Hc') & _).
    eapply (dials_frame t); [done|done|..|exact Hd]; intros; rewrite count_cons, count_nil in *; cbn in *; unfold one in *; lia.
  - apply dial_spec in Hdial as ((_ & _ & _ & Hd' & Hc') & _).
    eapply (dials_frame t); [done|done|..|exact Hd]; intros; rewrite count_cons, count_nil in *; cbn in *; unfold one in *; lia.
  - apply adopt_next_spec in Ha as ((_ & _ & _ & Hd' & Hc') & Hsp & _); [|exact Hh].
    destruct (spawned_none _ _ Hsp) as (H1 & H2 & H3 & _).
    eapply (dials_frame t); [done|done|..|exact Hd]; intros; rewrite count_cons, ?H1, ?H2, ?H3 in *; cbn in *; unfold one in *; lia.
  - apply adopt_next_spec in Ha as ((_ & _ & _ & Hd' & Hc') & Hsp & _); [|exact Hh].
    destruct (spawned_none _ _ Hsp) as (H1 & H2 & H3 & _).
    eapply (dials_frame t); [done|done|..|exact Hd]; intros; rewrite count_cons, ?H1, ?H2, ?H3 in *; cbn in *; unfold one in *; lia.
  - assert (Ht : t_dialing t !! addr = Some call).
    { eapply dials_dialler; [done|]. cbn. by rewrite bool_decide_eq_true_2. }
    eapply (dials_change t); [..|exact Hd]; cbn.
    + intros a n. rewrite count_cons, count_nil. unfold in_table. cbn.
      destruct (decide (a = addr)) as [->|Hne].
      * rewrite Ht, lookup_delete_eq. repeat case_bool_decide; naive_solver.
      * rewrite lookup_delete_ne by done. repeat case_bool_decide; naive_solver.
    + intros n. rewrite count_cons, count_nil. cbn. unfold unfinished. cbn. unfold one. lia.
    + done.
    + intros n. rewrite count_cons, count_nil. cbn. unfold one. lia.
  - assert (Ht : t_calls t !! call = Some None).
    { eapply dials_owner; [done|]. cbn. by rewrite bool_decide_eq_true_2. }
    eapply (dials_change t); [| | | |exact Hd]; cbn.
    + intros a n. rewrite count_cons, count_nil. cbn. unfold in_table. cbn. unfold one. lia.
    + intros n. rewrite count_cons, count_nil. unfold unfinished. cbn. case_bool_decide as Hn.
      * subst. rewrite Ht, list_lookup_insert_eq by by eapply lookup_lt_Some. done.
      * by rewrite list_lookup_insert_ne.
    + by rewrite length_insert.
    + intros n. rewrite count_cons, count_nil. cbn. unfold one. lia.
Qed.

Lemma gstep_dials t set g t' set' gs l r :
  gstep (t, set) g (t', set') gs →
  (tracked g = true → 1 ≤ t_wg t) → (enrolling g = true → 1 ≤ t_enrolSem t) →
  dials t (l ++ g :: r) → dials t' (l ++ gs ++ r).
Proof.
  intros Hg Hw Hs Hds. revert Hw Hs Hds. gstep_cases Hg; intros Hw Hs Hds; [|try (eapply dials_frame; [..|exact Hds]; cbn; try match goal with |- context [forgetConn ?t ?a ?c] =>
      destruct (forgetConn_frame t a c) as ((_ & _ & _ & Hfd & Hfc) & _);
      first [exact Hfd | exact Hfc | idtac] end; try done;
      intros; rewrite ?count_cons, ?count_nil in *; cbn in *; unfold one in *; lia)..].
  - destruct (acceptStep_starts _ _ _ _ Hacc Hw Hs) as (_ & _ & _ & (_ & _ & _ & Hd' & Hc') & _ & _ & _ & Hgs).
    assert (Hg : (∀ a n, dialling a n g = false) ∧ (∀ n, owning n g = false)) by (by inversion Hacc).
    destruct Hg as [Hg1 Hg2].
    eapply (dials_frame t); [done|done|..|exact Hds]; intros; rewrite ?Hg1, ?Hg2.
    1,2: apply count_none; eapply Forall_impl; [exact Hgs|]; naive_solver.
    exfalso. rewrite count_none in * by (eapply Forall_impl; [exact Hgs|]; naive_solver). lia.
  - by eapply connectStep_dials.
  - unfold track in Ht. destruct (t_done t); simplify_eq; (eapply dials_frame; [..|exact Hds]); cbn; try done;
      intros; rewrite ?count_cons, ?count_nil in *; cbn in *; unfold one in *; lia.
  - inversion Hp; subst; (eapply dials_frame; [..|exact Hds]); cbn; try done;
      intros; rewrite ?count_cons, ?count_nil in *; cbn in *; unfold one in *; lia.
Qed.

(** ** Connections only ever die *)

Section Dying.
Context {laws : QuicLaws}.

Lemma only_dies_refl q : only_dies q q.
Proof. by intros c. Qed.
Lemma only_dies_trans q1 q2 q3 : only_dies q1 q2 → only_dies q2 q3 → only_dies q1 q3.
Proof. unfold only_dies. auto. Qed.
Lemma close_dies q c code r : only_dies q (CloseWithError q c code r).
Proof.
  intros d. destruct (decide (d = c)) as [->|Hne]; [by rewrite close_dead|by rewrite close_other].
Qed.
Lemma quic_Close_dies q : only_dies q (quic_Close q).
Proof. intros d. by rewrite quic_Close_dead. Qed.
#[local] Hint Resolve only_dies_refl close_dies quic_Close_dies : core.

Lemma register_dies t c peer client k t' :
  register t c peer client = (k, t') → only_dies (t_quic t) (t_quic t').
Proof. unfold register. intros. repeat case_match; simplify_eq/=; auto. Qed.

Lemma forgetConn_dies t addr c : only_dies (t_quic t) (t_quic (forgetConn t addr c)).
Proof. unfold forgetConn. case_decide; cbn; auto. Qed.
#[local] Hint Resolve forgetConn_dies : core.

Lemma adopt_first_dies t c accepted r t' :
  adopt_first t c accepted = (r, t') → only_dies (t_quic t) (t_quic t').
Proof.
  unfold adopt_first. intros. destruct (connIdentity c) as [peer|e]; [|by simplify_eq/=]. case_decide.
  - destruct (negb (t_enrol t)); [by simplify_eq/=|]. destruct (maxEnrolments <=? t_enrolSem t); by simplify_eq/=.
  - destruct (register t c peer _) as [kept t1] eqn:E. apply register_dies in E. case_decide; by simplify_eq/=.
Qed.

Lemma adopt_next_dies t a r gs t' : adopt_next t a = (r, gs, t') → only_dies (t_quic t) (t_quic t').
Proof.
  destruct a as [c peer|c|c peer|c]; unfold adopt_next, track; [| | |by intros; simplify_eq/=].
  - destruct (t_done t); cbn; intros; by simplify_eq/=.
  - intros. simplify_eq. auto.
  - destruct (t_done t); cbn; intros; by simplify_eq/=.
Qed.

Lemma gstep_dies t set g t' set' gs :
  gstep (t, set) g (t', set') gs → only_dies (t_quic t) (t_quic t').
Proof.
  intros Hg; gstep_cases Hg; try (cbn; auto; fail).
  - inversion Hacc; subst; cbn; eauto using adopt_first_dies, adopt_next_dies.
  - eapply only_dies_trans, (forgetConn_dies (closeConn t c 1 "not a member")). cbn. auto.
  - assert (Hdial : ∀ answer r t1, dial t answer = (r, t1) → only_dies (t_quic t) (t_quic t1)).
    { intros [c|e] r t1; cbn; [|by intros [= _ <-]].
      destruct (adopt_first t c false) as [r0 t0] eqn:E. intros [= _ <-]. by eapply adopt_first_dies. }
    inversion Hc; subst; cbn; eauto using adopt_next_dies.
  - unfold track in Ht. destruct (t_done t); by simplify_eq/=.
  - inversion Hp; subst; cbn; auto.
Qed.

(** ** The invariant of the whole transport *)

(** A connection that was dialled takes no enrolment slot. *)
Definition no_slot g : bool :=
  match g with GConnect _ (CAdopt _ _ a) => negb (holds_slot a) | _ => true end.

Lemma dial_no_slot t answer a t' : dialled answer → dial t answer = (inr a, t') → holds_slot a = false.
Proof.
  intros Hp. unfold dial. destruct answer as [c|e]; [|done]. cbn in Hp. unfold adopt_first.
  destruct (connIdentity c) as [peer|e]; [|done]. rewrite Hp, decide_False by done.
  destruct (register t c peer _) as [kept t1]. by case_decide; intros [= <- _].
Qed.

Lemma adopt_next_no_slot t a a' gs t' :
  adopt_next t a = (inr a', gs, t') → holds_slot a = false → holds_slot a' = false.
Proof. destruct a; unfold adopt_next; try done. destruct (track t 2) as [[] t1]; cbn; [done|]. by intros [= <- _ _]. Qed.

Lemma spawned_no_slot t gs : spawned t gs → Forall (λ g, no_slot g = true) gs.
Proof.
  intros [_ Hs]. eapply Forall_impl; [exact Hs|]. intros g (_ & _ & Hd & _).
  destruct g as [| | | | |k pc| | | | | | | | |]; try done. destruct pc as [| | | |a n ?| | |]; try done.
  specialize (Hd a n). cbn in Hd. by rewrite bool_decide_eq_true_2 in Hd.
Qed.

Lemma gstep_no_slot t set g t' set' gs :
  gstep (t, set) g (t', set') gs →
  (tracked g = true → 1 ≤ t_wg t) → (enrolling g = true → 1 ≤ t_enrolSem t) →
  no_slot g = true → Forall (λ g, no_slot g = true) gs.
Proof.
  intros Hg; gstep_cases Hg; intros Hw Hs Hn; try (by repeat constructor).
  - destruct (acceptStep_starts _ _ _ _ Hacc Hw Hs) as (_ & _ & _ & _ & _ & _ & _ & Hgs).
    eapply Forall_impl; [exact Hgs|]. intros g0 (_ & Hd & _).
    destruct g0 as [| | | | |k pc| | | | | | | | |]; try done. destruct pc as [| | | |a n ?| | |]; try done.
    specialize (Hd a n). cbn in Hd. by rewrite bool_decide_eq_true_2 in Hd.
  - pose proof (connectStep_starts _ _ _ _ _ k Hc Hs) as (_ & _ & _ & _ & _ & Hsp%spawned_no_slot).
    constructor; [|done]. destruct Hc; cbn in *; try done; apply negb_true_iff.
    + by eapply dial_no_slot.
    + eapply adopt_next_no_slot; [done|]. by apply negb_true_iff.
  - destruct ok; by repeat constructor.
  - inversion Hp; subst; by repeat constructor.
Qed.

Definition waits_for_end g : bool := match g with GShutdown SWait => true | _ => false end.

Record inv (w : world) : Prop := {
  inv_wg : t_wg (w_t w) = count tracked (w_gs w);
  inv_sem : t_enrolSem (w_t w) = count enrolling (w_gs w);
  inv_max : t_enrolSem (w_t w) ≤ maxEnrolments;
  inv_slots : Forall (λ g, no_slot g = true) (w_gs w);
  inv_dials : dials (w_t w) (w_gs w);
  inv_late : 0 < count late (w_gs w) → t_done (w_t w) = true;
  inv_dead : 0 < count waits_for_end (w_gs w) ∨ w_shut w = true → ∀ c, live (t_quic (w_t w)) c = false;
  inv_shut : w_shut w = true → t_done (w_t w) = true ∧ count tracked (w_gs w) = 0;
}.

Lemma dead_stays q q' : only_dies q q' → (∀ c, live q c = false) → ∀ c, live q' c = false.
Proof. intros Hd Hq c. destruct (live q' c) eqn:E; [|done]. by rewrite <- (Hq c), (Hd c E). Qed.

Lemma gstep_waits t set g t' set' gs :
  gstep (t, set) g (t', set') gs →
  (tracked g = true → 1 ≤ t_wg t) → (enrolling g = true → 1 ≤ t_enrolSem t) →
  0 < count waits_for_end gs → ∀ c, live (t_quic t') c = false.
Proof.
  intros Hg; gstep_cases Hg; intros Hw Hs; try (rewrite ?count_cons, ?count_nil; cbn; lia).
  - destruct (acceptStep_starts _ _ _ _ Hacc Hw Hs) as (_ & _ & _ & _ & _ & _ & _ & Hgs).
    rewrite count_none; [lia|]. eapply Forall_impl; [exact Hgs|]. intros [] (? & _); done.
  - apply (connectStep_starts _ _ _ _ _ k) in Hc as (_ & _ & _ & _ & _ & [_ Hsp]); [|done].
    rewrite count_cons, count_none; [cbn; lia|]. eapply Forall_impl; [exact Hsp|]. intros [] (_ & ? & _); done.
  - unfold track in Ht. destruct (t_done t); simplify_eq; rewrite ?count_cons, ?count_nil; cbn; lia.
  - inversion Hp; subst; cbn; rewrite ?count_cons, ?count_nil; cbn; try lia.
    intros _ c. apply quic_Close_dead.
Qed.

Lemma shutdown_ends t set g t' set' gs :
  gstep (t, set) g (t', set') gs → is_shutdown g = true → gs = [] →
  g = GShutdown SWait ∧ t_wg t = 0 ∧ t' = t.
Proof.
  intros Hg Hs ->. destruct g; try done.
  inversion Hg as [| | | | | |? ? ? ? ? H|? ? ? ? ? H|? ? ? ? pc' Hp Ht Hpc Hgs]; subst;
    try (by inversion H). destruct pc'; [done|]. by inversion Hp.
Qed.

Lemma inv_initial id handler q set : inv (initial id handler q set).
Proof.
  split; cbn -[maxEnrolments]; try done; try lia.
  - by repeat constructor.
  - split; cbn; [by intros|by intros|]. intros n. rewrite count_cons, count_nil. cbn. lia.
  - rewrite count_cons, count_nil. cbn. lia.
  - rewrite count_cons, count_nil. cbn. intros [H|H]; [lia|done].
Qed.

Lemma inv_run t set l g r t' set' gs shut :
  gstep (t, set) g (t', set') gs → inv (MkWorld t set (l ++ g :: r) shut) →
  inv (MkWorld t' set' (l ++ gs ++ r) (shut || (is_shutdown g && bool_decide (gs = [])))).
Proof.
  intros Hg [Hwg Hsem Hmax Hsl Hdials Hlate Hdead Hshut]; cbn in *.
  rewrite count_app, count_cons in Hwg, Hsem, Hlate, Hdead, Hshut.
  assert (Hw0 : tracked g = true → 1 ≤ t_wg t) by (intros E; rewrite E in Hwg; lia).
  assert (Hs0 : enrolling g = true → 1 ≤ t_enrolSem t) by (intros E; rewrite E in Hsem; lia).
  destruct (gstep_books _ _ _ _ _ _ Hg Hw0 Hs0) as (Hw & Hs & Hm).
  destruct (gstep_flags _ _ _ _ _ _ Hg Hw0 Hs0) as (Hd & _ & _ & Hl).
  pose proof (gstep_dies _ _ _ _ _ _ Hg) as Hdies.
  split; cbn; rewrite ?count_app; unfold one in *; [lia|lia|auto| |by eapply gstep_dials| | |].
  { apply Forall_app in Hsl as [? [? ?]%Forall_cons]. repeat apply Forall_app_2; try done. by eapply gstep_no_slot. }
  - intros Hpos. destruct (decide (0 < count late gs)) as [Hgs|Hgs].
    + destruct (Hl Hgs) as [Ht|[Ht|Ht]]; [by apply Hd| |done]. rewrite Ht in Hlate. apply Hd, Hlate. lia.
    + apply Hd, Hlate. lia.
  - intros Hpos. destruct (decide (0 < count waits_for_end gs)) as [Hgs|Hgs].
    { by eapply gstep_waits. }
    apply (dead_stays _ _ Hdies), Hdead.
    destruct Hpos as [Hpos|[Ht|[Hsh Hnil%bool_decide_eq_true]%andb_prop]%orb_prop]; [left; lia|by right|].
    left. destruct (shutdown_ends _ _ _ _ _ _ Hg Hsh Hnil) as (-> & _). cbn. lia.
  - intros [Ht|[Hsh Hnil%bool_decide_eq_true]%andb_prop]%orb_prop.
    + destruct (Hshut Ht) as [Hdone H0]. destruct (Hd Hdone) as [? ?]. split; [done|lia].
    + destruct (shutdown_ends _ _ _ _ _ _ Hg Hsh Hnil) as (-> & H0 & ->).
      cbn in *. rewrite Hnil, count_nil. split; [apply Hlate; lia|lia].
Qed.

(** A call from outside starts a goroutine that holds nothing yet. *)
Lemma inv_push t set gs shut g :
  tracked g = false → enrolling g = false → no_slot g = true → late g = false → waits_for_end g = false →
  (∀ a n, dialling a n g = false) → (∀ n, owning n g = false) → (∀ n, waiting n g = false) →
  inv (MkWorld t set gs shut) → inv (MkWorld t set (g :: gs) shut).
Proof.
  intros Ht He Hn Hl Hw Hd Ho Hwt [? ? ? ? [H1 H2 H3] ? ? ?]. cbn in *.
  split; cbn; rewrite ?count_cons, ?Ht, ?He, ?Hl, ?Hw; cbn; auto.
  split; intros; rewrite ?count_cons, ?Hd, ?Ho, ?Hwt; cbn; auto.
  match goal with H : 0 < _ |- _ => rewrite count_cons, Hwt in H end. auto.
Qed.

(** The connections, the records and the flag of Shutdown may change. *)
Lemma inv_same t t' set set' gs shut :
  t_wg t' = t_wg t → t_enrolSem t' = t_enrolSem t → t_done t' = t_done t →
  t_dialing t' = t_dialing t → t_calls t' = t_calls t → only_dies (t_quic t) (t_quic t') →
  inv (MkWorld t set gs shut) → inv (MkWorld t' set' gs shut).
Proof.
  intros Hw Hs Hd Ht Hc Hq [? ? ? ? [H1 H2 H3] ? Hdead ?]. cbn in *. split; cbn; try congruence.
  - split; unfold in_table, unfinished; intros; rewrite ?Ht, ?Hc; auto.
  - rewrite Hd. auto.
  - intros E. eapply dead_stays; eauto.
  - rewrite Hd. auto.
Qed.

Lemma inv_step w w' : step w w' → inv w → inv w'.
Proof.
  destruct 1; intros Hinv.
  - by eapply inv_run.
  - by apply inv_push.
  - by apply inv_push.
  - apply inv_push; try done. by eapply inv_same; [..|exact Hinv].
  - by eapply inv_same; [..|exact Hinv].
  - by eapply inv_same; [..|exact Hinv].
Qed.

Lemma inv_steps w w' : steps w w' → inv w → inv w'.
Proof. induction 1; eauto using inv_step. Qed.

Lemma reachable_inv id handler q set w : reachable id handler q set w → inv w.
Proof. intros H. eapply inv_steps; [exact H|apply inv_initial]. Qed.
#[local] Hint Resolve reachable_inv : core.

Lemma shut_steps w w' : steps w w' → w_shut w = true → w_shut w' = true.
Proof. induction 1 as [|? ? ? Hs]; [done|]. destruct Hs; cbn in *; auto. intros ->. auto. Qed.

(** C6: after [Shutdown] has returned, however the transport's users and peers go
    on, none of the goroutines the transport counts runs, no connection is
    live and the enrolment slots are all free. *)
Theorem Shutdown_final id handler q set w w' :
  reachable id handler q set w → w_shut w = true → steps w w' →
  (∀ g, g ∈ w_gs w' → tracked g = false) ∧
  (∀ c, live (t_quic (w_t w')) c = false) ∧
  t_enrolSem (w_t w') = 0.
Proof.
  intros Hr Hs Hsteps. assert (Hinv : inv w') by eauto using inv_steps.
  pose proof (shut_steps _ _ Hsteps Hs) as Hs'. destruct (inv_shut _ Hinv Hs') as [_ H0].
  assert (Ht : ∀ g, g ∈ w_gs w' → tracked g = false).
  { intros g Hg. destruct (tracked g) eqn:E; [|done].
    enough (0 < count tracked (w_gs w')) by lia. apply count_pos. eauto. }
  split_and!; [exact Ht|apply (inv_dead _ Hinv); auto|].
  rewrite (inv_sem _ Hinv). apply count_none, Forall_forall. intros g Hg.
  pose proof (inv_slots _ Hinv) as Hn. rewrite Forall_forall in Hn. specialize (Hn g Hg). apply Ht in Hg.
  destruct g as [| | | | |k pc| | | | | | | | |]; try done. destruct pc; try done. by apply negb_true_iff.
Qed.

(** However many peers open enrolment connections, at most [maxEnrolments] of
    the exchanges run at once, and the slots taken are exactly those running. *)
Theorem enrolments_bounded id handler q set w :
  reachable id handler q set w →
  count enrolling (w_gs w) ≤ maxEnrolments ∧ t_enrolSem (w_t w) = count enrolling (w_gs w).
Proof. intros Hr%reachable_inv. rewrite <- (inv_sem _ Hr). split; [apply (inv_max _ Hr)|done]. Qed.

(** A goroutine in [dial] for [addr]. *)
Definition dials_to (addr : bytes) g : bool :=
  match g with GConnect _ (CDial a _) | GConnect _ (CAdopt a _ _) => bool_decide (a = addr) | _ => false end.

Lemma count_le p p' gs :
  (∀ g, g ∈ gs → p g = true → p' g = true) → count p gs ≤ count p' gs.
Proof.
  induction gs as [|g gs IH]; intros H; [done|]. rewrite !count_cons.
  assert (count p gs ≤ count p' gs) by (apply IH; intros; apply H; [by right|done]).
  specialize (H g ltac:(left)). destruct (p g); [rewrite H by done|]; lia.
Qed.

Lemma owner_moves g n :
  owning n g = true → ∀ t set, ∃ t' set' gs, gstep (t, set) g (t', set') gs.
Proof.
  intros Ho t set. destruct g as [| | | | |k pc| | | | | | | | |]; try done.
  destruct pc as [| | |addr call|addr call a|addr call r|call r|]; try done.
  2: { destruct (adopt_next t a) as [[[kept|a'] gs] t'] eqn:E; eexists _, _, _; apply g_connect;
       [by eapply connect_adopted|by eapply connect_adopting]. }
  all: eexists _, _, _; apply g_connect.
  - by apply (connect_dialled t addr call (Err "")).
  - constructor.
  - constructor.
Qed.

Lemma dials_to_dialling addr g : dials_to addr g = true → ∃ n, dialling addr n g = true.
Proof.
  destruct g as [| | | | |k pc| | | | | | | | |]; try done. destruct pc as [| | |a m|a m ?| | |]; try done.
  all: cbn; intros ->%bool_decide_eq_true; exists m; by apply bool_decide_eq_true_2.
Qed.

Lemma dials_member t gs g addr n :
  dials t gs → g ∈ gs → dialling addr n g = true → t_dialing t !! addr = Some n.
Proof. intros Hd (l & r & ->)%list_elem_of_split Hg. by eapply dials_dialler. Qed.

(** C25: dials are serialised: at any time at most one dial to an address is under
    way, and whoever waits for one either finds its result or waits for a
    goroutine that can go on by itself. *)
Theorem dials_serialised id handler q set w :
  reachable id handler q set w →
  (∀ addr, count (dials_to addr) (w_gs w) ≤ 1) ∧
  (∀ g n, g ∈ w_gs w → waiting n g = true →
    (∃ r, t_calls (w_t w) !! n = Some (Some r)) ∨
    ∃ o, o ∈ w_gs w ∧ owning n o = true ∧
      ∀ t set, ∃ t' set' gs, gstep (t, set) o (t', set') gs).
Proof.
  intros Hr%reachable_inv. pose proof (inv_dials _ Hr) as Hd. split.
  - intros addr. destruct (t_dialing (w_t w) !! addr) as [n|] eqn:E.
    + transitivity (count (dialling addr n) (w_gs w)); [|rewrite (dials_table _ _ Hd); unfold one; case_match; lia].
      apply count_le. intros g Hg [m Hm]%dials_to_dialling. pose proof (dials_member _ _ _ _ _ Hd Hg Hm) as E'.
      rewrite E in E'. by injection E' as ->.
    + transitivity 0; [|lia]. apply Nat.nlt_ge. intros Hpos.
      apply count_pos in Hpos as (g & Hg & [m Hm]%dials_to_dialling).
      by rewrite (dials_member _ _ _ _ _ Hd Hg Hm) in E.
  - intros g n Hg Hw. assert (Hlt : n < length (t_calls (w_t w))).
    { apply (dials_waits _ _ Hd), count_pos. eauto. }
    apply lookup_lt_is_Some in Hlt as [[r|] E]; [eauto|]. right.
    assert (0 < count (owning n) (w_gs w)) as (o & Ho & Hn)%count_pos.
    { rewrite (dials_calls _ _ Hd). unfold unfinished. rewrite E. cbn. lia. }
    eauto using owner_moves.
Qed.
End Dying.
End Invariants.
