(* ===== verification/Tls.v ===== *)
(** * Tls: who gets a connection (internal/cluster/transport.go)

    The certificates nodes present and the TLS configurations of the gossip
    transport's two protocols, both ways. TLS itself is a class, with what
    crypto/tls and RFC 9001 document as its laws: which certificates a
    handshake checks, and which protocol it ends with. A resumed session
    checks no certificate again, so that what a full handshake guarantees does
    not hold of it. *)

From S2P Require Import Prelude Identity Records TrustSet Validity Transport.

(** ** Identity certificates *)

(** Durations in nanoseconds. *)
Definition hour : Z := 3600 * 10 ^ 9.

(** The fields of [x509.Certificate] the source sets; times in nanoseconds. *)
Record certTemplate := MkTemplate {
  ct_SerialNumber : Z;
  ct_CommonName : bytes;
  ct_NotBefore : Z;
  ct_NotAfter : Z;
  ct_DigitalSignature : bool;               (* KeyUsage *)
  ct_ServerAuth : bool;                     (* ExtKeyUsage *)
  ct_ClientAuth : bool;
}.

(** [tls.Certificate]: the chain, and the key that signs for it. *)
Record tlsCertificate := MkTlsCert {
  tc_Certificate : list bytes;
  tc_PrivateKey : Identity;
}.

(** [x509.CreateCertificate], self-signed with the identity's key. *)
Class CertMaker := { CreateCertificate : certTemplate → Identity → result bytes }.

(** [identityCertificate]; the clock is read twice. *)
Definition certTemplate_of `{!Ed25519} (id : Identity) (now now' : Z) : certTemplate :=
  MkTemplate 1 (PublicKey_Short (Public id)) (now - hour) (now' + 100 * 365 * 24 * hour) true true true.
Definition identityCertificate `{!Ed25519, !CertMaker} (id : Identity) (now now' : Z) : result tlsCertificate :=
  match CreateCertificate (certTemplate_of id now now') id with
  | Err _ => Err "creating identity certificate"
  | Ok der => Ok (MkTlsCert [der] id)
  end.

(** ** Configurations *)

(** The functions given as [VerifyPeerCertificate]: the transport's [verify], and
    the one that asks for an identity only. *)
Inductive verifier := VerifyMember | VerifyIdentity.

Definition VersionTLS13 : Z := 0x0304.

(** [tls.Config], as far as it is set; [RequireAnyClientCert] is a flag. *)
Record tlsConfig := MkTlsConfig {
  Certificates : list tlsCertificate;
  RequireAnyClientCert : bool;
  InsecureSkipVerify : bool;
  VerifyPeerCertificate : verifier;
  MinVersion : Z;
  NextProtos : list bytes;
}.

(** [gossipServer] of [newQUICTransport], and its [client]. *)
Definition gossipServerConfig (cert : tlsCertificate) : tlsConfig :=
  MkTlsConfig [cert] true false VerifyMember VersionTLS13 [alpnGossip].
Definition gossipClientConfig (cert : tlsCertificate) : tlsConfig :=
  MkTlsConfig [cert] false true VerifyMember VersionTLS13 [alpnGossip].

Definition enrolClientTLSConfig (cert : tlsCertificate) : tlsConfig :=
  MkTlsConfig [cert] false true VerifyIdentity VersionTLS13 [alpnEnrol].
Definition enrolTLSConfig (cert : tlsCertificate) : tlsConfig :=
  let conf := enrolClientTLSConfig cert in
  MkTlsConfig (Certificates conf) true (InsecureSkipVerify conf) (VerifyPeerCertificate conf)
    (MinVersion conf) (NextProtos conf).

(** The configuration that answers a client offering some protocols. *)
Definition answering (cert : tlsCertificate) (offered : list bytes) : tlsConfig :=
  match GetConfigForClient offered with
  | enrolServer => enrolTLSConfig cert
  | gossipServer => gossipServerConfig cert
  end.

Definition run_verifier `{!Ed25519, !X509} (v : verifier) (set : TrustSet) (rawCerts : list bytes)
    : result unit * TrustSet :=
  match v with
  | VerifyMember => verify set rawCerts
  | VerifyIdentity => (verifyEnrol rawCerts, set)
  end.

(** ** TLS *)

(** A completed handshake: [handshake conf offered resumed set c set'] ends in
    connection [c]; the verifier was asked in between, if at all. For the
    dialling side [offered] are its own protocols. *)
Class Tls `{!Quic} := {
  server_handshake : tlsConfig → list bytes → bool → TrustSet → conn → TrustSet → Prop;
  client_handshake : tlsConfig → bool → TrustSet → conn → TrustSet → Prop;
}.

(** What is documented: a side that has to see a certificate sees one and
    the verifier accepts it, unless the session is resumed; over QUIC the
    protocol is one both sides know. *)
Class TlsLaws `{!Ed25519, !X509, !Quic, !Tls} : Prop := {
  server_verified conf offered s c s' :
    server_handshake conf offered false s c s' → RequireAnyClientCert conf = true →
    PeerCertificates c ≠ [] ∧
    run_verifier (VerifyPeerCertificate conf) s (PeerCertificates c) = (Ok (), s');
  server_alpn conf offered resumed s c s' :
    server_handshake conf offered resumed s c s' → NextProtos conf ≠ [] →
    NegotiatedProtocol c ∈ NextProtos conf ∧ NegotiatedProtocol c ∈ offered;
  server_resumed conf offered s c s' :
    server_handshake conf offered true s c s' → s' = s;
  client_verified conf s c s' :
    client_handshake conf false s c s' →
    PeerCertificates c ≠ [] ∧
    run_verifier (VerifyPeerCertificate conf) s (PeerCertificates c) = (Ok (), s');
  client_alpn conf resumed s c s' :
    client_handshake conf resumed s c s' → NextProtos conf ≠ [] → NegotiatedProtocol c ∈ NextProtos conf;
}.

Section Members.
Context {ed : Ed25519} {x509 : X509} {quic : Quic} {tls : Tls} {tls_laws : TlsLaws}.

(** A handshake of the transport: its listener's, whatever the client offers,
    or its dial's. *)
Definition handshake (cert : tlsCertificate) (accepted resumed : bool) (offered : list bytes)
    (s : TrustSet) (c : conn) (s' : TrustSet) : Prop :=
  if accepted then server_handshake (answering cert offered) offered resumed s c s'
  else client_handshake (gossipClientConfig cert) resumed s c s'.

(** The leaf of the chain the verifier saw is the one of the connection. *)
Lemma connIdentity_certs c : connIdentity c = certIdentity (PeerCertificates c).
Proof. unfold connIdentity. by destruct (PeerCertificates c). Qed.

Lemma verify_member s certs s' :
  cache_ok s → verify s certs = (Ok (), s') →
  ∃ peer, certIdentity certs = Ok peer ∧ valid s peer = true.
Proof.
  intros Hc. unfold verify. destruct (certIdentity certs) as [peer|]; [|done].
  pose proof (Valid_answer s peer Hc) as Hv. destruct (Valid s peer) as [v s1]. cbn in Hv.
  destruct v; [|done]. intros _. by exists peer.
Qed.

Lemma GetConfigForClient_enrol offered : GetConfigForClient offered = enrolServer ↔ alpnEnrol ∈ offered.
Proof.
  induction offered as [|p ps IH]; cbn; [split; [done|by intros ?%elem_of_nil]|].
  rewrite elem_of_cons. case_decide as Hp; [split; [by left|done]|]. rewrite IH. naive_solver.
Qed.

(** A full handshake that does not end in the enrolment protocol is with a
    member. *)
Lemma handshake_member cert accepted offered s c s' :
  cache_ok s → handshake cert accepted false offered s c s' → NegotiatedProtocol c ≠ alpnEnrol →
  ∃ peer, connIdentity c = Ok peer ∧ valid s peer = true.
Proof.
  intros Hc. rewrite connIdentity_certs. destruct accepted; cbn.
  - unfold answering. destruct (GetConfigForClient offered); intros Hh Hn.
    + destruct (server_alpn _ _ _ _ _ _ Hh) as [Ha _]; [done|].
      cbn in Ha. apply list_elem_of_singleton in Ha. done.
    + destruct (server_verified _ _ _ _ _ Hh) as [_ Hv]; [done|]. by eapply verify_member.
  - intros [_ Hv]%client_verified _. by eapply verify_member.
Qed.

Lemma register_conns t c peer client addr pc :
  t_conns (register t c peer client).2 !! addr = Some pc →
  t_conns t !! addr = Some pc ∨ pc = MkPeerConn c client ∧ (register t c peer client).1 = c.
Proof.
  unfold register. destruct (t_conns t !! RemoteAddr c) as [cur|] eqn:E;
    [destruct (isLive t (pc_conn cur)); [destruct (negb _)|]|]; cbn;
    rewrite ?lookup_insert_Some; naive_solver.
Qed.

Lemma serve_conns t c peer addr pc :
  t_conns (serve t c peer).2 !! addr = Some pc → t_conns t !! addr = Some pc.
Proof.
  unfold serve, track, forgetConn, closeConn. destruct (t_done t); cbn; [|done].
  case_decide; cbn; [|done]. rewrite lookup_delete_Some. naive_solver.
Qed.

Lemma adoptEnrol_starts t c peer gs t' :
  adoptEnrol t c peer = (gs, t') → t_conns t' = t_conns t ∧ (gs = [] ∨ gs = [GEnrol c peer]).
Proof.
  unfold adoptEnrol, track. repeat (case_match; simplify_eq/=); intros; simplify_eq/=; auto.
Qed.

(** What a goroutine [adopt] starts says of the connection. *)
Definition started_for (s : TrustSet) (c : conn) (g : goroutine) : Prop :=
  match g with
  | GDatagrams c' _ peer | GStreams c' peer => c' = c ∧ connIdentity c = Ok peer ∧ valid s peer = true
  | GEnrol c' peer => c' = c ∧ connIdentity c = Ok peer ∧ NegotiatedProtocol c = alpnEnrol
  | _ => False
  end.

(** C5: after a full handshake, a connection is entered in the table, and its
    packets and streams are pumped, only if its peer was a member when the
    handshake asked, whichever protocols the peer offered; any other
    connection can only go to enrolment. *)
Theorem gossip_only_members cert accepted offered s c s' t kept gs t' :
  cache_ok s → handshake cert accepted false offered s c s' →
  adopt t c accepted = (kept, gs, t') →
  (∀ addr pc, t_conns t' !! addr = Some pc → t_conns t !! addr = Some pc ∨
    pc_conn pc = c ∧ ∃ peer, connIdentity c = Ok peer ∧ valid s peer = true ∧
      pc_client pc = if accepted then peer else Public (t_id t)) ∧
  Forall (started_for s c) gs.
Proof.
  intros Hc Hh Ha. unfold adopt in Ha. destruct (connIdentity c) as [peer|e] eqn:Ei in Ha;
    [|injection Ha as <- <- <-; split; [auto|done]].
  revert Ha. case_decide as Hp.
  - destruct (adoptEnrol t c peer) as [gs1 t1] eqn:Ea. intros [= <- <- <-].
    destruct (adoptEnrol_starts _ _ _ _ _ Ea) as [-> Hg]. split; [by left|].
    by destruct Hg as [->| ->]; repeat constructor.
  - destruct (handshake_member _ _ _ _ _ _ Hc Hh Hp) as (peer' & Ei' & Hv).
    rewrite Ei in Ei'. injection Ei' as <-.
    set (client := if accepted then peer else Public (t_id t)).
    pose proof (register_conns t c peer client) as Hr.
    destruct (register t c peer client) as [k t1] eqn:Er. cbn in Hr.
    assert (Hin : ∀ addr pc, t_conns t1 !! addr = Some pc → t_conns t !! addr = Some pc ∨
      pc_conn pc = c ∧ ∃ peer, connIdentity c = Ok peer ∧ valid s peer = true ∧
        pc_client pc = if accepted then peer else Public (t_id t)).
    { intros addr pc [?|[-> _]]%Hr; [by left|right]. split; [done|]. by exists peer. }
    case_decide; [by intros [= <- <- <-]|].
    destruct (serve t1 c peer) as [gs2 t2] eqn:Es. intros [= <- <- <-]. split.
    + intros addr pc H1. apply Hin. apply (serve_conns _ c peer addr pc). by rewrite Es.
    + revert Es. unfold serve, track. destruct (t_done t1); cbn; intros [= <- <-]; by repeat constructor.
Qed.

(** A peer that is no member any more gets nothing through: the goroutine
    that reads its packets ends with the connection closed and out of the
    table, and the one that takes its streams ends. *)
Theorem outsider_cut t set c addr peer t' set' gs g :
  QuicLaws → cache_ok set → valid set peer = false →
  g = GDatagrams c addr peer ∨ g = GStreams c peer → gstep (t, set) g (t', set') gs →
  gs = [] ∧ (g = GDatagrams c addr peer → isLive t' c = false ∧ pc_conn <$> t_conns t' !! addr ≠ Some c).
Proof.
  intros Hq Hc Hv Hg Hs. pose proof (Valid_answer set peer Hc) as Ha. rewrite Hv in Ha.
  assert (Hf : ∀ t0 : quicTransport, isLive (wgDone (forgetConn t0 addr c)) c = false ∧
    pc_conn <$> t_conns (wgDone (forgetConn t0 addr c)) !! addr ≠ Some c).
  { intros t0. unfold isLive, forgetConn, closeConn. cbn. split; [apply close_dead|].
    case_decide as Hd; cbn; [by rewrite lookup_delete_eq|done]. }
  destruct Hg as [-> | ->]; inversion Hs as [? ? ? ? ? Hb| | | | |? ? ? ? ? Hb|? ? ? ? ? Hb|? ? ? ? ? Hb|];
    subst; try by inversion Hb.
  - split; [|intros _]; match goal with H : datagramStep _ _ _ _ _ _ |- _ => inversion H; subst end;
      try (match goal with H : Valid set peer = (true, _) |- _ => by rewrite H in Ha end); done || apply Hf.
  - split; [|done]. match goal with H : streamStep _ _ _ _ _ |- _ => inversion H; subst end; try done;
      by match goal with H : Valid set peer = (true, _) |- _ => rewrite H in Ha end.
Qed.
End Members.
