(* ===== verification/Endpoints.v ===== *)
(** * Endpoints: opening a transport, and enrolling over QUIC (internal/cluster/transport.go, enrol.go)

    What [newQUICTransport] opens, and what the joiner's [Enrol] opens and
    closes around the exchange of Enrol: sockets, connections and streams are
    events, so that the theorems speak of every way the calls can turn out. *)

From S2P Require Import Prelude Identity Records TrustSet Validity Tokens Prog Enrol EnrolSafety.
From S2P Require Import Transport Tls.

(** ** Addresses *)

(** [net.IP.To4]; nil for the addresses that are not IPv4. *)
Definition To4 (ip : bytes) : option bytes :=
  if (length ip =? 4)%nat then Some ip
  else if (length ip =? 16)%nat && bool_decide (take 10 ip = replicate 10 Byte.x00) &&
          bool_decide (take 2 (drop 10 ip) = [Byte.xff; Byte.xff])
  then Some (drop 12 ip) else None.

(** [net.IPv4zero], in its long form, and [net.IPv6unspecified]. *)
Definition IPv4zero : bytes := replicate 10 Byte.x00 ++ [Byte.xff; Byte.xff] ++ replicate 4 Byte.x00.
Definition IPv6unspecified : bytes := replicate 16 Byte.x00.

Definition wildcardFor (ip : bytes) : bytes :=
  match To4 ip with Some _ => IPv4zero | None => IPv6unspecified end.

(** ** What happens outside *)

Section Events.
Context {quic : Quic}.

Inductive netE : Type → Type :=
  | Now : netE Z
  | ResolveUDPAddr (addr : bytes) : netE (result (bytes * Z))
  | ListenUDP (ip : bytes) (port : Z) : netE (result unit)
  | ReadKey : netE (result unit)                              (* crypto/rand *)
  | QuicListen (cert : tlsCertificate) : netE (result unit)
  | QuicDial (ua : bytes * Z) (conf : tlsConfig) : netE (result conn)
  | OpenStream : netE (result unit)
  | InJoin {X : Type} (e : enrolE X) : netE X                 (* the exchange on the stream *)
  | AwaitEnd : netE unit                                      (* the select: closed, ctx done or timed out *)
  | CancelRead : netE unit
  | CloseSend : netE unit
  | CloseConn (c : conn) (code : Z) (reason : String.string) : netE unit
  | CloseQuic : netE unit
  | CloseUDP : netE unit.

(** [streamConn]: a stream of a connection that knows its peer. *)
Record streamConn := MkStreamConn { sc_conn : conn; sc_peer : PublicKey }.
Definition newStreamConn (c : conn) (peer : PublicKey) : streamConn := MkStreamConn c peer.
Definition PeerIdentity (s : streamConn) : PublicKey := sc_peer s.

Local Open Scope prog_scope.

Definition stream_Close : prog netE unit :=
  let* _ := trigger CancelRead in trigger CloseSend.

Context {ed : Ed25519} {x509 : X509} {maker : CertMaker} {sha : Sha256} {kdf : Kdf}.
Context {jh : Json hello} {jc : Json challenge} {jp : Json proof_msg} {ja : Json ack} {jw : Json Welcome}.

Definition make_cert (id : Identity) : prog netE (result tlsCertificate) :=
  let* now := trigger Now in
  let* now' := trigger Now in
  Ret (identityCertificate id now now').

(** [newQUICTransport], to the state it returns; [bind] is the address as bytes. *)
Definition openTransport (bind_ : bytes) (port : Z) (id : Identity) (handler : bool) (q : qstate)
    : prog netE (result quicTransport) :=
  let*? cert := make_cert id in
  let* udp := trigger (ListenUDP bind_ port) in
  match udp with
  | Err _ => Ret (Err "binding gossip transport")
  | Ok _ =>
      let* k := trigger ReadKey in
      match k with
      | Err e =>
          let* _ := trigger CloseUDP in
          Ret (Err e)
      | Ok _ =>
          let* ln := trigger (QuicListen cert) in
          match ln with
          | Err _ =>
              let* _ := trigger CloseUDP in
              Ret (Err "listening for gossip")
          | Ok _ => Ret (Ok (newQUICTransport id handler q))
          end
      end
  end.

(** The joiner's side, from the inside out; each part ends with the deferred
    call of what it opened. *)
Definition enrolOnStream (stream : streamConn) (token : bytes) (id : Identity) (name : bytes)
    : prog netE (result (Welcome * PublicKey)) :=
  let* r := translate (@InJoin) (Join (PeerIdentity stream) token id name) in
  let* r := match r with
            | Err e => Ret (Err e)
            | Ok wm => let* _ := trigger AwaitEnd in Ret (Ok wm)
            end in
  let* _ := stream_Close in
  Ret r.

Definition enrolOnConn (c : conn) (token : bytes) (id : Identity) (name : bytes)
    : prog netE (result (Welcome * PublicKey)) :=
  let* s := trigger OpenStream in
  let* r := match s with
            | Err e => Ret (Err e)
            | Ok _ => enrolOnStream (newStreamConn c (peerOf c)) token id name
            end in
  let* _ := trigger (CloseConn c 0 "done") in
  Ret r.

Definition enrolOnSocket (ua : bytes * Z) (cert : tlsCertificate) (token : bytes) (id : Identity) (name : bytes)
    : prog netE (result (Welcome * PublicKey)) :=
  let* dialled := trigger (QuicDial ua (enrolClientTLSConfig cert)) in
  let* r := match dialled with
            | Err _ => Ret (Err "connecting to %s")
            | Ok c => enrolOnConn c token id name
            end in
  let* _ := trigger CloseQuic in
  let* _ := trigger CloseUDP in
  Ret r.

(** [Enrol] of enrol.go. *)
Definition cluster_Enrol (addr token : bytes) (id : Identity) (name : bytes)
    : prog netE (result (Welcome * PublicKey)) :=
  let*? cert := make_cert id in
  let*? ua := trigger (ResolveUDPAddr addr) in
  let*? _ := trigger (ListenUDP (wildcardFor ua.1) 0) in
  enrolOnSocket ua cert token id name.

(** ** What is open *)

Inductive resource := RSocket | RConn (c : conn) | RStream.
#[export] Instance resource_eq_dec : EqDecision resource.
Proof. solve_decision. Defined.

(** Closing what was opened last; anything else has no effect, so that a stack
    that is empty at the end shows that things were closed in order. *)
Definition closing (r : resource) (open : list resource) : list resource :=
  match open with
  | r' :: rest => if decide (r = r') then rest else open
  | [] => []
  end.
Definition opening (open : list resource) (e : happened netE) : list resource :=
  match e with
  | Ev (ListenUDP _ _) (Ok _) => RSocket :: open
  | Ev (QuicDial _ _) (Ok c) => RConn c :: open
  | Ev OpenStream (Ok _) => RStream :: open
  | Ev CloseSend _ => closing RStream open
  | Ev (CloseConn c _ _) _ => closing (RConn c) open
  | Ev CloseUDP _ => closing RSocket open
  | _ => open
  end.
Definition left_open (open : list resource) (tr : list (happened netE)) : list resource := foldl opening open tr.

Lemma left_open_app open tr1 tr2 : left_open open (tr1 ++ tr2) = left_open (left_open open tr1) tr2.
Proof. apply foldl_app. Qed.

Lemma closing_top r open : closing r (r :: open) = open.
Proof. cbn. by rewrite decide_True. Qed.

Lemma left_open_cons open e tr : left_open open (e :: tr) = left_open (opening open e) tr.
Proof. done. Qed.

Lemma left_open_join open tr : left_open open (map (seen_as (@InJoin)) tr) = open.
Proof. revert open. induction tr as [|[X e x] tr IH]; intros open; [done|]. apply IH. Qed.

End Events.

(** ** What the joiner can rely on *)

Section Sound.
Context {quic : Quic} {ed : Ed25519} {x509 : X509} {maker : CertMaker} {sha : Sha256} {kdf : Kdf}.
Context {jh : Json hello} {jc : Json challenge} {jp : Json proof_msg} {ja : Json ack} {jw : Json Welcome}.

Lemma make_cert_runs id tr r :
  runs (make_cert id) tr r →
  ∃ now now', tr = [Ev Now now; Ev Now now'] ∧ r = identityCertificate id now now'.
Proof. intros (now & tr1 & -> & now' & tr2 & -> & -> & <-). by exists now, now'. Qed.

Definition closings (c : conn) : list (happened netE) :=
  [Ev CancelRead (); Ev CloseSend (); Ev (CloseConn c 0 "done") (); Ev CloseQuic (); Ev CloseUDP ()].

Lemma enrolOnStream_runs s token id name tr r :
  runs (enrolOnStream s token id name) tr r →
  ∃ tr0, runs (Join (sc_peer s) token id name) tr0 r ∧
    tr = map (seen_as (@InJoin _)) tr0 ++ (if is_ok r then [Ev AwaitEnd ()] else []) ++
         [Ev CancelRead (); Ev CloseSend ()].
Proof.
  intros (tr1 & r1 & tr2 & -> & (tr0 & H0 & ->)%runs_translate & H)%runs_bind. exists tr0.
  destruct r1 as [wm|e].
  - destruct H as ([] & tr3 & -> & [] & tr4 & -> & [] & tr5 & -> & -> & <-). done.
  - destruct H as ([] & tr4 & -> & [] & tr5 & -> & -> & <-). done.
Qed.

Lemma enrolOnConn_runs c token id name tr r :
  runs (enrolOnConn c token id name) tr r →
  ∃ s tr1, tr = Ev OpenStream s :: tr1 ++ [Ev (CloseConn c 0 "done") ()] ∧
    match s with
    | Err e => tr1 = [] ∧ r = Err e
    | Ok _ => runs (enrolOnStream (newStreamConn c (peerOf c)) token id name) tr1 r
    end.
Proof.
  intros (s & tr1 & -> & H)%runs_event. exists s. apply runs_bind in H as (tr2 & r2 & tr3 & -> & H2 & H3).
  destruct H3 as ([] & ? & -> & -> & <-). exists tr2. split; [done|]. destruct s; [done|]. by destruct H2 as [-> ->].
Qed.

Lemma enrolOnSocket_runs ua cert token id name tr r :
  runs (enrolOnSocket ua cert token id name) tr r →
  ∃ d tr1, tr = Ev (QuicDial ua (enrolClientTLSConfig cert)) d :: tr1 ++ [Ev CloseQuic (); Ev CloseUDP ()] ∧
    match d with
    | Err _ => tr1 = [] ∧ r = Err "connecting to %s"
    | Ok c => runs (enrolOnConn c token id name) tr1 r
    end.
Proof.
  intros (d & tr1 & -> & H)%runs_event. exists d.
  apply runs_bind in H as (tr2 & r2 & tr3 & -> & H2 & H3).
  destruct H3 as ([] & ? & -> & [] & ? & -> & -> & <-). exists tr2. split; [done|]. destruct d; [done|]. by destruct H2 as [-> ->].
Qed.

Lemma cluster_Enrol_runs addr token id name tr r :
  runs (cluster_Enrol addr token id name) tr r →
  (∃ e, r = Err e ∧ left_open [] tr = []) ∨
  ∃ cert ua tr0 tr1, tr = tr0 ++ tr1 ∧ left_open [] tr0 = [RSocket] ∧
    tc_PrivateKey cert = id ∧ runs (enrolOnSocket ua cert token id name) tr1 r.
Proof.
  intros (tr0 & rc & tr1 & -> & (now & now' & -> & ->)%make_cert_runs & H)%runs_bind.
  destruct (identityCertificate id now now') as [cert|e] eqn:Ec; [|left; destruct H as [-> <-]; by exists e].
  destruct H as ([ua|e] & tr2 & -> & H); [|left; destruct H as [-> <-]; by exists e].
  destruct H as ([[]|e] & tr3 & -> & H); [|left; destruct H as [-> <-]; by exists e].
  right. exists cert, ua, [Ev Now now; Ev Now now'; Ev (ResolveUDPAddr addr) (Ok ua);
    Ev (ListenUDP (wildcardFor ua.1) 0) (Ok ())], tr3. split_and!; [done..| |done].
  revert Ec. unfold identityCertificate. by destruct (CreateCertificate _ _); intros [= <-].
Qed.

(** However the calls turn out, everything [Enrol] opened is closed again, the
    last first. *)
Theorem Enrol_closes_all addr token id name tr r :
  runs (cluster_Enrol addr token id name) tr r → left_open [] tr = [].
Proof.
  intros [(e & _ & H)|(cert & ua & tr0 & tr1 & -> & H0 & _ & H)]%cluster_Enrol_runs; [done|].
  rewrite left_open_app, H0.
  apply enrolOnSocket_runs in H as (d & tr2 & -> & H). destruct d as [c|e]; [|by destruct H as [-> _]].
  apply enrolOnConn_runs in H as (s & tr3 & -> & H).
  destruct s as [[]|e]; [|destruct H as [-> _]; cbn; by rewrite decide_True].
  apply enrolOnStream_runs in H as (tr4 & _ & ->).
  repeat rewrite ?left_open_cons, ?left_open_app. rewrite left_open_join. destruct (is_ok r); cbn -[closing]; by rewrite !closing_top.
Qed.

(** C17: when [Enrol] returns a welcome, it had dialled with its own
    certificate for enrolment alone; the peer of that connection, which a full
    handshake makes the holder of its certificate's identity, has proved the
    token for this exchange; the records it sent make it a member of the
    cluster they describe, and with the admission it signed for this node they
    make this node one. The exchange over, it waited for the member to close
    the connection before it closed anything, and then closed everything. *)
Theorem Enrol_sound addr token id name tr w m :
  runs (cluster_Enrol addr token id name) tr (Ok (w, m)) →
  ∃ cert ua c tr0 trJ,
    tc_PrivateKey cert = id ∧
    tr = tr0 ++ [Ev (QuicDial ua (enrolClientTLSConfig cert)) (Ok c); Ev OpenStream (Ok ())] ++
         map (seen_as (@InJoin _)) trJ ++ [Ev AwaitEnd ()] ++ closings c ∧
    left_open [] tr0 = [RSocket] ∧
    (∀ (tls : Tls), TlsLaws → ∀ s s', client_handshake (enrolClientTLSConfig cert) false s c s' →
       connIdentity c = Ok m ∧ NegotiatedProtocol c = alpnEnrol) ∧
    (∃ key nJ ch body,
       decodeToken token = Ok key ∧ nJ ∈ randoms trJ ∧ body ∈ received trJ ∧ json_Unmarshal body = Some ch ∧
       ch_MAC ch = mac (deriveKey key nJ (ch_Nonce ch)) labelMember
                       (transcript (Public id) m nJ (ch_Nonce ch) name)) ∧
    valid (welcome_set w) m = true ∧
    adm_Identity (w_Admission w) = Public id ∧ adm_Admitter (w_Admission w) = m ∧
    valid (AddAdmission (welcome_set w) (w_Admission w)).2 (Public id) = true.
Proof.
  intros [(e & [=] & _)|(cert & ua & tr0 & tr1 & -> & H0 & Hk & H)]%cluster_Enrol_runs.
  apply enrolOnSocket_runs in H as (d & tr2 & -> & H). destruct d as [c|e]; [|by destruct H].
  apply enrolOnConn_runs in H as (s & tr3 & -> & H). destruct s as [[]|e]; [|by destruct H].
  apply enrolOnStream_runs in H as (trJ & HJ & ->).
  apply Join_sound in HJ as (Hm & _ & Hmac & Hv & Hi & Ha & _ & Hv').
  rewrite <- Hm in Hmac, Hv, Ha.
  exists cert, ua, c, tr0, trJ. split_and!; [done| |done| |done..].
  - simpl. by rewrite <- !app_assoc.
  - intros tls laws s s' Hh. destruct (client_verified _ _ _ _ Hh) as [_ Hver].
    pose proof (client_alpn _ _ _ _ _ Hh ltac:(done)) as Hp. cbn in Hp, Hver.
    apply list_elem_of_singleton in Hp. split; [|done].
    rewrite connIdentity_certs. unfold verifyEnrol in Hver. cbn in Hm. unfold peerOf in Hm.
    rewrite connIdentity_certs in Hm. destruct (certIdentity (PeerCertificates c)); [by rewrite Hm|done].
Qed.

Lemma enrolOnStream_ok s token id name trJ wm :
  runs (Join (sc_peer s) token id name) trJ (Ok wm) →
  runs (enrolOnStream s token id name)
    (map (seen_as (@InJoin _)) trJ ++ [Ev AwaitEnd (); Ev CancelRead (); Ev CloseSend ()]) (Ok wm).
Proof.
  intros HJ. apply runs_bind. exists (map (seen_as (@InJoin _)) trJ), (Ok wm). eexists.
  split_and!; [reflexivity| |by do 3 (eexists _, _; split; [reflexivity|])].
  apply runs_translate. by exists trJ.
Qed.

Lemma enrolOnConn_ok c token id name tr wm :
  runs (enrolOnStream (newStreamConn c (peerOf c)) token id name) tr (Ok wm) →
  runs (enrolOnConn c token id name) (Ev OpenStream (Ok ()) :: tr ++ [Ev (CloseConn c 0 "done") ()]) (Ok wm).
Proof.
  intros H. apply runs_step, runs_bind.
  exists tr, (Ok wm). eexists. split_and!; [reflexivity|exact H|]. by eexists _, _.
Qed.

Lemma enrolOnSocket_ok ua cert c token id name tr wm :
  runs (enrolOnConn c token id name) tr (Ok wm) →
  runs (enrolOnSocket ua cert token id name)
    (Ev (QuicDial ua (enrolClientTLSConfig cert)) (Ok c) :: tr ++ [Ev CloseQuic (); Ev CloseUDP ()]) (Ok wm).
Proof.
  intros H. apply runs_step, runs_bind.
  exists tr, (Ok wm). eexists. split_and!; [reflexivity|exact H|]. by do 2 (eexists _, _; split; [reflexivity|]).
Qed.

(** Where every call succeeds, [Enrol] gives what the exchange gives. *)
Lemma Enrol_completes addr token id name now now' cert ua c trJ wm :
  identityCertificate id now now' = Ok cert → runs (Join (peerOf c) token id name) trJ (Ok wm) →
  runs (cluster_Enrol addr token id name)
    ([Ev Now now; Ev Now now'; Ev (ResolveUDPAddr addr) (Ok ua); Ev (ListenUDP (wildcardFor ua.1) 0) (Ok ());
      Ev (QuicDial ua (enrolClientTLSConfig cert)) (Ok c); Ev OpenStream (Ok ())] ++
     map (seen_as (@InJoin _)) trJ ++ [Ev AwaitEnd ()] ++ closings c) (Ok wm).
Proof.
  intros Hc HJ. apply runs_bind. exists [Ev Now now; Ev Now now'], (identityCertificate id now now'). eexists.
  split_and!; [reflexivity|by do 2 (eexists _, _; split; [reflexivity|])|]. rewrite Hc.
  do 2 (eexists _, _; split; [reflexivity|]).
  pose proof (enrolOnStream_ok (newStreamConn c (peerOf c)) _ _ _ _ _ HJ) as H.
  pose proof (enrolOnSocket_ok ua cert _ _ _ _ _ _ (enrolOnConn_ok _ _ _ _ _ _ H)) as H'.
  simpl in H'. rewrite <- !app_assoc in H'. exact H'.
Qed.

(** A transport that cannot be opened leaves nothing open, and one that can
    has its socket. *)
Theorem openTransport_clean bind_ port id handler q tr r :
  runs (openTransport bind_ port id handler q) tr r →
  left_open [] tr = if is_ok r then [RSocket] else [].
Proof.
  intros (tr0 & rc & tr1 & -> & (now & now' & -> & ->)%make_cert_runs & H)%runs_bind.
  destruct (identityCertificate id now now') as [cert|e]; [|by destruct H as [-> <-]].
  destruct H as ([[]|e] & tr2 & -> & H); [|by destruct H as [-> <-]].
  destruct H as ([[]|e] & tr3 & -> & H); [|destruct H as ([] & ? & -> & -> & <-); cbn -[closing]; by rewrite closing_top].
  destruct H as ([[]|e] & tr4 & -> & H); [|destruct H as ([] & ? & -> & -> & <-); cbn -[closing]; by rewrite closing_top].
  by destruct H as [-> <-].
Qed.
End Sound.
