(* ===== verification/TieBreak.v ===== *)
(** * TieBreak: nodes that dial each other at once

    Two nodes may each have dialled the other, so that there are two
    connections between them. Whatever the order in which the four ends
    register them, the closes arrive and dead connections are forgotten, both
    nodes end up with the same connection, which neither has closed. *)

From S2P Require Import Prelude Identity Records TrustSet Validity Transport TransportProps.

Section Pair.
Context {ed : Ed25519} {x509 : X509} {quic : Quic} {laws : QuicLaws}.

Lemma preferredDialer_comm j k : preferredDialer j k = preferredDialer k j.
Proof.
  unfold preferredDialer. destruct (decide (j = k)) as [->|Hne]; [done|].
  destruct (key_ltb_total j k Hne) as [H|H]; by rewrite H, key_ltb_asym.
Qed.

(** A link is a connection with its end at each node. *)
Record link := MkLink { end_a : conn; end_b : conn }.

(** The two nodes, and which links each end has registered: P is the link
    dialled by [a], N the one dialled by [b]. *)
Record pair := MkPair {
  at_a : quicTransport; at_b : quicTransport;
  p_at_a : bool; p_at_b : bool;
  n_at_a : bool; n_at_b : bool;
}.

Variables (a b : Identity) (P N : link).

Inductive pairStep : pair → pair → Prop :=
  | register_p_a ta tb pb na nb :
      pairStep (MkPair ta tb false pb na nb)
        (MkPair (register ta (end_a P) (Public b) (Public a)).2 tb true pb na nb)
  | register_p_b ta tb pa na nb :
      pairStep (MkPair ta tb pa false na nb)
        (MkPair ta (register tb (end_b P) (Public a) (Public a)).2 pa true na nb)
  | register_n_a ta tb pa pb nb :
      pairStep (MkPair ta tb pa pb false nb)
        (MkPair (register ta (end_a N) (Public b) (Public b)).2 tb pa pb true nb)
  | register_n_b ta tb pa pb na :
      pairStep (MkPair ta tb pa pb na false)
        (MkPair ta (register tb (end_b N) (Public a) (Public b)).2 pa pb na true)
  (* one end is closed, and the close arrives at the other *)
  | close_arrives_b ta tb pa pb na nb l code r :
      l = P ∨ l = N → isLive ta (end_a l) = false →
      pairStep (MkPair ta tb pa pb na nb) (MkPair ta (closeConn tb (end_b l) code r) pa pb na nb)
  | close_arrives_a ta tb pa pb na nb l code r :
      l = P ∨ l = N → isLive tb (end_b l) = false →
      pairStep (MkPair ta tb pa pb na nb) (MkPair (closeConn ta (end_a l) code r) tb pa pb na nb)
  (* serve's goroutine ends with its connection *)
  | forget_a ta tb pa pb na nb l :
      l = P ∨ l = N → isLive ta (end_a l) = false →
      pairStep (MkPair ta tb pa pb na nb)
        (MkPair (forgetConn ta (RemoteAddr (end_a l)) (end_a l)) tb pa pb na nb)
  | forget_b ta tb pa pb na nb l :
      l = P ∨ l = N → isLive tb (end_b l) = false →
      pairStep (MkPair ta tb pa pb na nb)
        (MkPair ta (forgetConn tb (RemoteAddr (end_b l)) (end_b l)) pa pb na nb).

(** The nodes know of no connection to each other that still is live, and the
    links' ends are live. *)
Definition vacant (t : quicTransport) (addr : bytes) : Prop :=
  ∀ cur, t_conns t !! addr = Some cur → isLive t (pc_conn cur) = false.

Record dialled_both (s : pair) : Prop := {
  db_ids : t_id (at_a s) = a ∧ t_id (at_b s) = b;
  db_live : isLive (at_a s) (end_a P) = true ∧ isLive (at_a s) (end_a N) = true ∧
            isLive (at_b s) (end_b P) = true ∧ isLive (at_b s) (end_b N) = true;
  db_vacant : vacant (at_a s) (RemoteAddr (end_a P)) ∧ vacant (at_b s) (RemoteAddr (end_b P));
  db_new : p_at_a s = false ∧ p_at_b s = false ∧ n_at_a s = false ∧ n_at_b s = false;
}.

(** ** One node *)

Section Node.
Variables (p n : conn) (addr : bytes) (pref other : PublicKey).
Context (Hne : p ≠ n) (Hpo : pref ≠ other) (Hap : RemoteAddr p = addr) (Han : RemoteAddr n = addr).

(** What holds of a node that has registered P ([rp]), N ([rn]) or neither;
    [quiet] says that P is registered nowhere. *)
Record nodeInv (t : quicTransport) (rp rn quiet : bool) : Prop := {
  ni_live : isLive t p = true;
  ni_p : rp = true → t_conns t !! addr = Some (MkPeerConn p pref);
  ni_both : rp = true → rn = true → isLive t n = false;
  ni_n : rp = false → ∀ cur, t_conns t !! addr = Some cur →
    cur = MkPeerConn n other ∧ rn = true ∨ isLive t (pc_conn cur) = false;
  ni_rn : rp = false → rn = true →
    t_conns t !! addr = Some (MkPeerConn n other) ∨ isLive t n = false;
  ni_quiet : quiet = true → rp = false ∧ isLive t n = true ∧ (rn = true → t_conns t !! addr = Some (MkPeerConn n other));
}.

Lemma isLive_closed t c code r : isLive (closeConn t c code r) c = false.
Proof. apply close_dead. Qed.
Lemma isLive_other t c d code r : d ≠ c → isLive (closeConn t c code r) d = isLive t d.
Proof. apply close_other. Qed.
Lemma isLive_dead t c d code r : isLive t d = false → isLive (closeConn t c code r) d = false.
Proof.
  intros H. destruct (decide (d = c)) as [->|Hdc]; [apply isLive_closed|by rewrite isLive_other].
Qed.

Lemma node_weaken t rp rn quiet : nodeInv t rp rn quiet → nodeInv t rp rn false.
Proof. by intros []; split. Qed.

Lemma node_register_p t rn quiet peer :
  preferredDialer (Public (t_id t)) peer = pref →
  nodeInv t false rn quiet → nodeInv (register t p peer pref).2 true rn false.
Proof.
  intros Hp [Hl _ _ Hn Hrn _]. unfold register. rewrite Hap, Hp.
  assert (Hrec : ∀ t', isLive t' p = true → (rn = true → isLive t' n = false) →
    nodeInv (set_conns t' (<[addr := MkPeerConn p pref]> (t_conns t'))) true rn false).
  { intros t' H1 H2. split; cbn; try done. by rewrite lookup_insert_eq. }
  destruct (t_conns t !! addr) as [cur|] eqn:E.
  - destruct (decide (cur = MkPeerConn n other)) as [->|Hcur].
    + cbn. destruct (isLive t n) eqn:En; cbn.
      * unfold keepNew. rewrite (bool_decide_eq_true_2 (other ≠ pref)) by done. cbn.
        apply (Hrec (closeConn t n 0 "superseded")); [by rewrite isLive_other|intros _; apply isLive_closed].
      * by apply Hrec.
    + destruct (Hn eq_refl cur eq_refl) as [[? _]|Hdead]; [done|]. rewrite Hdead. cbn.
      apply Hrec; [done|]. intros Ht. destruct (Hrn eq_refl Ht); naive_solver.
  - cbn. apply Hrec; [done|]. intros Ht. destruct (Hrn eq_refl Ht); [congruence|done].
Qed.

Lemma node_register_n t rp quiet peer :
  preferredDialer (Public (t_id t)) peer = pref →
  nodeInv t rp false quiet → nodeInv (register t n peer other).2 rp true quiet.
Proof.
  intros Hp [Hl Htp _ Hn _ Hq]. unfold register. rewrite Han, Hp.
  destruct rp.
  - rewrite (Htp eq_refl). cbn. rewrite Hl. cbn.
    unfold keepNew. rewrite (bool_decide_eq_false_2 (pref ≠ pref)) by (intros H; by apply H).
    rewrite (bool_decide_eq_false_2 (other = pref)) by (intros H; by apply Hpo). cbn.
    split; cbn; try done.
    + by rewrite isLive_other.
    + intros _ _. apply isLive_closed.
    + intros Ht. destruct (Hq Ht) as [? _]. done.
  - assert (Hrec : nodeInv (set_conns t (<[addr := MkPeerConn n other]> (t_conns t))) false true quiet).
    { split; cbn; rewrite ?lookup_insert_eq; try done; naive_solver. }
    destruct (t_conns t !! addr) as [cur|] eqn:E; [|exact Hrec].
    destruct (Hn eq_refl cur eq_refl) as [[_ ?]|Hdead]; [done|]. by rewrite Hdead.
Qed.

(** N is closed from the other side: not while P is registered nowhere. *)
Lemma node_close t rp rn code r : nodeInv t rp rn false → nodeInv (closeConn t n code r) rp rn false.
Proof.
  intros [Hl Hp Hb Hn Hrn _]. split; cbn; try done.
  - by rewrite isLive_other.
  - intros. by apply isLive_dead, Hb.
  - intros H cur Hc. destruct (Hn H cur Hc) as [|]; [by left|]. right. by apply isLive_dead.
  - intros H1 H2. destruct (Hrn H1 H2); [by left|]. right. by apply isLive_dead.
Qed.

Lemma node_forget t rp rn quiet :
  isLive t n = false → nodeInv t rp rn quiet → nodeInv (forgetConn t addr n) rp rn false.
Proof.
  intros Hdead Hinv%node_weaken. unfold forgetConn. apply node_close.
  case_decide as Hcur; [|done]. destruct Hinv as [Hl Hp Hb Hn Hrn Hq].
  split; cbn; rewrite ?lookup_delete_eq; try done; [|by right].
  intros H. apply Hp in H. rewrite H in Hcur. cbn in Hcur. congruence.
Qed.
End Node.

#[local] Arguments register : simpl never.
#[local] Arguments forgetConn : simpl never.

(** ** Both nodes *)

Context (Hab : key_ltb (Public a) (Public b) = true).
Context (Hpa : end_a P ≠ end_a N) (Hpb : end_b P ≠ end_b N).
Context (Hra : RemoteAddr (end_a N) = RemoteAddr (end_a P)).
Context (Hrb : RemoteAddr (end_b N) = RemoteAddr (end_b P)).

Definition quiet (s : pair) : bool := negb (p_at_a s || p_at_b s).

Record pairInv (s : pair) : Prop := {
  pi_ids : t_id (at_a s) = a ∧ t_id (at_b s) = b;
  pi_a : nodeInv (end_a P) (end_a N) (RemoteAddr (end_a P)) (Public a) (Public b)
    (at_a s) (p_at_a s) (n_at_a s) (quiet s);
  pi_b : nodeInv (end_b P) (end_b N) (RemoteAddr (end_b P)) (Public a) (Public b)
    (at_b s) (p_at_b s) (n_at_b s) (quiet s);
}.

Lemma a_not_b : Public a ≠ Public b.
Proof. intros E. pose proof Hab as H. by rewrite E, key_ltb_irrefl in H. Qed.

Lemma preferred_ab : preferredDialer (Public a) (Public b) = Public a.
Proof. unfold preferredDialer. by rewrite key_ltb_asym. Qed.
Lemma preferred_ba : preferredDialer (Public b) (Public a) = Public a.
Proof. rewrite preferredDialer_comm. apply preferred_ab. Qed.

Lemma pairInv_initial s : dialled_both s → pairInv s.
Proof.
  destruct s as [ta tb pa pb na nb]. intros [Hids (H1&H2&H3&H4) (Va&Vb) Hnew]. cbn in *.
  destruct Hnew as (-> & -> & -> & ->).
  split; cbn; [done|split; try done; intros; right; by apply Va|split; try done; intros; right; by apply Vb].
Qed.

Lemma register_id t c peer client : t_id (register t c peer client).2 = t_id t.
Proof.
  destruct (register t c peer client) as [k t'] eqn:E. by apply register_frame in E as [[? _] _].
Qed.

Lemma not_quiet p n addr t rp rn q pref other :
  nodeInv p n addr pref other t rp rn q → isLive t n = false → q = false.
Proof. intros H Hn. destruct q; [|done]. destruct (ni_quiet _ _ _ _ _ _ _ _ _ H eq_refl). naive_solver. Qed.

Lemma forget_id t addr c : t_id (forgetConn t addr c) = t_id t.
Proof. by destruct (forgetConn_frame t addr c) as [[? _] _]. Qed.

Lemma pairStep_inv s s' : pairStep s s' → pairInv s → pairInv s'.
Proof.
  intros Hs [[Ia Ib] HA HB]. pose proof a_not_b as Hne.
  pose proof preferred_ab as Hprefa. pose proof preferred_ba as Hprefb.
  assert (Hlive : isLive (at_a s) (end_a P) = true ∧ isLive (at_b s) (end_b P) = true)
    by (split; [apply HA|apply HB]).
  destruct Hlive as [HlA HlB].
  destruct Hs as [| | | |ta tb pa pb na nb l code r [->| ->] Hd|ta tb pa pb na nb l code r [->| ->] Hd
    |ta tb pa pb na nb l [->| ->] Hd|ta tb pa pb na nb l [->| ->] Hd]; cbn in *; try congruence.
  all: split; cbn; [by rewrite ?register_id, ?forget_id|..]; unfold quiet in *; cbn in *.
  - eapply node_register_p; [done..| |exact HA]. congruence.
  - by eapply node_weaken.
  - rewrite orb_true_r. by eapply node_weaken.
  - rewrite orb_true_r. eapply node_register_p; [done..| |exact HB]. congruence.
  - eapply node_register_n; [done..| |exact HA]. congruence.
  - done.
  - done.
  - eapply node_register_n; [done..| |exact HB]. congruence.
  - done.
  - rewrite (not_quiet _ _ _ _ _ _ _ _ _ HA Hd) in *. by apply node_close.
  - rewrite (not_quiet _ _ _ _ _ _ _ _ _ HB Hd) in *. by apply node_close.
  - done.
  - rewrite Hra, (not_quiet _ _ _ _ _ _ _ _ _ HA Hd) in *. by eapply node_forget.
  - done.
  - done.
  - rewrite Hrb, (not_quiet _ _ _ _ _ _ _ _ _ HB Hd) in *. by eapply node_forget.
Qed.

Lemma pairSteps_inv s s' : rtc pairStep s s' → pairInv s → pairInv s'.
Proof. induction 1; eauto using pairStep_inv. Qed.
End Pair.

(** ** Agreement *)

(** C7: when two nodes have dialled each other at once, then in whatever order the
    ends are registered, closes arrive and dead connections are forgotten: as
    soon as both nodes have registered the same links, both tables name the
    same link, it is live at both ends, and the other link, once registered,
    is closed. The link kept of two is the one dialled by the smaller identity. *)
Theorem simultaneous_dials_agree {ed : Ed25519} {quic : Quic} {laws : QuicLaws}
    (a b : Identity) (P N : link) s s' :
  key_ltb (Public a) (Public b) = true →
  end_a P ≠ end_a N → end_b P ≠ end_b N →
  RemoteAddr (end_a N) = RemoteAddr (end_a P) → RemoteAddr (end_b N) = RemoteAddr (end_b P) →
  dialled_both a b P N s → rtc (pairStep a b P N) s s' →
  p_at_a s' = p_at_b s' → n_at_a s' = n_at_b s' → p_at_a s' || n_at_a s' = true →
  let kept := if p_at_a s' then P else N in
  pc_conn <$> t_conns (at_a s') !! RemoteAddr (end_a P) = Some (end_a kept) ∧
  pc_conn <$> t_conns (at_b s') !! RemoteAddr (end_b P) = Some (end_b kept) ∧
  isLive (at_a s') (end_a kept) = true ∧ isLive (at_b s') (end_b kept) = true ∧
  (p_at_a s' = true → n_at_a s' = true →
    isLive (at_a s') (end_a N) = false ∧ isLive (at_b s') (end_b N) = false).
Proof.
  intros Hab Hpa Hpb Hra Hrb Hd Hs Hp Hn Hsome kept.
  assert (Hinv : pairInv a b P N s') by (eapply pairSteps_inv; eauto using pairInv_initial).
  destruct Hinv as [_ HA HB]. unfold kept, quiet in *. rewrite <- Hp, <- Hn in *.
  destruct (p_at_a s') eqn:E; cbn in *.
  - rewrite (ni_p _ _ _ _ _ _ _ _ _ HA), (ni_p _ _ _ _ _ _ _ _ _ HB) by done.
    split_and!; [done|done|apply HA|apply HB|]. intros _ H. split; [by apply HA|by apply HB].
  - destruct (ni_quiet _ _ _ _ _ _ _ _ _ HA eq_refl) as (_ & La & Ta).
    destruct (ni_quiet _ _ _ _ _ _ _ _ _ HB eq_refl) as (_ & Lb & Tb).
    rewrite (Ta Hsome), (Tb Hsome). by split_and!.
Qed.
