(* ===== verification/TransportDemo.v ===== *)
(** * TransportDemo: the transport's theorems at concrete inputs

    A toy QUIC whose connections are a remote address, a peer, a protocol and
    a number, and whose state is the connections closed so far. *)

From S2P Require Import Prelude Identity Records TrustSet Validity Demo.
From S2P Require Import Transport TransportProps Tls TieBreak.

#[local] Existing Instance Toy.toy.

Module ToyQuic.
#[export] Instance x509 : X509 := { ParseCertificate raw := Ok (CertEd25519 raw) }.

#[export] Instance quic : Quic := {
  conn := bytes * PublicKey * bytes * nat;
  RemoteAddr c := c.1.1.1;
  PeerCertificates c := [key_bytes c.1.1.2];
  NegotiatedProtocol c := c.1.2;
  qstate := option (list (bytes * PublicKey * bytes * nat));
  live q c := match q with Some l => bool_decide (c ∉ l) | None => false end;
  CloseWithError q c code r := (λ l, c :: l) <$> q;
  quic_Close q := None;
}.

#[export] Instance quic_laws : QuicLaws.
Proof.
  split; cbn.
  - intros [l|] c code r; [|done]. apply bool_decide_eq_false_2. set_solver.
  - intros [l|] c code r d Hd; [|done]. cbn. apply bool_decide_ext. set_solver.
  - done.
Qed.
End ToyQuic.

#[local] Existing Instance ToyQuic.x509.
#[local] Existing Instance ToyQuic.quic.
#[local] Existing Instance ToyQuic.quic_laws.

(** [ann] and [bob] dial each other. *)
Definition to_bob : conn := (str "bob:7946", key bob, alpnGossip, 1%nat).
Definition from_ann : conn := (str "ann:7946", key ann, alpnGossip, 1%nat).
Definition to_ann : conn := (str "ann:7946", key ann, alpnGossip, 2%nat).
Definition from_bob : conn := (str "bob:7946", key bob, alpnGossip, 2%nat).
Definition link_p : link := MkLink to_bob from_ann.
Definition link_n : link := MkLink from_bob to_ann.

Definition quic_start : qstate := Some [].
Definition ann_start : quicTransport := (start (newQUICTransport ann true quic_start)).2.
Definition bob_start : quicTransport := (start (newQUICTransport bob true quic_start)).2.
Definition pair_start : pair := MkPair ann_start bob_start false false false false.

(** Each end registers the connection it dialled first. *)
Definition ann_end : quicTransport :=
  (register (register ann_start to_bob (key bob) (key ann)).2 from_bob (key bob) (key bob)).2.
Definition bob_end : quicTransport :=
  (register (register bob_start to_ann (key ann) (key bob)).2 from_ann (key ann) (key ann)).2.
Definition pair_end : pair := MkPair ann_end bob_end true true true true.

Lemma simultaneous_dials_agree_witness :
  rtc (pairStep ann bob link_p link_n) pair_start pair_end ∧
  pc_conn <$> t_conns ann_end !! str "bob:7946" = Some to_bob ∧
  pc_conn <$> t_conns bob_end !! str "ann:7946" = Some from_ann ∧
  isLive ann_end from_bob = false ∧ isLive bob_end to_ann = false.
Proof.
  assert (Hsteps : rtc (pairStep ann bob link_p link_n) pair_start pair_end).
  { eapply rtc_l; [apply register_p_a|]. eapply rtc_l; [apply register_n_b|].
    eapply rtc_l; [apply register_p_b|]. eapply rtc_l; [apply register_n_a|]. apply rtc_refl. }
  split; [exact Hsteps|].
  destruct (simultaneous_dials_agree ann bob link_p link_n pair_start pair_end)
    as (H1 & H2 & _ & _ & H3); [by vm_compute|done|done|done|done| |exact Hsteps|done..|].
  - split; [done|by vm_compute|by split; intros cur|done].
  - destruct (H3 eq_refl eq_refl) as [H4 H5]. by split_and!.
Defined.

(** ** Runs of one transport *)

Definition world0 : world := initial ann true quic_start cluster.

(** [eve] opens an enrolment connection. *)
Definition from_eve : conn := (str "eve:7946", key eve, alpnEnrol, 3%nat).
Definition world_enrol : world :=
  MkWorld (adopt (w_t world0) from_eve true).2 cluster [GAccept; GEnrol from_eve (key eve)] false.

Lemma enrolments_bounded_witness :
  reachable ann true quic_start cluster world_enrol ∧ t_enrolSem (w_t world_enrol) = 1%nat ∧
  (count enrolling (w_gs world_enrol) ≤ maxEnrolments)%nat.
Proof.
  assert (Hr : reachable ann true quic_start cluster world_enrol).
  { eapply rtc_l; [|eapply rtc_l; [|apply rtc_refl]].
    - apply (step_run (w_t world0) cluster [] GAccept [] (adopt_first (w_t world0) from_eve true).2 cluster
               [GAdopt (AEnrol from_eve (key eve))] false).
      apply g_accept, (accept_conn _ from_eve (inr (AEnrol from_eve (key eve)))); [done|]. vm_compute. reflexivity.
    - apply (step_run _ cluster [] (GAdopt (AEnrol from_eve (key eve))) [] (w_t world_enrol) cluster
               [GAccept; GEnrol from_eve (key eve)] false).
      apply g_accept, (accept_adopt _ _ (inl None) [GEnrol from_eve (key eve)]). vm_compute. reflexivity. }
  split; [exact Hr|]. split; [by vm_compute|].
  exact (proj1 (enrolments_bounded ann true quic_start cluster world_enrol Hr)).
Defined.

(** A shutdown from start to end: the listener closes, [accept] returns. *)
Definition shut (t : quicTransport) : quicTransport := wgDone
  (set_quic (set_flags (set_flags (set_flags t true false true) false false true) false true true) None).
Definition world_shut : world := MkWorld (shut (w_t world0)) cluster [] true.

Lemma world_shut_reachable : reachable ann true quic_start cluster world_shut.
Proof.
  eapply rtc_l; [apply step_shutdown; done|].
  eapply rtc_l; [apply (step_run _ _ [] _ [GAccept]); apply g_shutdown, shutdown_listener|].
  eapply rtc_l; [apply (step_run _ _ [] _ [GAccept]); apply g_shutdown, (shutdown_snapshot _ []); done|].
  eapply rtc_l; [apply (step_run _ _ [] _ [GAccept]); apply g_shutdown, shutdown_conns|].
  eapply rtc_l; [apply (step_run _ _ [] _ [GAccept]); apply g_shutdown, shutdown_done|].
  eapply rtc_l; [apply (step_run _ _ [] _ [GAccept]); apply g_shutdown, shutdown_quic|].
  eapply rtc_l; [apply (step_run _ _ [GShutdown SWait] GAccept [] ); apply g_accept, accept_closed|].
  eapply rtc_l; [apply (step_run _ _ [] (GShutdown SWait) []); apply g_shutdown, shutdown_wait; done|].
  apply rtc_refl.
Qed.

(** Memberlist still writes and dials afterwards. *)
Definition world_later : world :=
  MkWorld (shut (w_t world0)) cluster [GDial (str "bob:7946"); GWrite (str "bob:7946")] true.

Lemma Shutdown_final_witness :
  (∀ g, g ∈ w_gs world_later → tracked g = false) ∧ t_enrolSem (w_t world_later) = 0%nat.
Proof.
  destruct (Shutdown_final ann true quic_start cluster world_shut world_later world_shut_reachable)
    as (H1 & _ & H2); [done| |by split].
  eapply rtc_l; [apply step_write|]. eapply rtc_l; [apply step_dial|]. apply rtc_refl.
Defined.

(** Two streams are wanted to [bob]: one goroutine dials, the other waits. *)
Definition addr_bob : bytes := str "bob:7946".
Definition world_wait : world :=
  MkWorld (set_dialing (w_t world0) {[addr_bob := 0%nat]} [None]) cluster
    [GConnect ForStream (CDial addr_bob 0); GConnect ForStream (CWait 0); GAccept] false.

Lemma world_wait_reachable : reachable ann true quic_start cluster world_wait.
Proof.
  eapply rtc_l; [apply (step_dial _ _ _ addr_bob)|].
  eapply rtc_l; [apply (step_dial _ _ _ addr_bob)|].
  eapply rtc_l; [apply (step_run _ _ [] _ [GDial addr_bob; GAccept]); by apply g_dial, dial_running|].
  eapply rtc_l; [apply (step_run _ _ [] _ [GDial addr_bob; GAccept]); by apply g_dial, dial_connect|].
  eapply rtc_l; [apply (step_run _ _ [] _ [GDial addr_bob; GAccept]); apply g_connect; by apply connect_miss|].
  eapply rtc_l; [apply (step_run _ _ [] _ [GDial addr_bob; GAccept]); apply g_connect; by apply connect_call|].
  eapply rtc_l; [apply (step_run _ _ [GConnect ForStream (CDial addr_bob 0)] _ [GAccept]); by apply g_dial, dial_running|].
  eapply rtc_l; [apply (step_run _ _ [GConnect ForStream (CDial addr_bob 0)] _ [GAccept]); by apply g_dial, dial_connect|].
  eapply rtc_l; [apply (step_run _ _ [GConnect ForStream (CDial addr_bob 0)] _ [GAccept]);
    apply g_connect; by apply connect_miss|].
  eapply rtc_l; [apply (step_run _ _ [GConnect ForStream (CDial addr_bob 0)] _ [GAccept]);
    apply g_connect; apply (connect_busy _ _ 0%nat); by vm_compute|].
  apply rtc_refl.
Qed.

Lemma dials_serialised_witness :
  (count (dials_to addr_bob) (w_gs world_wait) ≤ 1)%nat ∧
  ∃ o, o ∈ w_gs world_wait ∧ owning 0 o = true.
Proof.
  destruct (dials_serialised ann true quic_start cluster world_wait world_wait_reachable) as [H1 H2].
  split; [apply H1|].
  destruct (H2 (GConnect ForStream (CWait 0)) 0%nat) as [[r Hr]|(o & Ho & Hn & _)];
    [set_solver|done|done|eauto].
Defined.

(** ** Handshakes *)

(** TLS as its laws have it, and no more. *)
Module ToyTls.
#[export] Instance tls : Tls := {
  server_handshake conf offered resumed s c s' :=
    (if (resumed : bool) then s' = s
     else run_verifier (VerifyPeerCertificate conf) s (PeerCertificates c) = (Ok (), s')) ∧
    NegotiatedProtocol c ∈ NextProtos conf ∧ NegotiatedProtocol c ∈ offered;
  client_handshake conf resumed s c s' :=
    (if (resumed : bool) then s' = s
     else run_verifier (VerifyPeerCertificate conf) s (PeerCertificates c) = (Ok (), s')) ∧
    NegotiatedProtocol c ∈ NextProtos conf;
}.

#[export] Instance tls_laws : TlsLaws.
Proof. split; cbn; naive_solver. Qed.
End ToyTls.

#[local] Existing Instance ToyTls.tls.
#[local] Existing Instance ToyTls.tls_laws.

Definition ann_cert : tlsCertificate := MkTlsCert [key_bytes (key ann)] ann.

Lemma fresh_cluster : cache_ok cluster.
Proof. apply forget_cache_ok. Qed.

(** [bob] is let in. *)
Lemma gossip_only_members_witness :
  ∃ kept gs t', adopt ann_start from_bob true = (kept, gs, t') ∧ kept = Some from_bob ∧
    Forall (started_for cluster from_bob) gs.
Proof.
  assert (Hk : (adopt ann_start from_bob true).1.1 = Some from_bob) by (vm_compute; reflexivity).
  destruct (adopt ann_start from_bob true) as [[kept gs] t'] eqn:E. exists kept, gs, t'.
  split; [done|]. split; [exact Hk|].
  refine (proj2 (gossip_only_members ann_cert true [alpnGossip] cluster from_bob (Valid cluster (key bob)).2
    ann_start kept gs t' fresh_cluster _ E)).
  split_and!; [vm_compute; reflexivity|by left|by left].
Defined.

(** [eve], who is no member, cannot complete a handshake for gossip; but having
    once got a session for enrolment, which anybody does, she resumes it for
    gossip, and her connection goes into the table. *)
Definition eve_again : conn := (str "eve:7946", key eve, alpnGossip, 4%nat).
Example resumed_outsider :
  valid cluster (key eve) = false ∧
  (∀ s', ¬ handshake ann_cert true false [alpnGossip] cluster eve_again s') ∧
  handshake ann_cert true false [alpnEnrol] cluster from_eve cluster ∧
  handshake ann_cert true true [alpnGossip] cluster eve_again cluster ∧
  pc_conn <$> t_conns (adopt ann_start eve_again true).2 !! str "eve:7946" = Some eve_again.
Proof.
  assert (Hv : verifyEnrol (PeerCertificates from_eve) = Ok ()) by (vm_compute; reflexivity).
  assert (Ho : ∀ s', ¬ handshake ann_cert true false [alpnGossip] cluster eve_again s').
  { intros s' Hh. pose proof (handshake_member _ _ _ _ _ _ fresh_cluster Hh ltac:(done)) as (peer & Hp & Hpv).
    vm_compute in Hp. injection Hp as <-. revert Hpv. by vm_compute. }
  split; [vm_compute; reflexivity|]. split; [exact Ho|]. split; [|split].
  - split; [exact (f_equal (λ r, (r, cluster)) Hv)|split; left].
  - split; [reflexivity|split; left].
  - vm_compute. reflexivity.
Qed.
