(* ===== verification/EndpointsDemo.v ===== *)
(** * EndpointsDemo: enrolling over QUIC at a concrete run

    [eve] enrols with [bob] as in EnrolRun, over the toy QUIC of TransportDemo. *)

From S2P Require Import Prelude Identity Records TrustSet Validity Demo Tokens Prog Enrol EnrolRun.
From S2P Require Import Transport Tls TransportDemo Endpoints.

#[local] Existing Instance Toy.toy.
#[local] Existing Instance ToyHash.toy_hash.
#[local] Existing Instance toy_kdf.
#[local] Existing Instance jh.
#[local] Existing Instance jc.
#[local] Existing Instance jp.
#[local] Existing Instance ja.
#[local] Existing Instance jw.
#[local] Existing Instance ToyQuic.quic.
#[local] Existing Instance ToyQuic.x509.
#[local] Instance toy_maker : CertMaker := { CreateCertificate _ id := Ok (key_bytes (Public id)) }.

Definition bob_addr : bytes := str "192.0.2.1:7946".
Definition bob_udp : bytes * Z := ([Byte.xc0; Byte.x00; Byte.x02; Byte.x01], 7946).
Definition eve_cert : tlsCertificate := MkTlsCert [key_bytes (key eve)] eve.
Definition eve_conn : conn := (bob_addr, key bob, alpnEnrol, 5%nat).

Definition eve_trace : list (happened netE) :=
  [Ev Now 0; Ev Now 1; Ev (ResolveUDPAddr bob_addr) (Ok bob_udp); Ev (ListenUDP IPv4zero 0) (Ok ());
   Ev (QuicDial bob_udp (enrolClientTLSConfig eve_cert)) (Ok eve_conn); Ev OpenStream (Ok ())] ++
  map (seen_as (@InJoin _)) joiner_trace ++ [Ev AwaitEnd ()] ++ closings eve_conn.

Lemma eve_enrols :
  runs (cluster_Enrol bob_addr demo_tok eve (str "eve")) eve_trace
    (Ok (the_welcome demo_srv demo_adm demo_records, key bob)).
Proof.
  apply (Enrol_completes bob_addr demo_tok eve (str "eve") 0 1 eve_cert bob_udp eve_conn joiner_trace); [reflexivity|].
  eapply exec_trace_runs. vm_compute. reflexivity.
Qed.

Lemma Enrol_sound_witness :
  runs (cluster_Enrol bob_addr demo_tok eve (str "eve")) eve_trace
    (Ok (the_welcome demo_srv demo_adm demo_records, key bob)) ∧
  valid (welcome_set (the_welcome demo_srv demo_adm demo_records)) (key bob) = true.
Proof.
  split; [exact eve_enrols|].
  destruct (Enrol_sound bob_addr demo_tok eve (str "eve") eve_trace _ _ eve_enrols)
    as (cert & ua & c & tr0 & trJ & _ & _ & _ & _ & _ & Hv & _).
  exact Hv.
Defined.
