(* ===== verification/Cluster.v ===== *)
(** * Cluster: the node's membership of a running cluster (internal/cluster/cluster.go)

    What [Cluster] does with the record set: admitting joiners, revoking,
    taking in records from broadcasts and from push/pull exchanges, saving the
    state, and deciding which of the nodes gossip knows may be installed as
    peers. The gossip ring is memberlist's: its member list and its sends are
    arguments, its broadcast queue the list of what was queued. *)

From S2P Require Import Prelude Wire Netip Overlay Encoding Identity Records TrustSet Convergence.
From S2P Require Import Validity Membership Slots Prog Enrol State.

(** ** Data *)

(** [recordMsg], a broadcast carrying one record. *)
Record recordMsg := MkRecordMsg {
  rm_Admission : option Admission;
  rm_Revocation : option Revocation;
}.

(** A broadcast as it is queued: its name, and the message. *)
Record recordBroadcast := MkBroadcast { bc_name : bytes; bc_msg : bytes }.

Record Cluster := MkCluster {
  c_local : Node;
  c_id : Identity;
  c_set : TrustSet;
  c_overlay : Prefix;
  c_queue : list recordBroadcast;   (* what was handed to QueueBroadcast, oldest first *)
  c_boot : Bootstrap;
  c_saved : list state;             (* what was handed to boot.save, newest first *)
  c_changed : bool;                 (* a change signal is pending *)
}.

Definition with_set (c : Cluster) (s : TrustSet) : Cluster :=
  MkCluster (c_local c) (c_id c) s (c_overlay c) (c_queue c) (c_boot c) (c_saved c) (c_changed c).

(** An iteration order for each query of one call. *)
Abbreviation order := (list (PublicKey * Admission)).

(** ** Persisting, broadcasting, signalling *)

Section operations.
Context `{!Ed25519, !Json recordMsg, !Json Meta, !Json trust_Records}.

(** [saveState]: the records go into the bootstrap, and that is handed to
    [boot.save]. A save that fails is logged and nothing more, so it is no part
    of the result: what the file then holds is the state saved before (State). *)
Definition saveState (c : Cluster) : Cluster :=
  let b := c_boot c in
  let b := MkBootstrap (b_Identity b) (b_Root b) (b_OverlayNet b) (Records (c_set c)) (b_Peers b) in
  MkCluster (c_local c) (c_id c) (c_set c) (c_overlay c) (c_queue c) b (boot_state b :: c_saved c) (c_changed c).

(** [persist] is [saveState] under the lock. *)
Definition persist (c : Cluster) : Cluster := saveState c.

Definition broadcast (c : Cluster) (m : recordMsg) : Cluster :=
  match json_Marshal m with
  | None => c
  | Some msg =>
      let name :=
        match rm_Admission m, rm_Revocation m with
        | Some a, _ => str "adm:" ++ PublicKey_String (adm_Identity a)
        | None, Some r => str "rev:" ++ PublicKey_String (rev_Identity r)
        | None, None => []
        end in
      MkCluster (c_local c) (c_id c) (c_set c) (c_overlay c) (c_queue c ++ [MkBroadcast name msg])
        (c_boot c) (c_saved c) (c_changed c)
  end.

Definition signalChanged (c : Cluster) : Cluster :=
  MkCluster (c_local c) (c_id c) (c_set c) (c_overlay c) (c_queue c) (c_boot c) (c_saved c) true.

(** ** Revoking *)

(** [Cluster.Revoke] *)
Definition Revoke_ (c : Cluster) (id : PublicKey) (now : Z) : result unit * Cluster :=
  let rev := Revoke (c_id c) id now in
  match AddRevocation (c_set c) rev with
  | (Err msg, s) => (Err msg, with_set c s)
  | (Ok _, s) =>
      let c := broadcast (with_set c s) (MkRecordMsg None (Some rev)) in
      (Ok (), signalChanged (persist c))
  end.

(** [RevokeSelf]. [sends] are memberlist's members, in order, with whether
    [SendReliable] to each succeeds. *)
Definition RevokeSelf (c : Cluster) (now : Z) (sends : list (bytes * bool)) : result Z * Cluster :=
  let rev := Revoke (c_id c) (Public (c_id c)) now in
  match AddRevocation (c_set c) rev with
  | (Err msg, s) => (Err msg, with_set c s)
  | (Ok _, s) =>
      let c := with_set c s in
      match json_Marshal (MkRecordMsg None (Some rev)) with
      | None => (Err "json", c)
      | Some msg =>
          let told := foldl (λ told (m : bytes * bool),
            if decide (m.1 = n_Name (c_local c)) then told
            else if m.2 then told + 1 else told) 0 sends in
          let c := broadcast c (MkRecordMsg None (Some rev)) in
          (Ok told, persist c)
      end
  end.

(** ** Taking in records *)

(** [NotifyMsg] *)
Definition NotifyMsg (c : Cluster) (b : bytes) : Cluster :=
  match json_Unmarshal b with
  | None => c
  | Some m =>
      let finish (changed : bool) (c : Cluster) :=
        if changed then signalChanged (persist (broadcast c m)) else c in
      match rm_Admission m, rm_Revocation m with
      | Some a, _ =>
          match AddAdmission (c_set c) a with
          | (Err _, s) => with_set c s
          | (Ok ok, s) => finish ok (with_set c s)
          end
      | None, Some r =>
          match AddRevocation (c_set c) r with
          | (Err _, s) => with_set c s
          | (Ok ok, s) => finish ok (with_set c s)
          end
      | None, None => c
      end
  end.

(** [LocalState] and [MergeRemoteState], the two halves of a push/pull. *)
Definition LocalState (c : Cluster) : option bytes := json_Marshal (Records (c_set c)).

Definition MergeRemoteState (c : Cluster) (buf : bytes) : Cluster :=
  match json_Unmarshal buf with
  | None => c
  | Some rs =>
      let '(n, s) := Merge (c_set c) rs in
      let c := with_set c s in
      if 0 <? n then signalChanged (persist c) else c
  end.

(** What memberlist delivers: a broadcast, or the state of a peer. *)
Inductive arrival := Notified (m : recordMsg) | Merged (rs : trust_Records).

(** The part of [NotifyMsg] and [MergeRemoteState] before [persist], and
    whether [persist] and [signalChanged] follow. It does not wait for stateMu. *)
Definition take_in (c : Cluster) (x : arrival) : bool * Cluster :=
  match x with
  | Notified m =>
      let '(ok, s) :=
        match rm_Admission m, rm_Revocation m with
        | Some a, _ => AddAdmission (c_set c) a
        | None, Some r => AddRevocation (c_set c) r
        | None, None => (Ok false, c_set c)
        end in
      match ok with
      | Ok true => (true, broadcast (with_set c s) m)
      | _ => (false, with_set c s)
      end
  | Merged rs => let '(n, s) := Merge (c_set c) rs in (0 <? n, with_set c s)
  end.

(** Some of them, with how many wait for stateMu by then. *)
Definition take_in_next (nc : nat * Cluster) (x : arrival) : nat * Cluster :=
  let '(changed, c) := take_in nc.2 x in (if (changed : bool) then S nc.1 else nc.1, c).
Definition meanwhile (nc : nat * Cluster) (l : list arrival) : nat * Cluster := foldl take_in_next nc l.

(** Those that wait go on. *)
Definition go_on (nc : nat * Cluster) : Cluster := Nat.iter nc.1 (λ c, signalChanged (persist c)) nc.2.

(** ** Admitting *)

(** Where [admit] does not hold the set's lock, between two calls that do. *)
Inductive moment := BeforeLookup | BeforeValid | BeforeFreeHost | BeforeAdd | BeforeSave | BeforeRecords.

(** [c.set.FreeHost] *)
Definition free_host_among (nc : nat * Cluster) (o : order) (g : moment → list arrival)
    : result Z * (nat * Cluster) :=
  let '(n, c) := meanwhile nc (g BeforeFreeHost) in
  (FreeHost (c_set c) o (MaxHost (c_overlay c)), (n, c)).

(** The slot of the joiner. *)
Definition host_among (c : Cluster) (joiner : PublicKey) (o : order) (g : moment → list arrival)
    : result Z * (nat * Cluster) :=
  let '(n, c) := meanwhile (0%nat, c) (g BeforeLookup) in
  match Lookup_ (c_set c) joiner with
  | Some cur =>
      let '(n, c) := meanwhile (n, c) (g BeforeValid) in
      let '(v, s) := Valid (c_set c) joiner in
      let c := with_set c s in
      if (v : bool) then (Ok (adm_Host cur), (n, c))   (* an identity enrolling again keeps its address *)
      else free_host_among (n, c) o g
  | None => free_host_among (n, c) o g
  end.

(** [admit], under stateMu, while memberlist delivers [g]: what it returns,
    and the cluster with how many deliveries wait for stateMu. *)
Definition admit_among (c : Cluster) (joiner : PublicKey) (name : bytes) (now : Z) (o1 o2 : order)
    (g : moment → list arrival) : result (Admission * trust_Records) * (nat * Cluster) :=
  if NameTaken (c_set c) o1 name joiner then (Err "a member of that name already exists", (0%nat, c))
  else
    match host_among c joiner o2 g with
    | (Err msg, nc) => (Err msg, nc)
    | (Ok host, nc) =>
        let '(n, c) := meanwhile nc (g BeforeAdd) in
        let a := Admit (c_id c) joiner name host now in
        match AddAdmission (c_set c) a with
        | (Err msg, s) => (Err msg, (n, with_set c s))
        | (Ok _, s) =>
            let c := broadcast (with_set c s) (MkRecordMsg (Some a) None) in
            let '(n, c) := meanwhile (n, c) (g BeforeSave) in
            let c := saveState c in
            let '(n, c) := meanwhile (n, c) (g BeforeRecords) in
            (Ok (a, Records (c_set c)), (n, c))
        end
    end.

(** [admit] when nothing is delivered meanwhile. *)
Definition Cluster_admit (c : Cluster) (joiner : PublicKey) (name : bytes) (now : Z) (o1 o2 : order)
    : result (Admission * trust_Records) * Cluster :=
  let '(r, (_, c)) := admit_among c joiner name now o1 o2 (λ _, []) in (r, c).

(** [NodeMeta]: this node's metadata for gossip. *)
Definition NodeMeta (c : Cluster) (limit : Z) : option bytes :=
  match Meta_Encode (n_Meta (c_local c)) limit with
  | Ok b => Some b
  | Err _ => None
  end.

(** ** Who may be a peer *)

Definition assignedAddr (s : TrustSet) (prefix : Prefix) (id : PublicKey) (o : order) : result Addr * TrustSet :=
  let '(v, s) := Valid s id in
  if negb v then (Err "identity is not a member", s)
  else
    let adm := default zeroAdmission (Lookup_ s id) in
    match Addr_of prefix (adm_Host adm) with
    | None => (Err "overlay slot does not fit", s)
    | Some addr =>
        if (HostConflict s o id).2 then (Err "overlay address collides", s)
        else (Ok addr, s)
    end.

(** [wgtypes.ParseKey], whether it accepts the text. *)
Context (ParseKey : bytes → bool).

Definition verifyMeta (s : TrustSet) (prefix : Prefix) (n : Node) (o : order) : result unit * TrustSet :=
  let m := n_Meta n in
  match assignedAddr s prefix (m_Identity m) o with
  | (Err msg, s) => (Err msg, s)
  | (Ok want, s) =>
      if negb (bool_decide (m_OverlayAddr m = want)) then (Err "claims another overlay address", s)
      else if negb (Verify (m_Identity m)
                 (MetaDigest (n_Name n) (m_OverlayAddr m) (m_PubKey m) (m_AllowedIPs m)) (m_Signature m))
      then (Err "metadata signature does not verify", s)
      else if negb (ParseKey (m_PubKey m)) then (Err "wireguard key", s)
      else (Ok (), s)
  end.

(** A member as memberlist lists it. *)
Record mlNode := MkMlNode {
  ml_Name : bytes;
  ml_Addr : bytes;      (* net.IP *)
  ml_Port : Z;
  ml_Meta : bytes;
}.

(** One turn of [snapshot]'s loop: the node if it passes. *)
Definition check_member (c : Cluster) (s : TrustSet) (n : mlNode) (o : order) : option Node * TrustSet :=
  if decide (ml_Name n = n_Name (c_local c)) then (None, s)
  else
    match DecodeMeta (ml_Meta n) with
    | Err _ => (None, s)
    | Ok meta =>
        let addr := Unmap (default AZero (AddrFromSlice (ml_Addr n))) in
        let node := MkNode (ml_Name n) addr (ml_Port n) meta in
        match verifyMeta s (c_overlay c) node o with
        | (Err _, s) => (None, s)
        | (Ok _, s) => (Some node, s)
        end
    end.

(** [snapshot]; [o] is an iteration order for every query it makes. *)
Fixpoint check_members (c : Cluster) (s : TrustSet) (l : list mlNode) (o : order) : list Node * TrustSet :=
  match l with
  | [] => ([], s)
  | n :: l =>
      let '(r, s) := check_member c s n o in
      let '(rest, s) := check_members c s l o in
      (match r with Some node => node :: rest | None => rest end, s)
  end.

Definition snapshot (c : Cluster) (l : list mlNode) (o : order) : list Node * Cluster :=
  (* this node's own address is looked up for the log *)
  let '(_, s) := assignedAddr (c_set c) (c_overlay c) (Public (c_id c)) o in
  let '(nodes, s) := check_members c s l o in
  (nodes, with_set c s).

(** One round of [watch]: the snapshot becomes the saved peers. *)
Definition watch_round (c : Cluster) (l : list mlNode) (o : order) : list Node * Cluster :=
  let '(peers, c) := snapshot c l o in
  let b := c_boot c in
  let c := MkCluster (c_local c) (c_id c) (c_set c) (c_overlay c) (c_queue c)
    (MkBootstrap (b_Identity b) (b_Root b) (b_OverlayNet b) (b_Records b) peers) (c_saved c) false in
  (peers, saveState c).

(** ** Starting *)

(** [New] up to the point where it binds the transport: the checks, and the
    signed local node. *)
Definition New (boot : Bootstrap) (net : Prefix) (local : Node) (o : order) : result Cluster :=
  let id := b_Identity boot in
  let set := (Merge (NewSet (b_Root boot)) (b_Records boot)).2 in
  let '(v, set) := Valid set (Public id) in
  if negb v then Err "this node is not a member of the cluster"
  else
    match assignedAddr set net (Public id) o with
    | (Err msg, _) => Err msg
    | (Ok want, set) =>
        if negb (bool_decide (want = m_OverlayAddr (n_Meta local))) then
          Err "local overlay address is not the assigned one"
        else
          let boot := MkBootstrap id (b_Root boot) net (b_Records boot) (b_Peers boot) in
          let m := n_Meta local in
          let sig := Sign id (MetaDigest (n_Name local) (m_OverlayAddr m) (m_PubKey m) (m_AllowedIPs m)) in
          let local := MkNode (n_Name local) (n_Addr local) (n_Port local)
            (MkMeta (m_OverlayAddr m) (m_PubKey m) (m_AllowedIPs m) (Public id) sig) in
          Ok (persist (MkCluster local id set net [] boot [] false))
    end.
End operations.
