(* ===== verification/ClusterProps.v ===== *)
(** * ClusterProps: what the cluster operations guarantee

    Overlay addresses of verified members never collide; an admission keeps
    names and slots unique and stands up to the joiner's checks; records are
    spread and saved exactly when they change the set. *)

From S2P Require Import Prelude Wire Netip Overlay Encoding Identity Records TrustSet Demo Convergence.
From S2P Require Import Validity Membership Slots Prog Tokens Enrol EnrolRun State Cluster.

(** ** Sets with the same records *)

Definition lookalike (s s' : TrustSet) : Prop :=
  root s = root s' ∧ admissions s = admissions s' ∧ revocations s = revocations s'.

Section lookalike.
Implicit Types (s : TrustSet).

Lemma Valid_lookalike s id : lookalike s (Valid s id).2.
Proof. unfold Valid. case_decide; [done|]. by destruct (valid s id). Qed.

Lemma lookalike_refl s : lookalike s s.
Proof. done. Qed.
Lemma lookalike_trans s1 s2 s3 : lookalike s1 s2 → lookalike s2 s3 → lookalike s1 s3.
Proof. unfold lookalike. intros (?&?&?) (?&?&?). split_and!; congruence. Qed.

Lemma lookalike_valid s s' id : lookalike s s' → valid s id = valid s' id.
Proof. intros (?&?&?). by apply valid_ext. Qed.

Lemma lookalike_validAdmissions s s' o : lookalike s s' → validAdmissions s o = validAdmissions s' o.
Proof.
  intros Hs. unfold validAdmissions. f_equal. apply list_filter_iff.
  intros [k a]. by rewrite (lookalike_valid s s').
Qed.

Lemma lookalike_HostConflict s s' o id : lookalike s s' → HostConflict s o id = HostConflict s' o id.
Proof.
  intros Hs. unfold HostConflict. destruct Hs as (Hr & Ha & Hv). rewrite Ha.
  destruct (admissions s' !! id); [|done]. by rewrite (lookalike_validAdmissions s s').
Qed.
End lookalike.

(** ** Assigned addresses *)

(** The address [assignedAddr] gives, without the cache. *)
Definition assigned (s : TrustSet) (p : Prefix) (id : PublicKey) (o : order) : option Addr :=
  if valid s id then
    match Addr_of p (adm_Host (default zeroAdmission (admissions s !! id))) with
    | Some a => if (HostConflict s o id).2 then None else Some a
    | None => None
    end
  else None.

Definition hosts_typed (s : TrustSet) : Prop :=
  map_Forall (λ _ a, uint64_range (adm_Host a)) (admissions s).

Section addresses.
Context `{!Ed25519}.
Implicit Types (s : TrustSet) (id : PublicKey).

Lemma assignedAddr_lookalike s p id o :
  cache_ok s → lookalike s (assignedAddr s p id o).2 ∧ cache_ok (assignedAddr s p id o).2.
Proof.
  intros Hc. unfold assignedAddr.
  pose proof (Valid_lookalike s id) as Hl. pose proof (Valid_cache_ok s id Hc) as Hc'.
  destruct (Valid s id) as [v s']. simpl in *. destruct (negb v); [done|].
  destruct (Addr_of p _); [|done]. by destruct (HostConflict s' o id).2.
Qed.

Lemma assignedAddr_assigned s p id o a :
  cache_ok s → (assignedAddr s p id o).1 = Ok a ↔ assigned s p id o = Some a.
Proof.
  intros Hc. unfold assignedAddr, assigned.
  pose proof (Valid_lookalike s id) as Hl. pose proof (Valid_answer s id Hc) as Hv.
  destruct (Valid s id) as [v s']. simpl in *. subst v.
  destruct (valid s id); simpl; [|done]. unfold Lookup_.
  rewrite (proj1 (proj2 Hl)), (lookalike_HostConflict s s') by done.
  destruct (Addr_of p _); [|done]. destruct (HostConflict s' o id).2; naive_solver.
Qed.

(** A member with an address has an admission, and nobody with a stronger
    claim to its slot. *)
Lemma assigned_held s p id o a :
  set_wf s → good_prefix p → assigned s p id o = Some a →
  ∃ adm, held s adm ∧ adm_Identity adm = id ∧ Addr_of p (adm_Host adm) = Some a ∧
         (HostConflict s o id).2 = false.
Proof.
  intros [Hwf _] Hp. unfold assigned. destruct (valid s id) eqn:Ev; [|done].
  destruct (admissions s !! id) as [adm|] eqn:E; simpl.
  - destruct (Addr_of p (adm_Host adm)) as [a'|] eqn:Ea; [|done].
    destruct (HostConflict s o id).2 eqn:Eh; [done|]. intros [= <-].
    destruct (Hwf id adm E) as [Hid _]. exists adm. unfold held. by rewrite Hid.
  - done.
Qed.

Lemma assigned_inj s p id1 id2 o1 o2 a :
  set_wf s → hosts_typed s → iteration s o1 → iteration s o2 → good_prefix p →
  assigned s p id1 o1 = Some a → assigned s p id2 o2 = Some a → id1 = id2.
Proof.
  intros Hw Ht H1 H2 Hp A1 A2.
  destruct (assigned_held s p id1 o1 a Hw Hp A1) as (x & Hx & <- & Ax & Nx).
  destruct (assigned_held s p id2 o2 a Hw Hp A2) as (y & Hy & <- & Ay & Ny).
  apply (no_conflict_unique s o1 o2 x y); try done.
  pose proof (Ht _ _ (proj1 Hx)) as Tx. pose proof (Ht _ _ (proj1 Hy)) as Ty. unfold uint64_range in *.
  apply (slot_addr_inj p _ _ a); [done|lia|lia|done|done].
Qed.

(** ** Verified metadata *)

Context (ParseKey : bytes → bool).

(** What [verifyMeta] accepts. *)
Record verified s (p : Prefix) (n : Node) (o : order) : Prop := {
  vf_addr : assigned s p (m_Identity (n_Meta n)) o = Some (m_OverlayAddr (n_Meta n));
  vf_sig : Verify (m_Identity (n_Meta n))
             (MetaDigest (n_Name n) (m_OverlayAddr (n_Meta n)) (m_PubKey (n_Meta n)) (m_AllowedIPs (n_Meta n)))
             (m_Signature (n_Meta n)) = true;
  vf_key : ParseKey (m_PubKey (n_Meta n)) = true;
}.

Lemma verifyMeta_spec s p n o :
  cache_ok s →
  ((verifyMeta ParseKey s p n o).1 = Ok () ↔ verified s p n o) ∧
  lookalike s (verifyMeta ParseKey s p n o).2 ∧ cache_ok (verifyMeta ParseKey s p n o).2.
Proof.
  intros Hc. unfold verifyMeta.
  pose proof (assignedAddr_lookalike s p (m_Identity (n_Meta n)) o Hc) as [Hl Hc'].
  pose proof (λ a, assignedAddr_assigned s p (m_Identity (n_Meta n)) o a Hc) as Ha.
  destruct (assignedAddr s p _ o) as [[want|msg] s']; simpl in *.
  2:{ split; [|done]. split; [done|]. intros [Hv _ _]. by apply Ha in Hv. }
  destruct (bool_decide_reflect (m_OverlayAddr (n_Meta n) = want)) as [<-|Hne]; simpl.
  2:{ split; [|done]. split; [done|]. intros [Hv _ _]. apply Ha in Hv. naive_solver. }
  destruct (Verify _ _ _) eqn:Es; simpl.
  2:{ split; [|done]. split; [done|]. intros [_ Hv _]. congruence. }
  destruct (ParseKey _) eqn:Ek; simpl.
  2:{ split; [|done]. split; [done|]. intros [_ _ Hv]. congruence. }
  split; [|done]. split; [|done]. intros _. split; [by apply Ha|done|done].
Qed.

Lemma assigned_lookalike s s' p id o : lookalike s s' → assigned s p id o = assigned s' p id o.
Proof.
  intros Hl. unfold assigned. rewrite (lookalike_valid s s'), (lookalike_HostConflict s s') by done.
  by rewrite (proj1 (proj2 Hl)).
Qed.

Lemma verified_lookalike s s' p n o : lookalike s s' → verified s p n o ↔ verified s' p n o.
Proof.
  intros Hl. split; intros [H1 H2 H3]; split; try done;
    by rewrite <-H1, (assigned_lookalike s s').
Qed.

Lemma check_members_spec `{!Json Meta} c s l o nodes s' :
  cache_ok s → check_members ParseKey c s l o = (nodes, s') →
  lookalike s s' ∧ cache_ok s' ∧
  ∀ n, n ∈ nodes → verified s (c_overlay c) n o ∧ n_Name n ≠ n_Name (c_local c).
Proof.
  revert s nodes s'. induction l as [|m l IH]; intros s nodes s' Hc; simpl.
  { intros [= <- <-]. split_and!; [done..|]. set_solver. }
  assert (Hone : ∀ r s1, check_member ParseKey c s m o = (r, s1) →
    lookalike s s1 ∧ cache_ok s1 ∧
    ∀ n, r = Some n → verified s (c_overlay c) n o ∧ n_Name n ≠ n_Name (c_local c)).
  { intros r s1. unfold check_member.
    case_decide as Hname; [by intros [= <- <-]|].
    destruct (DecodeMeta _) as [meta|]; [|by intros [= <- <-]].
    set (node := MkNode _ _ _ _).
    pose proof (verifyMeta_spec s (c_overlay c) node o Hc) as (Hv & Hl & Hc').
    destruct (verifyMeta ParseKey s _ node o) as [[[]|] s2]; simpl in *; intros [= <- <-].
    - split_and!; [done..|]. intros n [= <-]. split; [by apply Hv|done].
    - done. }
  destruct (check_member ParseKey c s m o) as [r s1] eqn:E1.
  destruct (Hone r s1 eq_refl) as (L1 & C1 & N1).
  destruct (check_members ParseKey c s1 l o) as [rest s2] eqn:E2.
  destruct (IH s1 rest s2 C1 E2) as (L2 & C2 & N2). intros [= <- <-].
  split_and!; [by eapply lookalike_trans|done|]. intros n Hn.
  assert (Hrest : n ∈ rest → verified s (c_overlay c) n o ∧ n_Name n ≠ n_Name (c_local c)).
  { intros Hr. destruct (N2 n Hr) as [Hv ?]. split; [|done]. by apply (verified_lookalike s s1). }
  destruct r as [node|]; [|by apply Hrest].
  apply elem_of_cons in Hn as [->|Hn]; [by apply N1|by apply Hrest].
Qed.

Lemma snapshot_spec `{!Json Meta} c l o nodes c' :
  cache_ok (c_set c) → snapshot ParseKey c l o = (nodes, c') →
  lookalike (c_set c) (c_set c') ∧ cache_ok (c_set c') ∧ c' = with_set c (c_set c') ∧
  ∀ n, n ∈ nodes → verified (c_set c) (c_overlay c) n o ∧ n_Name n ≠ n_Name (c_local c).
Proof.
  intros Hc. unfold snapshot.
  pose proof (assignedAddr_lookalike (c_set c) (c_overlay c) (Public (c_id c)) o Hc) as [L0 C0].
  destruct (assignedAddr (c_set c) _ _ o) as [r s0]. simpl in *.
  destruct (check_members ParseKey c s0 l o) as [ns s1] eqn:E. intros [= <- <-].
  destruct (check_members_spec c s0 l o ns s1 C0 E) as (L1 & C1 & N1). simpl.
  split_and!; [by eapply lookalike_trans|done|done|].
  intros n Hn. destruct (N1 n Hn) as [Hv ?]. split; [|done]. by apply (verified_lookalike _ s0).
Qed.

(** ** Properties of the addresses *)

(** C10: no two identities are assigned one overlay address: whatever records
    a set holds, an address leads to at most one member. *)
Theorem assignedAddr_inj s p id1 id2 o1 o2 a :
  set_wf s → cache_ok s → hosts_typed s → iteration s o1 → iteration s o2 → good_prefix p →
  (assignedAddr s p id1 o1).1 = Ok a → (assignedAddr s p id2 o2).1 = Ok a → id1 = id2.
Proof.
  intros Hw Hc Ht H1 H2 Hp A1 A2. apply assignedAddr_assigned in A1, A2; [|done..].
  by apply (assigned_inj s p id1 id2 o1 o2 a).
Qed.

(** C28: every node in a snapshot is another current member, whose identity
    signed its name, overlay address, WireGuard key and routes; the address
    is the one its admission assigns, so two nodes of a snapshot with one
    address are one identity. *)
Theorem snapshot_sound `{!Json Meta} c l o n n' :
  set_wf (c_set c) → cache_ok (c_set c) → hosts_typed (c_set c) → iteration (c_set c) o →
  good_prefix (c_overlay c) →
  n ∈ (snapshot ParseKey c l o).1 → n' ∈ (snapshot ParseKey c l o).1 →
  valid (c_set c) (m_Identity (n_Meta n)) = true ∧
  n_Name n ≠ n_Name (c_local c) ∧
  Verify (m_Identity (n_Meta n))
    (MetaDigest (n_Name n) (m_OverlayAddr (n_Meta n)) (m_PubKey (n_Meta n)) (m_AllowedIPs (n_Meta n)))
    (m_Signature (n_Meta n)) = true ∧
  ParseKey (m_PubKey (n_Meta n)) = true ∧
  (∃ adm, held (c_set c) adm ∧ adm_Identity adm = m_Identity (n_Meta n) ∧
          Addr_of (c_overlay c) (adm_Host adm) = Some (m_OverlayAddr (n_Meta n))) ∧
  (m_OverlayAddr (n_Meta n) = m_OverlayAddr (n_Meta n') → m_Identity (n_Meta n) = m_Identity (n_Meta n')).
Proof.
  intros Hw Hc Ht Ho Hp Hn Hn'.
  destruct (snapshot ParseKey c l o) as [nodes c'] eqn:E.
  destruct (snapshot_spec c l o nodes c' Hc E) as (_ & _ & _ & Hall). simpl in *.
  destruct (Hall n Hn) as [[Ha Hs Hk] Hname]. destruct (Hall n' Hn') as [[Ha' _ _] _].
  destruct (assigned_held _ _ _ _ _ Hw Hp Ha) as (adm & Hheld & Hid & Haddr & _).
  split_and!; try done.
  - rewrite <-Hid. apply Hheld.
  - by exists adm.
  - intros Eaddr. rewrite <-Eaddr in Ha'. by apply (assigned_inj _ _ _ _ o o _ Hw Ht Ho Ho Hp Ha Ha').
Qed.
End addresses.
