(* ===== verification/ClusterAdmit.v ===== *)
(** * ClusterAdmit: admissions, persistence and epidemics of a cluster node

    [Cluster_admit], of a joiner the records have nothing against, keeps names
    and slots unique among the members and hands out records that stand up to
    the joiner's checks. Whatever changes the record set is handed to be saved,
    also when messages come in during an admission, and a record that changed
    the set is passed on, once. *)

From S2P Require Import Prelude Wire Netip Overlay Encoding Identity Records TrustSet Demo Convergence.
From S2P Require Import Validity Membership Slots Prog Tokens Enrol EnrolRun State Cluster ClusterProps.

Section Admitting.
Context `{!Ed25519, !Json recordMsg}.
Implicit Types (s : TrustSet) (c : Cluster).

(** ** Operations on sets with the same records *)

Lemma lookalike_FreeHost s s' o limit : lookalike s s' → FreeHost s o limit = FreeHost s' o limit.
Proof.
  intros Hs. unfold FreeHost, validTaken.
  replace (filter (λ ka : PublicKey * Admission, valid s ka.1 = true) o)
    with (filter (λ ka : PublicKey * Admission, valid s' ka.1 = true) o); [done|].
  apply list_filter_iff. intros [k a]. by rewrite (lookalike_valid s s').
Qed.

Lemma lookalike_AddAdmission s s' a :
  lookalike s s' → (AddAdmission s a).1 = (AddAdmission s' a).1 ∧
  lookalike (AddAdmission s a).2 (AddAdmission s' a).2.
Proof.
  intros Hs. pose proof Hs as (Hr & Ha & Hv). unfold AddAdmission. rewrite Hr, Ha.
  destruct (adm_Validate a); [|done]. destruct (_ && _); [done|].
  destruct (match _ with Some _ => _ | None => _ end); [done|]. simpl.
  split; [done|]. unfold lookalike. simpl. split_and!; congruence || done.
Qed.

Lemma lookalike_wf s s' : lookalike s s' → set_wf s → set_wf s'.
Proof. intros (Hr & Ha & Hv) [Wa Wv]. split; by rewrite <-?Hr, <-?Ha, <-?Hv. Qed.

Lemma lookalike_Records s s' : lookalike s s' → Records s = Records s'.
Proof. intros (Hr & Ha & Hv). unfold Records. by rewrite Ha, Hv. Qed.

(** ** What [Cluster_admit] does *)

(** The slot it chooses. *)
Definition chosen_host s (o : order) (limit : Z) (joiner : PublicKey) : result Z :=
  match admissions s !! joiner with
  | Some cur => if valid s joiner then Ok (adm_Host cur) else FreeHost s o limit
  | None => FreeHost s o limit
  end.

Lemma admit_unfold c joiner name now o1 o2 :
  cache_ok (c_set c) →
  ∃ s, lookalike (c_set c) s ∧ cache_ok s ∧
    Cluster_admit c joiner name now o1 o2 =
      if NameTaken (c_set c) o1 name joiner then (Err "a member of that name already exists", c)
      else
        match chosen_host (c_set c) o2 (MaxHost (c_overlay c)) joiner with
        | Err msg => (Err msg, with_set c s)
        | Ok host =>
            let a := Admit (c_id c) joiner name host now in
            match (AddAdmission s a).1 with
            | Err msg => (Err msg, with_set c (AddAdmission s a).2)
            | Ok _ =>
                let c' := saveState (broadcast (with_set c (AddAdmission s a).2) (MkRecordMsg (Some a) None)) in
                (Ok (a, Records (c_set c')), c')
            end
        end.
Proof.
  intros Hc. unfold Cluster_admit, admit_among, host_among, free_host_among, meanwhile, chosen_host, Lookup_. cbn [foldl].
  destruct (NameTaken (c_set c) o1 name joiner); [by exists (c_set c)|].
  destruct (admissions (c_set c) !! joiner) as [cur|].
  - pose proof (Valid_lookalike (c_set c) joiner) as Hl.
    pose proof (Valid_answer (c_set c) joiner Hc) as Hv. pose proof (Valid_cache_ok (c_set c) joiner Hc) as Hc'.
    destruct (Valid (c_set c) joiner) as [v s]. simpl in Hl, Hv, Hc'. subst v. exists s. split_and!; [done..|].
    destruct (valid (c_set c) joiner).
    + destruct c. unfold with_set. simpl in *.
      by destruct (AddAdmission s (Admit c_id joiner name (adm_Host cur) now)) as [[] ?].
    + change (c_set (with_set c s)) with s. change (c_overlay (with_set c s)) with (c_overlay c).
      rewrite (lookalike_FreeHost (c_set c) s) by done.
      destruct (FreeHost s o2 (MaxHost (c_overlay c))) as [host|]; [|done].
      destruct c. unfold with_set. simpl.
      by destruct (AddAdmission s (Admit c_id joiner name host now)) as [[] ?].
  - exists (c_set c). split_and!; [done..|].
    assert (E : with_set c (c_set c) = c) by (by destruct c). rewrite E.
    destruct (FreeHost (c_set c) o2 (MaxHost (c_overlay c))) as [host|]; [|done].
    by destruct (AddAdmission (c_set c) (Admit (c_id c) joiner name host now)) as [[] ?].
Qed.

Lemma broadcast_set c m : c_set (broadcast c m) = c_set c.
Proof. unfold broadcast. by destruct (json_Marshal m). Qed.

(** A successful admission: the record, and the set it left. *)
Lemma admit_Ok c joiner name now o1 o2 a recs c' :
  cache_ok (c_set c) → Cluster_admit c joiner name now o1 o2 = (Ok (a, recs), c') →
  NameTaken (c_set c) o1 name joiner = false ∧
  (∃ host, chosen_host (c_set c) o2 (MaxHost (c_overlay c)) joiner = Ok host ∧
           a = Admit (c_id c) joiner name host now) ∧
  is_ok (AddAdmission (c_set c) a).1 = true ∧
  lookalike (AddAdmission (c_set c) a).2 (c_set c') ∧ recs = Records (c_set c') ∧
  (∃ s, lookalike (c_set c) s ∧ c' = saveState (broadcast (with_set c (AddAdmission s a).2) (MkRecordMsg (Some a) None))).
Proof.
  intros Hc. destruct (admit_unfold c joiner name now o1 o2 Hc) as (s & Hl & Hcs & ->).
  destruct (NameTaken _ _ _ _); [done|]. destruct (chosen_host _ _ _ _) as [host|]; [|done].
  cbv zeta. set (a0 := Admit (c_id c) joiner name host now).
  pose proof (lookalike_AddAdmission (c_set c) s a0 Hl) as [E1 L1].
  destruct (AddAdmission s a0).1 as [ok|] eqn:Eok; [|done]. intros [= <- <- <-].
  assert (Eset : c_set (saveState (broadcast (with_set c (AddAdmission s a0).2) (MkRecordMsg (Some a0) None)))
                 = (AddAdmission s a0).2) by (unfold saveState; simpl; by rewrite broadcast_set).
  rewrite Eset. split; [done|]. split; [by exists host|]. split; [by rewrite E1|].
  split; [exact L1|]. split; [by rewrite broadcast_set|]. by exists s.
Qed.

Lemma AddAdmission_result s a :
  is_ok (AddAdmission s a).1 = true →
  adm_Validate a = Ok () ∧
  (AddAdmission s a = (Ok true, with_admission s a) ∨
   (AddAdmission s a).2 = s ∧ ∃ cur, admissions s !! adm_Identity a = Some cur ∧ adm_IssuedAt a ≤ adm_IssuedAt cur).
Proof.
  unfold AddAdmission. destruct (adm_Validate a) as [[]|]; [|done].
  destruct (_ && _); [done|]. intros _. split; [done|].
  destruct (admissions s !! adm_Identity a) as [cur|]; [|by left].
  destruct (Z.leb_spec (adm_IssuedAt a) (adm_IssuedAt cur)); [right; split; [done|by exists cur]|by left].
Qed.

(** ** Uniqueness of names and slots *)

Definition distinct_names s : Prop :=
  ∀ a b, held s a → held s b → adm_Name a = adm_Name b → adm_Identity a = adm_Identity b.
Definition distinct_slots s : Prop :=
  ∀ a b, held s a → held s b → adm_Host a = adm_Host b → adm_Identity a = adm_Identity b.

Lemma lookalike_held s s' a : lookalike s s' → held s a ↔ held s' a.
Proof. intros Hl. unfold held. by rewrite (proj1 (proj2 Hl)), (lookalike_valid s s'). Qed.

(** Nobody's records mention the joiner, and nobody revoked it. *)
Record unknown_joiner s (me joiner : PublicKey) : Prop := {
  uj_root : joiner ≠ root s;
  uj_self : me ≠ joiner;
  uj_rev : revocations s !! joiner = None;
  uj_questions : ∀ t, (joiner, t) ∉ questions s;
}.

Lemma held_with_admission s a b me :
  unknown_joiner s me (adm_Identity a) → adm_Admitter a = me →
  held (with_admission s a) b →
  b = a ∨ (adm_Identity b ≠ adm_Identity a ∧ held s b).
Proof.
  intros [Hr Hs Hv Hq] Hme [Hb Hvb]. simpl in Hb. subst me.
  rewrite with_admission_valid in Hvb by done. case_decide as Hid.
  - left. rewrite Hid, lookup_insert_eq in Hb. congruence.
  - right. rewrite lookup_insert_ne in Hb by done. done.
Qed.

(** Adding an admission whose name and slot no other member has. *)
Lemma unique_with_admission s a me :
  unknown_joiner s me (adm_Identity a) → adm_Admitter a = me →
  (∀ b, held s b → adm_Name b = adm_Name a → adm_Identity b = adm_Identity a) →
  (distinct_slots s → ∀ b, held s b → adm_Host b = adm_Host a → adm_Identity b = adm_Identity a) →
  (distinct_names s → distinct_names (with_admission s a)) ∧
  (distinct_slots s → distinct_slots (with_admission s a)).
Proof.
  intros Hu Hme Hname Hslot. split.
  - intros Hd x y Hx Hy E.
    apply (held_with_admission s a x me Hu Hme) in Hx as [->|[Hxi Hx]];
      apply (held_with_admission s a y me Hu Hme) in Hy as [->|[Hyi Hy]].
    + done.
    + symmetry. by apply Hname.
    + by apply Hname.
    + by apply Hd.
  - intros Hd x y Hx Hy E.
    apply (held_with_admission s a x me Hu Hme) in Hx as [->|[Hxi Hx]];
      apply (held_with_admission s a y me Hu Hme) in Hy as [->|[Hyi Hy]].
    + done.
    + symmetry. by apply Hslot.
    + by apply Hslot.
    + by apply Hd.
Qed.

(** A slot [FreeHost] found is held by no member. *)
Lemma FreeHost_free s o limit h b :
  set_wf s → iteration s o → uint64_range limit → FreeHost s o limit = Ok h → held s b → adm_Host b ≠ h.
Proof.
  intros Hw Ho Hl Hf Hb. unfold FreeHost in Hf.
  destruct (scan_enough (taken o) limit Hl) as ([x|] & E & Hs); rewrite E in Hf; simpl in Hs.
  - injection Hf as ->. intros Eh. apply Hs. apply (elem_of_taken s); [done|].
    exists (adm_Identity b), b. by destruct Hb.
  - destruct (scan_enough (validTaken s o) limit Hl) as ([y|] & E2 & Hs2); rewrite E2 in Hf; [|done].
    injection Hf as ->. intros Eh. apply Hs2. apply (elem_of_validTaken s); [done..|]. by exists b.
Qed.

Lemma chosen_host_free s o limit joiner h :
  set_wf s → iteration s o → uint64_range limit → chosen_host s o limit joiner = Ok h →
  distinct_slots s → ∀ b, held s b → adm_Host b = h → adm_Identity b = joiner.
Proof.
  intros Hw Ho Hl Hc Hd b Hb Hh. unfold chosen_host in Hc.
  destruct (admissions s !! joiner) as [cur|] eqn:E; [destruct (valid s joiner) eqn:Ev|].
  - injection Hc as <-. assert (Hid : adm_Identity cur = joiner) by (by apply (wf_adm s Hw joiner cur)).
    rewrite <-Hid. apply Hd; [done| |done]. split; by rewrite Hid.
  - by destruct (FreeHost_free s o limit h b).
  - by destruct (FreeHost_free s o limit h b).
Qed.

Lemma MaxHost_uint64 p : good_prefix p → uint64_range (MaxHost p).
Proof.
  intros Hp. pose proof (MaxHost_lt p Hp) as HM. unfold uint64_range.
  assert (2 ^ host_bits p ≤ 2 ^ 64); [|lia]. apply Z.pow_le_mono_r; [lia|]. unfold host_bits. lia.
Qed.

(** C21: an admission of a joiner the records have nothing against (it is not
    the root, nor this node, nobody revoked it, and it neither admitted nor
    revoked anybody), while no other record comes in, gives it a name and a slot
    that no other member has: if names and slots were unique among the members
    before, they are after it. If moreover the clock has moved on since any
    admission the joiner already had, the joiner is a member exactly if this
    node was one when it signed, and everybody else stays what it was. *)
Theorem admit_keeps_unique c joiner name now o1 o2 a recs c' :
  set_wf (c_set c) → cache_ok (c_set c) → iteration (c_set c) o1 → iteration (c_set c) o2 →
  good_prefix (c_overlay c) → unknown_joiner (c_set c) (Public (c_id c)) joiner →
  Cluster_admit c joiner name now o1 o2 = (Ok (a, recs), c') →
  (distinct_names (c_set c) → distinct_names (c_set c')) ∧
  (distinct_slots (c_set c) → distinct_slots (c_set c')) ∧
  ((∀ cur, admissions (c_set c) !! joiner = Some cur → adm_IssuedAt cur < now) →
   ∀ id, valid (c_set c') id =
     if decide (id = joiner) then valid_at (c_set c) (Public (c_id c)) now else valid (c_set c) id).
Proof.
  intros Hw Hc H1 H2 Hp Hu Hadm.
  destruct (admit_Ok c joiner name now o1 o2 a recs c' Hc Hadm) as (Hn & (h & Hh & ->) & Hok & Hl & _ & _).
  set (a := Admit (c_id c) joiner name h now) in *.
  destruct (AddAdmission_result _ _ Hok) as [_ [E|[E E2]]]; rewrite E in Hl; simpl in Hl.
  - destruct (unique_with_admission (c_set c) a (Public (c_id c))) as [U1 U2]; [done|done| | |].
    + intros b Hb Ename. destruct (decide (adm_Identity b = joiner)) as [|Hne]; [done|].
      assert (NameTaken (c_set c) o1 name joiner = true); [|congruence].
      apply NameTaken_spec; [done..|]. by exists b.
    + intros Hd b Hb Eh. by eapply (chosen_host_free (c_set c) o2 (MaxHost (c_overlay c)) joiner h);
        [..|exact Hb|exact Eh]; auto using MaxHost_uint64.
    + split_and!.
      * intros Hd x y Hx Hy. apply (lookalike_held _ _ _ Hl) in Hx, Hy. by apply U1.
      * intros Hd x y Hx Hy. apply (lookalike_held _ _ _ Hl) in Hx, Hy. by apply U2.
      * intros _ id. rewrite <-(lookalike_valid _ _ id Hl). destruct Hu as [Hr Hs Hv Hq].
        by apply with_admission_valid.
  - destruct E2 as (cur & Hcur & Hold).
    split_and!.
    + intros Hd x y Hx Hy. apply (lookalike_held _ _ _ Hl) in Hx, Hy. by apply Hd.
    + intros Hd x y Hx Hy. apply (lookalike_held _ _ _ Hl) in Hx, Hy. by apply Hd.
    + intros Hnew id. specialize (Hnew cur Hcur). simpl in Hold. lia.
Qed.

(** What an admission of a joiner this node did not know leaves: a set with its
    record, which is what the joiner is sent and builds its own set from. *)
Lemma admitted_new c joiner name now o1 o2 a recs c' :
  set_wf (c_set c) → cache_ok (c_set c) →
  unknown_joiner (c_set c) (Public (c_id c)) joiner → admissions (c_set c) !! joiner = None →
  Cluster_admit c joiner name now o1 o2 = (Ok (a, recs), c') →
  (∃ h, FreeHost (c_set c) o2 (MaxHost (c_overlay c)) = Ok h ∧ a = Admit (c_id c) joiner name h now) ∧
  let s1 := with_admission (c_set c) a in
  adm_Validate a = Ok () ∧ set_wf s1 ∧ lookalike s1 (c_set c') ∧ recs = Records s1 ∧
  (Merge (NewSet (root (c_set c))) recs).2 = forget s1 ∧
  ∀ id, valid s1 id =
    if decide (id = joiner) then valid_at (c_set c) (Public (c_id c)) now else valid (c_set c) id.
Proof.
  intros Hw Hc Hu Hnone Hadm.
  destruct (admit_Ok c joiner name now o1 o2 a recs c' Hc Hadm) as (_ & (h & Hh & ->) & Hok & Hl & -> & _).
  unfold chosen_host in Hh. rewrite Hnone in Hh.
  set (a := Admit (c_id c) joiner name h now) in *. split; [by exists h|]. intros s1.
  destruct (AddAdmission_result _ _ Hok) as [Hval [E|[_ (cur & Hcur & _)]]];
    [|simpl in Hcur; congruence].
  rewrite E in Hl. simpl in Hl. fold s1 in Hl.
  assert (Hw1 : set_wf s1).
  { pose proof (AddAdmission_wf (c_set c) a Hw) as Hw1. by rewrite E in Hw1. }
  split_and!; [done|done|done|symmetry; by apply lookalike_Records| |].
  - rewrite <-(lookalike_Records _ _ Hl), Merge_deliver. by apply (deliver_own_records s1).
  - intros id. destruct Hu. by apply with_admission_valid.
Qed.

(** What [Cluster_admit] hands to a joiner it did not know stands up to the
    checks [Join] makes of a welcome: the member is a member of the cluster
    its records describe, the admission is its own for the joiner, and makes
    the joiner one. *)
Theorem admit_welcome_holds c joiner name now o1 o2 a recs c' srv :
  set_wf (c_set c) → cache_ok (c_set c) →
  unknown_joiner (c_set c) (Public (c_id c)) joiner → admissions (c_set c) !! joiner = None →
  valid (c_set c) (Public (c_id c)) = true → valid_at (c_set c) (Public (c_id c)) now = true →
  srv_Root srv = root (c_set c) →
  Cluster_admit c joiner name now o1 o2 = (Ok (a, recs), c') →
  welcome_holds (Public (c_id c)) joiner (the_welcome srv a recs).
Proof.
  intros Hw Hc Hu Hnone Hme Hnow Hroot Hadm.
  destruct (admitted_new c joiner name now o1 o2 a recs c' Hw Hc Hu Hnone Hadm)
    as ((h & _ & ->) & Hval & _ & _ & _ & Hset & Hvalid).
  set (a := Admit (c_id c) joiner name h now) in *. set (s1 := with_admission (c_set c) a) in *.
  assert (Hws : welcome_set (the_welcome srv a recs) = forget s1)
    by (unfold welcome_set, the_welcome; simpl; by rewrite Hroot).
  assert (Hvf : ∀ id, valid (forget s1) id = valid s1 id) by (intros id; by apply valid_ext).
  assert (Hadd : AddAdmission (forget s1) a = (Ok false, forget s1)).
  { unfold AddAdmission. rewrite Hval. destruct Hu as [_ Hself _ _].
    rewrite bool_decide_eq_false_2 by done. simpl. by rewrite lookup_insert_eq, Z.leb_refl. }
  unfold welcome_holds. rewrite Hws. simpl w_Admission. rewrite Hadd. simpl.
  rewrite !Hvf, !Hvalid. destruct Hu as [_ Hself _ _].
  rewrite (decide_False (P := Public (c_id c) = joiner)) by done. rewrite decide_True by done. done.
Qed.
End Admitting.

(** ** Nothing learned is lost *)

Section persistence.
Context `{!Ed25519, !Json recordMsg, !Json Meta, !Json trust_Records} (ParseKey : bytes → bool).
Implicit Types (s : TrustSet) (c : Cluster).

(** What can happen to a running node. *)
Inductive cluster_op :=
  | OpAdmit (joiner : PublicKey) (name : bytes) (now : Z) (o1 o2 : order)
  | OpRevoke (id : PublicKey) (now : Z)
  | OpRevokeSelf (now : Z) (sends : list (bytes * bool))
  | OpNotify (msg : bytes)
  | OpMergeRemote (buf : bytes)
  | OpWatch (l : list mlNode) (o : order).

Definition run_cluster_op c (op : cluster_op) : Cluster :=
  match op with
  | OpAdmit j n now o1 o2 => (Cluster_admit c j n now o1 o2).2
  | OpRevoke id now => (Revoke_ c id now).2
  | OpRevokeSelf now sends => (RevokeSelf c now sends).2
  | OpNotify msg => NotifyMsg c msg
  | OpMergeRemote buf => MergeRemoteState c buf
  | OpWatch l o => (watch_round ParseKey c l o).2
  end.

(** The state saved last holds the records the node has now, under its own
    identity and root. *)
Definition saved_fresh c : Prop :=
  ∃ st rest, c_saved c = st :: rest ∧ st_Records st = Records (c_set c) ∧
             st_Seed st = Seed (c_id c) ∧ default zeroKey (st_Root st) = root (c_set c).

Record node_ok c : Prop := {
  nk_wf : set_wf (c_set c);
  nk_cache : cache_ok (c_set c);
  nk_id : b_Identity (c_boot c) = c_id c;
  nk_root : b_Root (c_boot c) = root (c_set c);
  nk_saved : saved_fresh c;
}.

(** What can happen to it, an admission during which memberlist delivers [g]
    included. *)
Inductive node_op :=
  | Whole (op : cluster_op)
  | Admitting (joiner : PublicKey) (name : bytes) (now : Z) (o1 o2 : order) (g : moment → list arrival).

Definition run_node_op c (op : node_op) : Cluster :=
  match op with
  | Whole op => run_cluster_op c op
  | Admitting j n now o1 o2 g => go_on (admit_among c j n now o1 o2 g).2
  end.

(** The fixed parts of a node: all operations leave them alone. *)
Definition same_node c c' : Prop :=
  c_id c' = c_id c ∧ b_Identity (c_boot c') = b_Identity (c_boot c) ∧ b_Root (c_boot c') = b_Root (c_boot c).

Lemma default_root b : default zeroKey (if Enrolled b then Some (b_Root b) else None) = b_Root b.
Proof. unfold Enrolled. by destruct (bool_decide_reflect (b_Root b = zeroKey)) as [->|]. Qed.

Lemma saveState_fresh c :
  b_Identity (c_boot c) = c_id c → b_Root (c_boot c) = root (c_set c) → saved_fresh (saveState c).
Proof.
  intros Hid Hroot. eexists _, _. split; [reflexivity|]. cbn [boot_state st_Records st_Seed st_Root].
  split; [done|]. split; [by simpl; rewrite Hid|].
  etransitivity; [apply default_root|]. exact Hroot.
Qed.

(** A node whose set only changed its cache is as well saved as before. *)
Lemma with_set_fresh c s : lookalike (c_set c) s → saved_fresh c → saved_fresh (with_set c s).
Proof.
  intros Hl (st & rest & E & Hr & Hs & Hroot). exists st, rest. simpl.
  rewrite <-(lookalike_Records _ _ Hl), <-(proj1 Hl). done.
Qed.

Lemma node_ok_with_set c s :
  lookalike (c_set c) s → cache_ok s → node_ok c → node_ok (with_set c s).
Proof.
  intros Hl Hc [Hw _ Hi Hr Hs]. split; simpl; [by eapply lookalike_wf|done|done| |by apply with_set_fresh].
  by rewrite <-(proj1 Hl).
Qed.

(** Saving after a change of the set. *)
Lemma node_ok_saved c :
  set_wf (c_set c) → cache_ok (c_set c) → b_Identity (c_boot c) = c_id c →
  b_Root (c_boot c) = root (c_set c) → node_ok (saveState c).
Proof. intros Hw Hc Hi Hr. split; [done|done|done|done|by apply saveState_fresh]. Qed.

Lemma node_ok_signal c : node_ok c → node_ok (signalChanged c).
Proof. by intros [????]; split. Qed.

Lemma broadcast_fields c m :
  c_set (broadcast c m) = c_set c ∧ c_id (broadcast c m) = c_id c ∧ c_boot (broadcast c m) = c_boot c ∧
  c_saved (broadcast c m) = c_saved c.
Proof. unfold broadcast. by destruct (json_Marshal m). Qed.

Lemma node_ok_broadcast_saved c m s :
  set_wf s → cache_ok s → root s = root (c_set c) → node_ok c →
  node_ok (saveState (broadcast (with_set c s) m)).
Proof.
  intros Hw Hc Hroot [_ _ Hi Hr _]. destruct (broadcast_fields (with_set c s) m) as (E1 & E2 & E3 & _).
  apply node_ok_saved; rewrite ?E1, ?E2, ?E3; simpl; congruence || done.
Qed.

Lemma count_change_mono {A} (add : TrustSet → A → result bool * TrustSet) l acc :
  acc.1 ≤ (foldl (count_change add) acc l).1.
Proof.
  revert acc. induction l as [|x l IH]; intros acc; simpl; [done|].
  etransitivity; [|apply IH]. unfold count_change. destruct (add acc.2 x) as [[[]|] s]; simpl; lia.
Qed.

Lemma count_change_zero {A} (add : TrustSet → A → result bool * TrustSet) l acc :
  (∀ s x, (add s x).1 ≠ Ok true → (add s x).2 = s) →
  (foldl (count_change add) acc l).1 = acc.1 → (foldl (count_change add) acc l).2 = acc.2.
Proof.
  intros Hadd. revert acc. induction l as [|x l IH]; intros acc; simpl; [done|]. intros E.
  pose proof (count_change_mono add l (count_change add acc x)) as Hm.
  assert (Hc : count_change add acc x = acc).
  { unfold count_change in *. destruct (add acc.2 x) as [[[]|] s] eqn:Ea; simpl in *; [lia|..];
      (assert (Hs : (add acc.2 x).2 = acc.2) by (apply Hadd; rewrite Ea; discriminate));
      rewrite Ea in Hs; simpl in Hs; subst; by destruct acc. }
  rewrite Hc in *. by apply IH.
Qed.

(** A merge that counts no change made none. *)
Lemma Merge_zero s rs : (Merge s rs).1 ≤ 0 → (Merge s rs).2 = s.
Proof.
  unfold Merge. intros Hle.
  pose proof (count_change_mono AddAdmission (Admissions rs) (0, s)) as H1.
  pose proof (count_change_mono AddRevocation (Revocations rs)
    (foldl (count_change AddAdmission) (0, s) (Admissions rs))) as H2. simpl in H1.
  rewrite (count_change_zero AddRevocation); [apply (count_change_zero AddAdmission); [|simpl; lia]| |lia].
  - intros t x Hne. by destruct (AddAdmission_cases t x) as [[_ E]|(_ & E & _)]; [rewrite E in Hne|].
  - intros t x Hne. by destruct (AddRevocation_cases t x) as [[_ E]|(_ & E & _)]; [rewrite E in Hne|].
Qed.

Lemma deliver_node_facts s l :
  set_wf s → cache_ok s → set_wf (deliver s l) ∧ cache_ok (deliver s l) ∧ root (deliver s l) = root s.
Proof.
  intros Hw Hc. split_and!; [by apply deliver_wf|by apply deliver_cache_ok|apply deliver_root].
Qed.

(** JSON can encode the records a node makes. *)
Definition encodable : Prop := ∀ m : recordMsg, json_Marshal m ≠ None.

Lemma add_facts s x :
  set_wf s → cache_ok s → set_wf (add_record s x) ∧ cache_ok (add_record s x) ∧ root (add_record s x) = root s.
Proof. intros Hw Hc. by apply (deliver_node_facts s [x]). Qed.

Lemma node_ok_admit c j n now o1 o2 : node_ok c → node_ok (Cluster_admit c j n now o1 o2).2.
Proof.
  intros Hok. pose proof Hok as [Hw Hc _ _ _].
  destruct (admit_unfold c j n now o1 o2 Hc) as (s & Hl & Hcs & ->).
  assert (Hws : set_wf s) by (by eapply lookalike_wf).
  assert (Hs : node_ok (with_set c s)) by (by apply node_ok_with_set).
  destruct (NameTaken _ _ _ _); [done|]. destruct (chosen_host _ _ _ _) as [host|]; [|done]. cbv zeta.
  destruct (add_facts s (RAdm (Admit (c_id c) j n host now)) Hws Hcs) as (W & C & R). simpl in W, C, R.
  destruct (AddAdmission s (Admit (c_id c) j n host now)).1 eqn:E.
  - apply (node_ok_broadcast_saved (with_set c s)); done.
  - assert (E2 : (AddAdmission s (Admit (c_id c) j n host now)).2 = s); [|by rewrite E2].
    destruct (AddAdmission_cases s (Admit (c_id c) j n host now)) as [[_ E3]|(_ & E3 & _)]; [|done].
    by rewrite E3 in E.
Qed.

Lemma node_ok_notify c b : node_ok c → node_ok (NotifyMsg c b).
Proof.
  intros Hok. unfold NotifyMsg. destruct (json_Unmarshal b) as [m|]; [|done].
  pose proof Hok as [Hw Hc _ _ _].
  assert (Hsame : with_set c (c_set c) = c) by (by destruct c).
  destruct (rm_Admission m) as [a|]; [|destruct (rm_Revocation m) as [r|]; [|done]].
  - destruct (add_facts (c_set c) (RAdm a) Hw Hc) as (W & C & R). simpl in W, C, R.
    destruct (AddAdmission_cases (c_set c) a) as [[_ E]|(_ & E & Hne)].
    + rewrite E in *. apply node_ok_signal. by apply node_ok_broadcast_saved.
    + destruct (AddAdmission (c_set c) a) as [[[]|] s]; simpl in *; subst; rewrite ?Hsame; done.
  - destruct (add_facts (c_set c) (RRev r) Hw Hc) as (W & C & R). simpl in W, C, R.
    destruct (AddRevocation_cases (c_set c) r) as [[_ E]|(_ & E & Hne)].
    + rewrite E in *. apply node_ok_signal. by apply node_ok_broadcast_saved.
    + destruct (AddRevocation (c_set c) r) as [[[]|] s]; simpl in *; subst; rewrite ?Hsame; done.
Qed.

Lemma node_ok_revoke c id now : node_ok c → node_ok (Revoke_ c id now).2.
Proof.
  intros Hok. unfold Revoke_. pose proof Hok as [Hw Hc _ _ _].
  destruct (add_facts (c_set c) (RRev (Revoke (c_id c) id now)) Hw Hc) as (W & C & R). simpl in W, C, R.
  destruct (AddRevocation (c_set c) _) as [[ok|] s] eqn:E; simpl in *.
  - apply node_ok_signal. by apply node_ok_broadcast_saved.
  - destruct (AddRevocation_cases (c_set c) (Revoke (c_id c) id now)) as [[_ E2]|(_ & E2 & _)];
      rewrite E in E2; [done|]. simpl in E2. subst. by destruct c.
Qed.

Lemma node_ok_revoke_self c now sends : encodable → node_ok c → node_ok (RevokeSelf c now sends).2.
Proof.
  intros Henc Hok. unfold RevokeSelf. pose proof Hok as [Hw Hc _ _ _].
  destruct (add_facts (c_set c) (RRev (Revoke (c_id c) (Public (c_id c)) now)) Hw Hc) as (W & C & R).
  simpl in W, C, R.
  destruct (AddRevocation (c_set c) _) as [[ok|] s] eqn:E; simpl in *.
  - destruct (json_Marshal _) eqn:Em; [|by destruct (Henc _ Em)].
    by apply node_ok_broadcast_saved.
  - destruct (AddRevocation_cases (c_set c) (Revoke (c_id c) (Public (c_id c)) now)) as [[_ E2]|(_ & E2 & _)];
      rewrite E in E2; [done|]. simpl in E2. subst. by destruct c.
Qed.

Lemma node_ok_merge c buf : node_ok c → node_ok (MergeRemoteState c buf).
Proof.
  intros Hok. unfold MergeRemoteState. destruct (json_Unmarshal buf) as [rs|]; [|done].
  pose proof Hok as [Hw Hc Hi Hr _].
  destruct (deliver_node_facts (c_set c) (records_of rs) Hw Hc) as (W & C & R).
  rewrite <-Merge_deliver in W, C, R. pose proof (Merge_zero (c_set c) rs) as Hz.
  destruct (Merge (c_set c) rs) as [n s]. simpl in *.
  destruct (Z.ltb_spec 0 n).
  - apply node_ok_signal, node_ok_saved; simpl; congruence || done.
  - rewrite Hz by lia. by destruct c.
Qed.

Lemma node_ok_watch c l o : node_ok c → node_ok (watch_round ParseKey c l o).2.
Proof.
  intros Hok. unfold watch_round. pose proof Hok as [Hw Hc Hi Hr Hs].
  destruct (snapshot ParseKey c l o) as [peers c'] eqn:E.
  destruct (snapshot_spec ParseKey c l o peers c' Hc E) as (Hl & Hc' & Ec & _).
  rewrite Ec in *. simpl in *. apply node_ok_saved; simpl; [by eapply lookalike_wf|done|done|].
  by rewrite Hr, (proj1 Hl).
Qed.

Lemma node_ok_run c op : encodable → node_ok c → node_ok (run_cluster_op c op).
Proof.
  intros Henc Hok. destruct op; simpl.
  - by apply node_ok_admit.
  - by apply node_ok_revoke.
  - by apply node_ok_revoke_self.
  - by apply node_ok_notify.
  - by apply node_ok_merge.
  - by apply node_ok_watch.
Qed.

(** *** Deliveries during an admission *)

(** A node whose set may not be saved yet. *)
Record node_base c : Prop := {
  nb_wf : set_wf (c_set c);
  nb_cache : cache_ok (c_set c);
  nb_id : b_Identity (c_boot c) = c_id c;
  nb_root : b_Root (c_boot c) = root (c_set c);
}.

(** It is saved, or will be by those that wait. *)
Definition pending_ok (nc : nat * Cluster) : Prop := node_base nc.2 ∧ (nc.1 = 0%nat → saved_fresh nc.2).

Lemma node_ok_base c : node_ok c ↔ node_base c ∧ saved_fresh c.
Proof. split; [intros []; split; [by split|done]|intros [[] ?]; by split]. Qed.

Lemma node_base_with_set c s :
  set_wf s → cache_ok s → root s = root (c_set c) → node_base c → node_base (with_set c s).
Proof. intros Hw Hc Hr []. split; cbn; congruence || done. Qed.

Lemma node_base_broadcast c m : node_base c → node_base (broadcast c m).
Proof. intros []. destruct (broadcast_fields c m) as (E1 & E2 & E3 & _). by split; rewrite ?E1, ?E2, ?E3. Qed.

Lemma with_set_same c : with_set c (c_set c) = c.
Proof. by destruct c. Qed.

Lemma take_in_base c x : node_base c → node_base (take_in c x).2.
Proof.
  intros Hb. pose proof Hb as [Hw Hc _ _]. destruct x as [m|rs]; cbn.
  - destruct (rm_Admission m) as [a|]; [|destruct (rm_Revocation m) as [r|]].
    + destruct (add_facts (c_set c) (RAdm a) Hw Hc) as (W & C & R). cbn in W, C, R.
      destruct (AddAdmission (c_set c) a) as [[[]|] s]; cbn in *; auto using node_base_broadcast, node_base_with_set.
    + destruct (add_facts (c_set c) (RRev r) Hw Hc) as (W & C & R). cbn in W, C, R.
      destruct (AddRevocation (c_set c) r) as [[[]|] s]; cbn in *; auto using node_base_broadcast, node_base_with_set.
    + by rewrite with_set_same.
  - destruct (deliver_node_facts (c_set c) (records_of rs) Hw Hc) as (W & C & R).
    rewrite <-Merge_deliver in W, C, R. destruct (Merge (c_set c) rs) as [n s]. cbn in *. auto using node_base_with_set.
Qed.

Lemma take_in_unchanged c x : (take_in c x).1 = false → (take_in c x).2 = c.
Proof.
  destruct x as [m|rs]; cbn.
  - destruct (rm_Admission m) as [a|]; [|destruct (rm_Revocation m) as [r|]].
    + destruct (AddAdmission_cases (c_set c) a) as [[_ E]|(_ & E & Hne)]; [by rewrite E|].
      destruct (AddAdmission (c_set c) a) as [[[]|] s]; cbn in *; subst; by rewrite ?with_set_same.
    + destruct (AddRevocation_cases (c_set c) r) as [[_ E]|(_ & E & Hne)]; [by rewrite E|].
      destruct (AddRevocation (c_set c) r) as [[[]|] s]; cbn in *; subst; by rewrite ?with_set_same.
    + intros _. apply with_set_same.
  - pose proof (Merge_zero (c_set c) rs) as Hz. destruct (Merge (c_set c) rs) as [n s]. cbn in *.
    intros ?%Z.ltb_ge. rewrite Hz by done. apply with_set_same.
Qed.

Lemma meanwhile_base nc l : node_base nc.2 → node_base (meanwhile nc l).2.
Proof.
  revert nc. induction l as [|x l IH]; intros nc Hb; [done|]. apply IH. unfold take_in_next.
  pose proof (take_in_base nc.2 x Hb) as Hx. by destruct (take_in nc.2 x) as [[] c].
Qed.

Lemma meanwhile_ok nc l : pending_ok nc → pending_ok (meanwhile nc l).
Proof.
  revert nc. induction l as [|x l IH]; intros nc Hb; [done|]. apply IH. destruct Hb as [Hb Hs]. unfold take_in_next.
  pose proof (take_in_base nc.2 x Hb) as Hx. pose proof (take_in_unchanged nc.2 x) as Hu.
  destruct (take_in nc.2 x) as [[] c]; cbn in *; [by split|]. rewrite Hu by done. by split.
Qed.

Lemma go_on_ok nc : pending_ok nc → node_ok (go_on nc).
Proof.
  destruct nc as [n c]. intros [Hb Hs]. unfold go_on. cbn [fst snd] in *.
  destruct n as [|n]; [by apply node_ok_base; auto|]. clear Hs. revert c Hb.
  assert (Hone : ∀ c, node_base c → node_ok (signalChanged (persist c))).
  { intros c []. by apply node_ok_signal, node_ok_saved. }
  induction n as [|n IH]; intros c Hb; [by apply Hone|].
  cbn [Nat.iter nat_rect]. by apply Hone, (proj1 (node_ok_base _)), IH.
Qed.

Lemma pending_with_set n c s :
  lookalike (c_set c) s → cache_ok s → pending_ok (n, c) → pending_ok (n, with_set c s).
Proof.
  intros Hl Hc [Hb Hs]. cbn [fst snd] in *. split; cbn; [|intros E; by apply with_set_fresh; auto].
  apply node_base_with_set; [|done|by symmetry; apply Hl|done]. eapply lookalike_wf; [done|apply Hb].
Qed.

Lemma free_host_among_ok nc o g : pending_ok nc → pending_ok (free_host_among nc o g).2.
Proof.
  intros Hx. unfold free_host_among. apply (meanwhile_ok _ (g BeforeFreeHost)) in Hx. by destruct (meanwhile nc _).
Qed.

Lemma host_among_ok c j o g : pending_ok (0%nat, c) → pending_ok (host_among c j o g).2.
Proof.
  intros Hx. unfold host_among. apply (meanwhile_ok _ (g BeforeLookup)) in Hx.
  destruct (meanwhile (0%nat, c) _) as [n1 c1]. destruct (Lookup_ _ _) as [cur|]; [|by apply free_host_among_ok].
  apply (meanwhile_ok _ (g BeforeValid)) in Hx. destruct (meanwhile (n1, c1) _) as [n2 c2].
  pose proof (nb_cache _ (proj1 Hx)) as Hc. cbn [snd] in Hc.
  pose proof (Valid_lookalike (c_set c2) j) as Hl. pose proof (Valid_cache_ok (c_set c2) j Hc) as Hc'.
  destruct (Valid (c_set c2) j) as [v s]. cbn in Hl, Hc'.
  apply (pending_with_set _ _ s Hl Hc') in Hx. destruct v; [exact Hx|by apply free_host_among_ok].
Qed.

(** Adding the admission: as it was, or to be saved. *)
Lemma add_base c a : node_base c → node_base (with_set c (AddAdmission (c_set c) a).2).
Proof.
  intros Hb. destruct (add_facts (c_set c) (RAdm a) (nb_wf _ Hb) (nb_cache _ Hb)) as (W & C & R).
  cbn in W, C, R. by apply node_base_with_set.
Qed.

Lemma AddAdmission_Err_same s a e s' : AddAdmission s a = (Err e, s') → s' = s.
Proof. intros E. destruct (AddAdmission_cases s a) as [[_ E2]|(_ & E2 & _)]; rewrite E in E2; [done|exact E2]. Qed.

(** Whatever is delivered while [admit] runs: once those that wait have gone
    on, the node is well formed and saved. *)
Lemma admit_among_ok c j n now o1 o2 g : node_ok c → pending_ok (admit_among c j n now o1 o2 g).2.
Proof.
  intros Hok. unfold admit_among.
  assert (H0 : pending_ok (0%nat, c)) by (apply node_ok_base in Hok as []; by split).
  destruct (NameTaken _ _ _ _); [done|]. apply (host_among_ok _ j o2 g) in H0.
  destruct (host_among c j o2 g) as [[host|e] nc]; [|exact H0].
  apply (meanwhile_ok _ (g BeforeAdd)) in H0. cbn [snd] in H0. destruct (meanwhile nc _) as [n3 c3].
  set (a := Admit (c_id c3) j n host now). pose proof (add_base c3 a (proj1 H0)) as Hb. cbn [snd] in Hb.
  destruct (AddAdmission (c_set c3) a) as [[ok|e] s] eqn:E; cbn [snd] in Hb.
  2: { apply AddAdmission_Err_same in E as ->. by rewrite with_set_same. }
  apply (node_base_broadcast _ (MkRecordMsg (Some a) None)) in Hb.
  apply (meanwhile_base (n3, _) (g BeforeSave)) in Hb.
  destruct (meanwhile (n3, _) (g BeforeSave)) as [n4 c4]. cbn [snd] in Hb.
  assert (Hs : pending_ok (n4, saveState c4)).
  { destruct Hb. assert (Hn : node_ok (saveState c4)) by (by apply node_ok_saved). apply node_ok_base in Hn as []. by split. }
  apply (meanwhile_ok _ (g BeforeRecords)) in Hs. by destruct (meanwhile (n4, saveState c4) _).
Qed.

Lemma node_ok_op c op : encodable → node_ok c → node_ok (run_node_op c op).
Proof.
  intros Henc Hok. destruct op as [op|j n now o1 o2 g]; [by apply node_ok_run|]. by apply go_on_ok, admit_among_ok.
Qed.

Lemma New_ok boot net local o c : New boot net local o = Ok c → node_ok c.
Proof.
  unfold New.
  destruct (deliver_node_facts (NewSet (b_Root boot)) (records_of (b_Records boot)))
    as (W & C & R); [apply NewSet_wf|intros id Hid; set_solver|].
  rewrite <-Merge_deliver in W, C, R. set (s0 := (Merge (NewSet (b_Root boot)) (b_Records boot)).2) in *.
  pose proof (Valid_lookalike s0 (Public (b_Identity boot))) as L1.
  pose proof (Valid_cache_ok s0 (Public (b_Identity boot)) C) as C1.
  destruct (Valid s0 (Public (b_Identity boot))) as [v s1]. simpl in L1, C1.
  destruct (negb v); [done|].
  destruct (assignedAddr_lookalike s1 net (Public (b_Identity boot)) o C1) as [L2 C2].
  destruct (assignedAddr s1 net (Public (b_Identity boot)) o) as [[want|] s2]; [|done]. simpl in L2, C2.
  destruct (negb _); [done|]. intros [= <-].
  apply node_ok_saved; simpl; [|done|done|].
  - eapply lookalike_wf; [exact L2|]. by eapply lookalike_wf.
  - rewrite <-(proj1 L2), <-(proj1 L1). by rewrite R.
Qed.

Lemma run_ops_ok boot net local o c ops :
  encodable → New boot net local o = Ok c → node_ok (foldl run_node_op c ops).
Proof.
  intros Henc Hnew%New_ok. revert c Hnew. induction ops as [|op ops IH]; intros c Hc; simpl; [done|].
  by apply IH, node_ok_op.
Qed.

(** C20: whatever messages, exchanges and requests a running node takes in, also
    while it admits a joiner, the set it holds is well formed: every record is kept under its own identity
    and is signature-valid, nobody but the root has admitted itself, and
    what the set has cached is the answer of the walk. *)
Theorem node_well_formed boot net local o c ops :
  encodable → New boot net local o = Ok c →
  let s := c_set (foldl run_node_op c ops) in
  (∀ k a, admissions s !! k = Some a → adm_Identity a = k ∧ adm_Validate a = Ok () ∧ (adm_Admitter a = adm_Identity a → adm_Identity a = root s)) ∧
  (∀ k r, revocations s !! k = Some r → rev_Identity r = k ∧ rev_Validate r = Ok ()) ∧
  cache_ok s.
Proof.
  intros Henc Hnew s. destruct (run_ops_ok _ _ _ _ _ ops Henc Hnew) as [[Ha Hr] Hc _ _ _].
  split_and!; [|exact Hr|exact Hc]. intros k a E. destruct (Ha k a E) as [H1 H2]. auto.
Qed.

(** C19: whatever happens to a running node, from its start on, messages that
    arrive in the middle of an admission included, once the operations under
    way have ended the state it handed to [boot.save] last rebuilds the record
    set it has: if that save worked, restarting loses no admission and no
    revocation, its own included. *)
Theorem saved_state_is_current boot net local o c ops :
  encodable → New boot net local o = Ok c →
  let c' := foldl run_node_op c ops in
  ∃ st rest, c_saved c' = st :: rest ∧ st_Seed st = Seed (c_id c') ∧
    (Merge (NewSet (default zeroKey (st_Root st))) (st_Records st)).2 = forget (c_set c').
Proof.
  intros Henc Hnew c'. destruct (run_ops_ok _ _ _ _ _ ops Henc Hnew) as [Hw _ _ _ (st & rest & E & Hrec & Hseed & Hroot)].
  exists st, rest. split_and!; [done|done|].
  rewrite Hroot, Hrec, Merge_deliver. by apply deliver_own_records.
Qed.
End persistence.

(** ** Passing records on *)

Section epidemic.
Context `{!Ed25519, !Json recordMsg}.
Implicit Types (s : TrustSet) (c : Cluster).

(** A message whose record the set refuses, or has already. *)
Lemma NotifyMsg_refused c b (m : recordMsg) :
  json_Unmarshal b = Some m →
  match rm_Admission m, rm_Revocation m with
  | Some a, _ => (AddAdmission (c_set c) a).2 = c_set c ∧ (AddAdmission (c_set c) a).1 ≠ Ok true
  | None, Some r => (AddRevocation (c_set c) r).2 = c_set c ∧ (AddRevocation (c_set c) r).1 ≠ Ok true
  | None, None => True
  end →
  NotifyMsg c b = c.
Proof.
  intros Eb Hm. unfold NotifyMsg. rewrite Eb.
  assert (Hsame : with_set c (c_set c) = c) by (by destruct c).
  destruct (rm_Admission m) as [a|]; [|destruct (rm_Revocation m) as [r|]; [|done]]; destruct Hm as [H2 H1].
  - destruct (AddAdmission (c_set c) a) as [[[]|] s]; simpl in *; by subst.
  - destruct (AddRevocation (c_set c) r) as [[[]|] s]; simpl in *; by subst.
Qed.

(** One that is taken in. *)
Lemma NotifyMsg_accepted c b (m : recordMsg) x s :
  json_Unmarshal b = Some m → (rm_Admission m = Some x ∧ AddAdmission (c_set c) x = (Ok true, s) ∨
    ∃ r, rm_Admission m = None ∧ rm_Revocation m = Some r ∧ AddRevocation (c_set c) r = (Ok true, s)) →
  NotifyMsg c b = signalChanged (persist (broadcast (with_set c s) m)).
Proof.
  intros Eb Hm. unfold NotifyMsg. rewrite Eb.
  destruct Hm as [[-> ->]|(r & -> & -> & ->)]; done.
Qed.

Lemma AddAdmission_again s a :
  adm_accepted s a → (AddAdmission (with_admission s a) a).2 = with_admission s a ∧
                     (AddAdmission (with_admission s a) a).1 ≠ Ok true.
Proof.
  intros [Hg _]. destruct (AddAdmission_cases (with_admission s a) a) as [[[_ Hn] _]|(_ & ? & ?)]; [|done].
  specialize (Hn a). simpl in Hn. rewrite lookup_insert_eq in Hn. specialize (Hn eq_refl). lia.
Qed.

Lemma AddRevocation_again s r :
  rev_accepted s r → (AddRevocation (with_revocation s r) r).2 = with_revocation s r ∧
                     (AddRevocation (with_revocation s r) r).1 ≠ Ok true.
Proof.
  intros _. destruct (AddRevocation_cases (with_revocation s r) r) as [[[_ Hn] _]|(_ & ? & ?)]; [|done].
  simpl in Hn. by rewrite lookup_insert_eq in Hn.
Qed.

(** What an accepted message leaves. *)
Lemma passed_on c m s msg :
  json_Marshal m = Some msg →
  (∃ name, c_queue (signalChanged (persist (broadcast (with_set c s) m))) = c_queue c ++ [MkBroadcast name msg]) ∧
  c_set (signalChanged (persist (broadcast (with_set c s) m))) = s.
Proof. intros Em. unfold broadcast. rewrite Em. simpl. split; [by eexists|done]. Qed.

(** A broadcast spreads a record exactly once: a message that changes the
    set is queued again for others, saved and signalled, and one that does not
    (known, older, invalid or undecodable) changes nothing and is not passed
    on, so receiving a message twice is receiving it once. *)
Theorem NotifyMsg_once c b :
  encodable →
  NotifyMsg c b = c ∨
  (∃ (m : recordMsg) msg name, json_Unmarshal b = Some m ∧ json_Marshal m = Some msg ∧
     c_queue (NotifyMsg c b) = c_queue c ++ [MkBroadcast name msg] ∧
     c_changed (NotifyMsg c b) = true ∧ c_set (NotifyMsg c b) ≠ c_set c ∧
     NotifyMsg (NotifyMsg c b) b = NotifyMsg c b).
Proof.
  intros Henc.
  destruct (json_Unmarshal (A := recordMsg) b) as [m|] eqn:Eb; [|left; unfold NotifyMsg; by rewrite Eb].
  destruct (json_Marshal m) as [msg|] eqn:Em; [|by destruct (Henc m Em)].
  assert (Hright : ∀ s, NotifyMsg c b = signalChanged (persist (broadcast (with_set c s) m)) → s ≠ c_set c →
    match rm_Admission m, rm_Revocation m with
    | Some a, _ => (AddAdmission s a).2 = s ∧ (AddAdmission s a).1 ≠ Ok true
    | None, Some r => (AddRevocation s r).2 = s ∧ (AddRevocation s r).1 ≠ Ok true
    | None, None => True
    end →
    ∃ (m' : recordMsg) msg name, Some m = Some m' ∧ json_Marshal m' = Some msg ∧
     c_queue (NotifyMsg c b) = c_queue c ++ [MkBroadcast name msg] ∧
     c_changed (NotifyMsg c b) = true ∧ c_set (NotifyMsg c b) ≠ c_set c ∧
     NotifyMsg (NotifyMsg c b) b = NotifyMsg c b).
  { intros s E Hne Hagain. destruct (passed_on c m s msg Em) as [[name Hname] Hset].
    exists m, msg, name. rewrite E. split_and!; [done|done|done|done|by rewrite Hset|].
    apply (NotifyMsg_refused _ b m Eb). by rewrite Hset. }
  destruct (rm_Admission m) as [a|] eqn:Ea; [|destruct (rm_Revocation m) as [r|] eqn:Er].
  - destruct (AddAdmission_cases (c_set c) a) as [[Hacc E]|(_ & E & Hne)].
    + right. apply (Hright (with_admission (c_set c) a)).
      * apply (NotifyMsg_accepted c b m a _ Eb). by left.
      * intros Es. destruct Hacc as [_ Hnew]. specialize (Hnew a). rewrite <-Es in Hnew. simpl in Hnew.
        rewrite lookup_insert_eq in Hnew. specialize (Hnew eq_refl). lia.
      * by apply AddAdmission_again.
    + left. apply (NotifyMsg_refused c b m Eb). by rewrite Ea.
  - destruct (AddRevocation_cases (c_set c) r) as [[Hacc E]|(_ & E & Hne)].
    + right. apply (Hright (with_revocation (c_set c) r)).
      * apply (NotifyMsg_accepted c b m zeroAdmission _ Eb). right. by exists r.
      * intros Es. destruct Hacc as [_ Hnew]. rewrite <-Es in Hnew. simpl in Hnew.
        by rewrite lookup_insert_eq in Hnew.
      * by apply AddRevocation_again.
    + left. apply (NotifyMsg_refused c b m Eb). by rewrite Ea, Er.
  - left. apply (NotifyMsg_refused c b m Eb). by rewrite Ea, Er.
Qed.
End epidemic.
