(* ===== verification/Gossip.v ===== *)
(** * Gossip: the records of a whole cluster

    Any number of running nodes, each a [Cluster], and what travels between
    them: queued broadcasts and the states of push/pull exchanges, which may be
    lost, repeated, late and out of order, and whatever else a stranger may
    send. Once nodes only exchange what they have, and the state of each has
    reached every other, directly or through others, all hold the same
    records: those that were ever in circulation, as one node would hold them
    that had been given them all. *)

From S2P Require Import Prelude Wire Netip Overlay Encoding Identity Records TrustSet Demo Convergence.
From S2P Require Import Validity Membership Slots Prog Tokens Enrol State Cluster ClusterProps ClusterAdmit.

(** ** Sets that hold the same records *)

Record same_records (s s' : TrustSet) : Prop := { same_forget : forget s = forget s' }.
#[export] Instance set_equiv : Equiv TrustSet := same_records.
#[export] Instance set_equivalence : Equivalence (≡@{TrustSet}).
Proof.
  split.
  - by intros s.
  - by intros s t [H].
  - intros s t u [H1] [H2]. split. congruence.
Qed.

Lemma lookalike_equiv s s' : lookalike s s' ↔ s ≡ s'.
Proof.
  unfold lookalike. split.
  - intros (Hr & Ha & Hv). split. unfold forget. by rewrite Hr, Ha, Hv.
  - intros [H]. unfold forget in H. by injection H.
Qed.

#[export] Instance valid_proper id : Proper ((≡@{TrustSet}) ==> (=)) (λ s, valid s id).
Proof. intros s s' H. by apply lookalike_valid, lookalike_equiv. Qed.
#[export] Instance Records_proper : Proper ((≡@{TrustSet}) ==> (=)) Records.
Proof. intros s s' H. by apply lookalike_Records, lookalike_equiv. Qed.
#[export] Instance root_proper : Proper ((≡@{TrustSet}) ==> (=)) root.
Proof. by intros s s' (H & _)%lookalike_equiv. Qed.

(** Every item of one list is in another. *)
Abbreviation incl l k := (∀ x, x ∈ l → x ∈ k).

Section Sets.
Context {ed : Ed25519}.
Implicit Types (s t : TrustSet) (l k : list record).

#[export] Instance deliver_proper : Proper ((≡@{TrustSet}) ==> (=) ==> (≡)) deliver.
Proof.
  intros s s' [H] l ? <-. split. by rewrite <-(deliver_forget s), H, deliver_forget.
Qed.

#[export] Instance add_record_proper : Proper ((≡@{TrustSet}) ==> (=) ==> (≡)) add_record.
Proof. intros s s' H x ? <-. apply (deliver_proper _ _ H [x] _ eq_refl). Qed.

Lemma elem_of_records s x :
  x ∈ records_of (Records s) ↔
  match x with
  | RAdm a => ∃ id, admissions s !! id = Some a
  | RRev r => ∃ id, revocations s !! id = Some r
  end.
Proof.
  unfold records_of. rewrite elem_of_app, !list_elem_of_fmap. destruct x as [a|r].
  - trans (a ∈ (map_to_list (admissions s)).*2).
    + rewrite <-sorted_adm_perm. naive_solver.
    + rewrite list_elem_of_fmap. setoid_rewrite elem_of_map_to_list'. split; [intros ([id b] & -> & H); by exists id|].
      intros [id H]. by exists (id, a).
  - trans (r ∈ (map_to_list (revocations s)).*2).
    + rewrite <-sorted_rev_perm. naive_solver.
    + rewrite list_elem_of_fmap. setoid_rewrite elem_of_map_to_list'. split; [intros ([id b] & -> & H); by exists id|].
      intros [id H]. by exists (id, r).
Qed.

(** What a set holds after a delivery was in it or in the delivery. *)
Lemma held_before_one s y x :
  x ∈ records_of (Records (add_record s y)) → x ∈ records_of (Records s) ∨ x = y.
Proof.
  rewrite !elem_of_records. destruct y as [b|q]; cbn.
  - destruct (AddAdmission_cases s b) as [[_ ->]|(_ & -> & _)]; [|by left].
    destruct x as [a|r]; cbn; [|by left]. intros [id [[_ ->]|[_ H]]%lookup_insert_Some]; [by right|left; by exists id].
  - destruct (AddRevocation_cases s q) as [[_ ->]|(_ & -> & _)]; [|by left].
    destruct x as [a|r]; cbn; [by left|]. intros [id [[_ ->]|[_ H]]%lookup_insert_Some]; [by right|left; by exists id].
Qed.

Lemma held_before s l x :
  x ∈ records_of (Records (deliver s l)) → x ∈ records_of (Records s) ∨ x ∈ l.
Proof.
  revert s. induction l as [|y l IH]; intros s; cbn; [by left|].
  intros [[H| ->]%held_before_one|H]%IH; [by left|right; left|by right; right].
Qed.

(** Merging the records of a set that was given [k] is being given [k]. *)
Lemma merge_given rt s t l k :
  set_wf t → s ≡ deliver (NewSet rt) l → t ≡ deliver (NewSet rt) k → conflict_free rt (l ++ k) →
  deliver s (records_of (Records t)) ≡ deliver (NewSet rt) (l ++ k).
Proof.
  intros Hw Hs Ht Hc. set (R := records_of (Records t)).
  assert (Hroot : root t = rt) by (rewrite Ht; apply deliver_root).
  assert (Hown : deliver (NewSet rt) R ≡ t).
  { rewrite <-Hroot. unfold R. rewrite deliver_own_records by done. done. }
  assert (HR : incl R k).
  { intros x. unfold R. rewrite Ht. intros [H|H]%held_before; [|done]. by apply elem_of_nil in H. }
  assert (Hc' : conflict_free rt (l ++ R)).
  { apply (conflict_free_sub _ (l ++ k)); [|done]. intros x. rewrite !elem_of_app. naive_solver. }
  rewrite Hs, <-deliver_app.
  rewrite (deliver_perm (NewSet rt) (l ++ R) (R ++ l) (Permutation_app_comm _ _) Hc'), deliver_app, Hown, Ht, <-deliver_app.
  by rewrite (deliver_perm (NewSet rt) (l ++ k) (k ++ l) (Permutation_app_comm _ _) Hc).
Qed.
End Sets.

(** ** What an operation of a node adds *)

Section Learning.
Context {ed : Ed25519} {jm : Json recordMsg} {jmeta : Json Meta} {jr : Json trust_Records} (ParseKey : bytes → bool).
Implicit Types (c : Cluster).

(** The record a broadcast is about. *)
Definition record_of_msg (m : recordMsg) : option record :=
  match rm_Admission m, rm_Revocation m with
  | Some a, _ => Some (RAdm a)
  | None, Some r => Some (RRev r)
  | None, None => None
  end.

(** The records an operation has the node look at, its own included. *)
Definition learned c (op : cluster_op) : list record :=
  match op with
  | OpAdmit joiner name now o1 o2 =>
      match (Cluster_admit c joiner name now o1 o2).1 with Ok (a, _) => [RAdm a] | Err _ => [] end
  | OpRevoke id now => [RRev (Revoke (c_id c) id now)]
  | OpRevokeSelf now _ => [RRev (Revoke (c_id c) (Public (c_id c)) now)]
  | OpNotify msg =>
      match json_Unmarshal (A:=recordMsg) msg with Some m => option_list (record_of_msg m) | None => [] end
  | OpMergeRemote buf =>
      match json_Unmarshal (A:=trust_Records) buf with Some rs => records_of rs | None => [] end
  | OpWatch _ _ => []
  end.

(** Each message of a queue is about one of some records. *)
Definition queue_about (l : list record) (q : list recordBroadcast) : Prop :=
  ∀ b, b ∈ q → ∃ m x, json_Marshal m = Some (bc_msg b) ∧ record_of_msg m = Some x ∧ x ∈ l.

Lemma queue_about_mono l k q : incl l k → queue_about l q → queue_about k q.
Proof. intros Hlk Hq b (m & x & ? & ? & ?)%Hq. exists m, x. auto. Qed.

Lemma queue_about_broadcast l c m x :
  queue_about l (c_queue c) → record_of_msg m = Some x → queue_about (l ++ [x]) (c_queue (broadcast c m)).
Proof.
  intros Hq Hx. unfold broadcast. destruct (json_Marshal m) as [msg|] eqn:Em; cbn.
  - intros b [Hb| ->%list_elem_of_singleton]%elem_of_app; [|exists m, x; set_solver].
    destruct (Hq b Hb) as (m' & x' & ? & ? & ?). exists m', x'. set_solver.
  - apply (queue_about_mono l); [set_solver|done].
Qed.

(** What an operation leaves: the records it had the node look at have been
    delivered, and only these can have been passed on. *)
Definition effect c c' (l : list record) : Prop :=
  c_set c' ≡ deliver (c_set c) l ∧ ∀ k, queue_about k (c_queue c) → queue_about (k ++ l) (c_queue c').

Lemma effect_id c : effect c c [].
Proof. split; [done|]. intros k Hk. by rewrite app_nil_r. Qed.

Lemma effect_none c s : c_set c ≡ s → effect c (with_set c s) [].
Proof. intros H. split; [by symmetry|]. intros k Hk. by rewrite app_nil_r. Qed.

Lemma effect_refused c s x : c_set c ≡ s → add_record s x = s → effect c (with_set c s) [x].
Proof.
  intros H E. split; cbn; [by rewrite H, E|]. intros k. apply queue_about_mono. set_solver.
Qed.

Lemma effect_passed_on c s m x :
  c_set c ≡ s → record_of_msg m = Some x → effect c (saveState (broadcast (with_set c (add_record s x)) m)) [x].
Proof.
  intros H Hx. split.
  - cbn. rewrite (proj1 (broadcast_fields (with_set c (add_record s x)) m)). cbn.
    by rewrite H.
  - intros k Hk. cbn. by apply queue_about_broadcast.
Qed.

Lemma effect_signal c c' l : effect c c' l → effect c (signalChanged c') l.
Proof. done. Qed.

(** A record of one's own making or received: added and passed on, or not. *)
Lemma AddAdmission_add s a : (AddAdmission s a).2 = add_record s (RAdm a).
Proof. done. Qed.
Lemma AddRevocation_add s r : (AddRevocation s r).2 = add_record s (RRev r).
Proof. done. Qed.

Lemma admit_effect c j n now o1 o2 :
  cache_ok (c_set c) → effect c (Cluster_admit c j n now o1 o2).2 (learned c (OpAdmit j n now o1 o2)).
Proof.
  intros Hc. cbn [learned]. destruct (admit_unfold c j n now o1 o2 Hc) as (s & Hl & _ & ->).
  apply lookalike_equiv in Hl. destruct (NameTaken _ _ _ _).
  { apply effect_id. }
  destruct (chosen_host _ _ _ _) as [host|]; [|by apply effect_none]. cbv zeta.
  set (a := Admit (c_id c) j n host now).
  destruct (AddAdmission s a).1 as [ok|] eqn:E1; cbn [fst snd]; rewrite AddAdmission_add.
  - by apply effect_passed_on.
  - replace (add_record s (RAdm a)) with s; [by apply effect_none|].
    destruct (AddAdmission_cases s a) as [[_ E]|(_ & E & _)]; [by rewrite E in E1|done].
Qed.

Lemma effect_set c s l : s ≡ deliver (c_set c) l → effect c (with_set c s) l.
Proof. intros H. split; [done|]. intros k. apply queue_about_mono. set_solver. Qed.

Lemma revoke_effect c id now : effect c (Revoke_ c id now).2 (learned c (OpRevoke id now)).
Proof.
  unfold Revoke_. cbn [learned]. set (r := Revoke (c_id c) id now).
  pose proof (AddRevocation_add (c_set c) r) as Ea.
  destruct (AddRevocation (c_set c) r) as [[ok|] s]; cbn [fst snd] in *; subst s.
  - by apply effect_passed_on.
  - by apply effect_set.
Qed.

Lemma revoke_self_effect c now sends : effect c (RevokeSelf c now sends).2 (learned c (OpRevokeSelf now sends)).
Proof.
  unfold RevokeSelf. cbn [learned]. set (r := Revoke (c_id c) (Public (c_id c)) now).
  pose proof (AddRevocation_add (c_set c) r) as Ea.
  destruct (AddRevocation (c_set c) r) as [[ok|] s]; cbn [fst snd] in *; subst s; [|by apply effect_set].
  destruct (json_Marshal _); [|by apply effect_set].
  by apply (effect_passed_on c).
Qed.

Lemma notify_effect c b : effect c (NotifyMsg c b) (learned c (OpNotify b)).
Proof.
  cbn [learned]. unfold NotifyMsg. destruct (json_Unmarshal b) as [m|].
  2: apply effect_id.
  unfold record_of_msg.
  destruct (rm_Admission m) as [a|] eqn:Ea; [|destruct (rm_Revocation m) as [r|] eqn:Er].
  - pose proof (AddAdmission_add (c_set c) a) as E.
    destruct (AddAdmission (c_set c) a) as [[[]|] s]; cbn [fst snd] in E; subst s; [|by apply effect_set..].
    apply effect_passed_on; [done|]. unfold record_of_msg. by rewrite Ea.
  - pose proof (AddRevocation_add (c_set c) r) as E.
    destruct (AddRevocation (c_set c) r) as [[[]|] s]; cbn [fst snd] in E; subst s; [|by apply effect_set..].
    apply effect_passed_on; [done|]. unfold record_of_msg. by rewrite Ea, Er.
  - apply effect_id.
Qed.

Lemma merge_effect c buf : effect c (MergeRemoteState c buf) (learned c (OpMergeRemote buf)).
Proof.
  cbn [learned]. unfold MergeRemoteState. destruct (json_Unmarshal buf) as [rs|].
  2: apply effect_id.
  pose proof (Merge_deliver (c_set c) rs) as E. destruct (Merge (c_set c) rs) as [n s]. cbn [snd] in E. subst s.
  destruct (0 <? n); by apply effect_set.
Qed.

Lemma watch_effect c l o :
  cache_ok (c_set c) → effect c (watch_round ParseKey c l o).2 (learned c (OpWatch l o)).
Proof.
  intros Hc. cbn [learned]. unfold watch_round. destruct (snapshot ParseKey c l o) as [peers c'] eqn:E.
  destruct (snapshot_spec ParseKey c l o peers c' Hc E) as (Hl & _ & Ec & _). rewrite Ec.
  apply lookalike_equiv in Hl. split; cbn; [by symmetry|]. intros k Hk. by rewrite app_nil_r.
Qed.

Lemma run_effect c op : cache_ok (c_set c) → effect c (run_cluster_op ParseKey c op) (learned c op).
Proof.
  intros Hc. destruct op.
  - by apply admit_effect.
  - apply revoke_effect.
  - apply revoke_self_effect.
  - apply notify_effect.
  - apply merge_effect.
  - by apply watch_effect.
Qed.
End Learning.

(** ** The network *)

Section Network.
Context {ed : Ed25519} {jm : Json recordMsg} {jmeta : Json Meta} {jr : Json trust_Records} (ParseKey : bytes → bool).
Implicit Types (c : Cluster).

(** The nodes, and every state sent for a push/pull, as [LocalState] gave it. *)
Record network := MkNetwork { net_nodes : list Cluster; net_sent : list bytes }.

(** [At]: something a node does, or takes in from whomever. The others are
    exchanges between nodes: a state is sent, is merged by some node, now or
    later or never, and a queued broadcast reaches some node. *)
Inductive net_event :=
  | At (i : nat) (op : cluster_op)
  | SendState (i : nat)
  | TakeState (k j : nat)
  | TakeBroadcast (i k j : nat).

Definition queued (nodes : list Cluster) (i k : nat) : option bytes :=
  match nodes !! i with
  | Some c => bc_msg <$> c_queue c !! k
  | None => None
  end.

Definition net_step (n : network) (ev : net_event) : network :=
  match ev with
  | At i op => MkNetwork (alter (λ c, run_cluster_op ParseKey c op) i (net_nodes n)) (net_sent n)
  | SendState i =>
      match net_nodes n !! i with
      | Some c => MkNetwork (net_nodes n) (net_sent n ++ [default [] (LocalState c)])
      | None => n
      end
  | TakeState k j =>
      match net_sent n !! k with
      | Some buf => MkNetwork (alter (λ c, MergeRemoteState c buf) j (net_nodes n)) (net_sent n)
      | None => n
      end
  | TakeBroadcast i k j =>
      match queued (net_nodes n) i k with
      | Some msg => MkNetwork (alter (λ c, NotifyMsg c msg) j (net_nodes n)) (net_sent n)
      | None => n
      end
  end.
Definition net_run : network → list net_event → network := foldl net_step.

(** The records that come into circulation: made by a node, or taken in from
    outside. *)
Definition brought (n : network) (ev : net_event) : list record :=
  match ev with
  | At i op => match net_nodes n !! i with Some c => learned c op | None => [] end
  | _ => []
  end.
Fixpoint circulating (n : network) (evs : list net_event) : list record :=
  match evs with
  | [] => []
  | ev :: evs => brought n ev ++ circulating (net_step n ev) evs
  end.

(** Nothing new comes up: nodes exchange what they have, and look at it. *)
Definition gossips (ev : net_event) : bool :=
  match ev with
  | At _ (OpWatch _ _) => true
  | At _ _ => false
  | _ => true
  end.

(** Whose state has reached whom, by push/pull alone, and whose is in each
    state sent. *)
Definition reach_step (r : list (list nat) * list (list nat)) (ev : net_event) : list (list nat) * list (list nat) :=
  match ev with
  | SendState i => match r.1 !! i with Some l => (r.1, r.2 ++ [l]) | None => r end
  | TakeState k j => match r.2 !! k with Some l => (alter (λ l', l' ++ l) j r.1, r.2) | None => r end
  | _ => r
  end.
Definition reach_start (nodes sent : nat) : list (list nat) * list (list nat) :=
  ((λ i, [i]) <$> seq 0 nodes, replicate sent []).
Definition reached (nodes sent : nat) (evs : list net_event) : list (list nat) :=
  (foldl reach_step (reach_start nodes sent) evs).1.
(** Every node's state has reached every node. *)
Definition spread (nodes sent : nat) (evs : list net_event) : bool :=
  forallb (λ l, forallb (λ i, bool_decide (i ∈ l)) (seq 0 nodes)) (reached nodes sent evs).

(** What encoding/json does on the messages: encoding never fails, and a
    record whose strings are text is decoded to what it was. *)
Class GossipJson := {
  text_ok : record → Prop;
  msg_encodable : encodable;
  msg_back m x b :
    record_of_msg m = Some x → text_ok x → json_Marshal m = Some b →
    ∃ m', json_Unmarshal b = Some m' ∧ record_of_msg m' = Some x;
  state_back rs :
    (∀ x, x ∈ records_of rs → text_ok x) → ∃ b, json_Marshal rs = Some b ∧ json_Unmarshal b = Some rs;
}.

(** ** What each node has been given, directly or through others *)

Abbreviation givens := (list (list record) * list (list record))%type.

Definition give (l : list record) (j : nat) (g : list (list record)) : list (list record) :=
  alter (λ l', l' ++ l) j g.

Definition given_step (n : network) (g : givens) (ev : net_event) : givens :=
  match ev with
  | At i op => match net_nodes n !! i with Some c => (give (learned c op) i g.1, g.2) | None => g end
  | SendState i => match g.1 !! i with Some l => (g.1, g.2 ++ [l]) | None => g end
  | TakeState k j => match g.2 !! k with Some l => (give l j g.1, g.2) | None => g end
  | TakeBroadcast i k j =>
      match queued (net_nodes n) i k, net_nodes n !! j with
      | Some msg, Some c => (give (learned c (OpNotify msg)) j g.1, g.2)
      | _, _ => g
      end
  end.
Fixpoint given_run (n : network) (g : givens) (evs : list net_event) : givens :=
  match evs with
  | [] => g
  | ev :: evs => given_run (net_step n ev) (given_step n g ev) evs
  end.

Section Invariant.
Context (rt : PublicKey) (U : list record) {js : GossipJson}.
Hypothesis no_conflict : conflict_free rt U.
Hypothesis all_text : ∀ x, x ∈ U → text_ok x.

(** A node holds what it was given, and a state what its sender was. *)
Definition node_given c (l : list record) : Prop :=
  node_ok c ∧ c_set c ≡ deliver (NewSet rt) l ∧ incl l U ∧ queue_about l (c_queue c).
Definition state_given (b : bytes) (l : list record) : Prop :=
  incl l U ∧ ∃ t, set_wf t ∧ t ≡ deliver (NewSet rt) l ∧ json_Unmarshal b = Some (Records t).
Definition net_given (n : network) (g : givens) : Prop :=
  Forall2 node_given (net_nodes n) g.1 ∧ Forall2 state_given (net_sent n) g.2.

Lemma given_op c l op :
  node_given c l → incl (learned c op) U → node_given (run_cluster_op ParseKey c op) (l ++ learned c op).
Proof.
  intros (Hok & Hs & Hl & Hq) Hop. destruct (run_effect ParseKey c op (nk_cache _ Hok)) as [He Hqe]. split_and!.
  - apply node_ok_run; [apply msg_encodable|done].
  - by rewrite He, Hs, deliver_app.
  - set_solver.
  - by apply Hqe.
Qed.

Lemma own_records_given c l : node_given c l → incl (records_of (Records (c_set c))) l.
Proof.
  intros (_ & Hs & _ & _) x. rewrite Hs. intros [H|H]%held_before; [|done]. by apply elem_of_nil in H.
Qed.

Lemma given_sent c l : node_given c l → state_given (default [] (LocalState c)) l.
Proof.
  intros H. pose proof H as (Hok & Hs & Hl & _). split; [done|]. exists (c_set c). split_and!; [apply Hok|done|].
  destruct (state_back (Records (c_set c))) as (b & Hm & Hu).
  { intros x Hx. apply all_text, Hl. by eapply own_records_given. }
  unfold LocalState. by rewrite Hm.
Qed.

Lemma given_taken c l b k : node_given c l → state_given b k → node_given (MergeRemoteState c b) (l ++ k).
Proof.
  intros (Hok & Hs & Hl & Hq) (Hk & t & Hw & Ht & Hb). destruct (merge_effect c b) as [He Hqe].
  cbn [learned] in He, Hqe. rewrite Hb in He, Hqe. split_and!.
  - by apply node_ok_merge.
  - rewrite He. apply merge_given; [done..|]. eapply conflict_free_sub; [|exact no_conflict]. set_solver.
  - set_solver.
  - apply (queue_about_mono (l ++ records_of (Records t))); [|by apply Hqe].
    intros x. rewrite !elem_of_app. intros [?|Hx]; [by left|right]. rewrite Ht in Hx.
    apply held_before in Hx as [Hx|Hx]; [by apply elem_of_nil in Hx|done].
Qed.

Lemma given_broadcast nodes given i k msg c :
  Forall2 node_given nodes given → queued nodes i k = Some msg → incl (learned c (OpNotify msg)) U.
Proof.
  intros Hn. unfold queued. destruct (nodes !! i) as [s|] eqn:Ei; [|done].
  destruct (c_queue s !! k) as [b|] eqn:Ek; [|done]. intros [= <-].
  destruct (Forall2_lookup_l _ _ _ _ _ Hn Ei) as (l & _ & _ & _ & Hl & Hq).
  destruct (Hq b (list_elem_of_lookup_2 _ _ _ Ek)) as (m & x & Hm & Hx & Hin).
  destruct (msg_back m x _ Hx (all_text x (Hl x Hin)) Hm) as (m' & Hu & Hx').
  cbn [learned]. rewrite Hu, Hx'. cbn. intros y ->%list_elem_of_singleton. by apply Hl.
Qed.

Lemma alter_nobody {A} (f : A → A) i (l : list A) : l !! i = None → alter f i l = l.
Proof.
  intros Hi. rewrite <-(list_alter_id id l i) at 2 by done. apply list_alter_ext; [|done].
  intros x Hx. by rewrite Hi in Hx.
Qed.

Lemma net_given_step n g ev :
  net_given n g → incl (brought n ev) U → net_given (net_step n ev) (given_step n g ev).
Proof.
  intros [Hn Hs] Hb. destruct ev as [i op|i|k j|i k j]; cbn in Hb |- *.
  - destruct (net_nodes n !! i) as [c|] eqn:Ei.
    + split; [|done]. apply Forall2_alter; [done|]. intros c' l Hc' _ H. rewrite Ei in Hc'. injection Hc' as <-.
      by apply given_op.
    + split; [|done]. cbn. by rewrite (alter_nobody _ _ _ Ei).
  - destruct (net_nodes n !! i) as [c|] eqn:Ei.
    + destruct (Forall2_lookup_l _ _ _ _ _ Hn Ei) as (l & -> & H). split; [done|].
      apply Forall2_app; [done|]. constructor; [by apply given_sent|constructor].
    + destruct (g.1 !! i) as [l|] eqn:El; [|done].
      destruct (Forall2_lookup_r _ _ _ _ _ Hn El) as (c & ? & _). congruence.
  - destruct (net_sent n !! k) as [b|] eqn:Ek.
    + destruct (Forall2_lookup_l _ _ _ _ _ Hs Ek) as (l & -> & H). split; [|done].
      apply Forall2_alter; [done|]. intros c l' _ _ Hc. by apply given_taken.
    + destruct (g.2 !! k) as [l|] eqn:El; [|done].
      destruct (Forall2_lookup_r _ _ _ _ _ Hs El) as (b & ? & _). congruence.
  - destruct (queued (net_nodes n) i k) as [msg|] eqn:Eq; [|done].
    pose proof (λ c, given_broadcast _ _ _ _ msg c Hn Eq) as Hm.
    destruct (net_nodes n !! j) as [c|] eqn:Ej; (split; [|done]).
    + apply Forall2_alter; [done|]. intros c' l Hc' _ H. rewrite Ej in Hc'. injection Hc' as <-.
      apply (given_op c l (OpNotify msg)); [done|apply Hm].
    + cbn. by rewrite (alter_nobody _ _ _ Ej).
Qed.

Lemma net_given_run n g evs :
  net_given n g → incl (circulating n evs) U → net_given (net_run n evs) (given_run n g evs).
Proof.
  revert n g. induction evs as [|ev evs IH]; intros n g H HU; [done|]. cbn in HU |- *.
  apply IH; [apply net_given_step; [done|]|]; intros x Hx; apply HU; set_solver.
Qed.
End Invariant.

(** ** Nothing that was given is lost, and gossip spreads it *)

(** Every node has at least what it had. *)
Definition grows (l k : list (list record)) : Prop := Forall2 (λ l k, incl l k) l k.

Lemma grows_refl l : grows l l.
Proof. by induction l; constructor. Qed.
Lemma grows_trans l k h : grows l k → grows k h → grows l h.
Proof.
  intros H. revert h. induction H as [|x y l k Hxy H IH]; intros h Hh; inversion Hh as [|? z ? h' Hyz Hh']; subst;
    constructor; [auto|by apply IH].
Qed.
Lemma grows_give l j g : grows g (give l j g).
Proof.
  unfold grows, give. revert j. induction g as [|k g IH]; intros [|j]; try by constructor.
  constructor; [set_solver|apply grows_refl].
Qed.
Lemma grows_step n g ev : grows g.1 (given_step n g ev).1.
Proof. destruct ev; cbn; repeat case_match; cbn; apply grows_refl || apply grows_give. Qed.
Lemma grows_run n g evs : grows g.1 (given_run n g evs).1.
Proof.
  revert n g. induction evs as [|ev evs IH]; intros n g; cbn; [apply grows_refl|].
  eapply grows_trans; [apply (grows_step n g ev)|apply IH].
Qed.

(** Some node has a record. *)
Definition somewhere (x : record) (g : list (list record)) : Prop := ∃ l, l ∈ g ∧ x ∈ l.

Lemma somewhere_grows x g h : grows g h → somewhere x g → somewhere x h.
Proof.
  intros Hg (l & Hl & Hx). apply list_elem_of_lookup in Hl as [i Hi].
  destruct (Forall2_lookup_l _ _ _ _ _ Hg Hi) as (k & Hk & Hlk). exists k.
  split; [by eapply list_elem_of_lookup_2|auto].
Qed.

Lemma brought_somewhere n g ev x :
  length g.1 = length (net_nodes n) → x ∈ brought n ev → somewhere x (given_step n g ev).1.
Proof.
  intros Hlen. destruct ev as [i op| | |]; cbn; try (by intros ?%elem_of_nil).
  destruct (net_nodes n !! i) as [c|] eqn:Ei; [|by intros ?%elem_of_nil]. intros Hx. cbn.
  destruct (lookup_lt_is_Some_2 g.1 i) as [l Hl]; [rewrite Hlen; by eapply lookup_lt_Some|].
  exists (l ++ learned c op). split; [|set_solver]. apply (list_elem_of_lookup_2 _ i).
  unfold give. by rewrite list_lookup_alter_eq, Hl.
Qed.

Lemma given_length n g ev : length (given_step n g ev).1 = length g.1.
Proof. symmetry. eapply Forall2_length, grows_step. Qed.
Lemma net_length n ev : length (net_nodes (net_step n ev)) = length (net_nodes n).
Proof. destruct ev; cbn; repeat case_match; cbn; by rewrite ?length_alter. Qed.

Lemma circulating_somewhere n g evs x :
  length g.1 = length (net_nodes n) → x ∈ circulating n evs → somewhere x (given_run n g evs).1.
Proof.
  revert n g. induction evs as [|ev evs IH]; intros n g Hlen; cbn; [by intros ?%elem_of_nil|].
  intros [Hx|Hx]%elem_of_app.
  - eapply somewhere_grows; [apply grows_run|]. by apply brought_somewhere.
  - apply IH; [|done]. by rewrite given_length, net_length.
Qed.

(** What [reached] says of the records. *)
Definition carries (start : list (list record)) (r : list nat) (l : list record) : Prop :=
  ∀ i k, i ∈ r → start !! i = Some k → incl k l.

Lemma carries_app start r1 r2 l1 l2 :
  carries start r1 l1 → carries start r2 l2 → carries start (r1 ++ r2) (l1 ++ l2).
Proof. intros H1 H2 i k [Hi|Hi]%elem_of_app Hk x Hx; apply elem_of_app; [left; by eapply H1|right; by eapply H2]. Qed.
Lemma carries_more start r l k : carries start r l → carries start r (l ++ k).
Proof. intros H i k' Hi Hk x Hx. apply elem_of_app. left. by eapply H. Qed.

Lemma reach_carries start n g r ev :
  Forall2 (carries start) r.1 g.1 → Forall2 (carries start) r.2 g.2 →
  Forall2 (carries start) (reach_step r ev).1 (given_step n g ev).1 ∧
  Forall2 (carries start) (reach_step r ev).2 (given_step n g ev).2.
Proof.
  intros H1 H2.
  assert (Hgive : ∀ j l, Forall2 (carries start) r.1 (give l j g.1)).
  { intros j l. rewrite <-(list_alter_id id r.1 j) by done. apply Forall2_alter; [done|].
    intros rl l' _ _. apply carries_more. }
  destruct ev as [i op|i|k j|i k j]; cbn.
  - destruct (net_nodes n !! i); [|done]. by split; [apply Hgive|].
  - destruct (r.1 !! i) as [rl|] eqn:Er.
    + destruct (Forall2_lookup_l _ _ _ _ _ H1 Er) as (l & -> & H). split; [done|]. cbn.
      apply Forall2_app; [done|]. by repeat constructor.
    + destruct (g.1 !! i) as [l|] eqn:El; [|done].
      destruct (Forall2_lookup_r _ _ _ _ _ H1 El) as (rl & ? & _). congruence.
  - destruct (r.2 !! k) as [rl|] eqn:Er.
    + destruct (Forall2_lookup_l _ _ _ _ _ H2 Er) as (l & -> & H). split; [|done].
      apply Forall2_alter; [done|]. intros r' l' _ _ H'. by apply carries_app.
    + destruct (g.2 !! k) as [l|] eqn:El; [|done].
      destruct (Forall2_lookup_r _ _ _ _ _ H2 El) as (rl & ? & _). congruence.
  - destruct (queued (net_nodes n) i k), (net_nodes n !! j); try done. by split; [apply Hgive|].
Qed.

Lemma reached_carries start n g r evs :
  Forall2 (carries start) r.1 g.1 → Forall2 (carries start) r.2 g.2 →
  Forall2 (carries start) (foldl reach_step r evs).1 (given_run n g evs).1.
Proof.
  revert n g r. induction evs as [|ev evs IH]; intros n g r H1 H2; cbn; [done|].
  destruct (reach_carries start n g r ev H1 H2) as [H1' H2']. by apply IH.
Qed.

(** ** A cluster's start *)

(** A node as [New] starts it, in a cluster with a given root. *)
Definition started_in (rt : PublicKey) c : Prop :=
  ∃ boot net local o, New boot net local o = Ok c ∧ b_Root boot = rt.
Definition own_records c : list record := records_of (Records (c_set c)).

Lemma New_fields boot net local o c :
  New boot net local o = Ok c → root (c_set c) = b_Root boot ∧ c_queue c = [] ∧ c_id c = b_Identity boot.
Proof.
  intros H. pose proof (nk_root _ (New_ok _ _ _ _ _ H)) as Hr. revert H. unfold New.
  destruct (Valid _ _) as [v s]. destruct v; cbn [negb]; [|done].
  destruct (assignedAddr s net (Public (b_Identity boot)) o) as [[want|] s']; [|done].
  destruct (negb _); [done|]. intros [= <-]. split_and!; [by rewrite <-Hr|done|done].
Qed.

Lemma started_given rt U c :
  started_in rt c → incl (own_records c) U → node_given rt U c (own_records c).
Proof.
  intros (boot & net & local & o & H & <-) HU. pose proof (New_ok _ _ _ _ _ H) as Hok.
  destruct (New_fields _ _ _ _ _ H) as (Hr & Hq & _). split_and!; [done| |done|].
  - rewrite <-Hr. unfold own_records. rewrite deliver_own_records by apply Hok. done.
  - rewrite Hq. by intros b ?%elem_of_nil.
Qed.

Lemma Forall2_same {A B} (P : A → B → Prop) (f : A → B) l : (∀ x, x ∈ l → P x (f x)) → Forall2 P l (f <$> l).
Proof. intros H. induction l as [|x l IH]; cbn; constructor; [apply H; by left|apply IH; intros y Hy; apply H; by right]. Qed.

(** Quiet steps bring nothing into circulation. *)
Lemma gossips_brought n ev : gossips ev = true → brought n ev = [].
Proof. destruct ev as [i []| | |]; cbn; try done. by destruct (net_nodes n !! i). Qed.
Lemma gossips_circulating n evs : forallb gossips evs = true → circulating n evs = [].
Proof.
  revert n. induction evs as [|ev evs IH]; intros n; cbn; [done|]. intros [H1 H2]%andb_true_iff.
  by rewrite gossips_brought, IH.
Qed.

Lemma given_run_app n g evs1 evs2 :
  given_run n g (evs1 ++ evs2) = given_run (net_run n evs1) (given_run n g evs1) evs2.
Proof. revert n g. induction evs1 as [|ev evs IH]; intros n g; cbn; [done|]. apply IH. Qed.

Lemma net_run_length n evs : length (net_nodes (net_run n evs)) = length (net_nodes n).
Proof. revert n. induction evs as [|ev evs IH]; intros n; cbn; [done|]. by rewrite IH, net_length. Qed.

Lemma spread_all nodes sent evs l i :
  spread nodes sent evs = true → l ∈ reached nodes sent evs → (i < nodes)%nat → i ∈ l.
Proof.
  unfold spread. rewrite forallb_forall. intros H Hl Hi. apply list_elem_of_In in Hl. specialize (H l Hl).
  rewrite forallb_forall in H. apply (bool_decide_eq_true_1 (i ∈ l)). apply H, list_elem_of_In, elem_of_seq. lia.
Qed.

(** Where gossip has spread every node's state, every node has been given
    whatever some node had been given before. *)
Lemma spread_everywhere n g evs x l :
  length g.1 = length (net_nodes n) → length g.2 = length (net_sent n) →
  spread (length (net_nodes n)) (length (net_sent n)) evs = true →
  somewhere x g.1 → l ∈ (given_run n g evs).1 → x ∈ l.
Proof.
  intros Hl1 Hl2 Hsp (k & Hk & Hx) Hl.
  assert (H : Forall2 (carries g.1) (reached (length (net_nodes n)) (length (net_sent n)) evs) (given_run n g evs).1).
  { apply reached_carries; cbn.
    - rewrite <-Hl1. apply Forall2_lookup. intros i. rewrite list_lookup_fmap.
      destruct (g.1 !! i) as [h|] eqn:Ei.
      + rewrite lookup_seq_lt by (by eapply lookup_lt_Some). constructor.
        intros j h' ->%list_elem_of_singleton. cbn. rewrite Ei. by intros [= ->].
      + rewrite lookup_seq_ge by (by apply lookup_ge_None). constructor.
    - rewrite <-Hl2. clear. induction g.2; constructor; [by intros i k ?%elem_of_nil|done]. }
  apply list_elem_of_lookup in Hl as [j Hj]. destruct (Forall2_lookup_r _ _ _ _ _ H Hj) as (r & Hr & Hc).
  apply list_elem_of_lookup in Hk as [i Hi]. apply (Hc i k); [|done..].
  eapply spread_all; [exact Hsp|by eapply list_elem_of_lookup_2|]. rewrite <-Hl1. by eapply lookup_lt_Some.
Qed.

(** C9: nodes of one cluster run, admit, revoke, take in what anybody sends
    them, and exchange states and broadcasts, late, repeatedly or never. When
    from some point on they only gossip, and since then the state of each has
    reached every other, by exchanges through any others, then every node has
    the records, and accepts the members, that one set has which is given
    everything that ever came into circulation, as long as no two of these
    records are valid, different and compete for one place. *)
Theorem gossip_converges {js : GossipJson} rt nodes evs1 evs2 :
  let mid := net_run (MkNetwork nodes []) evs1 in
  let all := (nodes ≫= own_records) ++ circulating (MkNetwork nodes []) evs1 in
  Forall (started_in rt) nodes → conflict_free rt all → (∀ x, x ∈ all → text_ok x) →
  forallb gossips evs2 = true → spread (length nodes) (length (net_sent mid)) evs2 = true →
  Forall (λ c, Records (c_set c) = Records (deliver (NewSet rt) all) ∧
    ∀ id, valid (c_set c) id = valid (deliver (NewSet rt) all) id) (net_nodes (net_run mid evs2)).
Proof.
  intros mid all Hst Hcf Htext Hq Hsp.
  set (n0 := MkNetwork nodes []). set (g0 := (own_records <$> nodes, [] : list (list record)) : givens).
  assert (H0 : net_given rt all n0 g0).
  { split; [|constructor]. apply Forall2_same. intros c Hc. rewrite Forall_forall in Hst.
    apply started_given; [by apply Hst|]. intros x Hx. apply elem_of_app. left. by apply list_elem_of_bind; exists c. }
  pose proof (net_given_run rt all Hcf Htext n0 g0 evs1 H0) as H1. specialize (H1 ltac:(set_solver)).
  fold mid in H1. set (g1 := given_run n0 g0 evs1) in *.
  pose proof (net_given_run rt all Hcf Htext mid g1 evs2 H1) as H2.
  rewrite gossips_circulating in H2 by done. specialize (H2 ltac:(by intros x ?%elem_of_nil)).
  pose proof (Forall2_length _ _ _ (proj1 H1)) as Hl1. pose proof (Forall2_length _ _ _ (proj2 H1)) as Hl2.
  assert (Hhad : ∀ x, x ∈ all → somewhere x g1.1).
  { intros x [Hx|Hx]%elem_of_app.
    - apply (somewhere_grows x g0.1); [apply grows_run|]. apply list_elem_of_bind in Hx as (c & Hx & Hc).
      exists (own_records c). split; [by apply list_elem_of_fmap_2|done].
    - apply circulating_somewhere; [|done]. cbn. by rewrite length_fmap. }
  apply Forall_forall. intros c Hc. apply list_elem_of_lookup in Hc as [i Hi].
  destruct (Forall2_lookup_l _ _ _ _ _ (proj1 H2) Hi) as (l & Hl & _ & Hs & Hsub & _).
  assert (E : deliver (NewSet rt) l = deliver (NewSet rt) all).
  { symmetry. apply deliver_convergent; [done|]. intros x. split; [|apply Hsub]. intros Hx.
    apply (spread_everywhere mid g1 evs2 x l); [done|done| |by apply Hhad|by eapply list_elem_of_lookup_2].
    replace (length (net_nodes mid)) with (length nodes) by (unfold mid; by rewrite net_run_length). done. }
  rewrite E in Hs. split; [by rewrite Hs|]. intros id. by rewrite (valid_proper id _ _ Hs).
Qed.
End Network.
