(* ===== verification/GossipDemo.v ===== *)
(** * GossipDemo: a cluster of two nodes that gossips

    [ann] and [bob] run; [bob]'s saved records are those of the whole cluster,
    [ann]'s the first two; [ann] revokes [dan], and then they exchange states. *)

From S2P Require Import Prelude Wire Netip Overlay Encoding Identity Records TrustSet Demo Convergence.
From S2P Require Import Validity Enrol State Cluster ClusterProps ClusterAdmit Gossip.

#[local] Existing Instance Toy.toy.

(** ** A codec for anything countable *)

Module ToyJson.
Fixpoint pos_bytes (p : positive) : bytes :=
  match p with
  | xH => []
  | xO p => Byte.x00 :: pos_bytes p
  | xI p => Byte.x01 :: pos_bytes p
  end.
Fixpoint bytes_pos (b : bytes) : positive :=
  match b with
  | [] => xH
  | c :: b => if decide (c = Byte.x00) then xO (bytes_pos b) else xI (bytes_pos b)
  end.
Lemma bytes_pos_bytes p : bytes_pos (pos_bytes p) = p.
Proof. induction p as [p IH|p IH|]; cbn; by rewrite ?IH. Qed.

Definition codec (A : Type) `{Countable A} : Json A := {|
  json_Marshal v := Some (pos_bytes (encode v));
  json_Unmarshal b := decode (bytes_pos b);
|}.

#[export] Instance Admission_countable : Countable Admission.
Proof.
  refine (inj_countable'
    (λ a, (adm_Identity a, adm_Name a, adm_Host a, adm_Admitter a, adm_IssuedAt a, adm_Signature a))
    (λ t, let '(i, n, h, ad, t, s) := t in MkAdmission i n h ad t s) _).
  by intros [].
Defined.
#[export] Instance Revocation_countable : Countable Revocation.
Proof.
  refine (inj_countable'
    (λ r, (rev_Identity r, rev_Revoker r, rev_IssuedAt r, rev_Signature r))
    (λ t, let '(i, b, t, s) := t in MkRevocation i b t s) _).
  by intros [].
Defined.
#[export] Instance recordMsg_eq_dec : EqDecision recordMsg.
Proof. solve_decision. Defined.
#[export] Instance recordMsg_countable : Countable recordMsg.
Proof.
  refine (inj_countable' (λ m, (rm_Admission m, rm_Revocation m)) (λ t, MkRecordMsg t.1 t.2) _). by intros [].
Defined.
#[export] Instance Records_eq_dec : EqDecision trust_Records.
Proof. solve_decision. Defined.
#[export] Instance Records_countable : Countable trust_Records.
Proof.
  refine (inj_countable' (λ m, (Admissions m, Revocations m)) (λ t, MkRecords t.1 t.2) _). by intros [].
Defined.

#[export] Instance json_msg : Json recordMsg := codec recordMsg.
#[export] Instance json_records : Json trust_Records := codec trust_Records.
#[export] Instance json_meta : Json Meta := {| json_Marshal _ := None; json_Unmarshal _ := None |}.

Lemma codec_back {A} `{Countable A} (v : A) : json_Unmarshal (Json := codec A) (pos_bytes (encode v)) = Some v.
Proof. cbn. by rewrite bytes_pos_bytes, decode_encode. Qed.

#[export] Instance gossip_json : GossipJson.
Proof.
  unshelve esplit; [exact (λ _, True)|..].
  - intros m. done.
  - intros m x b Hx _ [= <-]. exists m. split; [apply codec_back|done].
  - intros rs _. eexists. split; [done|apply codec_back].
Defined.
End ToyJson.
#[local] Existing Instance ToyJson.json_msg.
#[local] Existing Instance ToyJson.json_records.
#[local] Existing Instance ToyJson.json_meta.
#[local] Existing Instance ToyJson.gossip_json.

Definition any_key (b : bytes) : bool := true.
Definition ten : Prefix := MkPrefix (A4 167772160) 8.
Definition start_node (id : Identity) (name : bytes) (addr : Z) (recs : trust_Records) : result Cluster :=
  New (MkBootstrap id (key ann) ten recs []) ten
    (MkNode name (A4 addr) 7946 (MkMeta (A4 addr) (str "wg") [] (Public id) [])) (map_to_list (admissions cluster)).
Definition ann_starts : result Cluster :=
  start_node ann (str "ann") 167772161 (Records (deliver empty_set [RAdm adm_ann; RAdm adm_bob])).
Definition bob_starts : result Cluster := start_node bob (str "bob") 167772162 (Records cluster).

Example they_start : is_ok ann_starts = true ∧ is_ok bob_starts = true.
Proof. split; vm_compute; reflexivity. Qed.

Definition ann_revokes : list net_event := [At 0 (OpRevoke (key dan) 110)].
(** Each takes the other's state; the broadcast comes as well, late. *)
Definition they_talk : list net_event :=
  [SendState 0; SendState 1; TakeState 1 0; TakeState 0 1; TakeBroadcast 0 0 1].

Lemma start_root id name addr recs c :
  start_node id name addr recs = Ok c → started_in (key ann) c.
Proof. intros H. by eexists _, _, _, _. Qed.

Definition ann_first : list record := records_of (Records (deliver empty_set [RAdm adm_ann; RAdm adm_bob])).
Definition bob_first : list record := records_of (Records cluster).
Definition everything : list record := ann_first ++ bob_first ++ [RRev (Revoke ann (key dan) 110)].

Lemma ann_holds : match ann_starts with Ok c => own_records c | Err _ => [] end = ann_first.
Proof. vm_compute. reflexivity. Qed.
Lemma bob_holds : match bob_starts with Ok c => own_records c | Err _ => [] end = bob_first.
Proof. vm_compute. reflexivity. Qed.
Lemma nothing_conflicts : conflict_free (key ann) everything.
Proof. apply conflict_free_b_ok. vm_compute. reflexivity. Qed.
Lemma they_agree :
  valid (deliver (NewSet (key ann)) everything) (key dan) = false ∧
  valid (deliver (NewSet (key ann)) everything) (key cat) = true.
Proof. split; vm_compute; reflexivity. Qed.

(** Both come to know that [dan] is out, and that [cat] is in. *)
Lemma gossip_converges_witness :
  ∃ ann_runs bob_runs, ann_starts = Ok ann_runs ∧ bob_starts = Ok bob_runs ∧
    Forall (λ c, valid (c_set c) (key dan) = false ∧ valid (c_set c) (key cat) = true)
      (net_nodes (net_run any_key (net_run any_key (MkNetwork [ann_runs; bob_runs] []) ann_revokes) they_talk)).
Proof.
  destruct (proj1 (is_ok_true _) (proj1 they_start)) as [ca Ea], (proj1 (is_ok_true _) (proj2 they_start)) as [cb Eb]. exists ca, cb. split_and!; [done|done|].
  assert (Hi : c_id ca = ann).
  { pose proof Ea as E. unfold ann_starts, start_node in E. by apply New_fields in E as (_ & _ & ->). }
  assert (Ha : own_records ca = ann_first) by (pose proof ann_holds as H; by rewrite Ea in H).
  assert (Hb : own_records cb = bob_first) by (pose proof bob_holds as H; by rewrite Eb in H).
  assert (Eall : ([ca; cb] ≫= own_records) ++ circulating any_key (MkNetwork [ca; cb] []) ann_revokes = everything).
  { change ([ca; cb] ≫= own_records) with (own_records ca ++ own_records cb ++ []).
    change (circulating any_key (MkNetwork [ca; cb] []) ann_revokes)
      with ([RRev (Revoke (c_id ca) (key dan) 110)] ++ []).
    by rewrite Hi, Ha, Hb, !app_nil_r, <-app_assoc. }
  pose proof (gossip_converges any_key (key ann) [ca; cb] ann_revokes they_talk) as H.
  cbv zeta in H. rewrite Eall in H.
  apply (Forall_impl _ _ _ (H ltac:(repeat constructor; by eapply start_root) nothing_conflicts (λ _ _, I) eq_refl eq_refl)).
  intros c [_ Hv]. rewrite !Hv. exact they_agree.
Defined.
