(* ===== verification/Joining.v ===== *)
(** * Joining: from a token to a verified peer (internal/enrol, internal/cluster, internal/cli/agent.go)

    The parts of the development put together the way a node joins: the
    enrolment exchange with a member whose answers are those of its cluster,
    the bootstrap made of the welcome, the slot and address taken from it, the
    start of the joiner's own cluster, and the member's check of the metadata
    the joiner then gossips. *)

From S2P Require Import Prelude Wire Netip Overlay Encoding Identity Records TrustSet Demo Convergence.
From S2P Require Import Validity Membership Slots Prog Tokens Enrol EnrolRun State GoNet Cluster ClusterProps ClusterAdmit.

(** [enrol.Server] as [New] fills it in, for a transport on [port]. *)
Definition enrolSrv (c : Cluster) (advertise : Addr) (port : Z) : Server :=
  MkServer (c_id c) (b_Root (c_boot c)) (JoinHostPort (Addr_String advertise) (Itoa port)) true (c_overlay c).

Section Joining.
Context {ed : Ed25519} {ed_ok : Ed25519Ok} {sha : Sha256} {kdf : Kdf}.
Context {jm : Json recordMsg} {jmeta : Json Meta} {jr : Json trust_Records}.
Context {jh : Json hello} {jc : Json challenge} {jp : Json proof_msg} {ja : Json ack} {jw : Json Welcome}.
Context (ParseKey : bytes → bool).
Implicit Types (s : TrustSet) (c : Cluster).

(** The member during one exchange: its tokens, its records and its
    [Cluster.admit]. *)
Definition member_side c (tokens : gmap tokenID token) (now : Z) (nonce : bytes) (o1 o2 : order) : side :=
  MkSide [] [] tokens now nonce (Records (c_set c)) (λ joiner name, (Cluster_admit c joiner name now o1 o2).1).

(** The joiner, which serves nobody. *)
Definition joiner_side (now : Z) (nonce : bytes) : side :=
  MkSide [] [] ∅ now nonce (MkRecords [] []) (λ _ _, Err "not a member").

(** ** The joiner's slot *)

Lemma find_host_Records s k a :
  set_wf s → admissions s !! k = Some a → find_host k (Admissions (Records s)) = Ok (adm_Host a).
Proof.
  intros Hw Ha. pose proof (set_wf_keys s Hw) as [Ka _].
  destruct (keyed_values _ _ _ Ka (sorted_adm_perm s)) as (_ & _ & La).
  assert (Hin : a ∈ Admissions (Records s)).
  { rewrite sorted_adm_perm. apply list_elem_of_fmap. exists (k, a). split; [done|]. by apply elem_of_map_to_list. }
  assert (Hk : adm_Identity a = k) by (by apply (wf_adm s Hw k a)).
  induction (Admissions (Records s)) as [|b l IH]; [by apply elem_of_nil in Hin|]. simpl.
  case_decide as Hb.
  - specialize (La b ltac:(left)). rewrite Hb in La. congruence.
  - apply elem_of_cons in Hin as [->|Hin]; [done|]. apply IH; [|done]. intros v Hv. apply La. by right.
Qed.

Lemma FreeHost_range s o limit h : uint64_range limit → FreeHost s o limit = Ok h → 1 ≤ h ≤ limit.
Proof.
  intros Hl. unfold FreeHost.
  destruct (scan_enough (taken o) limit Hl) as ([x|] & E & Hs); rewrite E; simpl in Hs.
  - intros [= <-]. destruct Hs. lia.
  - destruct (scan_enough (validTaken s o) limit Hl) as ([x|] & E2 & Hs2); rewrite E2; simpl in Hs2; [|done].
    intros [= <-]. destruct Hs2. lia.
Qed.

(** Whoever has been given a slot no other member holds is assigned its
    address. *)
Lemma assigned_alone s p o a addr :
  set_wf s → iteration s o → admissions s !! adm_Identity a = Some a → valid s (adm_Identity a) = true →
  (∀ b, held s b → adm_Host b = adm_Host a → adm_Identity b = adm_Identity a) →
  Addr_of p (adm_Host a) = Some addr → assigned s p (adm_Identity a) o = Some addr.
Proof.
  intros Hw Ho Ha Hv Halone Haddr. unfold assigned. rewrite Hv, Ha. simpl. rewrite Haddr.
  pose proof (HostConflict_spec s o a Hw Ho Ha) as Hc.
  destruct (HostConflict s o (adm_Identity a)) as [b []]; [|done].
  destruct Hc as (Hb & Hne & Hh & _). by destruct Hne; apply Halone.
Qed.

Lemma lookalike_sym s s' : lookalike s s' → lookalike s' s.
Proof. by intros (? & ? & ?). Qed.

Lemma iteration_lookalike s s' o : lookalike s s' → iteration s o → iteration s' o.
Proof. unfold iteration. by intros (_ & <- & _). Qed.

(** ** Starting on the welcome *)

(** [New] on records that make a set in which this node is assigned its
    address. *)
Lemma New_assigned boot net local o s addr :
  (Merge (NewSet (b_Root boot)) (b_Records boot)).2 = s → cache_ok s → valid s (Public (b_Identity boot)) = true →
  assigned s net (Public (b_Identity boot)) o = Some addr → m_OverlayAddr (n_Meta local) = addr →
  ∃ c, New boot net local o = Ok c ∧ lookalike s (c_set c) ∧ c_overlay c = net ∧
    c_local c = MkNode (n_Name local) (n_Addr local) (n_Port local)
      (MkMeta addr (m_PubKey (n_Meta local)) (m_AllowedIPs (n_Meta local)) (Public (b_Identity boot))
        (Sign (b_Identity boot)
          (MetaDigest (n_Name local) addr (m_PubKey (n_Meta local)) (m_AllowedIPs (n_Meta local))))).
Proof.
  intros Hs Hc Hv Ha Hl. unfold New. rewrite Hs.
  pose proof (Valid_lookalike s (Public (b_Identity boot))) as L1.
  pose proof (Valid_answer s (Public (b_Identity boot)) Hc) as V1.
  pose proof (Valid_cache_ok s (Public (b_Identity boot)) Hc) as C1.
  destruct (Valid s (Public (b_Identity boot))) as [v s1]. simpl in L1, V1, C1. rewrite V1, Hv. cbn [negb].
  destruct (assignedAddr_lookalike s1 net (Public (b_Identity boot)) o C1) as [L2 _].
  assert (Ha1 : (assignedAddr s1 net (Public (b_Identity boot)) o).1 = Ok addr).
  { apply assignedAddr_assigned; [done|]. by rewrite <-(assigned_lookalike s s1). }
  destruct (assignedAddr s1 net (Public (b_Identity boot)) o) as [r s2]. simpl in Ha1, L2. subst r addr.
  rewrite bool_decide_eq_true_2 by done. cbn [negb]. eexists. split; [reflexivity|]. simpl.
  split_and!; [by eapply lookalike_trans|done|done].
Qed.

(** The member's check of metadata that the assigned node signed. *)
Lemma verifyMeta_signed s net i n o addr :
  cache_ok s → assigned s net (Public i) o = Some addr → ParseKey (m_PubKey (n_Meta n)) = true →
  m_OverlayAddr (n_Meta n) = addr → m_Identity (n_Meta n) = Public i →
  m_Signature (n_Meta n) = Sign i (MetaDigest (n_Name n) addr (m_PubKey (n_Meta n)) (m_AllowedIPs (n_Meta n))) →
  (verifyMeta ParseKey s net n o).1 = Ok ().
Proof.
  intros Hc Ha Hk Ho Hi Hs. unfold verifyMeta. rewrite Hi.
  assert (Ha1 : (assignedAddr s net (Public i) o).1 = Ok addr) by (by apply assignedAddr_assigned).
  destruct (assignedAddr s net (Public i) o) as [r s']. simpl in Ha1. subst r.
  rewrite bool_decide_eq_true_2 by done. cbn [negb]. rewrite Hs, Ho, Sign_Verify. cbn [negb]. by rewrite Hk.
Qed.

(** ** The whole way *)

(** A member that can take the joiner in: it was a member when it signs, its
    overlay network is one, the joiner is new to it, and the token [key] is
    pending. *)
Record ready c (tokens : gmap tokenID token) (now : Z) (key : bytes) (t : token)
    (joiner : PublicKey) (o1 o2 : order) : Prop := {
  rd_ok : node_ok c;
  rd_net : good_prefix (c_overlay c);
  rd_root : root (c_set c) ≠ zeroKey;
  rd_member : valid (c_set c) (Public (c_id c)) = true;
  rd_signs : valid_at (c_set c) (Public (c_id c)) now = true;
  rd_unknown : unknown_joiner (c_set c) (Public (c_id c)) joiner;
  rd_new : admissions (c_set c) !! joiner = None;
  rd_o1 : iteration (c_set c) o1;
  rd_o2 : iteration (c_set c) o2;
  rd_token : tokens !! idOf key = Some t ∧ tok_key t = key ∧ now < tok_expires t;
}.

(** The probe of [welcomeFits] for this joiner fits into a frame. *)
Definition probe_fits c (srv : Server) (name : bytes) (now : Z) : Prop :=
  let probe := MkAdmission zeroKey name max_uint64 zeroKey now (replicate 64 Byte.x00) in
  ∃ body,
    json_Marshal (MkWelcome (srv_Root srv)
      (MkRecords (Admissions (Records (c_set c)) ++ [probe]) (Revocations (Records (c_set c))))
      probe (srv_GossipAddr srv) (srv_OverlayNet srv) []) = Some body ∧ Z.of_nat (length body) ≤ maxFrame.

(** What the joiner makes of its welcome ([AgentCmd.bootstrap]). *)
Definition joined_boot (boot : Bootstrap) (w : Welcome) : Bootstrap :=
  boot_Enrol boot (w_Root w) (w_Records w) (w_OverlayNet w).

(** The joiner's slot among the member's records after the admission. *)
Lemma joiner_assigned c tokens now key t joiner name o1 o2 a recs c' :
  ready c tokens now key t joiner o1 o2 → Cluster_admit c joiner name now o1 o2 = (Ok (a, recs), c') →
  ∃ h addr, a = Admit (c_id c) joiner name h now ∧ Addr_of (c_overlay c) h = Some addr ∧
    ∀ s o, lookalike (with_admission (c_set c) a) s → iteration s o →
      assigned s (c_overlay c) joiner o = Some addr.
Proof.
  intros [[Hw Hc _ _ _] Hp _ Hme Hnow Hu Hn H1 H2 _] Hadm.
  destruct (admitted_new c joiner name now o1 o2 a recs c' Hw Hc Hu Hn Hadm)
    as ((h & Hh & ->) & _ & Hw1 & _ & _ & _ & Hv1).
  pose proof (FreeHost_range _ _ _ _ (MaxHost_uint64 _ Hp) Hh) as Hr.
  pose proof (Addr_of_spec (c_overlay c) h Hp ltac:(lia)) as Ha. rewrite bool_decide_eq_true_2 in Ha by done.
  eexists h, _. split_and!; [done|exact Ha|]. intros s o Hl Ho.
  rewrite <-(assigned_lookalike _ _ _ _ _ Hl).
  assert (Ho1 : iteration (with_admission (c_set c) (Admit (c_id c) joiner name h now)) o)
    by (unfold iteration in *; by rewrite (proj1 (proj2 Hl))).
  apply (assigned_alone _ _ _ (Admit (c_id c) joiner name h now)); [done|done| | | |exact Ha].
  - apply lookup_insert_eq.
  - simpl. by rewrite Hv1, decide_True.
  - intros b Hb Hhb.
    apply (held_with_admission (c_set c) (Admit (c_id c) joiner name h now) b (Public (c_id c)) Hu) in Hb as [->|[_ Hb]]; [done| |done].
    destruct (FreeHost_free (c_set c) o2 _ h b Hw H2 (MaxHost_uint64 _ Hp) Hh Hb Hhb).
Qed.

(** C18: an honest node with a pending token becomes a running peer. The
    exchange with a member ends, after three turns each, with the welcome for
    the joiner and one use of the token spent; the bootstrap made of the
    welcome is enrolled and has a slot with an address; with that address the
    joiner's own cluster starts, holding the member's records; and the member
    accepts the metadata it signs. *)
Theorem honest_join c c' a recs tokens now nM nJ o1 o2 adv port tok key t id name boot :
  let m := member_side c tokens now nM o1 o2 in
  let j := joiner_side now nJ in
  let srv := enrolSrv c adv port in
  let w := the_welcome srv a recs in
  ready c tokens now key t (Public id) o1 o2 →
  decodeToken tok = Ok key → length (idOf key) = tokenIDLen → name ≠ [] →
  length nJ = nonceLen → length nM = nonceLen → b_Identity boot = id →
  Cluster_admit c (Public id) name now o1 o2 = (Ok (a, recs), c') → probe_fits c srv name now →
  sendable (run_hello j id key name) → sendable (run_challenge srv m j id key name) →
  sendable (run_proof srv m j id key name) → sendable w → sendable MkAck →
  (∃ j' m',
    link 3 (Join (Public (c_id c)) tok id name) j (handle srv (Public id)) m =
      ((Ret (Ok (w, Public (c_id c))), j'), (Ret (Ok ()), m')) ∧
    store m' = (consume now (idOf key) (gc now tokens)).2) ∧
  Enrolled (joined_boot boot w) = true ∧
  ∃ h addr,
    Host (joined_boot boot w) = Ok h ∧ Addr_of (w_OverlayNet w) h = Some addr ∧
    ∀ local oj om,
      iteration (c_set c') oj → iteration (c_set c') om →
      m_OverlayAddr (n_Meta local) = addr → ParseKey (m_PubKey (n_Meta local)) = true →
      ∃ cj, New (joined_boot boot w) (w_OverlayNet w) local oj = Ok cj ∧ lookalike (c_set c') (c_set cj) ∧
        (verifyMeta ParseKey (c_set c') (c_overlay c) (c_local cj) om).1 = Ok ().
Proof.
  intros m j srv w Hready Htok Hid Hname HnJ HnM Hboot Hadm Hprobe Sh Sc Sp Sw Sa.
  pose proof Hready as [[Hw Hc Hcid Hroot _] Hp Hzero Hme Hnow Hu Hn H1 H2 Ht].
  assert (Hsr : srv_Root srv = root (c_set c)) by done.
  destruct (admitted_new c (Public id) name now o1 o2 a recs c' Hw Hc Hu Hn Hadm)
    as (_ & _ & Hw1 & Hl & Hrecs & Hset & Hv1).
  destruct (joiner_assigned c tokens now key t (Public id) name o1 o2 a recs c' Hready Hadm)
    as (h & addr & Ea & Haddr & Hassigned).
  split; [|split].
  - apply (honest_enrolment srv m j tok id name key t a recs); [|done..|].
    + split; try done; [by right|]. unfold m, member_side. cbn [admit_fn]. by rewrite Hadm.
    + by eapply admit_welcome_holds.
  - unfold Enrolled. cbn. rewrite Hroot. by rewrite bool_decide_eq_false_2.
  - exists h, addr. split_and!; [|done|].
    + unfold Host. cbn. rewrite Hboot, Hrecs.
      rewrite (find_host_Records _ _ a Hw1); [by rewrite Ea|]. rewrite Ea. apply lookup_insert_eq.
    + intros local oj om Hoj Hom Hla Hk.
      assert (Lf : lookalike (forget (with_admission (c_set c) a)) (c_set c')) by exact Hl.
      destruct (New_assigned (joined_boot boot w) (w_OverlayNet w) local oj (forget (with_admission (c_set c) a)) addr)
        as (cj & Hnew & L1 & Hnet & Hlocal).
      * cbn. by rewrite Hroot.
      * intros k Hk'. set_solver.
      * cbn. rewrite Hboot, (valid_ext _ (with_admission (c_set c) a)), Hv1 by done. by rewrite decide_True.
      * cbn. rewrite Hboot. apply Hassigned; [done|]. eapply iteration_lookalike; [by apply lookalike_sym|done].
      * done.
      * exists cj. split_and!; [done| |].
        -- by eapply lookalike_trans; [apply lookalike_sym, Lf|].
        -- pose proof (node_ok_admit c (Public id) name now o1 o2 (rd_ok _ _ _ _ _ _ _ _ Hready)) as [_ Hc' _ _ _].
           rewrite Hadm in Hc'. rewrite Hlocal. cbn in Hboot |- *.
           eapply (verifyMeta_signed _ _ id); [done|by apply Hassigned|done..| |]; cbn; by rewrite ?Hboot.
Qed.
End Joining.
