(* ===== verification/Control.v ===== *)
(** * Control: operator requests (internal/control/control.go, internal/cli/control.go)

    What one request on the control socket does: how the server dispatches it,
    what the agent does for it, and how the operator's end reads the answer.
    Leaving has the server as a concurrent program. *)

From S2P Require Import Prelude Identity Records TrustSet Demo Validity Convergence Slots Membership State Cluster ClusterAdmit.
From S2P Require Import GoNet GoTime Prog Enrol.

(** ** Requests and responses *)

Definition OpInvite : bytes := str "invite".
Definition OpRevoke : bytes := str "revoke".
Definition OpLeave : bytes := str "leave".

(** [deadline], in seconds. *)
Definition deadline (op : bytes) : Z := if decide (op = OpLeave) then 60 else 10.

Record Request := MkRequest {
  rq_Op : bytes;
  rq_TTL : bytes;
  rq_Uses : Z;
  rq_Target : bytes;
  rq_Force : bool;
}.

Record Response := MkResponse {
  rs_Token : bytes;
  rs_Identity : bytes;
  rs_Revoked : bool;
  rs_Notified : Z;
  rs_Error : bytes;
}.

Definition error_response (e : bytes) : Response := MkResponse [] [] false 0 e.

Record LeaveResult := MkLeaveResult {
  lr_Identity : bytes;
  lr_Revoked : bool;
  lr_Notified : Z;
}.

(** The [Handler], which performs the operations. *)
Inductive handlerE : Type → Type :=
  | Invite (ttl uses : Z) : handlerE (result bytes)
  | HRevoke (target : bytes) : handlerE (result bytes)
  | HLeave (force : bool) : handlerE (result LeaveResult).

Definition error_text (e : String.string) : bytes := str e.

Section Handle.
Local Open Scope prog_scope.

Definition handle (req : Request) : prog handlerE Response :=
  if decide (rq_Op req = OpInvite) then
    match ParseDuration (rq_TTL req) with
    | Err e => Ret (error_response (str "invalid ttl: " ++ error_text e))
    | Ok ttl =>
        let* token := trigger (Invite ttl (rq_Uses req)) in
        Ret (match token with
             | Err e => error_response (error_text e)
             | Ok token => MkResponse token [] false 0 []
             end)
    end
  else if decide (rq_Op req = OpRevoke) then
    let* id := trigger (HRevoke (rq_Target req)) in
    Ret (match id with
         | Err e => error_response (error_text e)
         | Ok id => MkResponse [] id false 0 []
         end)
  else if decide (rq_Op req = OpLeave) then
    let* res := trigger (HLeave (rq_Force req)) in
    Ret (match res with
         | Err e => error_response (error_text e)
         | Ok l => MkResponse [] (lr_Identity l) (lr_Revoked l) (lr_Notified l) []
         end)
  else Ret (error_response (str "unknown operation " ++ rq_Op req)).
End Handle.

(** [Call], once the agent's reply was decoded. *)
Definition call_result (resp : Response) : result Response :=
  if decide (rs_Error resp = []) then Ok resp else Err "error from the agent".

(** ** The agent's side *)

Section AgentControl.
Context `{!Ed25519, !Json recordMsg, !Json Meta, !Json trust_Records}.

(** [agentControl.Revoke]: an identity or the name of a member. *)
Definition agentControl_Revoke (c : Cluster) (target : bytes) (now : Z) (o : order)
    : result bytes * Cluster :=
  let id :=
    match ParsePublicKey target with
    | Ok id => Ok id
    | Err _ =>
        let '(adm, ok) := ByName (c_set c) o target in
        if negb ok then Err "no member named %q (give the identity instead if names are ambiguous)"
        else Ok (adm_Identity adm)
    end in
  match id with
  | Err e => (Err e, c)
  | Ok id =>
      if decide (id = Public (c_id c)) then (Err "refusing to revoke this node itself", c)
      else
        match Revoke_ c id now with
        | (Err e, c) => (Err e, c)
        | (Ok _, c) => (Ok (PublicKey_String id), c)
        end
  end.

(** [agentControl.Leave], up to stopping the agent: what the operator will be
    told, or why this node stays. *)
Definition leave_result (c : Cluster) (revoked : result Z) (force : bool) : result LeaveResult :=
  let res := MkLeaveResult (PublicKey_String (Public (c_id c))) false 0 in
  match revoked with
  | Err e => if negb force then Err e else Ok res
  | Ok notified => Ok (MkLeaveResult (lr_Identity res) true notified)
  end.

Definition agentControl_Leave (c : Cluster) (force : bool) (now : Z) (sends : list (bytes * bool))
    : result LeaveResult * Cluster :=
  let '(revoked, c) := RevokeSelf c now sends in (leave_result c revoked force, c).
End AgentControl.

(** ** The operator's side *)

(** What [Call] gives, as far as the commands tell it apart. *)
Inductive callAnswer := NoAgent | CallFailed | CallOk (resp : Response).

(** ** What the operator gets *)

Section Promises.
Context {ed : Ed25519} {ed_ok : Ed25519Ok} {jm : Json recordMsg} {jmeta : Json Meta} {jr : Json trust_Records}.
Implicit Types (c : Cluster).

Lemma revocation_kept s r : rev_Validate r = Ok () → is_Some (revocations (AddRevocation s r).2 !! rev_Identity r).
Proof.
  intros Hv. destruct (AddRevocation_cases s r) as [[_ ->]|(Hno & -> & _)].
  - simpl. rewrite lookup_insert_eq. eauto.
  - destruct (revocations s !! rev_Identity r) eqn:E; [eauto|]. by destruct Hno.
Qed.

Lemma AddRevocation_Ok s r : rev_Validate r = Ok () → is_ok (AddRevocation s r).1 = true.
Proof. unfold AddRevocation. intros ->. by destruct (revocations s !! _). Qed.

(** [Cluster.Revoke] does not fail: it signs what it adds. *)
Lemma Revoke_Ok c id now :
  (Revoke_ c id now).1 = Ok () ∧ c_set (Revoke_ c id now).2 = (AddRevocation (c_set c) (Revoke (c_id c) id now)).2.
Proof.
  unfold Revoke_. pose proof (AddRevocation_Ok (c_set c) _ (Revoke_Validate (c_id c) id now)) as H.
  destruct (AddRevocation _ _) as [[b|e] s]; [|done]. split; [done|].
  unfold broadcast. by destruct (json_Marshal _).
Qed.

(** Whom [cheesecloth revoke TARGET] means. *)
Definition means c (target : bytes) (id : PublicKey) : Prop :=
  ParsePublicKey target = Ok id ∨
  is_ok (ParsePublicKey target) = false ∧
  ∃ a, held (c_set c) a ∧ adm_Identity a = id ∧ adm_Name a = target ∧
    ∀ b, held (c_set c) b → adm_Name b = target → b = a.

Lemma means_one c target id id' : means c target id → means c target id' → id = id'.
Proof.
  intros [H1|(H1 & a & Ha & <- & Hn & Hu)] [H2|(H2 & b & Hb & <- & Hn' & _)]; rewrite ?H1, ?H2 in *; try done.
  - by simplify_eq.
  - by rewrite (Hu b).
Qed.

(** A revocation by the operator is of the identity given, or of the one
    member of the name given, and never of this node; it is recorded and
    saved, and the identity printed is the one revoked. It fails only if the
    target means nobody or this node, and then changes nothing. *)
Theorem agentControl_Revoke_spec c target now o :
  node_ok c → iteration (c_set c) o →
  match agentControl_Revoke c target now o with
  | (Ok text, c') =>
      ∃ id, means c target id ∧ id ≠ Public (c_id c) ∧ ParsePublicKey text = Ok id ∧
        is_Some (revocations (c_set c') !! id) ∧ node_ok c'
  | (Err _, c') => c' = c ∧ ∀ id, means c target id → id = Public (c_id c)
  end.
Proof.
  intros Hok Ho. unfold agentControl_Revoke. cbv zeta.
  assert (Hgo : ∀ id, means c target id →
    match (if decide (id = Public (c_id c)) then (Err "refusing to revoke this node itself", c)
      else match Revoke_ c id now with
           | (Err e, c) => (Err e, c) | (Ok _, c) => (Ok (PublicKey_String id), c) end)
      : result bytes * Cluster with
    | (Ok text, c') =>
        ∃ id, means c target id ∧ id ≠ Public (c_id c) ∧ ParsePublicKey text = Ok id ∧
          is_Some (revocations (c_set c') !! id) ∧ node_ok c'
    | (Err _, c') => c' = c ∧ ∀ id, means c target id → id = Public (c_id c)
    end).
  { intros id Hm. case_decide as Hself; [split; [done|]; intros; subst; by eapply means_one|].
    destruct (Revoke_Ok c id now) as [H1 H2]. pose proof (node_ok_revoke c id now Hok) as Hn.
    destruct (Revoke_ c id now) as [[[]|e] c']; simpl in H1, H2, Hn; [|done].
    exists id. split_and!; [done|done|by apply parse_printed_key| |done].
    rewrite H2. apply (revocation_kept (c_set c) (Revoke (c_id c) id now)), Revoke_Validate. }
  destruct (ParsePublicKey target) as [id|e] eqn:Ep; [by apply Hgo; left|].
  destruct (ByName (c_set c) o target) as [a ok] eqn:Eb. destruct ok; cbn [negb].
  - apply Hgo. right. rewrite Ep. split; [done|]. exists a.
    apply (ByName_spec (c_set c) o target a (nk_wf c Hok) Ho) in Eb as (? & ? & ?). by split_and!.
  - split; [done|]. intros id [H|(_ & b & Hb & Hi & Hn & Hu)]; [by rewrite Ep in H|].
    assert (E : ByName (c_set c) o target = (b, true)) by (by apply ByName_spec; [apply Hok| |]).
    by rewrite Eb in E.
Qed.
(** The members [RevokeSelf] hands the revocation to. *)
Definition told c (sends : list (bytes * bool)) : list (bytes * bool) :=
  filter (λ m, m.1 ≠ n_Name (c_local c) ∧ m.2 = true) sends.

Lemma told_count c sends n :
  foldl (λ told (m : bytes * bool),
    if decide (m.1 = n_Name (c_local c)) then told else if m.2 then told + 1 else told) n sends =
  n + Z.of_nat (length (told c sends)).
Proof.
  unfold told. revert n. induction sends as [|[name ok] sends IH]; intros n; cbn [foldl]; [cbn; lia|].
  rewrite IH, filter_cons. cbn. destruct (decide (name = _)) as [->|Hne]; [by rewrite decide_False by naive_solver|].
  destruct ok; [rewrite decide_True by done; cbn [length]; lia|by rewrite decide_False by naive_solver].
Qed.

Lemma RevokeSelf_spec c now sends :
  encodable → node_ok c → revocations (c_set c) !! Public (c_id c) = None →
  let rev := Revoke (c_id c) (Public (c_id c)) now in
  (RevokeSelf c now sends).1 = Ok (Z.of_nat (length (told c sends))) ∧
  revocations (c_set (RevokeSelf c now sends).2) !! Public (c_id c) = Some rev.
Proof.
  intros Henc Hok Hno rev. unfold RevokeSelf. fold rev.
  destruct (AddRevocation_cases (c_set c) rev) as [[_ ->]|(Hacc & _)].
  - destruct (json_Marshal (MkRecordMsg None (Some rev))) eqn:Em; [|by destruct (Henc _ Em)].
    cbn [fst]. rewrite told_count, Z.add_0_l. split; [done|].
    unfold broadcast. rewrite Em. cbn. by rewrite lookup_insert_eq.
  - destruct Hacc. split; [apply Revoke_Validate|done].
Qed.

Lemma RevokeSelf_id c now sends : c_id (RevokeSelf c now sends).2 = c_id c.
Proof.
  unfold RevokeSelf. destruct (AddRevocation _ _) as [[b|e] s]; [|done].
  destruct (json_Marshal _) eqn:E; [|done]. unfold broadcast. by rewrite E.
Qed.

(** A node that leaves is no member afterwards, and that is saved, forced or
    not. (It must not have been revoked before, by whomever: the set keeps only
    the first revocation.) *)
Theorem leave_revokes c force now sends :
  encodable → node_ok c → revocations (c_set c) !! Public (c_id c) = None → now ≤ max_int64 →
  ∃ l c', agentControl_Leave c force now sends = (Ok l, c') ∧ node_ok c' ∧
    valid (c_set c') (Public (c_id c)) = false ∧
    ParsePublicKey (lr_Identity l) = Ok (Public (c_id c)) ∧
    lr_Revoked l = true ∧ lr_Notified l = Z.of_nat (length (told c sends)).
Proof.
  intros Henc Hok Hno Hnow. unfold agentControl_Leave.
  destruct (RevokeSelf_spec c now sends Henc Hok Hno) as [H1 H2].
  pose proof (node_ok_revoke_self c now sends Henc Hok) as Hn.
  pose proof (RevokeSelf_id c now sends) as Hid.
  destruct (RevokeSelf c now sends) as [r c'] eqn:E. simpl in H1, H2, Hn, Hid. subst r.
  eexists _, c'. split; [reflexivity|]. split; [done|]. split; [|split; [|done]].
  - rewrite valid_walk, walk_eq. case_decide; [done|].
    by rewrite (rev_at_self _ _ (Revoke (c_id c) (Public (c_id c)) now)).
  - cbn. rewrite Hid. apply parse_printed_key.
Qed.
End Promises.
