(* ===== verification/Listen.v ===== *)
(** * Listen: the control socket and its clients (internal/control/control.go, internal/cli/invite.go, revoke.go)

    The placement of the socket: made inside a private directory, given its
    mode, and moved to its path. No run leaves a socket at the path that others
    may use, and none leaves the directory or a listener behind. Then the
    operator's end of a request. *)

From S2P Require Import Prelude GoNet GoTime Prog Enrol Control.

(** ** Placing the socket *)

Inductive placeE : Type → Type :=
  | MkdirAll (dir : bytes) : placeE (result unit)            (* 0755 *)
  | LstatSocket (path : bytes) : placeE (result bool)        (* whether what is there is a socket *)
  | MkdirTemp (dir : bytes) : placeE (result bytes)          (* dir/.control-*, 0700 *)
  | ListenUnix (path : bytes) : placeE (result unit)
  | ChmodOwner (path : bytes) : placeE (result unit)         (* 0600 *)
  | Rename (old new : bytes) : placeE (result unit)
  | CloseListener : placeE (result unit)
  | RemoveAll (path : bytes) : placeE (result unit).

(** The slash of [filepath.Join] between an element and a last one. *)
Definition join (dir base : bytes) : bytes := dir ++ str "/" ++ base.

Definition staging_room : bytes := str "/.control-0000000000".

Section Listen.
(** The longest socket path of the platform, and [filepath.Dir] and
    [filepath.Base] of the path. *)
Context (maxSocketPath : Z) (path dir base : bytes).
Local Open Scope prog_scope.

(** From the staging directory on; it is removed whatever happens. *)
Definition place (staging : bytes) : prog placeE (result unit) :=
  let tmp := join staging base in
  let* ln := trigger (ListenUnix tmp) in
  match ln with
  | Err _ => Ret (Err "listening on control socket")
  | Ok _ =>
      let* err := trigger (ChmodOwner tmp) in
      match err with
      | Err _ => let* _ := trigger CloseListener in Ret (Err "securing control socket")
      | Ok _ =>
          let* err := trigger (Rename tmp path) in
          match err with
          | Err _ => let* _ := trigger CloseListener in Ret (Err "placing control socket")
          | Ok _ => Ret (Ok ())
          end
      end
  end.

Definition Listen : prog placeE (result unit) :=
  let n := Z.of_nat (length path + length staging_room) in
  if maxSocketPath <? n then Ret (Err "control socket path is too long")
  else
    let* err := trigger (MkdirAll dir) in
    match err with
    | Err _ => Ret (Err "creating control socket directory")
    | Ok _ =>
        let* fi := trigger (LstatSocket path) in
        if match fi with Ok is_socket => negb is_socket | Err _ => false end then
          Ret (Err "control socket path exists and is not a socket")
        else
          let* staging := trigger (MkdirTemp dir) in
          match staging with
          | Err _ => Ret (Err "creating control socket")
          | Ok staging =>
              let* r := place staging in
              let* _ := trigger (RemoveAll staging) in
              Ret r
          end
    end.

(** ** What the calls have done *)

(** Directories staged and not asked to be removed, listeners open, where the
    socket is, and whether only its owner may use it. *)
Record placing := MkPlacing {
  p_staged : list bytes;
  p_open : nat;
  p_at : option bytes;
  p_owner : bool;
}.

Definition unplaced : placing := MkPlacing [] 0 None false.

Definition effect (s : placing) (h : happened placeE) : placing :=
  match h with
  | Ev e x =>
      match e in placeE X return X → placing with
      | MkdirTemp _ => λ x, match x with
          | Ok d => MkPlacing (d :: p_staged s) (p_open s) (p_at s) (p_owner s)
          | Err _ => s
          end
      | ListenUnix t => λ x, match x with
          | Ok _ => MkPlacing (p_staged s) (S (p_open s)) (Some t) false
          | Err _ => s
          end
      | ChmodOwner t => λ x, match x with
          | Ok _ => if decide (p_at s = Some t) then MkPlacing (p_staged s) (p_open s) (p_at s) true else s
          | Err _ => s
          end
      | Rename old new => λ x, match x with
          | Ok _ => if decide (p_at s = Some old) then MkPlacing (p_staged s) (p_open s) (Some new) (p_owner s) else s
          | Err _ => s
          end
      | CloseListener => λ _, MkPlacing (p_staged s) (pred (p_open s)) None (p_owner s)
      | RemoveAll d => λ _, MkPlacing (filter (λ d', d' ≠ d) (p_staged s)) (p_open s) (p_at s) (p_owner s)
      | _ => λ _, s
      end x
  end.

Definition after_calls (tr : list (happened placeE)) : placing := foldl effect unplaced tr.

(** Where a socket is that others cannot use: nowhere, in a private directory,
    or anywhere with its mode set. *)
Definition private (s : placing) : Prop :=
  match p_at s with
  | None => True
  | Some t => p_owner s = true ∨ ∃ d, d ∈ p_staged s ∧ t = join d base
  end.

(** Takes a run, or one that stopped, apart into its calls and their answers. *)
Ltac calls H :=
  cbn [bind trigger runs reaches Listen place] in H;
  repeat match type of H with
    | _ ∨ _ => destruct H as [->|H]
    | ∃ _, _ =>
        let x := fresh "x" in
        destruct H as (x & ? & -> & H); destruct x as [x|]; try match type of x with
          | bool => destruct x
          | unit => destruct x
          end; cbn [negb bind trigger runs reaches] in H
    | context [match ?x with _ => _ end] => destruct x; cbn [negb bind trigger runs reaches] in H
    | _ ∧ _ => destruct H as [-> <-]
    | ?tr = [] => subst tr
    end.

Lemma filter_own (d : bytes) : filter (λ d', d' ≠ d) [d] = [].
Proof. rewrite filter_cons_False by naive_solver. done. Qed.

Lemma decide_self (t : bytes) (a b : placing) : (if decide (Some t = Some t) then a else b) = a.
Proof. by rewrite decide_True. Qed.

(** Works out what the calls of a run have done. *)
Ltac done_calls :=
  unfold after_calls, unplaced;
  repeat (progress (cbn [foldl effect p_staged p_open p_at p_owner pred]; rewrite ?decide_self));
  rewrite ?filter_own.

(** Wherever [Listen] stops, nobody but its owner can use the socket: it is
    inside the private directory, or has its mode set. *)
Theorem Listen_private tr : reaches Listen tr → private (after_calls tr).
Proof.
  intros H. unfold Listen, place in H. calls H.
  all: done_calls; unfold private; cbn [p_at p_owner p_staged];
    first [done|by left|right; eexists; split; [by left|done]].
Qed.

(** Something else than a socket is at the path. *)
Definition occupied (h : happened placeE) : bool :=
  match h with
  | Ev e x => match e in placeE X return X → bool with
              | LstatSocket _ => λ x, match x with Ok is_socket => negb is_socket | Err _ => false end
              | _ => λ _, false
              end x
  end.

(** What [Listen] leaves behind: the socket at its path with its mode set
    and the listener open, or nothing; the private directory is gone either
    way. A path that holds anything but a socket is refused and not touched. *)
Theorem Listen_leaves tr r :
  runs Listen tr r →
  match r with
  | Ok _ => after_calls tr = MkPlacing [] 1 (Some path) true
  | Err _ => p_staged (after_calls tr) = [] ∧ p_open (after_calls tr) = O ∧ p_at (after_calls tr) = None
  end ∧
  (existsb occupied tr = true →
   tr = [Ev (MkdirAll dir) (Ok ()); Ev (LstatSocket path) (Ok false)] ∧ is_ok r = false).
Proof.
  intros H. unfold Listen, place in H. calls H.
  all: split; [done_calls; done|].
  all: cbn [existsb occupied orb negb]; done.
Qed.

(** The address the socket is bound to is never longer than the platform
    allows, if the suffix of the private directory's name has at most ten
    digits and [path] is [base] inside [dir]. *)
Theorem Listen_address_fits tr suffix :
  path = join dir base → (length suffix ≤ 10)%nat →
  reaches Listen (tr ++ [Ev (MkdirTemp dir) (Ok (join dir (str ".control-" ++ suffix)))]) →
  Z.of_nat (length (join (join dir (str ".control-" ++ suffix)) base)) ≤ maxSocketPath.
Proof.
  intros Hp Hs. unfold Listen. destruct (maxSocketPath <? _) eqn:E.
  - cbn [reaches]. intros H. by destruct tr.
  - intros _. apply Z.ltb_ge in E. rewrite Hp in E. unfold join, staging_room in *.
    rewrite !length_app in *. cbn in *. lia.
Qed.
End Listen.

(** A run on a path of the platform's usual length. *)
Definition demo_sock : bytes := str "/run/cheesecloth/wgoverlay.sock".
Definition demo_dir : bytes := str "/run/cheesecloth".
Definition demo_base : bytes := str "wgoverlay.sock".
Definition demo_staging : bytes := str "/run/cheesecloth/.control-1234567890".
Definition demo_placing : list (happened placeE) :=
  [Ev (MkdirAll demo_dir) (Ok ()); Ev (LstatSocket demo_sock) (Err "no such file");
   Ev (MkdirTemp demo_dir) (Ok demo_staging); Ev (ListenUnix (join demo_staging demo_base)) (Ok ());
   Ev (ChmodOwner (join demo_staging demo_base)) (Ok ()); Ev (Rename (join demo_staging demo_base) demo_sock) (Ok ())].

Lemma demo_placing_reached : reaches (Listen 107 demo_sock demo_dir demo_base) demo_placing.
Proof.
  unfold Listen. replace (107 <? _) with false by (vm_compute; reflexivity).
  cbn [bind trigger reaches]. right. exists (Ok ()). eexists. split; [reflexivity|].
  right. exists (Err "no such file"). eexists. split; [reflexivity|].
  right. exists (Ok demo_staging). eexists. split; [reflexivity|].
  right. exists (Ok ()). eexists. split; [reflexivity|].
  right. exists (Ok ()). eexists. split; [reflexivity|].
  right. exists (Ok ()). eexists. split; [reflexivity|]. by left.
Qed.

Lemma Listen_private_witness :
  private demo_base (after_calls demo_placing) ∧ p_at (after_calls demo_placing) = Some demo_sock.
Proof.
  split; [|vm_compute; reflexivity].
  apply (Listen_private 107 demo_sock demo_dir demo_base demo_placing demo_placing_reached).
Defined.

(** ** The operator's end *)

Inductive callE : Type → Type :=
  | DialUnix (path : bytes) : callE (result unit)
  | SendRequest (req : Request) : callE (result unit)
  | ReceiveResponse : callE (result Response)
  | CloseConn : callE unit
  | Stdout (text : bytes) : callE unit
  | Stderr (text : bytes) : callE unit.

Section Clients.
Local Open Scope prog_scope.

Definition DefaultSocket (RunDir iface : bytes) : bytes := join RunDir (iface ++ str ".sock").
Definition socketFor (RunDir iface explicit : bytes) : bytes :=
  if decide (explicit ≠ []) then explicit else DefaultSocket RunDir iface.

(** One request, with what the leave command tells apart of its failures. *)
Definition Call (path : bytes) (req : Request) : prog callE callAnswer :=
  let* conn := trigger (DialUnix path) in
  match conn with
  | Err _ => Ret NoAgent
  | Ok _ =>
      let* answer :=
        let* err := trigger (SendRequest req) in
        match err with
        | Err _ => Ret CallFailed
        | Ok _ =>
            let* resp := trigger ReceiveResponse in
            match resp with
            | Err _ => Ret CallFailed
            | Ok resp => Ret (if decide (rs_Error resp ≠ []) then CallFailed else CallOk resp)
            end
        end in
      let* _ := trigger CloseConn in
      Ret answer
  end.

Definition newline : bytes := [Byte.x0a].

Definition invite_note (ttl : bytes) (uses : Z) (token : bytes) : bytes :=
  str "valid for " ++ ttl ++ str ", " ++ Itoa uses ++ str " use(s). On the new node:" ++ newline ++
  str "  cheesecloth --join <this host> --join-key " ++ token ++ newline.

(** [InviteCmd.Run]; [ttl] in nanoseconds. *)
Definition InviteCmd_Run (socket : bytes) (ttl uses : Z) : prog callE (result unit) :=
  let* resp := Call socket (MkRequest OpInvite (Duration_String ttl) uses [] false) in
  match resp with
  | CallOk resp =>
      let* _ := trigger (Stdout (rs_Token resp ++ newline)) in
      let* _ := trigger (Stderr (invite_note (Duration_String ttl) uses (rs_Token resp))) in
      Ret (Ok ())
  | NoAgent | CallFailed => Ret (Err "calling the agent")
  end.

Definition RevokeCmd_Run (socket target : bytes) : prog callE (result unit) :=
  let* resp := Call socket (MkRequest OpRevoke [] 0 target false) in
  match resp with
  | CallOk resp =>
      let* _ := trigger (Stderr (str "revoked " ++ target ++ str " (" ++ rs_Identity resp ++ str ")" ++ newline)) in
      Ret (Ok ())
  | NoAgent | CallFailed => Ret (Err "calling the agent")
  end.

(** What a run wrote to the standard output, and the connections it opened and closed. *)
Definition stdout_of (h : happened callE) : list bytes :=
  match h with
  | Ev e x => match e in callE X return list bytes with Stdout t => [t] | _ => [] end
  end.
Definition opened (h : happened callE) : nat :=
  match h with
  | Ev e x => match e in callE X return X → nat with
              | DialUnix _ => λ x, if is_ok x then 1%nat else O
              | _ => λ _, O
              end x
  end.
Definition closed_ (h : happened callE) : nat :=
  match h with Ev e x => match e with CloseConn => 1%nat | _ => O end end.
(** What the agent sent back. *)
Definition received_of (h : happened callE) : list Response :=
  match h with
  | Ev e x => match e in callE X return X → list Response with
              | ReceiveResponse => λ x, match x with Ok r => [r] | Err _ => [] end
              | _ => λ _, []
              end x
  end.

(** A request closes the connection it opens, and succeeds exactly with an
    answer that holds no error. *)
Theorem Call_spec path req tr a :
  runs (Call path req) tr a →
  sum_list (map opened tr) = sum_list (map closed_ tr) ∧
  (a = NoAgent ↔ sum_list (map opened tr) = O) ∧
  (∀ resp, a = CallOk resp ↔ tr ≫= received_of = [resp] ∧ call_result resp = Ok resp).
Proof.
  intros H. unfold Call in H. run_events H; cbn; (split; [done|]); (split; [done|]); intros resp;
    unfold call_result; try (split; [done|by intros [? ?]]).
  - split; [done|]. intros [[= ->] Hr]. by rewrite decide_False in Hr.
  - split; [intros [= ->]; by rewrite decide_True by (by apply dec_stable)|]. by intros [[= ->] _].
Qed.

(** What the invite command prints to the standard output is the token the
    agent answered with, on a line of its own, or nothing when it fails, so
    that its output can be used as it is. *)
Theorem InviteCmd_prints socket ttl uses tr r :
  runs (InviteCmd_Run socket ttl uses) tr r →
  match r with
  | Ok _ => ∃ resp, tr ≫= received_of = [resp] ∧ rs_Error resp = [] ∧
      tr ≫= stdout_of = [rs_Token resp ++ newline]
  | Err _ => tr ≫= stdout_of = []
  end.
Proof.
  intros H. unfold InviteCmd_Run, Call in H. run_events H; cbn; try done.
  eexists. split_and!; [done|by apply dec_stable|done].
Qed.
End Clients.
