(* ===== verification/Commands.v ===== *)
(** * Commands: leave and status (internal/cli/leave.go, status.go, status_render.go, internal/wg/status.go)

    The operator's commands that do more than pass one request on: leaving,
    which reports what the agent did or removes what a stopped one left, and
    the status report. A command is a program over the agent's socket, the
    files and the screen; the agent at the other end is what serves the
    request, so that what the operator reads can be compared with what became
    of the cluster. *)

From S2P Require Import Prelude Netip Overlay Identity Records TrustSet Demo Validity Convergence Slots Membership.
From S2P Require Import GoNet GoTime GoStrings State Cluster ClusterAdmit Tokens Prog Enrol Hosts Bind Wg Agent ConfigFile Status Control Listen.

(** ** What a command does *)

Inductive commandE : Type → Type :=
  | Calling {X : Type} (e : callE X) : commandE X           (* the socket and the screen *)
  | ReadState : commandE read_file                          (* os.ReadFile of the state file *)
  | RemoveInterface : commandE (result unit)                (* remove, of the platform *)
  | OnHosts {X : Type} (e : hostsE X) : commandE X
  | RemoveState : commandE removal                          (* os.Remove of the state file *)
  | Lookup (iface : bytes) : commandE (result bytes)        (* lookup, of the platform *)
  | OpenClient : commandE (result unit)                     (* wgctrl.New *)
  | AskDevice (iface : bytes) : commandE (result Device)
  | AskAddrs (osName : bytes) : commandE (result (list Prefix))
  | CloseClient : commandE unit
  | Now : commandE Z.

Definition calling {A} (p : prog callE A) : prog commandE A := translate (@Calling) p.
Definition on_hosts {A} (p : prog hostsE A) : prog commandE A := translate (@OnHosts) p.

Section Leave.
Context {ed : Ed25519} {js : Json state}.
Local Open Scope prog_scope.
(** The command's flags, and the socket they name. *)
Variables (Interface socket : bytes) (Force : bool).

Definition say (text : bytes) : prog commandE unit := calling (trigger (Stderr (text ++ newline))).

(** [stillTrusted] *)
Definition still_trusted (identity : bytes) : bytes :=
  str "the cluster still trusts this node: run 'cheesecloth revoke " ++ identity ++ str "' on a member".
Definition stillTrusted (identity : bytes) : prog commandE unit := say (still_trusted identity).

Definition report (resp : Response) : prog commandE (result unit) :=
  let* _ :=
    if rs_Revoked resp && (0 <? rs_Notified resp) then
      say (str "left the cluster: revoked " ++ rs_Identity resp ++ str ", " ++ Itoa (rs_Notified resp) ++ str " member(s) told")
    else if rs_Revoked resp then
      let* _ := say (str "left the cluster: revoked " ++ rs_Identity resp ++ str ", but no member could be reached") in
      stillTrusted (rs_Identity resp)
    else
      let* _ := say (str "left the cluster without revoking " ++ rs_Identity resp) in
      stillTrusted (rs_Identity resp) in
  let* _ := say (str "the agent has stopped and its state for " ++ Interface ++ str " is gone") in
  Ret (Ok ()).

(** [wg.Remove] *)
Definition wg_Remove : prog commandE (result unit) :=
  let* removed := trigger RemoveInterface in
  Ret (match removed with Err _ => Err "removing interface" | Ok _ => Ok () end).

(** [wg.Remove] and [hosts.WriteEntries] of no entries, then [cluster.Forget]. *)
Definition removeLeftovers : prog commandE (result unit) :=
  let*? _ := wg_Remove in
  let*? _ := on_hosts (WriteEntries (hostsFor Interface) ∅ []) in
  let* r := trigger RemoveState in
  Ret (Forget r).

Definition forced : prog commandE (result unit) :=
  let* file := trigger ReadState in
  let*? _ := removeLeftovers in
  match LocalIdentity file with
  | None =>
      let* _ := say (str "no state for " ++ Interface ++ str "; removed the interface and hosts entries, if any") in
      Ret (Ok ())
  | Some identity =>
      let* _ := say (str "removed this node's state for " ++ Interface) in
      let* _ := stillTrusted (PublicKey_String identity) in
      Ret (Ok ())
  end.

Definition LeaveCmd_Run : prog commandE (result unit) :=
  let* resp := calling (Call socket (MkRequest OpLeave [] 0 [] Force)) in
  match resp with
  | CallOk resp => report resp
  | CallFailed => Ret (Err (if negb Force then "the agent stays where it is" else "the agent failed"))
  | NoAgent => if negb Force then Ret (Err "start it so the cluster can be told") else forced
  end.
End Leave.

(** ** The status report *)

(** The JSON of a report, before it is encoded: [namedPeer] embeds what is
    known of a peer and what the device says. *)
Record statusJSON := MkStatusJSON {
  sj_Report : Report;
  sj_Identity : bytes;                        (* omitted when empty *)
  sj_Peers : list (peerInfo * PeerReport);    (* in place of the report's *)
}.

(** What the command prints: the lines above the table, then its rows. *)
Inductive printed :=
  | Text (header : bytes) (table : list (list bytes))
  | Json_ (v : statusJSON).

Definition local_text (local : option PublicKey) : bytes :=
  match local with
  | Some k => if decide (k = zeroKey) then [] else PublicKey_String k
  | None => []
  end.

Definition renderStatusJSON (r : Report) (local : option PublicKey) (names : gmap bytes peerInfo) : statusJSON :=
  MkStatusJSON r (local_text local)
    (map (λ p, (default noInfo (names !! pr_PublicKey p), p)) (r_Peers r)).

(** The first [Fprintf] of [renderStatus]. *)
Definition status_header (r : Report) (local : option PublicKey) : bytes :=
  let identity := match local_text local with [] => str "-" | id => id end in
  let line (name value : bytes) := name ++ value ++ newline in
  line (str "interface: ") (r_Interface r) ++
  line (str "address:   ") (Join_strings (map Prefix_String (r_Addrs r)) (str " ")) ++
  line (str "port:      ") (Itoa (r_ListenPort r)) ++
  line (str "pubkey:    ") (r_PublicKey r) ++
  line (str "identity:  ") identity ++
  line (str "peers:     ") (Itoa (Z.of_nat (length (r_Peers r)))).

Definition table_header : list bytes :=
  [str "NAME"; str "IDENTITY"; str "OVERLAY"; str "ENDPOINT"; str "HANDSHAKE"; str "RX"; str "TX"; str "ROUTES"].

Section StatusCmd.
Context {ed : Ed25519} {js : Json state}.
Context (Key_String : wgKey → bytes).
Local Open Scope prog_scope.

(** [wg.Status]: the client is closed however the questions end. *)
Definition wg_Status (iface : bytes) : prog commandE (result Report) :=
  let*? osName := trigger (Lookup iface) in
  let*? _ := trigger OpenClient in
  let* r :=
    let* dev := trigger (AskDevice iface) in
    match dev with
    | Err _ => Ret (Err "getting wireguard device")
    | Ok dev =>
        let* addrs := trigger (AskAddrs osName) in
        Ret (status Key_String (Ok dev) addrs)
    end in
  let* _ := trigger CloseClient in
  Ret r.

(** The table follows when there are peers. *)
Definition render_text (r : Report) (local : option PublicKey) (names : gmap bytes peerInfo) (now : Z) : printed :=
  Text (status_header r local)
    (match r_Peers r with
     | [] => []
     | _ => table_header :: renderStatus r names now
     end).

(** [StatusCmd.Run], to what it prints; the state file is read twice. *)
Definition StatusCmd_Run (iface : bytes) (JSON : bool) : prog commandE (result printed) :=
  let*? report := wg_Status iface in
  let* known := trigger ReadState in
  let names := peerNames (KnownNodes known) in
  let* file := trigger ReadState in
  let local := LocalIdentity file in
  if JSON then Ret (Ok (Json_ (renderStatusJSON report local names)))
  else
    let* now := trigger Now in
    Ret (Ok (render_text report local names now)).
End StatusCmd.

(** ** The agent at the other end *)

(** What the handler's operations work on, and what they meet: the clocks, the
    order in which a map is walked, the random source, the members a revocation
    is handed to, and how the shutdown ends. *)
Record agent := MkAgent { ag_cluster : Cluster; ag_tokens : gmap tokenID token }.
Record met := MkMet {
  met_now : Z;                         (* seconds *)
  met_clock : Z;                       (* nanoseconds *)
  met_order : order;
  met_key : option bytes;
  met_sends : list (bytes * bool);
  met_leaving : result unit;           (* leaving.err *)
}.

Section Serving.
Context {ed : Ed25519} {sha : Sha256} {jm : Json recordMsg} {jmeta : Json Meta} {jr : Json trust_Records}.

(** [agentControl]'s operations. *)
Definition perform (w : met) {X} (e : handlerE X) (a : agent) : X * agent :=
  match e in handlerE X return X * agent with
  | Invite ttl uses =>
      let '(r, toks) := Mint (met_clock w) ttl uses (met_key w) (ag_tokens a) in
      (r, MkAgent (ag_cluster a) toks)
  | HRevoke target =>
      let '(r, c) := agentControl_Revoke (ag_cluster a) target (met_now w) (met_order w) in
      (r, MkAgent c (ag_tokens a))
  | HLeave force =>
      let '(r, c) := agentControl_Leave (ag_cluster a) force (met_now w) (met_sends w) in
      (match r with
       | Err e => Err e
       | Ok l => match met_leaving w with Err e => Err e | Ok _ => Ok l end
       end, MkAgent c (ag_tokens a))
  end.

Fixpoint performed (w : met) {A} (p : prog handlerE A) (a : agent) : A * agent :=
  match p with
  | Ret x => (x, a)
  | Vis e k => let '(x, a) := perform w e a in performed w (k x) a
  end.

(** One request, as the server handles it. *)
Definition served (w : met) (req : Request) (a : agent) : Response * agent := performed w (handle req) a.
End Serving.
