(* ===== verification/CommandsProps.v ===== *)
(** * CommandsProps: what the operator reads is what happened

    Leave, revoke and invite with the agent that serves them, leaving where no
    agent runs, and the status report. *)

From S2P Require Import Prelude Netip Overlay Identity Records TrustSet Demo Validity Convergence Slots Membership.
From S2P Require Import GoNet GoTime GoStrings State Cluster ClusterAdmit Tokens Prog Enrol Hosts Bind Wg Agent ConfigFile Status Control Listen Commands.

(** ** What a run shows *)

Definition call_of (h : happened commandE) : list (happened callE) :=
  match h with
  | Ev e x => match e in commandE X return X → list (happened callE) with
              | Calling e => λ x, [Ev e x]
              | _ => λ _, []
              end x
  end.
Definition stderr_of (h : happened callE) : list bytes :=
  match h with
  | Ev e x => match e in callE X return list bytes with Stderr t => [t] | _ => [] end
  end.

(** The screen, the answers of the agent, and the connections to it. *)
Definition screen (tr : list (happened commandE)) : list bytes := (tr ≫= call_of) ≫= stderr_of.
Definition answers (tr : list (happened commandE)) : list Response := (tr ≫= call_of) ≫= received_of.
Definition connections (tr : list (happened commandE)) : nat := sum_list (map opened (tr ≫= call_of)).

(** What a run does to the machine. *)
Definition changes (h : happened commandE) : bool :=
  match h with
  | Ev e _ => match e with RemoveInterface | OnHosts _ | RemoveState => true | _ => false end
  end.

Lemma calls_translated (tr : list (happened callE)) : map (seen_as (@Calling)) tr ≫= call_of = tr.
Proof. induction tr as [|[X e x] tr IH]; [done|]. cbn. f_equal. exact IH. Qed.

Lemma calls_unchanging (tr : list (happened callE)) : filter (λ h, changes h = true) (map (seen_as (@Calling)) tr) = [].
Proof. induction tr as [|[X e x] tr IH]; [done|]. cbn. by rewrite decide_False. Qed.

Lemma hosts_changes (tr : list (happened hostsE)) :
  filter (λ h, changes h = true) (map (seen_as (@OnHosts)) tr) = map (seen_as (@OnHosts)) tr.
Proof. induction tr as [|[X e x] tr IH]; [done|]. cbn. rewrite decide_True by done. by f_equal. Qed.

Lemma hosts_silent (tr : list (happened hostsE)) : map (seen_as (@OnHosts)) tr ≫= call_of = [].
Proof. induction tr as [|[X e x] tr IH]; [done|]. exact IH. Qed.

Lemma runs_say {A} text (f : unit → prog commandE A) tr r :
  runs (bind (say text) f) tr r →
  ∃ tr', tr = Ev (Calling (Stderr (text ++ newline))) () :: tr' ∧ runs (f ()) tr' r.
Proof. intros ([] & tr' & -> & H). eauto. Qed.

(** Calling the agent prints nothing. *)
Lemma call_silent path req tr a : runs (Call path req) tr a → screen (map (seen_as (@Calling)) tr) = [].
Proof. unfold screen. rewrite calls_translated. intros H. unfold Call in H. by run_events H. Qed.

Lemma no_agent_no_answer path req tr a : runs (Call path req) tr a → a = NoAgent → tr ≫= received_of = [].
Proof. intros H. unfold Call in H. by run_events H. Qed.

(** The notes of [report]. *)
Definition report_notes (Interface : bytes) (resp : Response) : list bytes :=
  map (λ t, t ++ newline)
    ((if rs_Revoked resp && (0 <? rs_Notified resp) then
        [str "left the cluster: revoked " ++ rs_Identity resp ++ str ", " ++ Itoa (rs_Notified resp) ++ str " member(s) told"]
      else if rs_Revoked resp then
        [str "left the cluster: revoked " ++ rs_Identity resp ++ str ", but no member could be reached";
         still_trusted (rs_Identity resp)]
      else
        [str "left the cluster without revoking " ++ rs_Identity resp; still_trusted (rs_Identity resp)]) ++
     [str "the agent has stopped and its state for " ++ Interface ++ str " is gone"]).

Lemma report_runs Interface resp tr r :
  runs (report Interface resp) tr r →
  r = Ok () ∧ screen tr = report_notes Interface resp ∧
  answers tr = [] ∧ connections tr = O ∧ filter (λ h, changes h = true) tr = [].
Proof.
  unfold report, report_notes, stillTrusted. intros H.
  destruct (rs_Revoked resp && (0 <? rs_Notified resp)); [|destruct (rs_Revoked resp)].
  all: repeat (apply runs_say in H as (? & -> & H) || (destruct H as [-> <-])); done.
Qed.

(** ** Leaving without an agent *)

(** The notes of [forced]. *)
Definition forced_notes (Interface : bytes) (known : option PublicKey) : list bytes :=
  map (λ t, t ++ newline)
    (match known with
     | None => [str "no state for " ++ Interface ++ str "; removed the interface and hosts entries, if any"]
     | Some id => [str "removed this node's state for " ++ Interface; still_trusted (PublicKey_String id)]
     end).

Section LeaveRuns.
Context {ed : Ed25519} {js : Json state}.
Variables (Interface socket : bytes) (Force : bool).

Lemma screen_app tr1 tr2 : screen (tr1 ++ tr2) = screen tr1 ++ screen tr2.
Proof. unfold screen. by rewrite !bind_app. Qed.
Lemma answers_app tr1 tr2 : answers (tr1 ++ tr2) = answers tr1 ++ answers tr2.
Proof. unfold answers. by rewrite !bind_app. Qed.
Lemma connections_app tr1 tr2 : connections (tr1 ++ tr2) = (connections tr1 + connections tr2)%nat.
Proof. unfold connections. by rewrite bind_app, map_app, sum_list_with_app. Qed.

(** The removal of what a stopped agent left: the interface, its block of the
    hosts file and the state file, in this order, up to what fails. *)
Lemma removeLeftovers_runs tr r :
  runs (removeLeftovers Interface) tr r →
  filter (λ h, changes h = true) tr = tr ∧ tr ≫= call_of = [] ∧
  (r = Ok () → ∃ htr rm, tr = Ev RemoveInterface (Ok ()) :: map (seen_as (@OnHosts)) htr ++ [Ev RemoveState rm] ∧
    runs (WriteEntries (hostsFor Interface) ∅ []) htr (Ok ()) ∧ Forget rm = Ok ()).
Proof.
  intros ([[]|e] & tr' & -> & H); [|by destruct H as [-> <-]].
  rewrite filter_cons_True by done. cbn [bind] in H. cbn [mbind list_bind app call_of].
  apply runs_bind in H as (tr1 & [[]|e] & tr2 & -> & H1 & H);
    apply runs_translate in H1 as (htr & H1 & ->); rewrite bind_app, filter_app, hosts_changes, hosts_silent.
  - apply runs_event in H as (rm & ? & -> & [-> <-]). split_and!; [done..|]. intros Hr. by exists htr, rm.
  - destruct H as [-> <-]. by rewrite !app_nil_r.
Qed.

Lemma forced_runs tr r :
  runs (forced Interface) tr r →
  answers tr = [] ∧ connections tr = O ∧
  (r = Ok () → ∃ file htr rm,
    filter (λ h, changes h = true) tr =
      Ev RemoveInterface (Ok ()) :: map (seen_as (@OnHosts)) htr ++ [Ev RemoveState rm] ∧
    runs (WriteEntries (hostsFor Interface) ∅ []) htr (Ok ()) ∧ Forget rm = Ok () ∧
    screen tr = forced_notes Interface (LocalIdentity file)).
Proof.
  intros H. apply runs_event in H as (file & tr' & -> & H). apply runs_bind in H as (tr3 & r' & tr4 & -> & H3 & H).
  apply removeLeftovers_runs in H3 as (H3 & H4 & Hok).
  change (Ev ReadState file :: ?l) with ([Ev ReadState file] ++ l).
  rewrite !answers_app, !connections_app, !filter_app, !screen_app, H3.
  unfold answers at 1 2, connections at 1 2, screen at 1 2. rewrite H4. cbn [mbind list_bind app call_of].
  destruct r' as [[]|e]; [|by destruct H as [-> <-]].
  unfold forced_notes.
  destruct (LocalIdentity file) eqn:El; repeat (apply runs_say in H as (? & -> & H)); destruct H as [-> <-];
    (split; [done|]); (split; [done|]); intros _; destruct (Hok eq_refl) as (htr & rm & -> & Hh & Hf);
    exists file, htr, rm; rewrite El; split_and!; try done; cbn; by rewrite app_nil_r.
Qed.

(** Only a command with [--force] that finds no agent changes the machine. *)
Theorem LeaveCmd_changes tr r :
  runs (LeaveCmd_Run Interface socket Force) tr r →
  filter (λ h, changes h = true) tr ≠ [] → Force = true ∧ connections tr = O.
Proof.
  intros H. apply runs_bind in H as (tr1 & a & tr2 & -> & H1 & H).
  apply runs_translate in H1 as (ctr & H1 & ->). rewrite filter_app, calls_unchanging, connections_app. cbn [app].
  pose proof (Call_spec _ _ _ _ H1) as (_ & Hno & _). unfold connections at 1. rewrite calls_translated.
  destruct a as [| |resp].
  - rewrite (proj1 Hno eq_refl). destruct Force; [|by destruct H as [-> _]]. intros _. split; [done|].
    by apply forced_runs in H as (_ & -> & _).
  - by destruct H as [-> _].
  - apply report_runs in H as (_ & _ & _ & _ & ->). done.
Qed.

(** Forced with no agent to tell, it succeeds only when the interface, the
    hosts entries and the state file are gone, and names the identity the
    state file held, for a member to revoke. *)
Theorem LeaveCmd_forced tr :
  runs (LeaveCmd_Run Interface socket Force) tr (Ok ()) → connections tr = O →
  ∃ file htr rm, Force = true ∧
    filter (λ h, changes h = true) tr =
      Ev RemoveInterface (Ok ()) :: map (seen_as (@OnHosts)) htr ++ [Ev RemoveState rm] ∧
    runs (WriteEntries (hostsFor Interface) ∅ []) htr (Ok ()) ∧ Forget rm = Ok () ∧
    screen tr = forced_notes Interface (LocalIdentity file).
Proof.
  intros H Hno. apply runs_bind in H as (tr1 & a & tr2 & -> & H1 & H).
  apply runs_translate in H1 as (ctr & H1 & ->).
  pose proof (Call_spec _ _ _ _ H1) as (_ & Hc & _).
  assert (a = NoAgent) as ->.
  { apply Hc. rewrite connections_app in Hno. unfold connections in Hno at 1. rewrite calls_translated in Hno. lia. }
  rewrite filter_app, calls_unchanging, screen_app, (call_silent _ _ _ _ H1). cbn [app].
  destruct Force; [|by destruct H as [_ [=]]].
  apply forced_runs in H as (_ & _ & Hok). destruct (Hok eq_refl) as (file & htr & rm & H). by exists file, htr, rm.
Qed.
End LeaveRuns.

(** ** The command and the agent together *)

Section EndToEnd.
Context {ed : Ed25519} {ed_ok : Ed25519Ok} {sha : Sha256}.
Context {jm : Json recordMsg} {jmeta : Json Meta} {jr : Json trust_Records} {js : Json state}.
Variables (Interface socket : bytes) (Force : bool).

(** C37: where the agent's leave is answered, the node is no member afterwards,
    and that is saved; the command fails exactly if forgetting the cluster did;
    and if it succeeds the operator is told that the cluster still trusts the
    node, with its identity, exactly when no member took the revocation. (It
    must not have been revoked before.) *)
Theorem leave_end_to_end w a resp a' tr r :
  let c := ag_cluster a in
  encodable → node_ok c → revocations (c_set c) !! Public (c_id c) = None → met_now w ≤ max_int64 →
  match met_leaving w with Err e => error_text e ≠ [] | Ok _ => True end →
  served w (MkRequest OpLeave [] 0 [] Force) a = (resp, a') →
  runs (LeaveCmd_Run Interface socket Force) tr r → answers tr = [resp] →
  node_ok (ag_cluster a') ∧ valid (c_set (ag_cluster a')) (Public (c_id c)) = false ∧
  is_ok r = is_ok (met_leaving w) ∧
  (r = Ok () → ∃ text, ParsePublicKey text = Ok (Public (c_id c)) ∧
    (still_trusted text ++ newline ∈ screen tr ↔ told c (met_sends w) = [])).
Proof.
  intros c Henc Hok Hno Hnow He Hs H Ha.
  destruct (leave_revokes c Force (met_now w) (met_sends w) Henc Hok Hno Hnow)
    as (l & c' & Hl & Hok' & Hv & Hp & Hrev & Hn).
  unfold served, handle in Hs. cbn [rq_Op rq_Force] in Hs.
  rewrite !decide_False, decide_True in Hs by done. cbn [bind trigger performed perform] in Hs.
  fold c in Hs. rewrite Hl in Hs. cbn [performed] in Hs. injection Hs as Hresp <-. cbn [ag_cluster].
  split; [done|]. split; [done|].
  apply runs_bind in H as (tr1 & a1 & tr2 & -> & H1 & H).
  apply runs_translate in H1 as (ctr & H1 & ->).
  rewrite answers_app in Ha. unfold answers in Ha at 1. rewrite calls_translated in Ha.
  pose proof (Call_spec _ _ _ _ H1) as (_ & Hc & Hgot).
  rewrite screen_app, (call_silent _ _ _ _ H1). cbn [app].
  destruct a1 as [| |resp'].
  - assert (ctr ≫= received_of = [] ∧ answers tr2 = []) as [E1 E2].
    { split; [by eapply no_agent_no_answer|].
      destruct Force; [apply forced_runs in H; tauto|by destruct H as [-> _]]. }
    by rewrite E1, E2 in Ha.
  - destruct H as [-> <-]. rewrite app_nil_r in Ha. split; [|done].
    destruct (met_leaving w) as [[]|e]; [|done].
    assert (CallFailed = CallOk resp) as [=]. apply Hgot. split; [done|]. rewrite <-Hresp. done.
  - apply report_runs in H as (-> & Hn' & Ha' & _). rewrite Ha', app_nil_r in Ha.
    destruct (proj1 (Hgot resp') eq_refl) as [Hg Hcr]. rewrite Ha in Hg. injection Hg as <-.
    destruct (met_leaving w) as [[]|e].
    + split; [done|]. intros _. exists (lr_Identity l). split; [done|]. rewrite Hn', <-Hresp.
      unfold report_notes. cbn. rewrite Hrev, Hn. cbn [andb].
      destruct (told c (met_sends w)) as [|m ms]; cbn [length].
      * split; [done|]. intros _. cbn. right. left.
      * replace (0 <? Z.of_nat (S (length ms))) with true by (symmetry; apply Z.ltb_lt; lia).
        split; [|done]. by intros [Hs|[Hs|Hs%elem_of_nil]%elem_of_cons]%elem_of_cons.
    + exfalso. rewrite <-Hresp in Hcr. unfold call_result in Hcr. by rewrite decide_False in Hcr.
Qed.

Lemma revoke_errors c target now o e :
  (agentControl_Revoke c target now o).1 = Err e → error_text e ≠ [].
Proof.
  unfold agentControl_Revoke. cbv zeta.
  destruct (match ParsePublicKey target with Ok id => Ok id | Err _ => _ end) as [id|e'] eqn:E.
  - case_decide; [by intros [= <-]|]. destruct (Revoke_Ok c id now) as [H1 _].
    by destruct (Revoke_ c id now) as [[[]|?] c'].
  - destruct (ParsePublicKey target); [done|]. destruct (ByName _ _ _) as [adm ok].
    destruct (negb ok); [|done]. injection E as <-. by intros [= <-].
Qed.

(** The operator who revokes reads the identity that was revoked, which the
    target means; a target that means nobody, or this node, prints nothing. *)
Theorem revoke_end_to_end w a target resp a' tr r :
  let c := ag_cluster a in
  node_ok c → iteration (c_set c) (met_order w) →
  served w (MkRequest OpRevoke [] 0 target false) a = (resp, a') →
  runs (RevokeCmd_Run socket target) tr r → tr ≫= received_of = [resp] →
  match r with
  | Ok _ => ∃ id, means c target id ∧ id ≠ Public (c_id c) ∧
      is_Some (revocations (c_set (ag_cluster a')) !! id) ∧ node_ok (ag_cluster a') ∧
      tr ≫= stderr_of = [str "revoked " ++ target ++ str " (" ++ rs_Identity resp ++ str ")" ++ newline] ∧
      ParsePublicKey (rs_Identity resp) = Ok id
  | Err _ => tr ≫= stderr_of = [] ∧ ag_cluster a' = c ∧ ∀ id, means c target id → id = Public (c_id c)
  end.
Proof.
  intros c Hok Ho Hs H Ha.
  unfold served, handle in Hs. cbn [rq_Op rq_Target] in Hs.
  rewrite decide_False, decide_True in Hs by done. cbn [bind trigger performed perform] in Hs. fold c in Hs.
  pose proof (agentControl_Revoke_spec c target (met_now w) (met_order w) Hok Ho) as Hspec.
  destruct (agentControl_Revoke c target (met_now w) (met_order w)) as [x c'] eqn:Ex.
  cbn [performed] in Hs. injection Hs as Hresp <-. cbn [ag_cluster].
  pose proof (revoke_errors c target (met_now w) (met_order w)) as Herr. rewrite Ex in Herr.
  unfold RevokeCmd_Run, Call in H. run_events H; cbn in Ha |- *; try done; injection Ha as ->.
  - split; [done|]. destruct x as [text|e]; [|exact Hspec]. by rewrite <-Hresp in *.
  - destruct x as [text|e]; rewrite <-Hresp in *; cbn in *.
    + destruct Hspec as (id & H1 & H2 & H3 & H4 & H5). by exists id.
    + exfalso. specialize (Herr e eq_refl). tauto.
Qed.

(** The operator who invites reads a token the agent keeps, for the time and the
    uses asked for; where no token was made, nothing that could be taken for
    one. *)
Theorem invite_end_to_end w a ttl uses resp a' tr r :
  (∀ key, met_key w = Some key → length key = tokenLen) →
  - 2 ^ 63 ≤ ttl < 2 ^ 63 →
  served w (MkRequest OpInvite (Duration_String ttl) uses [] false) a = (resp, a') →
  runs (InviteCmd_Run socket ttl uses) tr r → tr ≫= received_of = [resp] →
  ag_cluster a' = ag_cluster a ∧
  match r with
  | Ok _ => ∃ key text, 0 < ttl ∧ 0 < uses ∧
      tr ≫= stdout_of = [text ++ newline] ∧ decodeToken text = Ok key ∧
      ag_tokens a' !! idOf key = Some (MkToken key (met_clock w + ttl) uses)
  | Err _ => tr ≫= stdout_of = [] ∧ ag_tokens a' = ag_tokens a
  end.
Proof.
  intros Hkey Httl Hs H Ha.
  unfold served, handle in Hs. cbn [rq_Op rq_TTL rq_Uses] in Hs.
  rewrite decide_True, ParseDuration_String in Hs by done.
  assert (Hans : ag_cluster a' = ag_cluster a ∧
    ((rs_Error resp ≠ [] ∧ ag_tokens a' = ag_tokens a) ∨
     rs_Error resp = [] ∧ ∃ key, 0 < ttl ∧ 0 < uses ∧
       decodeToken (rs_Token resp) = Ok key ∧
       ag_tokens a' !! idOf key = Some (MkToken key (met_clock w + ttl) uses))).
  { cbn [bind trigger performed perform] in Hs. unfold Mint in Hs.
    destruct ((ttl <=? 0) || (uses <=? 0)) eqn:Epos; [injection Hs as <- <-; auto|].
    destruct (met_key w) as [key|] eqn:Ek; injection Hs as <- <-; [|auto]. split; [done|]. right.
    split; [done|]. exists key. split_and!; [lia|lia| |apply lookup_insert_eq].
    by apply decodeToken_encodeToken, Hkey. }
  destruct Hans as [Hc Hans]. split; [done|].
  unfold InviteCmd_Run, Call in H. run_events H; cbn in Ha |- *; try done; injection Ha as ->;
    (destruct Hans as [[He Ht]|(He & key & Hans)]; [tauto|]); [tauto|].
  destruct Hans as (H1 & H2 & H3 & H4). by exists key, (rs_Token resp).
Qed.
End EndToEnd.

(** ** What the status shows *)

Section StatusRuns.
Context {ed : Ed25519} {js : Json state}.
Context (Key_String : wgKey → bytes).

(** The WireGuard clients a run opened and closed. *)
Definition client_opened (h : happened commandE) : nat :=
  match h with
  | Ev e x => match e in commandE X return X → nat with
              | OpenClient => λ r, if is_ok r then 1%nat else O
              | _ => λ _, O
              end x
  end.
Definition client_closed (h : happened commandE) : nat :=
  match h with Ev e _ => match e with CloseClient => 1%nat | _ => O end end.

#[local] Instance row_le_total names : Total (row_le names).
Proof.
  intros x y. unfold row_le. destruct (bytes_ltb (peerName y names) (peerName x names)) eqn:E; [right|by left].
  by apply bytes_ltb_asym.
Qed.

(** The table has one row for each peer of the report, by name. *)
Lemma renderStatus_rows r names now :
  ∃ peers, renderStatus r names now = map (row names now) peers ∧
    peers ≡ₚ r_Peers r ∧ Sorted (row_le names) peers.
Proof.
  eexists. split; [reflexivity|]. split; [apply merge_sort_Permutation|]. apply Sorted_merge_sort, row_le_total.
Qed.

(** What is printed of a device and its addresses, and two readings of the
    state file: every peer of the device once, in the text by name, each with
    what the file knows of its key. *)
Definition shows (dev : Device) (addrs : list Prefix) (known file : read_file) (out : printed) : Prop :=
  let names := peerNames (KnownNodes known) in
  let peers := map (peerReport Key_String) (d_Peers dev) in
  ∃ r, status Key_String (Ok dev) (Ok addrs) = Ok r ∧
  match out with
  | Json_ v => sj_Report v = r ∧ sj_Identity v = local_text (LocalIdentity file) ∧
      sj_Peers v = map (λ p, (default noInfo (names !! pr_PublicKey p), p)) peers
  | Text header table => header = status_header r (LocalIdentity file) ∧
      match table with
      | [] => peers = []
      | first :: rows => first = table_header ∧ ∃ now sorted,
          rows = map (row names now) sorted ∧ sorted ≡ₚ peers ∧ Sorted (row_le names) sorted
      end
  end.

(** A question of [wg.Status] that failed. *)
Definition failed (h : happened commandE) : Prop :=
  match h with
  | Ev e x => match e in commandE X return X → Prop with
              | Lookup _ => λ x, is_ok x = false
              | OpenClient => λ x, is_ok x = false
              | AskDevice _ => λ x, is_ok x = false
              | AskAddrs _ => λ x, is_ok x = false
              | _ => λ _, False
              end x
  end.

Lemma wg_Status_runs iface tr r :
  runs (wg_Status Key_String iface) tr r →
  sum_list (map client_opened tr) = sum_list (map client_closed tr) ∧
  filter (λ h, changes h = true) tr = [] ∧ tr ≫= call_of = [] ∧
  match r with
  | Err _ => Exists failed tr
  | Ok rep => ∃ osName dev addrs,
      tr = [Ev (Lookup iface) (Ok osName); Ev OpenClient (Ok ()); Ev (AskDevice iface) (Ok dev);
            Ev (AskAddrs osName) (Ok addrs); Ev CloseClient ()] ∧
      status Key_String (Ok dev) (Ok addrs) = Ok rep
  end.
Proof.
  intros H. unfold wg_Status in H. run_events H.
  all: (split; [done|]); (split; [done|]); (split; [done|]).
  1: { destruct x1, x3. by exists x, x0, x2. }
  all: cbn [status]; repeat first [apply Exists_cons_hd; done|apply Exists_cons_tl].
Qed.

(** The status command closes the client it opens, changes nothing and asks no
    agent; it fails only if the device or its addresses cannot be read, and
    not for want of a state file. *)
Theorem StatusCmd_shows iface JSON tr r :
  runs (StatusCmd_Run Key_String iface JSON) tr r →
  sum_list (map client_opened tr) = sum_list (map client_closed tr) ∧
  filter (λ h, changes h = true) tr = [] ∧ tr ≫= call_of = [] ∧
  match r with
  | Err _ => Exists failed tr
  | Ok out => ∃ osName dev addrs known file rest,
      tr = [Ev (Lookup iface) (Ok osName); Ev OpenClient (Ok ()); Ev (AskDevice iface) (Ok dev);
            Ev (AskAddrs osName) (Ok addrs); Ev CloseClient (); Ev ReadState known; Ev ReadState file] ++ rest ∧
      shows dev addrs known file out
  end.
Proof.
  intros H. unfold StatusCmd_Run, wg_Status in H.
  apply runs_bind in H as (tr1 & rep & tr2 & -> & H1 & H).
  destruct (wg_Status_runs _ _ _ H1) as (Hc & Hf & Ha & Hr). clear H1.
  rewrite !map_app, !sum_list_with_app, filter_app, bind_app, Hf, Ha, Hc.
  destruct rep as [rep|e].
  - destruct Hr as (osName & dev & addrs & -> & Hst).
    destruct JSON; run_events H; (split; [done|]); (split; [done|]); (split; [done|]).
    + eexists osName, dev, addrs, _, _, []. split; [done|]. exists rep. split; [done|].
      unfold status in Hst. by injection Hst as <-.
    + eexists osName, dev, addrs, _, _, _. split; [done|]. exists rep. split; [done|]. split; [done|].
      assert (Hp : r_Peers rep = map (peerReport Key_String) (d_Peers dev)) by (by injection Hst as <-).
      rewrite <-Hp. destruct (renderStatus_rows rep (peerNames (KnownNodes x)) x0) as (sorted & -> & Hs).
      destruct (r_Peers rep); [done|]. split; [done|]. by exists x0, sorted.
  - destruct H as [-> <-]. rewrite !Nat.add_0_r. split_and!; [done..|].
    apply Exists_app. by left.
Qed.
End StatusRuns.
