(* ===== verification/Windows.v ===== *)
(** * Windows: what is different there (internal/cluster/replace_windows.go, internal/cli/execute_windows.go)

    A file somebody else has open cannot be replaced or read, so the state file
    is tried again for a while; and the agent runs as a service, which reports
    its state to the Service Control Manager and stops when told so. What the
    agent itself reports while it runs goes into the same channel and is not
    in the list here. *)

From S2P Require Import Prelude.

(** ** Waiting for a busy file *)

Inductive fileErr := ACCESS_DENIED | SHARING_VIOLATION | OtherFileErr.

(** Durations in nanoseconds. *)
Definition busyWait : Z := 2 * 10 ^ 9.
Definition pause : Z := 10 * 10 ^ 6.

Definition busy (e : fileErr) : bool :=
  match e with ACCESS_DENIED | SHARING_VIOLATION => true | OtherFileErr => false end.

(** [retryBusy]: [op k] is what the operation answers the [k]-th time, [clock k]
    the time after it; the deadline was set at [began]. *)
Fixpoint retryBusy (fuel : nat) (op : nat → option fileErr) (clock : nat → Z) (began : Z) (k : nat)
    : option (nat * option fileErr) :=
  match fuel with
  | O => None
  | S fuel =>
      let err := op k in
      let deadline := began + busyWait in
      if match err with None => true | Some e => negb (busy e) end || (deadline <? clock k) then Some (k, err)
      else retryBusy fuel op clock began (S k)
  end.

(** The pauses between the attempts that fit into the wait, and two more. *)
Definition retry_fuel : nat := 202.

Section Retry.
Context (op : nat → option fileErr) (clock : nat → Z) (began : Z).
(** Time does not go back, and the pause takes its time. *)
Hypothesis clock_starts : began ≤ clock O.
Hypothesis clock_pause : ∀ k, clock k + pause ≤ clock (S k).

Lemma clock_after k : began + Z.of_nat k * pause ≤ clock k.
Proof.
  induction k as [|k IH]; [lia|]. specialize (clock_pause k).
  replace (Z.of_nat (S k) * pause) with (Z.of_nat k * pause + pause) by lia. lia.
Qed.

Definition still_busy (j : nat) : Prop :=
  (∃ e, op j = Some e ∧ busy e = true) ∧ clock j ≤ began + busyWait.

Lemma retryBusy_from fuel k :
  (retry_fuel ≤ k + fuel)%nat → (∀ j, (j < k)%nat → still_busy j) →
  ∃ n, retryBusy fuel op clock began k = Some (n, op n) ∧ (∀ j, (j < n)%nat → still_busy j) ∧ ¬ still_busy n.
Proof.
  revert k. induction fuel as [|fuel IH]; intros k Hf Hb.
  - exfalso. destruct (Hb 201%nat) as [_ H]; [unfold retry_fuel in Hf; lia|].
    pose proof (clock_after 201). unfold pause, busyWait in *. lia.
  - cbn [retryBusy]. destruct (match op k with None => true | Some e => negb (busy e) end || _) eqn:E.
    + exists k. split_and!; [done|done|]. intros [(e & He & Hbe) Ht]. rewrite He, Hbe in E.
      cbn in E. apply Z.ltb_lt in E. lia.
    + apply IH; [lia|]. intros j Hj. destruct (decide (j = k)) as [->|]; [|apply Hb; lia].
      apply orb_false_iff in E as [E1 E2]. split; [|apply Z.ltb_ge in E2; lia].
      destruct (op k) as [e|]; [|done]. exists e. split; [done|]. by destruct (busy e).
Qed.

(** [retryBusy] always ends, after 202 attempts at the most, with the
    answer of the first attempt that succeeds, fails for another reason, or
    comes back after the wait is over. *)
Theorem retryBusy_ends :
  ∃ n, retryBusy retry_fuel op clock began O = Some (n, op n) ∧ (n < retry_fuel)%nat ∧
    (∀ j, (j < n)%nat → still_busy j) ∧ ¬ still_busy n.
Proof.
  destruct (retryBusy_from retry_fuel O) as (n & Hr & Hb & Hn); [lia|intros j Hj; lia|].
  exists n. split_and!; [done| |done|done]. unfold retry_fuel.
  destruct (decide (n < 202)%nat) as [|Hge]; [done|].
  destruct (Hb 201%nat) as [_ H]; [lia|]. pose proof (clock_after 201). unfold pause, busyWait in *. lia.
Qed.

(** So a busy error is only returned when the file was busy for the whole wait. *)
Corollary retryBusy_busy n e :
  retryBusy retry_fuel op clock began O = Some (n, Some e) → busy e = true → began + busyWait < clock n.
Proof.
  destruct retryBusy_ends as (n' & Hr & _ & _ & Hn). rewrite Hr. intros [= -> He] Hb.
  destruct (decide (began + busyWait < clock n)) as [|Hle]; [done|]. exfalso. apply Hn. split; [|lia].
  by exists e.
Qed.
End Retry.

(** A file that is busy for four attempts, a millisecond each. *)
Definition demo_op (k : nat) : option fileErr := if (k <? 4)%nat then Some SHARING_VIOLATION else None.
Definition demo_clock (k : nat) : Z := (Z.of_nat k + 1) * (11 * 10 ^ 6).

Lemma retryBusy_ends_witness : ∃ n, retryBusy retry_fuel demo_op demo_clock 0 O = Some (n, demo_op n) ∧ n = 4%nat.
Proof.
  destruct (retryBusy_ends demo_op demo_clock 0) as (n & Hr & _).
  - unfold demo_clock. lia.
  - intros k. unfold demo_clock, pause. lia.
  - exists n. split; [done|]. vm_compute in Hr. by injection Hr.
Defined.

(** ** The service *)

Inductive svcState := StartPending | Running | StopPending | Stopped.
Inductive svcCmd := Interrogate | StopCmd | ShutdownCmd | OtherCmd.

(** What [service.Execute] waits for: the end of the command it runs, or a
    request of the manager with the state it believes in. *)
Inductive svcInput := RunDone (failed : bool) | SvcRequest (cmd : svcCmd) (current : svcState).

(** What it reports, whether it has cancelled the command, and what it
    returns to the manager: whether the exit code is the service's own, and the code. *)
Record svcRun := MkSvcRun {
  sv_changes : list svcState;
  sv_cancelled : bool;
  sv_exit : option (bool * Z);
}.

(** The loop of [service.Execute]; inputs after the end are not read. *)
Fixpoint service_loop (r : svcRun) (inputs : list svcInput) : svcRun :=
  match inputs with
  | [] => r
  | RunDone failed :: _ =>
      MkSvcRun (sv_changes r ++ [Stopped]) true (Some (if failed then (true, 1) else (false, 0)))
  | SvcRequest Interrogate current :: inputs =>
      service_loop (MkSvcRun (sv_changes r ++ [current]) (sv_cancelled r) (sv_exit r)) inputs
  | SvcRequest StopCmd _ :: inputs | SvcRequest ShutdownCmd _ :: inputs =>
      service_loop (MkSvcRun (sv_changes r) true (sv_exit r)) inputs
  | SvcRequest OtherCmd _ :: inputs => service_loop r inputs
  end.

(** [cancel] is deferred, so the end cancels too. *)
Definition service_Execute (inputs : list svcInput) : svcRun :=
  service_loop (MkSvcRun [StartPending] false None) inputs.

(** The requests before the command ended, and how it ended. *)
Fixpoint until_done (inputs : list svcInput) : list (svcCmd * svcState) * option bool :=
  match inputs with
  | [] => ([], None)
  | RunDone failed :: _ => ([], Some failed)
  | SvcRequest c s :: inputs => ((c, s) :: (until_done inputs).1, (until_done inputs).2)
  end.

Definition interrogated (c : svcCmd * svcState) : list svcState :=
  match c.1 with Interrogate => [c.2] | _ => [] end.
Definition stops (c : svcCmd * svcState) : bool :=
  match c.1 with StopCmd | ShutdownCmd => true | _ => false end.

Lemma service_loop_spec r inputs :
  let '(reqs, ended) := until_done inputs in
  service_loop r inputs =
    MkSvcRun (sv_changes r ++ (reqs ≫= interrogated) ++ match ended with Some _ => [Stopped] | None => [] end)
      (sv_cancelled r || existsb stops reqs || match ended with Some _ => true | None => false end)
      match ended with Some failed => Some (if (failed : bool) then (true, 1) else (false, 0)) | None => sv_exit r end.
Proof.
  revert r. induction inputs as [|[failed|c s] inputs IH]; intros r; cbn.
  - rewrite app_nil_r, !orb_false_r. by destruct r.
  - by rewrite orb_true_r.
  - destruct (until_done inputs) as [reqs ended] eqn:E. cbn.
    destruct c; cbn; rewrite IH; cbn; rewrite <- ?app_assoc; cbn; [done| | |done].
    all: by rewrite orb_true_r.
Qed.

(** The service answers what it is asked in between, cancels the command
    when it is told to stop and not before, and reports [Stopped] once, last,
    when the command has ended, with an exit code that tells a failure. *)
Theorem service_spec inputs :
  let '(reqs, ended) := until_done inputs in
  let r := service_Execute inputs in
  sv_changes r = [StartPending] ++ (reqs ≫= interrogated) ++ match ended with Some _ => [Stopped] | None => [] end ∧
  (ended = None → sv_cancelled r = existsb stops reqs) ∧
  sv_exit r = (λ failed : bool, if failed then (true, 1) else (false, 0)) <$> ended.
Proof.
  pose proof (service_loop_spec (MkSvcRun [StartPending] false None) inputs) as H.
  destruct (until_done inputs) as [reqs ended]. unfold service_Execute. rewrite H. cbn. split_and!; [done| |by destruct ended].
  intros ->. by rewrite orb_false_r.
Qed.
