(* ===== verification/Notify.v ===== *)
(** * Notify: the service managers (internal/notify, internal/cli/execute.go, execute_other.go, execute_windows.go, service_windows.go)

    What the agent tells the manager it runs under, by the notifier of that
    manager: systemd's socket, the status channel of the Windows Service
    Control Manager, or none; how a command is run under each; and how the
    Windows service is installed and removed. *)

From S2P Require Import Prelude Netip Overlay Identity State GoNet Prog Enrol Hosts Agent AgentProps AgentRun Listen ConfigFile.
From S2P Require Windows.
Import Windows(svcState(..)).

(** ** Notifiers *)

(** What a notifier reaches: the environment and a datagram socket, or the
    channel of the Windows service. *)
Inductive notifyE : Type → Type :=
  | Getenv (name : bytes) : notifyE bytes
  | DialUnixgram (path : bytes) : notifyE (result unit)
  | WriteConn (b : bytes) : notifyE (result unit)
  | CloseUnixgram : notifyE unit
  | Changes (s : svcState) (stoppable : bool) : notifyE unit.     (* blocks until it is read *)

(** The interface. *)
Record Notifier := MkNotifier {
  n_Ready : bytes → prog notifyE (result unit);
  n_Status : bytes → prog notifyE (result unit);
  n_Stopping : prog notifyE (result unit);
}.

Section Notifiers.
Local Open Scope prog_scope.

Definition None_ : Notifier := MkNotifier (λ _, Ret (Ok ())) (λ _, Ret (Ok ())) (Ret (Ok ())).

(** [Systemd.Send] *)
Definition Send (assignments : list bytes) : prog notifyE (result unit) :=
  let* path := trigger (Getenv (str "NOTIFY_SOCKET")) in
  if decide (path = []) then Ret (Ok ())
  else
    let* conn := trigger (DialUnixgram path) in
    match conn with
    | Err e => Ret (Err e)
    | Ok _ =>
        let* err := trigger (WriteConn (Join_strings assignments newline)) in
        let* _ := trigger CloseUnixgram in
        Ret err
    end.

Definition Systemd : Notifier :=
  MkNotifier (λ status, Send [str "READY=1"; str "STATUS=" ++ status])
    (λ status, Send [str "STATUS=" ++ status]) (Send [str "STOPPING=1"]).

(** [Accepts] is [AcceptStop|AcceptShutdown] or nothing. *)
Definition SCM : Notifier :=
  MkNotifier (λ _, let* _ := trigger (Changes Running true) in Ret (Ok ()))
    (λ _, Ret (Ok ()))
    (let* _ := trigger (Changes StopPending false) in Ret (Ok ())).
End Notifiers.

Inductive goos := Linux_ | Darwin_ | Windows_.

(** [Default] *)
Definition Default (os : goos) : Notifier := match os with Linux_ => Systemd | Darwin_ | Windows_ => None_ end.

(** What the agent says, as the manager's notifier passes it on. *)
Definition peers_text (n : nat) : bytes := Itoa (Z.of_nat n) ++ str " peers".
Definition idle_text : bytes := str "waiting to be configured".

Inductive notice := Said_ready (status : bytes) | Said_status (status : bytes) | Said_stopping.

Definition notify (n : Notifier) (x : notice) : prog notifyE (result unit) :=
  match x with
  | Said_ready status => n_Ready n status
  | Said_status status => n_Status n status
  | Said_stopping => n_Stopping n
  end.

(** The notices among what the loop does. *)
Definition notice_of (h : happened agentE) : list notice :=
  match h with
  | Ev e _ => match e with
              | Ready n => [Said_ready (peers_text n)]
              | Status n => [Said_status (peers_text n)]
              | Stopping => [Said_stopping]
              | _ => []
              end
  end.

(** ** Running a command *)

Inductive launchE : Type → Type :=
  | IsWindowsService : launchE (result bool)
  | ParseLevel : launchE (result Z)                        (* c.LogLevel.Level *)
  | MkdirState : launchE (result unit)
  | OpenLogFile : launchE (result unit)
  | SetLogger (level : Z) : launchE unit                   (* slog.SetDefault, to the file *)
  | CloseLogFile : launchE unit
  | RunCommand (n : Notifier) : launchE (result unit)      (* run, under no context's control *)
  | RunService : launchE (result unit).                    (* svc.Run of the service *)

(** The commands on the service manager. *)
Inductive scmE : Type → Type :=
  | Executable : scmE (result bytes)
  | ConnectSCM : scmE (result unit)
  | DisconnectSCM : scmE unit
  | OpenService (name : bytes) : scmE (result unit)
  | CreateService (name exe arg : bytes) : scmE (result unit)    (* StartAutomatic *)
  | DeleteService : scmE (result unit)
  | CloseService : scmE unit
  | Printf (text : bytes) : scmE unit.

Section Launch.
Local Open Scope prog_scope.

(** [Execute] *)
Definition Execute_other (os : goos) : prog launchE (result unit) := trigger (RunCommand (Default os)).

Definition openLog (level : Z) : prog launchE (result unit) :=
  let*? _ := trigger MkdirState in
  let* f := trigger OpenLogFile in
  match f with
  | Err _ => Ret (Err "opening the log file")
  | Ok _ =>
      let* _ := trigger (SetLogger level) in
      Ret (Ok ())
  end.

Definition Execute_windows : prog launchE (result unit) :=
  let* isService := trigger IsWindowsService in
  match isService with
  | Err _ => Ret (Err "asking whether this is a service")
  | Ok isService =>
      if negb isService then trigger (RunCommand (Default Windows_))
      else
        let*? level := trigger ParseLevel in
        let*? _ := openLog level in
        let* err := trigger RunService in
        let* _ := trigger CloseLogFile in
        Ret err
  end.

Definition ServiceName : bytes := str "cheesecloth".

Definition ServiceInstallCmd_Run : prog scmE (result unit) :=
  let*? exe := trigger Executable in
  let* m := trigger ConnectSCM in
  match m with
  | Err _ => Ret (Err "connecting to the service manager (run as administrator)")
  | Ok _ =>
      let* r :=
        let* s := trigger (OpenService ServiceName) in
        match s with
        | Ok _ =>
            let* _ := trigger CloseService in
            Ret (Err "the service exists already")
        | Err _ =>
            let* s := trigger (CreateService ServiceName exe (str "agent")) in
            match s with
            | Err _ => Ret (Err "creating the service")
            | Ok _ =>
                let* _ := trigger (Printf (str "service " ++ ServiceName ++
                  str " installed; settings come from the config file. Start it with: sc start " ++ ServiceName ++ newline)) in
                let* _ := trigger CloseService in
                Ret (Ok ())
            end
        end in
      let* _ := trigger DisconnectSCM in
      Ret r
  end.

Definition ServiceUninstallCmd_Run : prog scmE (result unit) :=
  let* m := trigger ConnectSCM in
  match m with
  | Err _ => Ret (Err "connecting to the service manager (run as administrator)")
  | Ok _ =>
      let* r :=
        let* s := trigger (OpenService ServiceName) in
        match s with
        | Err _ => Ret (Err "the service is not installed")
        | Ok _ =>
            let* r :=
              let* err := trigger DeleteService in
              match err with
              | Err _ => Ret (Err "removing the service")
              | Ok _ =>
                  let* _ := trigger (Printf (str "service " ++ ServiceName ++ str " removed" ++ newline)) in
                  Ret (Ok ())
              end in
            let* _ := trigger CloseService in
            Ret r
        end in
      let* _ := trigger DisconnectSCM in
      Ret r
  end.
End Launch.

(** ** What systemd hears *)

Definition sent_of (h : happened notifyE) : list bytes :=
  match h with
  | Ev e x => match e in notifyE X return X → list bytes with
              | WriteConn b => λ x, if is_ok x then [b] else []
              | _ => λ _, []
              end x
  end.
Definition unix_opened (h : happened notifyE) : nat :=
  match h with
  | Ev e x => match e in notifyE X return X → nat with
              | DialUnixgram _ => λ x, if is_ok x then 1%nat else O
              | _ => λ _, O
              end x
  end.
Definition unix_closed (h : happened notifyE) : nat :=
  match h with Ev e _ => match e with CloseUnixgram => 1%nat | _ => O end end.
(** What the environment says of the socket. *)
Definition socket_of (h : happened notifyE) : list bytes :=
  match h with
  | Ev e x => match e in notifyE X return X → list bytes with
              | Getenv _ => λ x, [x]
              | _ => λ _, []
              end x
  end.

(** sd_notify(3): a datagram holds newline-separated assignments. *)
Fixpoint assignments_from (line : bytes) (t : bytes) : list bytes :=
  match t with
  | [] => [reverse line]
  | c :: t => if decide (c = nl) then reverse line :: assignments_from [] t else assignments_from (c :: line) t
  end.
Definition assignments_in (t : bytes) : list bytes := assignments_from [] t.

Lemma assignments_line line s t :
  nl ∉ s → assignments_from line (s ++ nl :: t) = (reverse line ++ s) :: assignments_from [] t.
Proof.
  revert line. induction s as [|c s IH]; intros line Hs; cbn [app assignments_from].
  - by rewrite decide_True, app_nil_r.
  - apply not_elem_of_cons in Hs as [Hc Hs]. rewrite decide_False by done.
    rewrite IH, reverse_cons, <-app_assoc by done. done.
Qed.

Lemma assignments_last line s : nl ∉ s → assignments_from line s = [reverse line ++ s].
Proof.
  revert line. induction s as [|c s IH]; intros line Hs; cbn [assignments_from]; [by rewrite app_nil_r|].
  apply not_elem_of_cons in Hs as [Hc Hs]. rewrite decide_False by done.
  rewrite IH, reverse_cons, <-app_assoc by done. done.
Qed.

(** A manager reads the assignments sent, as long as none has a newline. *)
Lemma assignments_sent l :
  l ≠ [] → Forall (λ s, nl ∉ s) l → assignments_in (Join_strings l newline) = l.
Proof.
  intros Hne H. unfold assignments_in. induction H as [|s l Hs H IH]; [done|].
  destruct l as [|s' l]; [by apply (assignments_last [])|].
  change (Join_strings (s :: s' :: l) newline) with (s ++ nl :: Join_strings (s' :: l) newline).
  rewrite assignments_line by done. f_equal. by apply IH.
Qed.

(** [Send] sends one datagram where there is a socket and nothing where there
    is none, and closes what it opens; success means sent, or no socket. *)
Theorem Send_spec assignments tr r :
  runs (Send assignments) tr r →
  sum_list (map unix_opened tr) = sum_list (map unix_closed tr) ∧
  (tr ≫= sent_of = [] ∨ tr ≫= sent_of = [Join_strings assignments newline]) ∧
  (r = Ok () ↔ tr ≫= socket_of = [[]] ∨ tr ≫= sent_of = [Join_strings assignments newline]) ∧
  (tr ≫= socket_of = [[]] → tr ≫= sent_of = []).
Proof.
  intros H. unfold Send in H. run_events H; cbn.
  all: repeat match goal with x : () |- _ => destruct x end; intuition congruence.
Qed.

(** No notice of the agent has a newline in it. *)
Lemma digits_no_newline fuel b n acc : 2 ≤ b ≤ 16 → 0 ≤ n → nl ∉ acc → nl ∉ digits_fuel fuel b n acc.
Proof.
  intros Hb. revert n acc. induction fuel as [|fuel IH]; intros n acc Hn Ha; cbn [digits_fuel]; [done|].
  assert (Hd : nl ≠ digit (n `mod` b)).
  { pose proof (Z.mod_pos_bound n b ltac:(lia)). assert (0 ≤ n `mod` b < 16) as Hr by lia.
    revert Hr. generalize (n `mod` b). intros d Hd.
    assert (d ∈ seqZ 0 16) as Hin by (apply elem_of_seqZ; lia). clear -Hin.
    repeat (apply elem_of_cons in Hin as [->|Hin]; [done|]). by apply elem_of_nil in Hin. }
  case_match; [by apply not_elem_of_cons|]. apply IH; [|by apply not_elem_of_cons]. apply Z.div_pos; lia.
Qed.

Lemma peers_text_line n : nl ∉ peers_text n.
Proof.
  unfold peers_text, Itoa. intros [H|H]%elem_of_app.
  - rewrite (proj2 (Z.ltb_ge _ _)) in H by lia. revert H. apply digits_no_newline; [lia|lia|apply not_elem_of_nil].
  - revert H. by apply (bool_decide_eq_true_1 (nl ∉ str " peers")).
Qed.

(** ** What the loop says *)

Lemma apply_notices s peers tr n :
  runs (apply_ s peers) tr n → tr ≫= notice_of = [] ∧ n = length (resolved s peers).
Proof.
  intros H. unfold apply_ in H.
  apply runs_event in H as (ok & t1 & -> & H). apply runs_bind in H as (t2 & ? & t3 & -> & H2 & H).
  apply runs_bind in H as (t4 & ? & t5 & -> & H4 & [-> <-]). split; [|done].
  assert (t2 ≫= notice_of = []) as E2 by (destruct ok; run_events H2; done).
  assert (t4 ≫= notice_of = []) as E4 by (destruct (s_NoEtcHosts s); run_events H4; done).
  rewrite app_nil_r. cbn. by rewrite bind_app, E2, E4.
Qed.

(** The service manager is told of each snapshot applied, in order: ready with
    the first, a status with every other, and stopping when, and only when, the
    agent was told to stop. *)
Definition loop_says (s : settings) (first : bool) (snapshots : list (list Node)) : list notice :=
  let texts := map (λ peers, peers_text (length (resolved s peers))) snapshots in
  match texts with
  | [] => []
  | t :: ts => (if first then Said_ready t else Said_status t) :: map Said_status ts
  end.

Theorem loop_notices s first snapshots rest tr r :
  runs (loop s first (map Peers snapshots ++ rest)) tr r →
  match rest with Peers _ :: _ => False | _ => True end →
  tr ≫= notice_of = loop_says s first snapshots ++ match rest with CtxDone :: _ => [Said_stopping] | _ => [] end.
Proof.
  intros H Hrest. revert first tr H. induction snapshots as [|peers snapshots IH]; intros first tr H.
  - destruct rest as [|[|  |] rest]; [by destruct H as [-> _]|done|by destruct H as [-> _]|].
    cbn [map app loop] in H. apply runs_event in H as (? & t & -> & H). apply runs_event in H as ([] & t2 & -> & H).
    apply runs_bind in H as (t3 & ? & t4 & -> & H3 & H). apply runs_event in H as (? & t5 & -> & [-> <-]).
    assert (t3 ≫= notice_of = []) as E3 by (destruct (s_NoEtcHosts s); run_events H3; done).
    cbn. by rewrite bind_app, E3.
  - cbn [map app loop] in H. apply runs_bind in H as (t1 & n & t2 & -> & Ha & H).
    apply apply_notices in Ha as [Ea ->]. apply runs_bind in H as (t3 & ? & t4 & -> & Hn & H).
    rewrite !bind_app, Ea, (IH _ _ H). cbn [app].
    assert (t3 ≫= notice_of = [if first then Said_ready (peers_text (length (resolved s peers)))
      else Said_status (peers_text (length (resolved s peers)))]) as ->
      by (destruct first; run_events Hn; done).
    unfold loop_says. cbn [map app]. destruct snapshots; [by destruct first|]. cbn [map]. by destruct first.
Qed.

(** ** What the managers make of it *)

Definition one_line (x : notice) : Prop :=
  match x with Said_ready status | Said_status status => nl ∉ status | Said_stopping => True end.
Definition heard (x : notice) : list bytes :=
  match x with
  | Said_ready status => [str "READY=1"; str "STATUS=" ++ status]
  | Said_status status => [str "STATUS=" ++ status]
  | Said_stopping => [str "STOPPING=1"]
  end.

Lemma loop_says_lines s first snapshots : Forall one_line (loop_says s first snapshots ++ [Said_stopping; Said_ready idle_text]).
Proof.
  apply Forall_app. split; [|by repeat constructor; apply (bool_decide_eq_true_1 (nl ∉ idle_text))].
  unfold loop_says. destruct snapshots as [|peers snapshots]; [constructor|]. cbn [map].
  constructor; [destruct first; apply peers_text_line|].
  apply Forall_map, Forall_map, Forall_true. intros. apply peers_text_line.
Qed.

(** systemd reads what the agent says: a notice that succeeds under it is one
    datagram with these assignments. *)
Theorem systemd_hears x tr :
  one_line x → runs (notify Systemd x) tr (Ok ()) → tr ≫= socket_of ≠ [[]] →
  map assignments_in (tr ≫= sent_of) = [heard x].
Proof.
  intros Hx H Hs.
  assert (Hl : ∀ l, l ≠ [] → Forall (λ s, nl ∉ s) l → runs (Send l) tr (Ok ()) →
    map assignments_in (tr ≫= sent_of) = [l]).
  { intros l Hne Hl Hr. apply Send_spec in Hr as (_ & _ & [Hok _] & _).
    destruct (Hok eq_refl) as [|E]; [done|]. rewrite E. cbn [map]. by rewrite assignments_sent. }
  assert (Hst : ∀ status, nl ∉ status → nl ∉ str "STATUS=" ++ status).
  { intros status Hn [Hi|Hi]%elem_of_app; [|done]. revert Hi. by apply (bool_decide_eq_true_1 (nl ∉ str "STATUS=")). }
  destruct x as [status|status|]; (apply (Hl (heard _)); [done| |exact H]).
  - constructor; [by apply (bool_decide_eq_true_1 (nl ∉ str "READY=1"))|]. by repeat constructor; apply Hst.
  - by repeat constructor; apply Hst.
  - by repeat constructor; apply (bool_decide_eq_true_1 (nl ∉ str "STOPPING=1")).
Qed.

(** The states the Windows manager is told. *)
Definition states_of (h : happened notifyE) : list svcState :=
  match h with Ev e _ => match e with Changes s _ => [s] | _ => [] end end.
Definition scm_state (x : notice) : list svcState :=
  match x with Said_ready _ => [Running] | Said_status _ => [] | Said_stopping => [StopPending] end.

Lemma scm_tells x tr r : runs (notify SCM x) tr r → r = Ok () ∧ tr ≫= states_of = scm_state x.
Proof. intros H. destruct x; cbn [notify n_Ready n_Status n_Stopping SCM] in H; run_events H; done. Qed.

(** A service's states, besides its answers to the manager's questions: what
    [service.Execute] reports around the agent, and what the agent itself does
    in between. *)
Theorem service_states s snapshots rest tr r :
  runs (loop s true (map Peers snapshots ++ rest)) tr r →
  match rest with Peers _ :: _ => False | _ => True end →
  [StartPending] ++ ((tr ≫= notice_of) ≫= scm_state) ++ [Stopped] =
    [StartPending] ++ (if decide (snapshots = []) then [] else [Running]) ++
    match rest with CtxDone :: _ => [StopPending] | _ => [] end ++ [Stopped].
Proof.
  intros H Hrest. rewrite (loop_notices _ _ _ _ _ _ H Hrest), bind_app, <-app_assoc. f_equal. f_equal.
  - unfold loop_says. destruct snapshots as [|peers snapshots]; [done|]. cbn [map mbind list_bind scm_state app].
    rewrite decide_False by done. f_equal. clear. induction snapshots as [|p l IH]; [done|]. exact IH.
  - by destruct rest as [|[]].
Qed.

(** ** The service's registration, and its log *)

Definition handles (h : happened scmE) : Z * Z :=
  match h with
  | Ev e x => match e in scmE X return X → Z * Z with
              | ConnectSCM => λ x, (if is_ok x then 1 else 0, 0)
              | DisconnectSCM => λ _, (-1, 0)
              | OpenService _ => λ x, (0, if is_ok x then 1 else 0)
              | CreateService _ _ _ => λ x, (0, if is_ok x then 1 else 0)
              | CloseService => λ _, (0, -1)
              | _ => λ _, (0, 0)
              end x
  end.
(** What became of the registration: created, with its program, or deleted. *)
Definition registration (h : happened scmE) : list (option bytes) :=
  match h with
  | Ev e x => match e in scmE X return X → list (option bytes) with
              | CreateService _ exe _ => λ x, if is_ok x then [Some exe] else []
              | DeleteService => λ x, if is_ok x then [None] else []
              | _ => λ _, []
              end x
  end.
Definition found_service (h : happened scmE) : bool :=
  match h with
  | Ev e x => match e in scmE X return X → bool with OpenService _ => λ x, is_ok x | _ => λ _, false end x
  end.
Definition open_handles (tr : list (happened scmE)) : Z * Z :=
  (foldr Z.add 0 (map (fst ∘ handles) tr), foldr Z.add 0 (map (snd ∘ handles) tr)).

(** Installing closes what it opens, succeeds exactly if the service was
    registered, and never registers one that exists. *)
Theorem Install_spec tr r :
  runs ServiceInstallCmd_Run tr r →
  open_handles tr = (0, 0) ∧
  (r = Ok () ↔ tr ≫= registration ≠ []) ∧
  (existsb found_service tr = true → tr ≫= registration = []).
Proof. intros H. unfold ServiceInstallCmd_Run in H. run_events H; cbn; split_and!; try done; naive_solver. Qed.

(** Removing closes what it opens, and succeeds exactly if the service is gone. *)
Theorem Uninstall_spec tr r :
  runs ServiceUninstallCmd_Run tr r →
  open_handles tr = (0, 0) ∧ (r = Ok () ↔ tr ≫= registration = [None]) ∧
  (existsb found_service tr = false → tr ≫= registration = []).
Proof. intros H. unfold ServiceUninstallCmd_Run in H. run_events H; cbn; split_and!; try done; naive_solver. Qed.

(** Under the manager the command runs as a service, with its log file open
    while it does; anywhere else it runs as on other systems. Only one of the
    two happens, and once at the most. *)
Definition launched (h : happened launchE) : list (bool * Z) :=
  match h with
  | Ev e _ => match e with
              | RunCommand _ => [(false, 0)]
              | RunService => [(true, 0)]
              | CloseLogFile => [(true, -1)]
              | SetLogger _ => [(true, 1)]
              | _ => []
              end
  end.
Theorem Execute_windows_spec tr r :
  runs Execute_windows tr r →
  tr ≫= launched = [] ∧ is_ok r = false ∨
  tr ≫= launched = [(false, 0)] ∧ Ev IsWindowsService (Ok false) ∈ tr ∧ Ev (RunCommand None_) r ∈ tr ∨
  tr ≫= launched = [(true, 1); (true, 0); (true, -1)] ∧ Ev IsWindowsService (Ok true) ∈ tr ∧ Ev RunService r ∈ tr.
Proof.
  intros H. unfold Execute_windows, openLog in H.
  destruct H as ([isService|e] & t & -> & H); [|by destruct H as [-> <-]; left].
  destruct isService; cbv [negb] in H; run_events H; cbn.
  all: try (left; done).
  1, 2: right; right; split_and!; [done|left|repeat first [left|right]].
  all: right; left; split_and!; [done|left|right; left].
Qed.
