(* ===== verification/Platform.v ===== *)
(** * Platform: names, places and levels (internal/wg/tunname_*.go, platform_darwin.go, internal/paths, internal/cli/loglevel.go, service_other.go)

    What differs from one operating system to the next and is decided here:
    how the agent's name for an interface leads to the system's, where files
    are kept, and how the level of the log is read from its flag. *)

From S2P Require Import Prelude Netip GoNet GoStrings GoTime Prog Enrol State Hosts Bind Wg Listen Agent ConfigFile Notify.

(** ** Interface names on macOS

    The system names a tun interface itself; the name it chose is recorded in
    a file that goes by the agent's. *)

Inductive fsE : Type → Type :=
  | MkdirAll (dir : bytes) : fsE (result unit)
  | WriteWhole (path content : bytes) : fsE (result unit)
  | RemoveFile (path : bytes) : fsE removal
  | ReadWhole (path : bytes) : fsE read_file
  | NetInterface (name : bytes) : fsE (result unit).       (* net.InterfaceByName *)

Section Names.
Local Open Scope prog_scope.
(** [nameDir] *)
Variable nameDir : bytes.

Definition tunName_darwin (_ : bytes) : bytes := str "utun".
(** A name is one element of a path. *)
Definition nameFile (name : bytes) : bytes := join nameDir (name ++ str ".name").

Definition published (name osName : bytes) : prog fsE (result unit) :=
  let* err := trigger (MkdirAll nameDir) in
  match err with
  | Err _ => Ret (Err "recording the interface name")
  | Ok _ =>
      let* err := trigger (WriteWhole (nameFile name) (osName ++ newline)) in
      Ret (match err with Err _ => Err "recording the interface name" | Ok _ => Ok () end)
  end.

Definition unpublished (name : bytes) : prog fsE (result unit) :=
  let* r := trigger (RemoveFile (nameFile name)) in
  Ret (match r with RemoveFailed => Err "removing the interface name" | Removed | WasMissing => Ok () end).

Definition osNameOf (name : bytes) : prog fsE (result bytes) :=
  let* file := trigger (ReadWhole (nameFile name)) in
  Ret (match file with
       | Contents b => Ok (TrimSpace b)
       | NotExist | Unreadable => Err "reading the interface name"
       end).

(** [lookup] *)
Definition darwin_lookup (iface : bytes) : prog fsE (result bytes) :=
  let* r := osNameOf iface in
  match r with
  | Err _ => Ret (Err "no running agent for %s")
  | Ok osName =>
      let*? _ := trigger (NetInterface osName) in
      Ret (Ok osName)
  end.
End Names.

(** [platform] and [remove] of macOS and of Windows: the device runs in the
    agent, and goes with it. *)
Definition platform_userspace (_ : Config) : result deviceKind := Ok UserspaceDevice.
Definition remove_userspace (_ : bytes) : result unit := Ok ().

(** Everywhere else the system keeps the agent's name. *)
Definition tunName_other (name : bytes) : bytes := name.
Definition published_other (_ _ : bytes) : result unit := Ok ().
Definition unpublished_other (_ : bytes) : result unit := Ok ().

(** What the operations do to a file system that grants them, and to the
    interfaces there are. *)
Record machine := MkMachine { mc_files : gmap bytes bytes; mc_interfaces : gset bytes }.

Definition grant (m : machine) {X} (e : fsE X) : X * machine :=
  match e in fsE X return X * machine with
  | MkdirAll _ => (Ok (), m)
  | WriteWhole path content => (Ok (), MkMachine (<[path := content]> (mc_files m)) (mc_interfaces m))
  | RemoveFile path =>
      (match mc_files m !! path with Some _ => Removed | None => WasMissing end,
       MkMachine (delete path (mc_files m)) (mc_interfaces m))
  | ReadWhole path => (match mc_files m !! path with Some b => Contents b | None => NotExist end, m)
  | NetInterface name => (if decide (name ∈ mc_interfaces m) then Ok () else Err "no such interface", m)
  end.
Fixpoint granted {A} (p : prog fsE A) (m : machine) : A * machine :=
  match p with
  | Ret x => (x, m)
  | Vis e k => let '(x, m) := grant m e in granted (k x) m
  end.

(** ** Places *)

Record places := MkPlaces { StateDir : bytes; ConfigFile_ : bytes; RunDir : bytes; HostsFile : bytes }.

Definition linux_places : places :=
  MkPlaces (str "/var/lib/cheesecloth") (str "/etc/cheesecloth/config.yaml") (str "/run/cheesecloth") (str "/etc/hosts").
Definition darwin_places : places :=
  MkPlaces (str "/var/db/cheesecloth") (str "/etc/cheesecloth/config.yaml") (str "/var/run/cheesecloth") (str "/etc/hosts").

Section Windows.
(** [os.Getenv], and [filepath.Join] on Windows. *)
Context (Getenv_ : bytes → bytes) (Join_path : list bytes → bytes).

Definition env (name fallback : bytes) : bytes := if decide (Getenv_ name ≠ []) then Getenv_ name else fallback.
Definition programData : bytes := env (str "ProgramData") (str "C:\ProgramData").
Definition windows_places : places :=
  MkPlaces (Join_path [programData; str "cheesecloth"])
    (Join_path [programData; str "cheesecloth"; str "config.yaml"])
    (Join_path [programData; str "cheesecloth"])
    (Join_path [env (str "SystemRoot") (str "C:\Windows"); str "System32"; str "drivers"; str "etc"; str "hosts"]).
End Windows.

(** [state] of the settings and of [leave]: where the cluster's state is kept. *)
Definition settings_state (p : places) (stateDir : bytes) : bytes := if decide (stateDir = []) then StateDir p else stateDir.
Definition LeaveCmd_state (p : places) (stateDir : bytes) : bytes := if decide (stateDir = []) then StateDir p else stateDir.

(** [leave --force] looks where the agent keeps its state. *)
Lemma leave_finds_state p stateDir : LeaveCmd_state p stateDir = settings_state p stateDir.
Proof. done. Qed.

(** ** The log's level *)

(** [strconv.Atoi] *)
Fixpoint read_decimal (t : bytes) (n : Z) : option Z :=
  match t with
  | [] => Some n
  | c :: t =>
      let v := Z_of_byte c in
      if (48 <=? v) && (v <=? 57) then read_decimal t (n * 10 + (v - 48)) else None
  end.
Definition Atoi (t : bytes) : result Z :=
  let '(neg, ds) :=
    match t with
    | c :: ds => if decide (c = Byte.x2d) then (true, ds) else if decide (c = Byte.x2b) then (false, ds) else (false, t)
    | [] => (false, [])
    end in
  match ds, read_decimal ds 0 with
  | _ :: _, Some n =>
      let v := if neg then - n else n in
      if (- 2 ^ 63 <=? v) && (v <=? 2 ^ 63 - 1) then Ok v else Err "value out of range"
  | _, _ => Err "invalid syntax"
  end.

(** [slog.Level.UnmarshalText]: a name, and an offset from it. The sum is an
    [int] and wraps around. *)
Fixpoint split_sign (t : bytes) : bytes * bytes :=
  match t with
  | [] => ([], [])
  | c :: t' => if decide (c = Byte.x2b ∨ c = Byte.x2d) then ([], t) else (c :: (split_sign t').1, (split_sign t').2)
  end.
Definition level_name (name : bytes) : option Z :=
  let up := ToUpper name in
  if decide (up = str "DEBUG") then Some (-4)
  else if decide (up = str "INFO") then Some 0
  else if decide (up = str "WARN") then Some 4
  else if decide (up = str "ERROR") then Some 8
  else None.
Definition int64 (n : Z) : Z := (n + 2 ^ 63) `mod` 2 ^ 64 - 2 ^ 63.
Definition UnmarshalLevel (t : bytes) : result Z :=
  let '(name, rest) := split_sign t in
  match (match rest with [] => Ok 0 | _ => Atoi rest end) with
  | Err e => Err e
  | Ok offset =>
      match level_name name with
      | None => Err "unknown name"
      | Some l => Ok (int64 (l + offset))
      end
  end.

(** [LogLevelFlag.Level], and [AfterApply], to the level it installs. *)
Definition Level (l : bytes) : result Z :=
  match UnmarshalLevel l with Err _ => Err "could not parse log level" | Ok level => Ok level end.
Definition AfterApply (l : bytes) : result unit * option Z :=
  match Level l with Err e => (Err e, None) | Ok level => (Ok (), Some level) end.

(** ** The service commands of the other systems *)

Definition other_ServiceInstallCmd_Run : result unit := Err "the service subcommands register the agent with the Windows Service Control Manager".
Definition other_ServiceUninstallCmd_Run : result unit := other_ServiceInstallCmd_Run.

(** ** The names lead to the interfaces *)

Lemma TrimSpace_line t : t ≠ [] → forallb plain t = true → TrimSpace (t ++ newline) = t.
Proof.
  intros Hne Ht. destruct spaces_not_plain as [H1 H2]. unfold TrimSpace.
  assert (Hl : trim_left (length (t ++ newline)) spaces (t ++ newline) = t ++ newline).
  { destruct t as [|c t]; [done|]. cbn [forallb] in Ht. apply andb_prop in Ht as [Hc _]. by apply trim_left_plain. }
  rewrite Hl, reverse_app, length_app, Nat.add_comm. cbn [length newline Nat.add].
  change (reverse newline ++ reverse t) with (nl :: reverse t). cbn [trim_left].
  assert (strip_one (map reverse spaces) (nl :: reverse t) = Some (reverse t)) as -> by done.
  rewrite trim_left_all_plain; [apply reverse_involutive|done|].
  rewrite forallb_forall in *. intros c Hc. apply Ht, list_elem_of_In.
  apply list_elem_of_In in Hc. by rewrite elem_of_reverse in Hc.
Qed.

Section NamesProps.
Variable nameDir : bytes.

Lemma nameFile_inj n1 n2 : nameFile nameDir n1 = nameFile nameDir n2 → n1 = n2.
Proof. unfold nameFile, join. intros H%app_inv_head%app_inv_head. by apply app_inv_tail in H. Qed.

(** The names recorded, as a map from the agent's to the system's. *)
Definition recorded (names : gmap bytes bytes) (m : machine) : Prop :=
  ∀ name, mc_files m !! nameFile nameDir name = (λ os, os ++ newline) <$> names !! name.

Inductive name_op := Publish (name osName : bytes) | Unpublish (name : bytes).
Definition name_step (names : gmap bytes bytes) (op : name_op) : gmap bytes bytes :=
  match op with Publish name osName => <[name := osName]> names | Unpublish name => delete name names end.
Definition run_name_op (m : machine) (op : name_op) : machine :=
  match op with
  | Publish name osName => (granted (published nameDir name osName) m).2
  | Unpublish name => (granted (unpublished nameDir name) m).2
  end.

Lemma recorded_step names m op : recorded names m → recorded (name_step names op) (run_name_op m op).
Proof.
  intros Hr. destruct op as [name osName|name]; intros name'; cbn;
    destruct (decide (name = name')) as [->|Hne].
  - by rewrite !lookup_insert_eq.
  - rewrite !lookup_insert_ne; [apply Hr|done|]. by intros ?%nameFile_inj.
  - by rewrite !lookup_delete_eq.
  - rewrite !lookup_delete_ne; [apply Hr|done|]. by intros ?%nameFile_inj.
Qed.

(** The records follow the names: after any publishing and unpublishing, an
    interface is looked up by the agent's name exactly if it was published
    last, under the system's name it was published with, and is there. (System
    names are not blank.) *)
Theorem names_followed names m ops name osName :
  recorded names m → map_Forall (λ _ os, os ≠ [] ∧ forallb plain os = true) (foldl name_step names ops) →
  let m' := foldl run_name_op m ops in
  (granted (darwin_lookup nameDir name) m').1 = Ok osName ↔
    foldl name_step names ops !! name = Some osName ∧ osName ∈ mc_interfaces m'.
Proof.
  intros Hr Hp m'. assert (Hr' : recorded (foldl name_step names ops) m').
  { unfold m'. clear Hp m'. revert names m Hr. induction ops as [|op ops IH]; intros names m Hr; [done|].
    apply IH. by apply recorded_step. }
  clearbody m'. unfold darwin_lookup, osNameOf. cbn [bind trigger granted grant]. rewrite (Hr' name).
  destruct (foldl name_step names ops !! name) as [os|] eqn:E; cbn [fmap option_fmap option_map granted fst]; [|naive_solver].
  destruct (Hp name os E) as [Hne Hpl]. rewrite TrimSpace_line by done. cbn [bind trigger granted grant].
  case_decide; cbn [granted fst]; naive_solver.
Qed.
End NamesProps.

Lemma read_decimal_digits ds n : forallb is_digit ds = true → read_decimal ds n = Some (dvalue n ds).
Proof.
  revert n. induction ds as [|c ds IH]; intros n Hd; [done|]. cbn [forallb] in Hd. apply andb_prop in Hd as [Hc Hd].
  cbn [read_decimal]. change ((48 <=? Z_of_byte c) && (Z_of_byte c <=? 57)) with (is_digit c). rewrite Hc. by apply IH.
Qed.

Lemma int64_small n : - 2 ^ 63 ≤ n < 2 ^ 63 → int64 n = n.
Proof. intros H. unfold int64. rewrite Z.mod_small; lia. Qed.

Lemma read_FormatUint m : 0 ≤ m < 2 ^ 63 →
  read_decimal (FormatUint 10 m) 0 = Some m ∧ ∃ c t, FormatUint 10 m = c :: t ∧ c ≠ Byte.x2d ∧ c ≠ Byte.x2b.
Proof.
  intros Hm. destruct (FormatUint_digits m) as (Hd & Hne & Hv); [lia|].
  rewrite read_decimal_digits, Hv by done. split; [done|]. destruct (FormatUint 10 m) as [|c t]; [done|].
  exists c, t. split; [done|]. cbn [forallb] in Hd. apply andb_prop in Hd as [Hc _]. by split; intros ->.
Qed.

(** [Atoi] reads what [Itoa] writes, with a plus sign too. *)
Lemma Atoi_Itoa n : - 2 ^ 63 < n < 2 ^ 63 → Atoi (Itoa n) = Ok n ∧ (0 ≤ n → Atoi (Byte.x2b :: Itoa n) = Ok n).
Proof.
  intros Hn. unfold Itoa. destruct (Z.ltb_spec n 0).
  - split; [|lia]. destruct (read_FormatUint (- n)) as (E & c & t & Ec & _); [lia|].
    unfold Atoi. rewrite decide_True by done. rewrite Ec in *. rewrite E, Z.opp_involutive.
    by rewrite (proj2 (Z.leb_le _ _)), (proj2 (Z.leb_le _ _)) by lia.
  - destruct (read_FormatUint n) as (E & c & t & Ec & Hc1 & Hc2); [lia|]. unfold Atoi. rewrite Ec in *.
    rewrite !decide_False by done. rewrite decide_True, E by done.
    split; intros; by rewrite (proj2 (Z.leb_le _ _)), (proj2 (Z.leb_le _ _)) by lia.
Qed.

(** The levels of the flag, in any case, and a distance from one of them. *)
Theorem Level_spec name base :
  level_name name = Some base → Byte.x2b ∉ name → Byte.x2d ∉ name →
  Level name = Ok base ∧
  ∀ n, 0 ≤ n < 2 ^ 62 → Level (name ++ str "+" ++ Itoa n) = Ok (base + n) ∧
    (0 < n → Level (name ++ Itoa (- n)) = Ok (base - n)).
Proof.
  intros Hb Hp Hm.
  assert (Hs : ∀ rest, split_sign rest = ([], rest) → split_sign (name ++ rest) = (name, rest)).
  { intros rest Hr. clear Hb. induction name as [|c name IH]; [done|].
    apply not_elem_of_cons in Hp as [Hp1 Hp2]. apply not_elem_of_cons in Hm as [Hm1 Hm2].
    cbn [app split_sign]. rewrite decide_False by naive_solver. by rewrite IH. }
  assert (Hbase : -8 ≤ base ≤ 8).
  { unfold level_name in Hb. repeat case_decide; naive_solver lia. }
  unfold Level, UnmarshalLevel. split.
  { specialize (Hs [] eq_refl). rewrite app_nil_r in Hs. rewrite Hs, Hb, Z.add_0_r, int64_small by lia. done. }
  intros n Hn. destruct (Atoi_Itoa n) as [_ Hplus]; [lia|]. split.
  - rewrite Hs by done. change (str "+" ++ Itoa n) with (Byte.x2b :: Itoa n).
    rewrite Hplus, Hb, int64_small by lia. done.
  - intros Hpos. destruct (Atoi_Itoa (- n)) as [Hminus _]; [lia|].
    assert (Itoa (- n) = Byte.x2d :: FormatUint 10 n) as E.
    { unfold Itoa. rewrite (proj2 (Z.ltb_lt _ _)), Z.opp_involutive by lia. done. }
    rewrite Hs by (rewrite E; done). rewrite E in *. rewrite Hminus, Hb, int64_small by lia. done.
Qed.
