(* ===== verification/Main.v ===== *)
(** * Main: the command line and the entry point (cmd/cheesecloth/main.go, internal/cli/cli.go, config.go)

    The commands and their flags, what a key of the configuration file may be,
    and the program from its arguments to its exit status. The parser is
    kong's: what it answers is in the events of the program, what it is given
    is here. *)

From S2P Require Import Prelude Netip GoNet Prog State Hosts Agent ConfigFile Listen Notify Platform.

(** ** Commands and their flags *)

(** [kong.Node]: a command, its flags and its commands. *)
Inductive KNode := MkKNode (nd_Name : bytes) (nd_Flags : list bytes) (nd_Children : list KNode).

Definition nd_Flags (n : KNode) : list bytes := match n with MkKNode _ flags _ => flags end.
Definition nd_Children (n : KNode) : list KNode := match n with MkKNode _ _ children => children end.

Fixpoint collectFlags (n : KNode) (into : gset bytes) : gset bytes :=
  match n with
  | MkKNode _ flags children =>
      let into := foldl (λ into f, {[f]} ∪ into) into flags in
      foldl (λ into child, collectFlags child into) into children
  end.

(** A flag of a command or of one below it. *)
Inductive has_flag (f : bytes) : KNode → Prop :=
  | flag_here n : f ∈ nd_Flags n → has_flag f n
  | flag_below n child : child ∈ nd_Children n → has_flag f child → has_flag f n.

(** The flags of [settings], which the agent and [config] embed, and of
    [interfaceFlag] and [controlFlags]; a flag has the name of its field, in
    kong's spelling. *)
Definition settings_flags : list bytes :=
  [str "join"; str "bind-addr"; str "cluster-port"; str "wireguard-port"; str "overlay-net"; str "allowed-ips";
   str "interface"; str "mtu"; str "persistent-keepalive"; str "no-etc-hosts"; str "userspace"; str "control-socket"].
Definition interfaceFlag : list bytes := [str "interface"].
Definition controlFlags : list bytes := interfaceFlag ++ [str "control-socket"].

(** The tree of [CLI]. *)
Definition app : KNode :=
  MkKNode (str "cheesecloth") [str "help"; str "config"; str "log-level"; str "version"] [
    MkKNode (str "agent") (settings_flags ++ [str "join-key"]) [];
    MkKNode configCmdName (settings_flags ++ [str "init"]) [];
    MkKNode (str "status") (interfaceFlag ++ [str "json"]) [];
    MkKNode (str "invite") (controlFlags ++ [str "ttl"; str "uses"]) [];
    MkKNode (str "revoke") controlFlags [];
    MkKNode (str "leave") (controlFlags ++ [str "force"]) [];
    MkKNode (str "service") [] [MkKNode (str "install") [] []; MkKNode (str "uninstall") [] []]].

(** ** The parser *)

Record CLI := MkCLI {
  cl_Config : bytes;           (* --config, empty when not given *)
  cl_configPath : bytes;
  cl_ifaceArg : bytes;
}.
Definition zeroCLI : CLI := MkCLI [] [] [].

Definition ConfigPath (c : CLI) : bytes := if decide (cl_Config c ≠ []) then cl_Config c else cl_configPath c.

(** [varsFor]; [control.DefaultDir] is a directory of the system's. *)
Definition varsFor (runDir configPath version : bytes) : list (bytes * bytes) :=
  [(str "version", version); (str "default_config", configPath); (str "default_interface", DefaultInterface);
   (str "default_overlay_net", Prefix_String DefaultOverlayNet); (str "default_socket_dir", runDir);
   (str "default_log_level", DefaultLogLevel)].

Section Parser.
Context {yaml : Yaml}.

(** What [kong.New] is given: the names in the flags' tags, the loader of the
    configuration and the file it is for. *)
Record kongOptions := MkKongOptions {
  ko_Vars : list (bytes * bytes);
  ko_Loader : bytes → (gmap bytes any → list (bytes * any)) → result configResolver;
  ko_Path : bytes;
}.

Definition Parser (runDir : bytes) (c : CLI) (configPath version : bytes) (args : list bytes) : CLI * kongOptions :=
  let c := MkCLI (cl_Config c) configPath (interfaceArg args) in
  (c, MkKongOptions (varsFor runDir configPath version) (configLoader (cl_ifaceArg c)) configPath).

(** ** The program *)

Inductive mainE : Type → Type :=
  | KongNew (o : kongOptions) : mainE (result unit)
  | KongParse (args : list bytes) : mainE (result unit)
  | FatalIfErrorf (msg : string) : mainE Z               (* of an error: says it, and exits with this status *)
  | OnStderr (line : bytes) : mainE unit
  | Launch {X : Type} (e : launchE X) : mainE X.

Section Main.
Local Open Scope prog_scope.
(** [Execute] of the system, its places, and the version built in. *)
Variables (Execute : prog launchE (result unit)) (here : places) (version : bytes).

(** [main], to the status it exits with. *)
Definition main (args : list bytes) : prog mainE Z :=
  let '(c, options) := Parser (RunDir here) zeroCLI (ConfigFile_ here) version args in
  let* k := trigger (KongNew options) in
  match k with
  | Err e =>
      let* _ := trigger (OnStderr (str "cheesecloth: " ++ str e)) in
      Ret 1
  | Ok _ =>
      let* ktx := trigger (KongParse args) in
      match ktx with
      | Err e => trigger (FatalIfErrorf e)
      | Ok _ =>
          let* r := translate (@Launch) Execute in
          match r with
          | Err e => trigger (FatalIfErrorf e)
          | Ok _ => Ret 0
          end
      end
  end.
End Main.
End Parser.

(** ** The keys of the file *)

(** Induction on the commands below one. *)
Lemma KNode_children (P : KNode → Prop) :
  (∀ name flags children, Forall P children → P (MkKNode name flags children)) → ∀ n, P n.
Proof.
  intros H. fix IH 1. intros [name flags children]. apply H.
  induction children as [|child children IHc]; constructor; [apply IH|exact IHc].
Qed.

(** The flags collected are those of the command and of all below it. *)
Theorem collectFlags_spec n into f : f ∈ collectFlags n into ↔ f ∈ into ∨ has_flag f n.
Proof.
  revert into. induction n as [name flags children IH] using KNode_children. intros into.
  assert (Hflags : ∀ into : gset bytes, f ∈ foldl (λ into g, {[g]} ∪ into) into flags ↔ f ∈ into ∨ f ∈ flags).
  { clear. induction flags as [|g flags IH]; intros into; cbn; [set_solver|]. rewrite IH. set_solver. }
  assert (Hchildren : ∀ into : gset bytes, f ∈ foldl (λ into child, collectFlags child into) into children ↔
    f ∈ into ∨ ∃ child, child ∈ children ∧ has_flag f child).
  { clear Hflags. induction IH as [|child children Hc _ IHc]; intros into'; cbn; [set_solver|].
    rewrite IHc, Hc. set_solver. }
  cbn [collectFlags]. rewrite Hchildren, Hflags. split.
  - intros [[H|H]|(child & Hin & H)]; [by left|right; by apply flag_here|right; by eapply flag_below].
  - intros [H|H]; [auto|]. inversion H as [? Hf|? child Hin Hf]; subst; [auto|]. right. by exists child.
Qed.

(** What [Validate] knows. *)
Definition known_flags : list bytes := elements (collectFlags app ∅).

(** The keys a section may hold. *)
Definition file_keys : list bytes :=
  [str "join"; str "bind-addr"; str "cluster-port"; str "wireguard-port"; str "overlay-net"; str "allowed-ips";
   str "mtu"; str "persistent-keepalive"; str "no-etc-hosts"; str "userspace"; str "control-socket"; str "log-level";
   str "json"; str "ttl"; str "uses"; str "force"].

Lemma key_ok_file key : key_ok known_flags key ↔ key = str "interface" ∨ key ∈ file_keys.
Proof.
  unfold key_ok, known_flags. rewrite elem_of_elements. split.
  - intros (Hin & H1 & H2).
    assert (Hall : set_Forall (λ k, k ∈ notSettings ∨ k ∈ commandLineOnly ∨ k = str "interface" ∨ k ∈ file_keys) (collectFlags app ∅)).
    { apply (bool_decide_eq_true_1 (set_Forall _ _)). vm_compute. reflexivity. }
    specialize (Hall _ Hin). cbn beta in Hall. tauto.
  - assert (Hall : Forall (λ k, k ∈ collectFlags app ∅ ∧ k ∉ notSettings ∧ k ∉ commandLineOnly) (str "interface" :: file_keys)).
    { apply (bool_decide_eq_true_1 (Forall _ _)). vm_compute. reflexivity. }
    rewrite Forall_forall in Hall. intros [->|H]; apply Hall; [left|by right].
Qed.

Section Keys.
Context {yaml : Yaml}.

Lemma parse_entries_no_interface (l : list (bytes * any)) acc file :
  parse_entries l acc = Ok file →
  (∀ name s, acc !! name = Some s → s !! str "interface" = None) →
  ∀ name s, file !! name = Some s → s !! str "interface" = None.
Proof.
  revert acc. induction l as [|[n v] l IH]; intros acc; cbn; [by intros [= ->]|].
  destruct (mapping v) as [sec|]; [|done]. case_decide as Hi; [done|]. intros H Hacc. apply (IH _ H).
  intros name s. rewrite lookup_insert_Some. intros [[_ <-]|[_ Hs]]; [|by eapply Hacc].
  by apply eq_None_not_Some.
Qed.

(** A file that is read is accepted exactly if each key of each of its sections
    is one of [file_keys]: the flags of any command, not only the settings of
    an interface, without those that name the file or the section, make no
    sense in a file, or are secret. *)
Theorem accepted_keys args content iterate c order :
  configLoader (interfaceArg args) content iterate = Ok c →
  (∀ key, (∃ keys, keys ∈ order (cr_sections c) ∧ key ∈ keys) ↔
    ∃ name s, cr_sections c !! name = Some s ∧ is_Some (s !! key)) →
  resolver_Validate c known_flags order = Ok () ↔
    ∀ name s key, cr_sections c !! name = Some s → is_Some (s !! key) → key ∈ file_keys.
Proof.
  intros Hload Ho. rewrite resolver_Validate_spec by done.
  assert (Hi : ∀ name s, cr_sections c !! name = Some s → s !! str "interface" = None).
  { unfold configLoader, parseSections in Hload. destruct (yaml_Decode content) as [[file|]|]; [|by destruct (selectSection _ _) as [[? ?] ?]; injection Hload as <-|done].
    destruct (parse_entries _ _) as [file'|] eqn:E; [|done]. destruct (selectSection _ _) as [[? ?] ?]. injection Hload as <-.
    by apply (parse_entries_no_interface _ _ _ E). }
  split; intros H name s key Hs Hk; specialize (H name s key Hs Hk); [|apply key_ok_file; by right].
  apply key_ok_file in H as [->|H]; [|done]. rewrite (Hi _ _ Hs) in Hk. by destruct Hk.
Qed.
End Keys.

(** ** The exit status *)

Section Status.
Context {yaml : Yaml}.
Variables (Execute : prog launchE (result unit)) (here : places) (version : bytes).

(** As kong documents it: exiting because of an error is never a success. *)
Definition fatal_is_failure (tr : list (happened mainE)) : Prop :=
  ∀ msg st, Ev (FatalIfErrorf msg) st ∈ tr → st ≠ 0.

(** The program exits with zero exactly if the parser could be built, the
    arguments were understood and the command they name succeeded; it ran
    that one command, and none where the configuration file or the arguments
    are refused. *)
Theorem main_status args tr st :
  fatal_is_failure tr → runs (main Execute here version args) tr st →
  ∃ k rest, tr = Ev (KongNew (Parser (RunDir here) zeroCLI (ConfigFile_ here) version args).2) k :: rest ∧
    match k with
    | Err e => st = 1 ∧ rest = [Ev (OnStderr (str "cheesecloth: " ++ str e)) ()]
    | Ok _ => ∃ parsed rest', rest = Ev (KongParse args) parsed :: rest' ∧
        match parsed with
        | Err e => st ≠ 0 ∧ rest' = [Ev (FatalIfErrorf e) st]
        | Ok _ => ∃ ltr r, runs Execute ltr r ∧
            rest' = map (seen_as (@Launch yaml)) ltr ++ (match r with Ok _ => [] | Err e => [Ev (FatalIfErrorf e) st] end) ∧
            (st = 0 ↔ r = Ok ())
        end
    end.
Proof.
  intros Hf (k & rest & -> & H). exists k, rest. split; [done|]. destruct k as [[]|e].
  - destruct H as (parsed & rest' & -> & H). exists parsed, rest'. split; [done|]. destruct parsed as [[]|e].
    + cbn [bind] in H. apply runs_bind in H as (tr1 & r & tr2 & -> & (ltr & H1 & ->)%runs_translate & H). exists ltr, r. split; [done|].
      destruct r as [[]|e]; [by destruct H as [-> <-]|]. destruct H as (st' & tr3 & -> & -> & ->). split; [done|].
      split; [|done]. intros ->. destruct (Hf e 0); [|done]. right. right. apply elem_of_app. right. left.
    + destruct H as (st' & tr3 & -> & -> & ->). split; [|done]. apply (Hf e). right. right. left.
  - destruct H as ([] & tr3 & -> & -> & <-). done.
Qed.
End Status.

(** ** A key that belongs to no section's settings

    [force] is a flag of [leave]; in the file it is accepted, and every [leave]
    of the interface is then forced. *)

Module Demo.
#[local] Instance toy_yaml : Yaml := {|
  any := bytes;
  mapping _ := Some {[str "force" := str "true"]};
  yaml_Decode _ := Ok (Some {[str "wg0" := []]});
|}.
Definition keys_of (s : gmap bytes (gmap bytes (@any toy_yaml))) : list (list bytes) := map (λ p, (map_to_list p.2).*1) (map_to_list s).

Definition leave_forced : bool :=
  match configLoader (interfaceArg [str "leave"]) [] map_to_list with
  | Err _ => false
  | Ok c =>
      is_ok (resolver_Validate c known_flags keys_of) &&
      match Resolve c (Some (str "leave")) (str "force") with
      | Ok (Some (FileValue v)) => bool_decide (v = str "true")
      | _ => false
      end
  end.

Example force_from_file : leave_forced = true.
Proof. vm_compute. reflexivity. Qed.
End Demo.
