(* ===== verification/Leaving.v ===== *)
(** * Leaving: the control server and the agent's shutdown (internal/control/control.go, internal/cli/agent.go, control.go)

    A leave request is answered by the agent it stops: its handler stops the
    agent and waits until the agent is done with what it tears down and has forgotten the
    cluster, and the agent, before it exits, waits for the requests in flight.
    The model is a step relation over what [AgentCmd.Run], the server's accept
    loop and its requests share, with one step per locked region, channel
    operation or file operation.

    Shown: the wait for each other always ends, every request is answered, what
    has been done when a leave is reported as done, and when the state file is
    gone for good. *)

From S2P Require Import Prelude Identity Records GoNet Prog Enrol Cluster Control.

#[local] Open Scope nat_scope.

(** ** Goroutines *)

(** [AgentCmd.Run] from [control.Listen] on, with its deferred calls. *)
Inductive agentPC :=
  | AJoin           (* cl.Join, until it works *)
  | ALoop           (* a.loop *)
  | AStop (joined : bool)   (* ctx is done, in the loop or while joining: cl.Leave *)
  | ATear           (* the loop's hosts entries and DownInterface *)
  | AForget         (* a.forget(leave) *)
  | ADone           (* close(leave.done) *)
  | AClosing        (* ctl.Close, its locked region *)
  | AListener       (* its ln.Close *)
  | AConns          (* its conns.Wait *)
  | ARemove         (* its removal of the socket *)
  | AExit.

Inductive servePC := VAccept | VTrack | VEnd.

Inductive reqOp := OInvite | ORevoke | OLeave (force : bool) | OOther.

Inductive reqPC :=
  | QDecode
  | QHandle (op : reqOp)
  | QStore (res : LeaveResult)              (* requested.Store(true) *)
  | QStop (res : LeaveResult)               (* leaving.stop() *)
  | QWait (res : LeaveResult)               (* <-leaving.done *)
  | QReply (op : reqOp) (resp : Response).

(** What [AgentCmd.forget] has done. *)
Inductive forgetting := NotYet | Skipped | Forgot (err : option bytes).

Record sys := MkSys {
  y_agent : agentPC;
  y_ctx : bool;              (* ctx is done *)
  y_requested : bool;        (* leaving.requested *)
  y_done : bool;             (* leaving.done is closed *)
  y_forgot : forgetting;
  y_joined : bool;           (* the agent got into its loop *)
  y_left : bool;             (* cl.Leave has returned *)
  y_down : option bool;      (* what the loop's DownInterface answered *)
  y_file : bool;             (* the state file exists *)
  y_late : bool;             (* the state was saved after it was forgotten *)
  y_closed : bool;           (* Server.closed *)
  y_ln : bool;               (* the listener is open *)
  y_sock : bool;             (* the socket's path exists *)
  y_conns : nat;             (* Server.conns *)
  y_serve : servePC;
  y_reqs : list reqPC;
}.

Definition set_agent (y : sys) (pc : agentPC) : sys :=
  MkSys pc (y_ctx y) (y_requested y) (y_done y) (y_forgot y) (y_joined y) (y_left y) (y_down y) (y_file y)
    (y_late y) (y_closed y) (y_ln y) (y_sock y) (y_conns y) (y_serve y) (y_reqs y).
Definition set_ctx (y : sys) : sys :=
  MkSys (y_agent y) true (y_requested y) (y_done y) (y_forgot y) (y_joined y) (y_left y) (y_down y) (y_file y)
    (y_late y) (y_closed y) (y_ln y) (y_sock y) (y_conns y) (y_serve y) (y_reqs y).
Definition set_requested (y : sys) : sys :=
  MkSys (y_agent y) (y_ctx y) true (y_done y) (y_forgot y) (y_joined y) (y_left y) (y_down y) (y_file y)
    (y_late y) (y_closed y) (y_ln y) (y_sock y) (y_conns y) (y_serve y) (y_reqs y).
Definition set_done (y : sys) : sys :=
  MkSys (y_agent y) (y_ctx y) (y_requested y) true (y_forgot y) (y_joined y) (y_left y) (y_down y) (y_file y)
    (y_late y) (y_closed y) (y_ln y) (y_sock y) (y_conns y) (y_serve y) (y_reqs y).
Definition set_forgot (y : sys) (f : forgetting) (file : bool) : sys :=
  MkSys (y_agent y) (y_ctx y) (y_requested y) (y_done y) f (y_joined y) (y_left y) (y_down y) file
    false (y_closed y) (y_ln y) (y_sock y) (y_conns y) (y_serve y) (y_reqs y).
Definition set_joined (y : sys) : sys :=
  MkSys (y_agent y) (y_ctx y) (y_requested y) (y_done y) (y_forgot y) true (y_left y) (y_down y) (y_file y)
    (y_late y) (y_closed y) (y_ln y) (y_sock y) (y_conns y) (y_serve y) (y_reqs y).
Definition set_left (y : sys) : sys :=
  MkSys (y_agent y) (y_ctx y) (y_requested y) (y_done y) (y_forgot y) (y_joined y) true (y_down y) (y_file y)
    (y_late y) (y_closed y) (y_ln y) (y_sock y) (y_conns y) (y_serve y) (y_reqs y).
Definition set_down (y : sys) (ok : bool) : sys :=
  MkSys (y_agent y) (y_ctx y) (y_requested y) (y_done y) (y_forgot y) (y_joined y) (y_left y) (Some ok) (y_file y)
    (y_late y) (y_closed y) (y_ln y) (y_sock y) (y_conns y) (y_serve y) (y_reqs y).
Definition set_server (y : sys) (closed ln sock : bool) : sys :=
  MkSys (y_agent y) (y_ctx y) (y_requested y) (y_done y) (y_forgot y) (y_joined y) (y_left y) (y_down y) (y_file y)
    (y_late y) closed ln sock (y_conns y) (y_serve y) (y_reqs y).
Definition set_serve (y : sys) (pc : servePC) : sys :=
  MkSys (y_agent y) (y_ctx y) (y_requested y) (y_done y) (y_forgot y) (y_joined y) (y_left y) (y_down y) (y_file y)
    (y_late y) (y_closed y) (y_ln y) (y_sock y) (y_conns y) pc (y_reqs y).
Definition set_reqs (y : sys) (conns : nat) (reqs : list reqPC) : sys :=
  MkSys (y_agent y) (y_ctx y) (y_requested y) (y_done y) (y_forgot y) (y_joined y) (y_left y) (y_down y) (y_file y)
    (y_late y) (y_closed y) (y_ln y) (y_sock y) conns (y_serve y) reqs.

Definition is_forgot (f : forgetting) : bool := match f with Forgot _ => true | _ => false end.

(** [saveState]: a failing one leaves the file as it is. *)
Definition saves (y : sys) (ok : bool) : sys :=
  MkSys (y_agent y) (y_ctx y) (y_requested y) (y_done y) (y_forgot y) (y_joined y) (y_left y) (y_down y) (y_file y || ok)
    (y_late y || is_forgot (y_forgot y)) (y_closed y) (y_ln y) (y_sock y) (y_conns y) (y_serve y) (y_reqs y).

(** ** Steps *)

Inductive agentStep : sys → sys → Prop :=
  | agent_joined y :
      y_agent y = AJoin → agentStep y (set_agent (set_joined y) ALoop)
  | agent_gives_up y :                        (* the retry ends with ctx only *)
      y_agent y = AJoin → y_ctx y = true → agentStep y (set_agent y (AStop false))
  | agent_stopped y :
      y_agent y = ALoop → y_ctx y = true → agentStep y (set_agent y (AStop true))
  | agent_leave y joined saved :              (* Leave saves the state *)
      y_agent y = AStop joined →
      agentStep y (set_agent (set_left (saves y saved)) (if joined then ATear else AForget))
  | agent_tear y ok :                         (* its error is returned, and a.forget still called *)
      y_agent y = ATear → agentStep y (set_agent (set_down y ok) AForget)
  | agent_forget_skip y :
      y_agent y = AForget → y_requested y = false →
      agentStep y (set_agent (set_forgot y Skipped (y_file y)) ADone)
  | agent_forget y :
      y_agent y = AForget → y_requested y = true →
      agentStep y (set_agent (set_forgot y (Forgot None) false) ADone)
  | agent_forget_fails y e :
      y_agent y = AForget → y_requested y = true → e ≠ [] →
      agentStep y (set_agent (set_forgot y (Forgot (Some e)) (y_file y)) ADone)
  | agent_done y :
      y_agent y = ADone → agentStep y (set_agent (set_done y) AClosing)
  | agent_closing y :
      y_agent y = AClosing → agentStep y (set_agent (set_server y true (y_ln y) (y_sock y)) AListener)
  | agent_listener y :
      y_agent y = AListener → agentStep y (set_agent (set_server y (y_closed y) false (y_sock y)) AConns)
  | agent_wait y :
      y_agent y = AConns → y_conns y = 0 → agentStep y (set_agent y ARemove)
  | agent_remove y :
      y_agent y = ARemove → agentStep y (set_agent (set_server y (y_closed y) (y_ln y) false) AExit).

(** [Server.serve]; [serve_accept] needs a client. *)
Inductive serveStep : sys → sys → Prop :=
  | serve_failed y :
      y_serve y = VAccept → y_ln y = false → serveStep y (set_serve y VEnd)
  | serve_track y :
      y_serve y = VTrack → y_closed y = false →
      serveStep y (set_serve (set_reqs y (y_conns y + 1) (QDecode :: y_reqs y)) VAccept)
  | serve_refuse y :
      y_serve y = VTrack → y_closed y = true → serveStep y (set_serve y VEnd).

Definition op_of (op : reqOp) : bytes :=
  match op with
  | OInvite => OpInvite | ORevoke => OpRevoke | OLeave _ => OpLeave | OOther => []
  end.

(** What a leave answers, with what forgetting ran into. *)
Definition leave_reply (f : forgetting) (res : LeaveResult) : Response :=
  match f with
  | Forgot (Some e) => error_response e
  | _ => MkResponse [] (lr_Identity res) (lr_Revoked res) (lr_Notified res) []
  end.

(** A request's next step; [None] ends it. *)
Inductive reqStep : sys → reqPC → sys → option reqPC → Prop :=
  | req_malformed y :                         (* or the deadline passes *)
      reqStep y QDecode y (Some (QReply OOther (error_response (str "malformed request"))))
  | req_decoded y op :
      reqStep y QDecode y (Some (QHandle op))
  | req_invite y resp :
      reqStep y (QHandle OInvite) y (Some (QReply OInvite resp))
  | req_other y e :
      reqStep y (QHandle OOther) y (Some (QReply OOther (error_response e)))
  | req_revoke_fails y e :
      reqStep y (QHandle ORevoke) y (Some (QReply ORevoke (error_response e)))
  | req_revoke y saved id :                   (* Cluster.Revoke saves the state *)
      reqStep y (QHandle ORevoke) (saves y saved) (Some (QReply ORevoke (MkResponse [] id false 0 [])))
  | req_stays y e :                           (* RevokeSelf fails *)
      e ≠ [] →
      reqStep y (QHandle (OLeave false)) y (Some (QReply (OLeave false) (error_response e)))
  | req_forced y id :
      reqStep y (QHandle (OLeave true)) y (Some (QStore (MkLeaveResult id false 0)))
  | req_leave y force saved id n :            (* RevokeSelf saves the state *)
      reqStep y (QHandle (OLeave force)) (saves y saved) (Some (QStore (MkLeaveResult id true n)))
  | req_store y res :
      reqStep y (QStore res) (set_requested y) (Some (QStop res))
  | req_stop y res :
      reqStep y (QStop res) (set_ctx y) (Some (QWait res))
  | req_done y force res :
      y_done y = true →
      reqStep y (QWait res) y (Some (QReply (OLeave force) (leave_reply (y_forgot y) res)))
  | req_reply y op resp :                     (* Encode, conn.Close, conns.Done *)
      reqStep y (QReply op resp) (set_reqs y (y_conns y - 1) (y_reqs y)) None.

(** Steps that need nobody from outside. *)
Inductive istep : sys → sys → Prop :=
  | i_agent y y' : agentStep y y' → istep y y'
  | i_serve y y' : serveStep y y' → istep y y'
  | i_req y l q r y' q' :
      y_reqs y = l ++ q :: r → reqStep y q y' q' →
      istep y (set_reqs y' (y_conns y') (l ++ option_list q' ++ r)).

Inductive ystep : sys → sys → Prop :=
  | y_internal y y' : istep y y' → ystep y y'
  | y_signal y : ystep y (set_ctx y)                       (* SIGTERM *)
  | y_save y saved :      (* the cluster's own: an admission, watch, and what memberlist
                             delivers, also during and after Leave, which does not wait for it *)
      y_agent y ≠ AExit → ystep y (saves y saved)
  | serve_accept y :                                       (* a client connects *)
      y_serve y = VAccept → y_ln y = true → ystep y (set_serve y VTrack).

(** After [control.Listen]. *)
Definition yinit (file : bool) : sys :=
  MkSys AJoin false false false NotYet false false None file false false true true 0 VAccept [].

Definition yreachable (file : bool) (y : sys) : Prop := rtc ystep (yinit file) y.
