(* ===== verification/LeavingProps.v ===== *)
(** * LeavingProps: what a leave request gets

    The invariant of the control server and the agent's shutdown, that the two
    never wait for each other for good, and what the answer to a leave says. *)

From S2P Require Import Prelude Identity Records GoNet Prog Enrol Cluster Control Leaving.

#[local] Open Scope nat_scope.

Implicit Types (y : sys).

(** How far the agent is. *)
Definition rank (pc : agentPC) : nat :=
  match pc with
  | AJoin => 0 | ALoop => 1 | AStop _ => 2 | ATear => 3 | AForget => 4 | ADone => 5
  | AClosing => 6 | AListener => 7 | AConns => 8 | ARemove => 9 | AExit => 10
  end.

(** What is known where a request is. *)
Definition req_ok y (q : reqPC) : Prop :=
  match q with
  | QStop _ => y_requested y = true
  | QWait _ => y_requested y = true ∧ y_ctx y = true
  | QReply (OLeave _) resp =>
      rs_Error resp = [] →
      y_requested y = true ∧ y_done y = true ∧ (y_forgot y = Forgot None ∨ y_forgot y = Skipped)
  | _ => True
  end.

(** Where the agent is says whether it got into its loop. *)
Definition joined_ok y : Prop :=
  match y_agent y with
  | AJoin => y_joined y = false
  | ALoop | ATear => y_joined y = true
  | AStop joined => y_joined y = joined
  | _ => True
  end.

Record linv y : Prop := {
  li_conns : y_conns y = length (y_reqs y);
  li_ctx : 2 ≤ rank (y_agent y) → y_ctx y = true;
  li_joined : joined_ok y;
  li_left : y_left y = (3 <=? rank (y_agent y));
  li_down : is_Some (y_down y) ↔ y_joined y = true ∧ 4 ≤ rank (y_agent y);
  li_forgot : y_forgot y = NotYet ↔ rank (y_agent y) ≤ 4;
  li_done : y_done y = (6 <=? rank (y_agent y));
  li_closed : y_closed y = (7 <=? rank (y_agent y));
  li_ln : y_ln y = negb (8 <=? rank (y_agent y));
  li_sock : y_sock y = negb (10 <=? rank (y_agent y));
  li_none : 9 ≤ rank (y_agent y) → y_reqs y = [];
  li_reqs : Forall (req_ok y) (y_reqs y);
  li_err : ∀ e, y_forgot y = Forgot (Some e) → e ≠ [];
  li_file : y_forgot y = Forgot None → y_late y = false → y_file y = false;
}.

(** Requests only depend on what does not come back. *)
Definition grows y y' : Prop :=
  (y_requested y = true → y_requested y' = true) ∧ (y_ctx y = true → y_ctx y' = true) ∧
  (y_done y = true → y_done y' = true ∧ y_forgot y' = y_forgot y).

Lemma req_ok_grows y y' q : grows y y' → req_ok y q → req_ok y' q.
Proof.
  intros (H1 & H2 & H3). destruct q as [| | | | |[| |force|] resp]; cbn; try tauto.
  intros H He. destruct (H He) as (? & Hd & ?). destruct (H3 Hd) as [? ->]. auto.
Qed.

Lemma reqs_grow y y' : grows y y' → Forall (req_ok y) (y_reqs y) → Forall (req_ok y') (y_reqs y).
Proof. intros Hg H. eapply Forall_impl; [exact H|]. intros q. by apply req_ok_grows. Qed.

Lemma agentStep_grows y y' : agentStep y y' → linv y → grows y y' ∧ y_reqs y' = y_reqs y.
Proof.
  intros Hs [Hc Hx Hj Hlf Hd Hf Hdn Hcl Hln Hsk Hn Hr He Hfl].
  destruct Hs; match goal with H : y_agent _ = _ |- _ => rewrite H in * end; cbn in *;
    (split; [|done]); split_and!; auto; congruence.
Qed.

Lemma agentStep_inv y y' : agentStep y y' → linv y → linv y'.
Proof.
  intros Hs Hi. destruct (agentStep_grows y y' Hs Hi) as [Hg Heq].
  pose proof (reqs_grow y y' Hg (li_reqs _ Hi)) as Hr'. rewrite <- Heq in Hr'.
  destruct Hi as [Hc Hx Hj Hlf Hd Hf Hdn Hcl Hln Hsk Hn Hr He Hfl]. unfold joined_ok in Hj.
  destruct Hs as [| | |y [] saved E|y ok E| | | | | | | |];
    match goal with H : y_agent _ = _ |- _ => rewrite H in * end; cbn in *.
  all: split; unfold joined_ok; cbn; auto; try lia; try (split; intros; first [done|lia|tauto]); try done.
  all: try (intros _; apply Hx; lia).
  all: try (rewrite Hd; split; intros [? ?]; split; (done || lia || congruence)).
  all: try (split; [intros ?%Hf; lia|intros; apply Hf; lia]).
  all: try (intros E'; by rewrite (proj2 Hf) in E' by lia).
  - by intros ? [= <-].
  - intros _. apply nil_length_inv. congruence.
Qed.

Lemma serveStep_inv y y' : serveStep y y' → linv y → linv y'.
Proof.
  destruct 1; intros [Hc Hx Hj Hlf Hd Hf Hdn Hcl Hln Hsk Hn Hr He Hfl]; split; cbn; auto; [lia| |].
  - intros H7. rewrite Hcl in *. match goal with H : _ = false |- _ => apply Nat.leb_gt in H end. lia.
  - by constructor.
Qed.

(** A request's own step. *)
Lemma reqStep_grows y q y' (q' : option reqPC) : reqStep y q y' q' → grows y y'.
Proof. destruct 1; split_and!; cbn; auto. Qed.

Lemma reqStep_ok y q y' (r : reqPC) : reqStep y q y' (Some r) → linv y → req_ok y q → req_ok y' r.
Proof.
  intros Hs Hi Hq. inversion Hs as [| | | | | | | | | | |? ? ? Hdone|]; subst; cbn in *; try done.
  destruct Hq as [Hreq Hctx]. intros He. split; [done|]. split; [done|].
  pose proof (li_done _ Hi) as Hd. rewrite Hdone in Hd. symmetry in Hd. apply Nat.leb_le in Hd.
  pose proof (li_forgot _ Hi) as Hf. pose proof (li_err _ Hi) as Herr.
  destruct (y_forgot y') as [| |[e|]]; cbn in He; [|tauto| |tauto].
  - assert (rank (y_agent y') ≤ 4) by (by apply Hf). lia.
  - by destruct (Herr e).
Qed.

Lemma reqStep_inv y l q r y' (q' : option reqPC) :
  y_reqs y = l ++ q :: r → reqStep y q y' q' → linv y →
  linv (set_reqs y' (y_conns y') (l ++ option_list q' ++ r)).
Proof.
  intros Hl Hs Hi. pose proof (reqStep_grows _ _ _ _ Hs) as Hg.
  assert (Hq : Forall (req_ok y') (l ++ option_list q' ++ r)).
  { pose proof (li_reqs _ Hi) as Hr. rewrite Hl in Hr.
    apply Forall_app in Hr as [H1 [H2 H3]%Forall_cons].
    repeat apply Forall_app_2; [eapply Forall_impl; [exact H1|]; intros ?; by apply req_ok_grows| |
      eapply Forall_impl; [exact H3|]; intros ?; by apply req_ok_grows].
    destruct q' as [q'|]; cbn; [|done]. constructor; [|done]. by eapply reqStep_ok. }
  assert (Hlen : y_conns y = S (length l + length r)).
  { rewrite (li_conns _ Hi), Hl, length_app. cbn. lia. }
  destruct Hi as [Hc Hx Hj Hlf Hd Hf Hdn Hcl Hln Hsk Hn Hr He Hfl].
  assert (Hn' : 9 ≤ rank (y_agent y) → False).
  { intros H7. rewrite Hn in Hl by done. by destruct l. }
  clear Hr Hn Hc Hl Hg.
  inversion Hs; subst; split; cbn -[Nat.leb]; auto; try (rewrite ?length_app; cbn; lia); try done.
  all: try (intros H7; by destruct Hn').
  all: intros Ef; rewrite Ef; cbn; by rewrite orb_true_r.
Qed.

Lemma istep_inv y y' : istep y y' → linv y → linv y'.
Proof.
  destruct 1; [by apply agentStep_inv|by apply serveStep_inv|]. intros Hi. by eapply reqStep_inv.
Qed.

Lemma ystep_inv y y' : ystep y y' → linv y → linv y'.
Proof.
  destruct 1 as [y y' Hs|y|y saved _|y]; [by apply istep_inv| | |].
  - intros Hi. assert (Forall (req_ok (set_ctx y)) (y_reqs y)) by (apply reqs_grow; [by repeat split|apply Hi]). destruct Hi; split; cbn; auto.
  - intros Hi. assert (Forall (req_ok (saves y saved)) (y_reqs y)) by (apply reqs_grow; [by repeat split|apply Hi]). destruct Hi; split; cbn; auto.
    intros E. rewrite E. cbn. by rewrite orb_true_r.
  - intros Hi. assert (Forall (req_ok (set_serve y VTrack)) (y_reqs y)) by (apply reqs_grow; [by repeat split|apply Hi]). destruct Hi; split; cbn; auto.
Qed.

Lemma yreachable_inv file y : yreachable file y → linv y.
Proof.
  intros Hr. assert (H0 : linv (yinit file)) by (split; cbn; auto; try done; try lia; split; [by intros [? ?]|intros [? ?]; lia|lia|done]).
  revert H0. induction Hr; eauto using ystep_inv.
Qed.

(** ** It ends *)

Definition req_work (q : reqPC) : nat :=
  match q with
  | QDecode => 6 | QHandle _ => 5 | QStore _ => 4 | QStop _ => 3 | QWait _ => 2 | QReply _ _ => 1
  end.
Definition serve_work (pc : servePC) : nat :=
  match pc with VAccept => 1 | VTrack => 8 | VEnd => 0 end.

(** A bound on the steps left, unless clients connect. *)
Definition work y : nat :=
  (10 - rank (y_agent y)) + sum_list (req_work <$> y_reqs y) + serve_work (y_serve y).

Lemma istep_work y y' : istep y y' → work y' < work y.
Proof.
  destruct 1 as [y y' Hs|y y' Hs|y l q r y' q' Hl Hs]; unfold work; cbn.
  - destruct Hs as [| | |y [] saved E| | | | | | | | |]; cbn; match goal with H : y_agent _ = _ |- _ => rewrite H end; cbn; lia.
  - destruct Hs; cbn; match goal with H : y_serve _ = _ |- _ => rewrite H end; cbn; lia.
  - rewrite Hl, !fmap_app.
    assert (Ha : y_agent y' = y_agent y ∧ y_serve y' = y_serve y) by (by destruct Hs).
    destruct Ha as [-> ->].
    assert (sum_list (req_work <$> option_list q') < req_work q) by (inversion Hs; subst; cbn; lia).
    assert (Happ : ∀ l1 l2, sum_list (l1 ++ l2) = sum_list l1 + sum_list l2).
    { induction l1 as [|x l1 IH]; intros l2; cbn; [done|]. rewrite IH. lia. }
    rewrite !Happ. cbn. lia.
Qed.

Lemma isteps_work n y y' : nsteps istep n y y' → n + work y' ≤ work y.
Proof. induction 1 as [|n y1 y2 y3 H%istep_work _ IH]; lia. Qed.

(** The agent has exited, every request is answered, the socket is gone. *)
Definition finished y : Prop := y_agent y = AExit ∧ y_reqs y = [] ∧ y_sock y = false.

(** Nothing that is left waits for anything that does not come. *)
Lemma req_moves y q : linv y → 6 ≤ rank (y_agent y) → ∃ y' q', reqStep y q y' q'.
Proof.
  intros Hi Hr. destruct q as [|[| |[]|]|res|res|res|op resp].
  - eexists _, _. apply req_malformed.
  - eexists _, _. apply (req_invite y (error_response [])).
  - eexists _, _. apply (req_revoke_fails y []).
  - eexists _, _. apply (req_forced y []).
  - eexists _, _. by apply (req_stays y (str "error")).
  - eexists _, _. apply (req_other y []).
  - eexists _, _. apply req_store.
  - eexists _, _. apply req_stop.
  - eexists _, _. apply (req_done y true). rewrite (li_done _ Hi). by apply Nat.leb_le.
  - eexists _, _. apply req_reply.
Qed.

Lemma progress y :
  linv y → y_ctx y = true → (∀ y', ¬ istep y y') → finished y.
Proof.
  intros Hi Hx Hstuck.
  assert (Ha : ∀ y', ¬ agentStep y y') by (intros y' H; by eapply Hstuck, i_agent).
  destruct (y_agent y) eqn:E.
  - by destruct (Ha _ (agent_joined y E)).
  - by destruct (Ha _ (agent_stopped y E Hx)).
  - by destruct (Ha _ (agent_leave y _ true E)).
  - by destruct (Ha _ (agent_tear y true E)).
  - destruct (y_requested y) eqn:Er.
    + by destruct (Ha _ (agent_forget y E Er)).
    + by destruct (Ha _ (agent_forget_skip y E Er)).
  - by destruct (Ha _ (agent_done y E)).
  - by destruct (Ha _ (agent_closing y E)).
  - by destruct (Ha _ (agent_listener y E)).
  - destruct (y_reqs y) as [|q r] eqn:El.
    + destruct (Ha _ (agent_wait y E ltac:(by rewrite (li_conns _ Hi), El))).
    + destruct (req_moves y q Hi ltac:(rewrite E; cbn; lia)) as (y' & q' & Hs).
      by destruct (Hstuck _ (i_req y [] q r y' q' El Hs)).
  - by destruct (Ha _ (agent_remove y E)).
  - split_and!; [done|apply (li_none _ Hi); rewrite E; cbn; lia|by rewrite (li_sock _ Hi), E].
Qed.

(** C14: an agent that has been told to stop, by a signal or by a leave request,
    exits, whatever requests are in flight and however it and they take turns:
    as long as no further client connects there are at most [work y] steps, and
    when there is none left the agent has exited, every request has been
    answered and the socket is gone. *)
Theorem leave_ends file y :
  yreachable file y → y_ctx y = true →
  (∀ n y', nsteps istep n y y' → n ≤ work y) ∧
  (∀ y', rtc istep y y' → (∀ y'', ¬ istep y' y'') → finished y').
Proof.
  intros Hr%yreachable_inv Hx. split; [intros n y' H%isteps_work; lia|].
  intros y' Hs Hstuck.
  assert (linv y' ∧ y_ctx y' = true) as [? ?]; [|by apply progress].
  clear Hstuck. induction Hs as [|y1 y2 y3 H12 _ IH]; [done|].
  apply IH; [by eapply istep_inv|].
  destruct H12 as [? ? H|? ? H|? ? ? ? ? ? _ H]; destruct H; cbn; auto.
Qed.

(** ** What the answer says *)

(** Asked for before the agent looks, a leave is not skipped. *)
Definition in_time y : Prop := y_requested y = true ∧ y_forgot y ≠ Skipped.

Lemma in_time_step y y' : ystep y y' → linv y → in_time y → in_time y'.
Proof.
  intros Hs Hi [Hr Hf]. unfold in_time.
  destruct Hs as [? ? [? ? H|? ? H|? ? ? ? ? ? _ H]|? |? |?]; try done; destruct H; try done.
  all: cbn; split; try done; congruence.
Qed.

(** C15: a leave that was requested before the agent came to look is carried out:
    if it is reported as done, the agent had left the cluster and removed the
    state file, which is still gone unless something saved the state again
    since; an agent that had got into its loop had taken the interface down, or
    tried to: whether that worked is not reported to the operator. An agent
    that was still joining had left the interface alone. *)
Theorem leave_forgets file y y' force resp :
  yreachable file y → y_requested y = true → y_forgot y = NotYet → rtc ystep y y' →
  QReply (OLeave force) resp ∈ y_reqs y' → rs_Error resp = [] →
  y_left y' = true ∧ y_forgot y' = Forgot None ∧ (y_late y' = false → y_file y' = false) ∧
  (is_Some (y_down y') ↔ y_joined y' = true).
Proof.
  intros Hr%yreachable_inv Hq Hf Hs Hin He.
  assert (linv y' ∧ in_time y') as [Hi' [_ Hns]].
  { assert (Ht : in_time y) by (split; [done|by rewrite Hf]). clear Hq Hf Hin.
    induction Hs; eauto using ystep_inv, in_time_step. }
  pose proof (li_reqs _ Hi') as Hreqs. rewrite Forall_forall in Hreqs.
  destruct (Hreqs _ Hin He) as (_ & Hd & [Hfor|?]); [|done].
  rewrite (li_done _ Hi') in Hd. apply Nat.leb_le in Hd. split_and!.
  - rewrite (li_left _ Hi'). apply Nat.leb_le. lia.
  - done.
  - by apply (li_file _ Hi').
  - rewrite (li_down _ Hi'). split; [by intros []|intros ?; split; [done|lia]].
Qed.

(** ** Examples *)

Lemma leave_ends_witness :
  yreachable true (set_ctx (yinit true)) ∧
  ∀ n y', nsteps istep n (set_ctx (yinit true)) y' → n ≤ 11.
Proof.
  assert (Hr : yreachable true (set_ctx (yinit true))) by apply rtc_once, y_signal.
  split; [exact Hr|]. exact (proj1 (leave_ends true _ Hr eq_refl)).
Defined.

Ltac agent_goes := eapply rtc_l; [apply y_internal, i_agent; constructor; done|]; cbn.
Ltac agent_leaves := eapply rtc_l; [apply y_internal, i_agent; eapply (agent_leave _ _ true); done|]; cbn.
Ltac agent_downs ok := eapply rtc_l; [apply y_internal, i_agent, (agent_tear _ ok); done|]; cbn.
Ltac client_connects :=
  eapply rtc_l; [by apply serve_accept|]; cbn;
  eapply rtc_l; [apply y_internal, i_serve; by apply serve_track|]; cbn.
Tactic Notation "request_goes" constr(l) constr(q) constr(r) uconstr(step) :=
  eapply rtc_l; [apply y_internal, (i_req _ l q r); [done|apply step]|]; cbn.

Definition bob_left : LeaveResult := MkLeaveResult (str "bob") true 2.
Definition bob_reply : Response := MkResponse [] (str "bob") true 2 [].

(** A leave request up to its setting of [requested]. *)
Definition asked : sys :=
  MkSys ALoop false true false NotYet true false None true false false true true 1 VAccept [QStop bob_left].

Lemma asked_reachable : yreachable true asked.
Proof.
  agent_goes.
  client_connects.
  request_goes (@nil reqPC) QDecode (@nil reqPC) (req_decoded _ (OLeave false)).
  request_goes (@nil reqPC) (QHandle (OLeave false)) (@nil reqPC) (req_leave _ false true (str "bob") 2).
  request_goes (@nil reqPC) (QStore bob_left) (@nil reqPC) req_store.
  apply rtc_refl.
Qed.

Lemma leave_forgets_witness :
  ∃ y', rtc ystep asked y' ∧ QReply (OLeave false) bob_reply ∈ y_reqs y' ∧ y_forgot y' = Forgot None.
Proof.
  assert (H : ∃ y', rtc ystep asked y' ∧ QReply (OLeave false) bob_reply ∈ y_reqs y').
  { eexists. split.
    - request_goes (@nil reqPC) (QStop bob_left) (@nil reqPC) req_stop.
      agent_goes. agent_leaves. agent_downs true.
      eapply rtc_l; [apply y_internal, i_agent, agent_forget; done|]; cbn. agent_goes.
      request_goes (@nil reqPC) (QWait bob_left) (@nil reqPC) (req_done _ false); [done|].
      apply rtc_refl.
    - left. }
  destruct H as (y' & Hs & Hin). exists y'. split; [exact Hs|]. split; [exact Hin|].
  destruct (leave_forgets true asked y' false bob_reply asked_reachable eq_refl eq_refl Hs Hin eq_refl)
    as (_ & H & _). exact H.
Defined.

(** Until the server is closed it takes requests, also after the state was
    forgotten: a revocation handled then saves the state again, and the node
    that has left keeps its state file. *)
Example revocation_after_leave :
  ∃ y, yreachable true y ∧ y_agent y = AExit ∧ y_forgot y = Forgot None ∧ y_file y = true.
Proof.
  eexists. split.
  - unfold yreachable. etransitivity; [apply asked_reachable|].
    request_goes (@nil reqPC) (QStop bob_left) (@nil reqPC) req_stop.
    client_connects.
    request_goes (@nil reqPC) QDecode [QWait bob_left] (req_decoded _ ORevoke).
    agent_goes. agent_leaves. agent_downs true.
    eapply rtc_l; [apply y_internal, i_agent, agent_forget; done|]; cbn. agent_goes.
    request_goes (@nil reqPC) (QHandle ORevoke) [QWait bob_left] (req_revoke _ true (str "cat")).
    agent_goes. agent_goes.
    request_goes (@nil reqPC) (QReply ORevoke (MkResponse [] (str "cat") false 0 [])) [QWait bob_left] req_reply.
    request_goes (@nil reqPC) (QWait bob_left) (@nil reqPC) (req_done _ false); [done|].
    request_goes (@nil reqPC) (QReply (OLeave false) bob_reply) (@nil reqPC) req_reply.
    agent_goes. agent_goes. apply rtc_refl.
  - done.
Qed.

(** A leave that comes while a signal already stops the agent can be reported
    as done although the state is kept: the agent had looked before. *)
Example leave_reported_state_kept :
  ∃ y, yreachable true y ∧ QReply (OLeave false) bob_reply ∈ y_reqs y ∧
    y_forgot y = Skipped ∧ y_file y = true.
Proof.
  eexists. split.
  - agent_goes. client_connects.
    request_goes (@nil reqPC) QDecode (@nil reqPC) (req_decoded _ (OLeave false)).
    eapply rtc_l; [apply y_signal|]; cbn.
    agent_goes. agent_leaves. agent_downs true.
    eapply rtc_l; [apply y_internal, i_agent, agent_forget_skip; done|]; cbn. agent_goes.
    request_goes (@nil reqPC) (QHandle (OLeave false)) (@nil reqPC) (req_leave _ false true (str "bob") 2).
    request_goes (@nil reqPC) (QStore bob_left) (@nil reqPC) req_store.
    request_goes (@nil reqPC) (QStop bob_left) (@nil reqPC) req_stop.
    request_goes (@nil reqPC) (QWait bob_left) (@nil reqPC) (req_done _ false); [done|].
    apply rtc_refl.
  - split; [left|done].
Qed.

(** A leave is reported as done although the interface could not be taken
    down. *)
Example leave_reported_interface_up :
  ∃ y, yreachable true y ∧ QReply (OLeave false) bob_reply ∈ y_reqs y ∧
    y_forgot y = Forgot None ∧ y_down y = Some false.
Proof.
  eexists. split.
  - unfold yreachable. etransitivity; [apply asked_reachable|].
    request_goes (@nil reqPC) (QStop bob_left) (@nil reqPC) req_stop.
    agent_goes. agent_leaves. agent_downs false.
    eapply rtc_l; [apply y_internal, i_agent, agent_forget; done|]; cbn. agent_goes.
    request_goes (@nil reqPC) (QWait bob_left) (@nil reqPC) (req_done _ false); [done|]. apply rtc_refl.
  - split; [left|done].
Qed.

(** So is one of an agent that is still joining, which does not touch the
    interface. *)
Example leave_while_joining_reported :
  ∃ y, yreachable true y ∧ QReply (OLeave false) bob_reply ∈ y_reqs y ∧
    y_forgot y = Forgot None ∧ y_down y = None.
Proof.
  eexists. split.
  - client_connects.
    request_goes (@nil reqPC) QDecode (@nil reqPC) (req_decoded _ (OLeave false)).
    request_goes (@nil reqPC) (QHandle (OLeave false)) (@nil reqPC) (req_leave _ false true (str "bob") 2).
    request_goes (@nil reqPC) (QStore bob_left) (@nil reqPC) req_store.
    request_goes (@nil reqPC) (QStop bob_left) (@nil reqPC) req_stop.
    eapply rtc_l; [apply y_internal, i_agent, agent_gives_up; done|]; cbn. agent_leaves.
    eapply rtc_l; [apply y_internal, i_agent, agent_forget; done|]; cbn. agent_goes.
    request_goes (@nil reqPC) (QWait bob_left) (@nil reqPC) (req_done _ false); [done|]. apply rtc_refl.
  - split; [left|done].
Qed.

(** A record that memberlist still delivers after the state was forgotten
    brings the state file back. *)
Example message_after_forgetting :
  ∃ y, yreachable true y ∧ y_agent y = AExit ∧ y_forgot y = Forgot None ∧ y_file y = true.
Proof.
  eexists. split.
  - unfold yreachable. etransitivity; [apply asked_reachable|].
    request_goes (@nil reqPC) (QStop bob_left) (@nil reqPC) req_stop.
    agent_goes. agent_leaves. agent_downs true.
    eapply rtc_l; [apply y_internal, i_agent, agent_forget; done|]; cbn.
    eapply rtc_l; [by apply (y_save _ true)|]; cbn. agent_goes.
    request_goes (@nil reqPC) (QWait bob_left) (@nil reqPC) (req_done _ false); [done|].
    request_goes (@nil reqPC) (QReply (OLeave false) bob_reply) (@nil reqPC) req_reply.
    agent_goes. agent_goes. agent_goes. agent_goes. apply rtc_refl.
  - done.
Qed.
