(* ===== verification/Start.v ===== *)
(** * Start: a node's cluster from its checks to its goroutines (internal/cluster/cluster.go, [New])

    What [New] does once its checks have passed, which Cluster models: it opens
    the transport, completes the enrolment server before the transport accepts
    anybody, creates the gossip with the transport and the bound port, and
    only then starts its goroutines and saves its state. *)

From S2P Require Import Prelude Netip Overlay Identity Records TrustSet Demo Validity Convergence Slots Membership.
From S2P Require Import State GoNet Cluster ClusterAdmit Tokens Prog Enrol Transport Tls Endpoints Joining.

(** Durations, in nanoseconds, and the sizes of the transport. *)
Definition handshakeTime : Z := 10 * 10 ^ 9.
Definition enrolStreamTime : Z := 10 * 10 ^ 9.
Definition idleTimeout : Z := 2 * 60 * 10 ^ 9.
Definition keepAlive : Z := 25 * 10 ^ 9.
Definition maxDatagram : Z := 1100.

(** [quic.Config] of the gossip listener and of its dials. *)
Record quicConfig := MkQuicConfig {
  qc_EnableDatagrams : bool;
  qc_MaxIdleTimeout : Z;
  qc_KeepAlivePeriod : Z;
  qc_HandshakeIdleTimeout : Z;
}.
Definition qconf : quicConfig := MkQuicConfig true idleTimeout keepAlive handshakeTime.

(** What [New] sets in the configuration of memberlist; the rest is the
    library's default for wide networks. *)
Record mlConfig := MkMlConfig {
  ml_Name : bytes;
  ml_AdvertiseAddr : bytes;
  ml_AdvertisePort : Z;
  ml_BindPort : Z;
  ml_UDPBufferSize : Z;
}.
Definition gossipConfig (name : bytes) (advertise : Addr) (port : Z) : mlConfig :=
  MkMlConfig name (Addr_String advertise) port port maxDatagram.

Section Start.
Context {quic : Quic} {ed : Ed25519} {x509 : X509} {maker : CertMaker} {sha : Sha256} {kdf : Kdf}.
Context {jm : Json recordMsg} {jmeta : Json Meta} {jr : Json trust_Records}.
Context {jh : Json hello} {jc : Json challenge} {jp : Json proof_msg} {ja : Json ack} {jw : Json Welcome}.
Local Open Scope prog_scope.

Inductive startE : Type → Type :=
  | InNet {X : Type} (e : netE X) : startE X                 (* newQUICTransport *)
  | BoundPort : startE Z                                     (* transport.port *)
  | SetEnrolSrv (srv : Server) : startE unit                 (* c.enrolSrv = *)
  | StartTransport : startE unit                             (* go t.accept() *)
  | CreateMemberlist (conf : mlConfig) : startE (result unit)
  | ShutdownTransport : startE unit
  | StoreMemberlist : startE unit
  | GoForwardEvents : startE unit
  | GoWatch : startE unit
  | Persist : startE unit.

Definition in_net {A} (p : prog netE A) : prog startE A := translate (@InNet) p.

(** [New]; [bind_] and [bindPort] are where the transport listens. *)
Definition startCluster (boot : Bootstrap) (net : Prefix) (local : Node) (o : order)
    (bind_ : bytes) (bindPort : Z) (advertise : Addr) (q : qstate) : prog startE (result Cluster) :=
  match New boot net local o with
  | Err e => Ret (Err e)
  | Ok c =>
      let*? _ := in_net (openTransport bind_ bindPort (c_id c) true q) in
      let* port := trigger BoundPort in
      let* _ := trigger (SetEnrolSrv (enrolSrv c advertise port)) in
      let* _ := trigger StartTransport in
      let* ml := trigger (CreateMemberlist (gossipConfig (n_Name local) advertise port)) in
      match ml with
      | Err _ =>
          let* _ := trigger ShutdownTransport in
          Ret (Err "creating memberlist")
      | Ok _ =>
          let* _ := trigger StoreMemberlist in
          let* _ := trigger GoForwardEvents in
          let* _ := trigger GoWatch in
          let* _ := trigger Persist in
          Ret (Ok c)
      end
  end.

(** ** What is running when it stops *)

Inductive part := PServer | PAccept | PGossip | PForward | PWatch.
#[export] Instance part_eq_dec : EqDecision part.
Proof. solve_decision. Defined.

(** The parts that are up after an event; shutting the transport down ends
    accepting. *)
Definition up_after (up : list part) (h : happened startE) : list part :=
  match h with
  | Ev e x => match e in startE X return X → list part with
              | SetEnrolSrv _ => λ _, PServer :: up
              | StartTransport => λ _, PAccept :: up
              | CreateMemberlist _ => λ r, if is_ok r then PGossip :: up else up
              | ShutdownTransport => λ _, filter (λ p, p ≠ PAccept) up
              | GoForwardEvents => λ _, PForward :: up
              | GoWatch => λ _, PWatch :: up
              | _ => λ _, up
              end x
  end.
Definition up (tr : list (happened startE)) : list part := foldl up_after [] tr.

Definition net_of (h : happened startE) : list (happened netE) :=
  match h with
  | Ev e x => match e in startE X return X → list (happened netE) with
              | InNet e => λ x, [Ev e x]
              | _ => λ _, []
              end x
  end.
Definition persists (h : happened startE) : nat :=
  match h with Ev e _ => match e with Persist => 1%nat | _ => O end end.

Lemma net_seen (tr : list (happened netE)) :
  map (seen_as (@InNet)) tr ≫= net_of = tr ∧ up (map (seen_as (@InNet)) tr) = [] ∧
  sum_list (map persists (map (seen_as (@InNet)) tr)) = O.
Proof.
  induction tr as [|[X e x] tr (IH1 & IH2 & IH3)]; [done|]. cbn. split_and!; [|exact IH2|exact IH3].
  f_equal. exact IH1.
Qed.

Lemma up_app tr1 tr2 : up (tr1 ++ tr2) = foldl up_after (up tr1) tr2.
Proof. apply foldl_app. Qed.

Lemma New_name boot net local o c : New boot net local o = Ok c → n_Name (c_local c) = n_Name local.
Proof.
  unfold New. destruct (Valid _ _) as [v s]. destruct v; [|done]. cbn [negb].
  destruct (assignedAddr _ _ _ _) as [[want|e] s']; [|done]. by case_bool_decide; [intros [= <-]|].
Qed.

(** Every run of [New]: it succeeds only with everything up and its state
    saved once, and the gossip is told to advertise exactly the address the
    enrolment server tells joiners to join; where it fails, nothing accepts
    connections any more, and no socket it opened is left but the one that
    shutting the transport down closes. *)
Theorem startCluster_spec boot net local o bind_ bindPort advertise q tr r :
  runs (startCluster boot net local o bind_ bindPort advertise q) tr r →
  match r with
  | Ok c =>
      New boot net local o = Ok c ∧ up tr = [PWatch; PForward; PGossip; PAccept; PServer] ∧
      sum_list (map persists tr) = 1%nat ∧ left_open [] (tr ≫= net_of) = [RSocket] ∧
      ∃ srv conf, Ev (SetEnrolSrv srv) () ∈ tr ∧ Ev (CreateMemberlist conf) (Ok ()) ∈ tr ∧
        srv_GossipAddr srv = JoinHostPort (ml_AdvertiseAddr conf) (Itoa (ml_AdvertisePort conf)) ∧
        ml_Name conf = n_Name (c_local c)
  | Err _ =>
      PAccept ∉ up tr ∧ PGossip ∉ up tr ∧ sum_list (map persists tr) = O ∧
      (left_open [] (tr ≫= net_of) = [] ∨ Ev ShutdownTransport () ∈ tr)
  end.
Proof.
  intros H. unfold startCluster in H.
  destruct (New boot net local o) as [c|e] eqn:En; [|destruct H as [-> <-]; cbn; split_and!; [by intros ?%elem_of_nil|by intros ?%elem_of_nil|done|by left]].
  apply runs_bind in H as (tr1 & t & tr2 & -> & (ntr & Hn & ->)%runs_translate & H).
  destruct (net_seen ntr) as (E1 & E2 & E3). pose proof (openTransport_clean _ _ _ _ _ _ _ Hn) as Hopen.
  rewrite up_app, E2, map_app, sum_list_with_app, E3, bind_app, E1.
  assert (Hname : n_Name (c_local c) = n_Name local) by (by apply New_name in En).
  destruct t as [t|e]; [|destruct H as [-> <-]; cbn; rewrite app_nil_r; split_and!; [by intros ?%elem_of_nil|by intros ?%elem_of_nil|done|by left]].
  run_events H; cbn; rewrite left_open_app, Hopen; cbn.
  - split_and!; [done..|].
    exists (enrolSrv c advertise x), (gossipConfig (n_Name local) advertise x). rewrite Hname.
    repeat match goal with x : () |- _ => destruct x end. set_solver.
  - repeat match goal with x : () |- _ => destruct x end.
    split_and!; [by intros [?|?%elem_of_nil]%elem_of_cons|by intros [?|?%elem_of_nil]%elem_of_cons|done|].
    right. apply elem_of_app. right. repeat first [left|right].
Qed.

(** Wherever it stops, the transport accepts connections only when the
    enrolment server they are handed to is in place. *)
Theorem accepts_with_server boot net local o bind_ bindPort advertise q tr :
  reaches (startCluster boot net local o bind_ bindPort advertise q) tr → PAccept ∈ up tr → PServer ∈ up tr.
Proof.
  intros H. unfold startCluster in H. destruct (New boot net local o) as [c|e]; [|rewrite H; by intros ?%elem_of_nil].
  apply reaches_bind in H as [H|(tr1 & t & tr2 & -> & (ntr & Hn & ->)%runs_translate & H)].
  - apply reaches_translate in H as (ntr & _ & ->). rewrite (proj1 (proj2 (net_seen ntr))). by intros ?%elem_of_nil.
  - rewrite up_app, (proj1 (proj2 (net_seen ntr))).
    destruct t as [t|e]; [|rewrite H; by intros ?%elem_of_nil].
    cbn [bind trigger reaches] in H.
    repeat match type of H with
      | _ ∨ _ => let x := fresh "x" in destruct H as [->|(x & ? & -> & H)]; [|cbn [bind trigger reaches] in H]
      | reaches (match ?x with Ok _ => _ | Err _ => _ end) _ => destruct x; cbn [bind trigger reaches] in H
      | _ = [] => rewrite H
      end; cbn; try set_solver.
Qed.
End Start.
