(* ===== verification/Accepted.v ===== *)
(** * Accepted: what the agent starts its cluster with, the cluster takes (internal/cli/agent.go, internal/cluster/cluster.go)

    [AgentCmd.Run] computes the node's overlay address from the slot in its
    saved records and hands it to [cluster.New], which computes the address
    from the record set and refuses a node that has another. *)

From S2P Require Import Prelude Netip Overlay Identity Records TrustSet Demo Validity Convergence Slots Membership.
From S2P Require Import State Cluster ClusterProps ClusterAdmit Joining GoNet GoStrings Prog Enrol Bind Wg Hosts Agent AgentProps AgentRun.

Section Accepted.
Context {ed : Ed25519}.

Lemma find_host_Ok k l h : find_host k l = Ok h → ∃ a, a ∈ l ∧ adm_Identity a = k ∧ adm_Host a = h.
Proof.
  induction l as [|a l IH]; cbn; [done|]. case_decide as Hk.
  - intros [= <-]. exists a. by split_and!; [left|..].
  - intros (b & Hb & ?)%IH. exists b. by split; [right|].
Qed.

(** The slot in saved records is the one the record set knows. *)
Lemma Host_known boot t h :
  set_wf t → b_Records boot = Records t → Host boot = Ok h →
  ∃ a, admissions t !! Public (b_Identity boot) = Some a ∧ adm_Host a = h.
Proof.
  unfold Host. intros Hw -> (a & Ha & <- & <-)%find_host_Ok. exists a. split; [|done].
  by apply (keyed_values adm_Identity (admissions t) _ (proj1 (set_wf_keys t Hw)) (sorted_adm_perm t)).
Qed.

(** The address computed from the saved records is the one the record set
    assigns, unless the node is no member or another has the stronger claim to
    its slot. *)
Lemma Host_assigned boot t h net addr o :
  set_wf t → b_Records boot = Records t → Host boot = Ok h → Addr_of net h = Some addr →
  assigned t net (Public (b_Identity boot)) o =
    if valid t (Public (b_Identity boot)) && negb (HostConflict t o (Public (b_Identity boot))).2 then Some addr else None.
Proof.
  intros Hw Hr Hh Ha. destruct (Host_known boot t h Hw Hr Hh) as (a & El & <-).
  unfold assigned. rewrite El. simpl. rewrite Ha. by destruct (valid _ _), (HostConflict _ _ _).2.
Qed.

(** [New] accepts exactly a node that the records assign its address. *)
Lemma New_iff boot t net local o :
  set_wf t → b_Records boot = Records t → b_Root boot = root t →
  (∃ c, New boot net local o = Ok c) ↔
    valid t (Public (b_Identity boot)) = true ∧
    assigned t net (Public (b_Identity boot)) o = Some (m_OverlayAddr (n_Meta local)).
Proof.
  intros Hw Hr Hroot.
  assert (Hs : (Merge (NewSet (b_Root boot)) (b_Records boot)).2 = forget t)
    by (rewrite Hr, Hroot, Merge_deliver; by apply deliver_own_records).
  assert (Hl : lookalike t (forget t)) by done. pose proof (forget_cache_ok t) as Hc.
  rewrite (lookalike_valid t (forget t)), (assigned_lookalike t (forget t)) by done. split.
  - intros [c H]. unfold New in H. rewrite Hs in H.
    pose proof (Valid_lookalike (forget t) (Public (b_Identity boot))) as L1.
    pose proof (Valid_answer (forget t) (Public (b_Identity boot)) Hc) as V1.
    pose proof (Valid_cache_ok (forget t) (Public (b_Identity boot)) Hc) as C1.
    destruct (Valid (forget t) (Public (b_Identity boot))) as [v s1]. simpl in L1, V1, C1. subst v.
    destruct (valid (forget t) (Public (b_Identity boot))) eqn:Ev; [|done]. split; [done|]. cbn [negb] in H.
    rewrite (assigned_lookalike (forget t) s1) by done. apply assignedAddr_assigned; [done|].
    destruct (assignedAddr s1 net (Public (b_Identity boot)) o) as [[want|e] s2]; [|done]. cbn [fst].
    destruct (bool_decide_reflect (want = m_OverlayAddr (n_Meta local))); [by subst|done].
  - intros [Hv Ha]. destruct (New_assigned boot net local o (forget t) _ Hs Hc Hv Ha eq_refl) as (c & H & _). by exists c.
Qed.

(** What [Run] starts the cluster with, [New] takes, whenever the records the
    node came to are those of a record set, as saved ones and a welcome's are:
    it refuses only a node that is not a member, or whose slot a member with a
    stronger claim has. The address is never in dispute. *)
Theorem Run_accepted s JoinKey now attempt inputs tr r net advertise local boot t o :
  runs (Run s JoinKey now attempt inputs) tr (Some r) →
  (net, advertise, local, boot) ∈ tr ≫= starts_with →
  set_wf t → b_Records boot = Records t → b_Root boot = root t →
  (∃ c, New boot net local o = Ok c) ↔
    valid t (Public (b_Identity boot)) = true ∧ (HostConflict t o (Public (b_Identity boot))).2 = false.
Proof.
  intros Hrun Hin Hw Hr Hroot. destruct (Run_starts_sound _ _ _ _ _ _ _ _ _ _ _ Hrun Hin) as (_ & _ & _ & _ & h & Hh & Ha).
  rewrite (New_iff boot t) by done. rewrite (Host_assigned boot t h net _ o Hw Hr Hh Ha).
  destruct (valid _ _), (HostConflict _ _ _).2; naive_solver.
Qed.

(** ** A new cluster *)

(** The set of a cluster its root has just started. *)
Definition fresh_set (id : Identity) (name : bytes) (now : Z) : TrustSet :=
  forget (set_admissions (NewSet (Public id)) {[Public id := SelfAdmit id name now]}).

Context {ok : Ed25519Ok}.

Lemma SelfAdmit_Validate id name now : name ≠ [] → adm_Validate (SelfAdmit id name now) = Ok ().
Proof.
  intros Hn. unfold adm_Validate. rewrite decide_False by done. cbn [adm_Host SelfAdmit]. change (rootHost =? 0) with false. cbn [negb].
  assert (Verify (adm_Admitter (SelfAdmit id name now)) (adm_signedBytes (SelfAdmit id name now))
    (adm_Signature (SelfAdmit id name now)) = true) as -> by apply Sign_Verify. done.
Qed.

Lemma fresh_set_added id name now :
  name ≠ [] → AddAdmission (NewSet (Public id)) (SelfAdmit id name now) = (Ok true, fresh_set id name now).
Proof.
  intros Hn. unfold AddAdmission. rewrite SelfAdmit_Validate by done. cbn.
  rewrite !bool_decide_eq_true_2 by done. done.
Qed.

Lemma fresh_set_wf id name now : name ≠ [] → set_wf (fresh_set id name now).
Proof.
  intros Hn. pose proof (AddAdmission_wf (NewSet (Public id)) (SelfAdmit id name now) (NewSet_wf _)) as H.
  by rewrite fresh_set_added in H.
Qed.

Lemma fresh_set_Records id name now : Records (fresh_set id name now) = MkRecords [SelfAdmit id name now] [].
Proof.
  unfold Records, fresh_set. cbn [admissions revocations forget set_admissions NewSet].
  rewrite map_to_list_singleton, map_to_list_empty. done.
Qed.

Lemma fresh_set_valid id name now : valid (fresh_set id name now) (Public id) = true.
Proof.
  unfold valid, walk_fuel. rewrite Nat.add_comm. cbn [Nat.add validAt]. rewrite decide_True by done.
  change (revocations (fresh_set id name now)) with (∅ : gmap PublicKey Revocation). by rewrite lookup_empty.
Qed.

(** A node that starts a cluster of its own is never refused by it: the slot
    of the root is the first, which every network with room has. *)
Theorem root_accepted boot nodeName now net local o h :
  nodeName ≠ [] → iteration (fresh_set (b_Identity boot) nodeName now) o →
  Host (InitRoot boot nodeName now) = Ok h → Addr_of net h = Some (m_OverlayAddr (n_Meta local)) →
  ∃ c, New (InitRoot boot nodeName now) net local o = Ok c.
Proof.
  intros Hn Ho Hh Ha. set (id := b_Identity boot) in *. set (t := fresh_set id nodeName now) in *.
  assert (Hr : b_Records (InitRoot boot nodeName now) = Records t) by (unfold t; by rewrite fresh_set_Records).
  apply (New_iff (InitRoot boot nodeName now) t); [by apply fresh_set_wf|done|done|].
  split; [apply fresh_set_valid|]. destruct (Host_known _ t h (fresh_set_wf _ _ _ Hn) Hr Hh) as (a & El & <-).
  change (Public (b_Identity (InitRoot boot nodeName now))) with (Public id) in *.
  assert (Hid : adm_Identity a = Public id) by by apply (set_wf_keys t (fresh_set_wf _ _ _ Hn)) in El.
  rewrite <-Hid. apply assigned_alone; [by apply fresh_set_wf|done|by rewrite Hid|rewrite Hid; apply fresh_set_valid| |done].
  intros b [Hb _] _. rewrite Hid. cbn in Hb. by apply lookup_singleton_Some in Hb as [<- _].
Qed.
End Accepted.
