(* ===== verification/ClusterDemo.v ===== *)
(** * ClusterDemo: the cluster theorems at a concrete node

    [bob]'s node in the cluster of Demo, with the records of Slots' [clash]:
    instances of the theorems about addresses, admissions and persistence. *)

From S2P Require Import Prelude Wire Netip Overlay Encoding Identity Records TrustSet Demo Convergence.
From S2P Require Import Validity Membership Slots Prog Tokens Enrol EnrolRun State GoNet Cluster ClusterProps ClusterAdmit Joining Control.
From S2P Require Import Listen Commands CommandsProps.

Section witness.
#[local] Existing Instance Toy.toy.
#[local] Existing Instance Toy.toy_ok.

Definition demo_net : Prefix := MkPrefix (A4 167772160) 8.
Definition all_keys_parse (b : bytes) : bool := true.

(** Codecs that know what these examples exchange. *)
Definition cat_meta : Meta :=
let ip := A4 167772163 in
MkMeta ip (str "wg") [] (key cat) (Sign cat (MetaDigest (str "cat") ip (str "wg") [])).
#[local] Instance json_meta : Json Meta := {|
json_Marshal m := Some (str "meta");
json_Unmarshal b := if decide (b = str "cat") then Some cat_meta else None;
|}.
Definition msg_dan : recordMsg := MkRecordMsg None (Some rev_dan).
#[local] Instance json_msg : Json recordMsg := {|
json_Marshal m := Some (str "record");
json_Unmarshal b := if decide (b = str "record") then Some msg_dan else None;
|}.
#[local] Instance json_records : Json trust_Records := {|
json_Marshal m := Some (str "records");
json_Unmarshal b := Some (Records after);
|}.

Definition demo_local : Node :=
MkNode (str "bob") (A4 3221225985) 7946 (MkMeta (A4 167772162) (str "wg") [] (key bob) []).
Definition demo_bob : Bootstrap := MkBootstrap bob (key ann) demo_net (Records clash) [].
Definition demo_order : order := map_to_list (admissions clash).
Definition demo_node : Cluster :=
MkCluster demo_local bob clash demo_net [] demo_bob [] false.

Lemma demo_net_good : good_prefix demo_net.
Proof. split; [|done]. split_and!; [simpl; lia|done|right; simpl; lia]. Qed.

Lemma clash_cache : cache_ok clash.
Proof. intros id Hid. assert (E : members clash = ∅) by (vm_compute; reflexivity). rewrite E in Hid. destruct (not_elem_of_empty id Hid). Qed.

Lemma demo_iteration : iteration clash demo_order.
Proof. unfold iteration, demo_order. reflexivity. Qed.

Definition hosts_typed_b (s : TrustSet) : bool :=
forallb (λ ka : PublicKey * Admission, (0 <=? adm_Host ka.2) && (adm_Host ka.2 <? 2 ^ 64)) (map_to_list (admissions s)).
Lemma hosts_typed_b_ok s : hosts_typed_b s = true → hosts_typed s.
Proof.
unfold hosts_typed_b. rewrite forallb_forall. intros Hh k a Ha.
apply elem_of_map_to_list, list_elem_of_In in Ha. specialize (Hh _ Ha). simpl in Hh.
unfold uint64_range. lia.
Qed.

Lemma clash_hosts : hosts_typed clash.
Proof. apply hosts_typed_b_ok. vm_compute. reflexivity. Qed.

Lemma assignedAddr_inj_witness :
(assignedAddr clash demo_net (key cat) demo_order).1 = Ok (A4 167772163) ∧
is_ok (assignedAddr clash demo_net (key eve) demo_order).1 = false ∧ key cat = key cat.
Proof.
assert (E : (assignedAddr clash demo_net (key cat) demo_order).1 = Ok (A4 167772163)) by (vm_compute; reflexivity).
split; [exact E|]. split; [vm_compute; reflexivity|].
apply (assignedAddr_inj clash demo_net (key cat) (key cat) demo_order demo_order (A4 167772163));
  [apply clash_ok|apply clash_cache|apply clash_hosts|apply demo_iteration|apply demo_iteration|apply demo_net_good|exact E|exact E].
Defined.

Definition demo_members : list mlNode :=
[MkMlNode (str "bob") [] 7946 []; MkMlNode (str "eve") [] 7946 (str "junk");
 MkMlNode (str "cat") [Byte.x0a; Byte.x00; Byte.x00; Byte.x07] 7946 (str "cat")].
Definition cat_node : Node := MkNode (str "cat") (A4 167772167) 7946 cat_meta.

Lemma snapshot_sound_witness :
(snapshot all_keys_parse demo_node demo_members demo_order).1 = [cat_node] ∧
valid clash (key cat) = true.
Proof.
assert (E : (snapshot all_keys_parse demo_node demo_members demo_order).1 = [cat_node]) by (vm_compute; reflexivity).
split; [exact E|].
assert (Hin : cat_node ∈ (snapshot all_keys_parse demo_node demo_members demo_order).1) by (rewrite E; left).
apply (snapshot_sound all_keys_parse demo_node demo_members demo_order cat_node cat_node);
  [apply clash_ok|apply clash_cache|apply clash_hosts|apply demo_iteration|apply demo_net_good|exact Hin|exact Hin].
Defined.

(** [bob] admits a newcomer. *)
Definition fay : Identity := Toy.node Byte.x0f.
Definition fay_adm : Admission := Admit bob (key fay) (str "fay") 5 300.
Abbreviation admitted_fay := (Cluster_admit demo_node (key fay) (str "fay") 300 demo_order demo_order).

#[local] Opaque Cluster_admit valid valid_at AddAdmission.

Lemma fay_unknown : unknown_joiner clash (key bob) (key fay).
Proof.
split.
- apply (bool_decide_unpack (key fay ≠ root clash)). vm_compute. exact I.
- apply (bool_decide_unpack (key bob ≠ key fay)). vm_compute. exact I.
- vm_compute. reflexivity.
- apply unmentioned_b_ok. vm_compute. reflexivity.
Qed.

Lemma admit_keeps_unique_witness :
∃ a recs c', admitted_fay = (Ok (a, recs), c') ∧ valid (c_set c') (key fay) = true.
Proof.
destruct admitted_fay as [[[a recs]|msg] c'] eqn:E.
- exists a, recs, c'. split; [reflexivity|].
  destruct (admit_keeps_unique demo_node (key fay) (str "fay") 300 demo_order demo_order a recs c'
    (proj1 clash_ok) clash_cache demo_iteration demo_iteration demo_net_good fay_unknown E) as (_ & _ & Hv).
  rewrite Hv.
  + vm_compute. reflexivity.
  + assert (En : admissions (c_set demo_node) !! key fay = None) by (vm_compute; reflexivity).
    rewrite En. discriminate.
- exfalso. assert (Eok : is_ok admitted_fay.1 = true) by (vm_compute; reflexivity).
  rewrite E in Eok. discriminate.
Defined.

Definition demo_server : Server := MkServer bob (key ann) (str "192.0.2.1:7946") false demo_net.

Lemma admit_welcome_holds_witness :
∃ a recs, admitted_fay.1 = Ok (a, recs) ∧ welcome_holds (key bob) (key fay) (the_welcome demo_server a recs).
Proof.
destruct admitted_fay as [[[a recs]|msg] c'] eqn:E.
- exists a, recs. split; [reflexivity|].
  apply (admit_welcome_holds demo_node (key fay) (str "fay") 300 demo_order demo_order a recs c' demo_server);
    [apply clash_ok|apply clash_cache|apply fay_unknown|vm_compute; reflexivity..|exact E].
- exfalso. assert (Eok : is_ok admitted_fay.1 = true) by (vm_compute; reflexivity).
  rewrite E in Eok. discriminate.
Defined.

Lemma demo_encodable : encodable.
Proof. intros m. discriminate. Qed.

(** [bob] takes in a revocation while it admits [fay]. *)
Definition meanwhile_cat (m : moment) : list arrival :=
  match m with BeforeAdd => [Notified (MkRecordMsg None (Some (Revoke ann (key cat) 290)))] | _ => [] end.

Definition demo_ops : list node_op :=
[Whole (OpNotify (str "record")); Admitting (key fay) (str "fay") 300 demo_order demo_order meanwhile_cat;
 Whole (ClusterAdmit.OpRevoke (key cat) 310); Whole (OpMergeRemote (str "records")); Whole (OpWatch demo_members demo_order);
 Whole (OpRevokeSelf 320 [])].

Lemma saved_state_is_current_witness :
∃ c st rest, New demo_bob demo_net demo_local demo_order = Ok c ∧
  c_saved (foldl (run_node_op all_keys_parse) c demo_ops) = st :: rest ∧
  (Merge (NewSet (default zeroKey (st_Root st))) (st_Records st)).2 =
    forget (c_set (foldl (run_node_op all_keys_parse) c demo_ops)).
Proof.
destruct (New demo_bob demo_net demo_local demo_order) as [c|msg] eqn:E.
- destruct (saved_state_is_current all_keys_parse demo_bob demo_net demo_local demo_order c demo_ops demo_encodable E)
    as (st & rest & Es & _ & Em).
  exists c, st, rest. split; [reflexivity|]. split; [exact Es|exact Em].
- exfalso. assert (Eok : is_ok (New demo_bob demo_net demo_local demo_order) = true) by (vm_compute; reflexivity).
  rewrite E in Eok. discriminate.
Defined.

Lemma node_well_formed_witness :
∃ c, New demo_bob demo_net demo_local demo_order = Ok c ∧
  cache_ok (c_set (foldl (run_node_op all_keys_parse) c demo_ops)).
Proof.
destruct (New demo_bob demo_net demo_local demo_order) as [c|msg] eqn:E.
- exists c. split; [reflexivity|].
  destruct (node_well_formed all_keys_parse demo_bob demo_net demo_local demo_order c demo_ops demo_encodable E)
    as (_ & _ & Hc). exact Hc.
- exfalso. assert (Eok : is_ok (New demo_bob demo_net demo_local demo_order) = true) by (vm_compute; reflexivity).
  rewrite E in Eok. discriminate.
Defined.

Lemma NotifyMsg_once_witness :
NotifyMsg (NotifyMsg demo_node (str "record")) (str "record") = NotifyMsg demo_node (str "record").
Proof.
destruct (NotifyMsg_once demo_node (str "record") demo_encodable) as [E|(m & msg & name & _ & _ & _ & _ & _ & E)];
  [rewrite !E; reflexivity|exact E].
Defined.
(** The operator of [bob]'s node revokes [cat] by name, then lets [bob] leave. *)
Definition saved_node : Cluster := saveState demo_node.

Lemma saved_node_ok : node_ok saved_node.
Proof. split; [apply clash_ok|apply clash_cache|done|done|by apply saveState_fresh]. Qed.

Lemma agentControl_Revoke_spec_witness :
  ∃ text c', agentControl_Revoke saved_node (str "cat") 310 demo_order = (Ok text, c') ∧
    is_Some (revocations (c_set c') !! key cat).
Proof.
  assert (Eok : (agentControl_Revoke saved_node (str "cat") 310 demo_order).1 = Ok (PublicKey_String (key cat)))
    by (vm_compute; reflexivity).
  pose proof (agentControl_Revoke_spec saved_node (str "cat") 310 demo_order saved_node_ok demo_iteration) as H.
  destruct (agentControl_Revoke saved_node (str "cat") 310 demo_order) as [[text|e] c']; [|discriminate].
  exists text, c'. split; [reflexivity|]. destruct H as (id & _ & _ & Hp & Hr & _).
  injection Eok as ->. rewrite parse_printed_key in Hp. by injection Hp as <-.
Defined.

Lemma leave_revokes_witness :
  ∃ l c', agentControl_Leave saved_node false 320 [(str "bob", true); (str "cat", true)] = (Ok l, c') ∧
    valid (c_set c') (key bob) = false.
Proof.
  destruct (leave_revokes saved_node false 320 [(str "bob", true); (str "cat", true)])
    as (l & c' & H1 & _ & H2 & _); [apply demo_encodable|apply saved_node_ok|by vm_compute|done|].
  exists l, c'. split; [exact H1|exact H2].
Defined.

(** [bob] leaves: [cat] takes the revocation, his own name is passed over. *)
#[local] Existing Instance ToyHash.toy_hash.
#[local] Instance no_state : Json state := {| json_Marshal _ := None; json_Unmarshal _ := None |}.

Definition bob_agent : agent := MkAgent saved_node NewTokenStore.
Definition bob_leaves (taken : bool) : met :=
MkMet 320 320 demo_order None [(str "bob", true); (str "cat", taken)] (Ok ()).
Definition leave_answer (taken : bool) : Response :=
(served (bob_leaves taken) (MkRequest OpLeave [] 0 [] false) bob_agent).1.

(** A run of the command against an agent that answers [resp]. *)
Definition asks_agent (resp : Response) : list (happened callE) :=
[Ev (DialUnix (str "bob.sock")) (Ok ()); Ev (SendRequest (MkRequest OpLeave [] 0 [] false)) (Ok ());
 Ev ReceiveResponse (Ok resp); Ev CloseConn ()].
Definition leave_screen (resp : Response) : list (happened commandE) :=
map (λ t, Ev (Calling (Stderr t)) ()) (report_notes (str "wg0") resp).

Lemma leave_runs resp : rs_Error resp = [] →
  runs (LeaveCmd_Run (str "wg0") (str "bob.sock") false) (map (seen_as (@Calling)) (asks_agent resp) ++ leave_screen resp) (Ok ()).
Proof.
  intros He. apply runs_bind. exists (map (seen_as (@Calling)) (asks_agent resp)), (CallOk resp), (leave_screen resp).
  split; [done|]. split.
  - apply runs_translate. exists (asks_agent resp). split; [|done].
    unfold Call, asks_agent. do 3 apply runs_step. rewrite decide_False by naive_solver. by apply runs_step.
  - unfold report, leave_screen, report_notes.
    destruct (rs_Revoked resp && (0 <? rs_Notified resp)); [|destruct (rs_Revoked resp)]; repeat apply runs_step; done.
Qed.

Lemma leave_end_to_end_witness :
  ∃ text a', ParsePublicKey text = Ok (key bob) ∧
    served (bob_leaves false) (MkRequest OpLeave [] 0 [] false) bob_agent = (leave_answer false, a') ∧
    valid (c_set (ag_cluster a')) (key bob) = false ∧
    still_trusted text ++ newline ∈ screen (map (seen_as (@Calling)) (asks_agent (leave_answer false)) ++ leave_screen (leave_answer false)).
Proof.
  set (resp := leave_answer false).
  destruct (served (bob_leaves false) (MkRequest OpLeave [] 0 [] false) bob_agent) as [resp' a'] eqn:Es.
  assert (resp' = resp) as -> by (unfold resp, leave_answer; rewrite Es; reflexivity).
  assert (He : rs_Error resp = []) by (vm_compute; reflexivity).
  destruct (leave_end_to_end (str "wg0") (str "bob.sock") false (bob_leaves false) bob_agent resp a'
    (map (seen_as (@Calling)) (asks_agent resp) ++ leave_screen resp) (Ok ()))
    as (_ & Hv & _ & Htext).
  - apply demo_encodable.
  - apply saved_node_ok.
  - vm_compute. reflexivity.
  - done.
  - done.
  - exact Es.
  - apply leave_runs, He.
  - vm_compute. reflexivity.
  - destruct (Htext eq_refl) as (text & Hp & Ht). exists text, a'. split; [exact Hp|]. split; [reflexivity|].
    split; [exact Hv|]. apply Ht. vm_compute. reflexivity.
Defined.

(** [fay] joins through [bob], with a token that has two uses. *)
#[local] Existing Instance toy_kdf.

Definition fay_tokens : gmap tokenID token := (Mint 0 1000 2 (Some demo_key) NewTokenStore).2.
Definition fay_nJ : bytes := replicate nonceLen Byte.x6a.
Definition fay_nM : bytes := replicate nonceLen Byte.x6d.
Definition fay_boot : Bootstrap := MkBootstrap fay zeroKey zeroPrefix (MkRecords [] []) [].
Definition bob_server : Server := enrolSrv saved_node (A4 3221225985) 7946.
Abbreviation fay_admitted := (Cluster_admit saved_node (key fay) (str "fay") 300 demo_order demo_order).
Abbreviation bob_side := (member_side saved_node fay_tokens 300 fay_nM demo_order demo_order).
Abbreviation fay_side := (joiner_side 300 fay_nJ).
Definition fay_welcome : Welcome :=
  match fay_admitted.1 with Ok (a, recs) => the_welcome bob_server a recs | Err _ => refusal [] end.

#[local] Instance fay_jh : Json hello := one_message (run_hello fay_side fay demo_key (str "fay")) (str "hello").
#[local] Instance fay_jc : Json challenge :=
  one_message (run_challenge bob_server bob_side fay_side fay demo_key (str "fay")) (str "challenge").
#[local] Instance fay_jp : Json proof_msg :=
  one_message (run_proof bob_server bob_side fay_side fay demo_key (str "fay")) (str "proof").
#[local] Instance fay_ja : Json ack := one_message MkAck (str "{}").
#[local] Instance fay_jw : Json Welcome := {|
  json_Marshal w := if decide (w = fay_welcome) then Some (str "welcome") else Some (str "probe");
  json_Unmarshal b := if decide (b = str "welcome") then Some fay_welcome else None;
|}.

Lemma fay_ready : ready saved_node fay_tokens 300 demo_key (MkToken demo_key 1000 2) (key fay) demo_order demo_order.
Proof.
  split; [apply saved_node_ok|apply demo_net_good| | | |apply fay_unknown| |apply demo_iteration..|].
  - apply (bool_decide_unpack (root clash ≠ zeroKey)). vm_compute. exact I.
  - vm_compute. reflexivity.
  - vm_compute. reflexivity.
  - vm_compute. reflexivity.
  - split_and!; vm_compute; reflexivity.
Qed.

Lemma honest_join_witness :
  ∃ j' m', link 3 (Join (key bob) demo_tok fay (str "fay")) fay_side (Enrol.handle bob_server (key fay)) bob_side =
    ((Ret (Ok (fay_welcome, key bob)), j'), (Ret (Ok ()), m')).
Proof.
  destruct fay_admitted as [[[a recs]|msg] c'] eqn:E.
  2: { exfalso. assert (Eok : is_ok fay_admitted.1 = true) by (vm_compute; reflexivity).
       rewrite E in Eok. discriminate. }
  assert (Ew : fay_welcome = the_welcome bob_server a recs) by (unfold fay_welcome; by rewrite E).
  destruct (honest_join all_keys_parse saved_node c' a recs fay_tokens 300 fay_nM fay_nJ demo_order demo_order
    (A4 3221225985) 7946 demo_tok demo_key (MkToken demo_key 1000 2) fay (str "fay") fay_boot) as [H _].
  - exact fay_ready.
  - vm_compute. reflexivity.
  - vm_compute. reflexivity.
  - discriminate.
  - vm_compute. reflexivity.
  - vm_compute. reflexivity.
  - reflexivity.
  - exact E.
  - unfold probe_fits. cbv zeta. cbn [json_Marshal fay_jw].
    case_decide; eexists; (split; [reflexivity|vm_compute; discriminate]).
  - apply one_message_sendable. vm_compute. discriminate.
  - apply one_message_sendable. vm_compute. discriminate.
  - apply one_message_sendable. vm_compute. discriminate.
  - change (sendable (the_welcome bob_server a recs)). rewrite <- Ew.
    exists (str "welcome"). split_and!; [|vm_compute; discriminate|]; cbn; by rewrite decide_True.
  - apply one_message_sendable. vm_compute. discriminate.
  - destruct H as (j' & m' & H & _). exists j', m'. rewrite Ew. exact H.
Defined.
End witness.
